(* ===== verification/_CoqProject ===== *)
-Q . S2P
Prelude.v
Keys.v
Effects.v
Redis.v
LuaScripts.v
RedisRules.v
Queue.v
Ops.v
Refine.v
Fields.v
Streams.v
Logs.v
Invariants.v
Machine.v
System.v
RedisRef.v
Demo.v
Safety.v
Operations.v
Json.v
Py.v
Models.v
Config.v
Transitions.v
Registry.v
Handlers.v
Reaper.v
Client.v
World.v
Names.v
Metrics.v
Worker.v
Legal.v
Coroutines.v
Host.v
Slots.v
Attempts.v
Sweep.v
Builtin.v
Tables.v
Analysis.v
Random.v
Mix.v
Faults.v
Schedule.v
Verifier.v
Verdicts.v
Logging.v
Bench.v
Cli.v
Texts.v
Shell.v
Argparse.v
Session.v
Driver.v
Loadgen.v
Offered.v
Judged.v
Aws.v
Billing.v
Topology.v
Chaos.v
Trial.v
Drain.v
LocalBench.v
LocalRuns.v
Labels.v
Plots.v
Reports.v
ChaosTable.v
CastText.v
AwsMain.v
Pipelining.v
Charts.v
Flags.v
