(* ===== verification/Prelude.v ===== *)
(** * ftq: a verification library for the fault-tolerant task queue

    ftq is an at-least-once job queue on Redis, written in Python, whose state changes
    are Lua scripts. Producers enqueue jobs; workers take them from a stream under a
    lease, run a handler and commit; a reaper hands the entries of dead workers to live
    ones; failed jobs wait in a delayed set or end in a dead-letter queue. The promise is
    that no accepted job is lost and that each finishes once, whatever crashes, stalls,
    duplicated deliveries and lost replies happen. This library models the program and
    proves that promise, from the scripts up to the worker's coroutines.

    ** How the parts fit

    The library has four layers. Each is proved against the one below, never against
    concrete data.

    - The server. [Redis] lists the commands the code sends and their documented
      behaviour as a relation ([doc]); any server that meets it ([RedisServer]) will do.
      [RedisRef] is one, executable, so that nothing proved is vacuous. [RedisRules] are
      the reasoning rules.
    - The scripts. [LuaScripts] translates src/ftq/scripts, one program per file.
      [Queue] says what the keys of a queue mean (the coupling [rep] between a Redis
      view and an abstract queue), [Ops] what each script promises (one total function
      on queues), [Refine] proves that the scripts keep the promise.
    - The system. [Invariants] is the invariant of the abstract queue, with its parts in
      [Fields] (the flat fields of an entry), [Streams] (entries and leases) and [Logs]
      (records and append-only logs). [Machine] runs the operations in any order,
      [System] runs the scripts on Redis in any order and is simulated by it. [Safety]
      and [Operations] read the results back on the Redis keys; [Demo] is a concrete
      run, at which the theorems are instantiated.
    - The Python code. A coroutine is a program ([Effects]) over the effects of [Py]:
      requests, clock, sleep, tasks, cancellation, the object's own state. [World] says
      what may happen around a coroutine: any steps of the system by anybody else, lost
      replies, repeated requests, cancellation, the process's death at any effect.
      [Legal] and [Coroutines] show that all the Python code ever does is steps of the
      system, so every theorem about reachable states holds of any run of it.

    ** Files and the code they model

    - [Keys]: src/ftq/keys.py. [LuaScripts]: src/ftq/scripts/*.lua.
    - [Json], [Models]: src/ftq/models.py and the part of Python's json it uses.
    - [Config]: src/ftq/config.py. [Names]: the names queue entries carry.
    - [Transitions]: src/ftq/transitions.py, scheduler.py and ledger.py.
    - [Registry]: src/ftq/registry.py and backoff.py. [Handlers], [Builtin]: the
      built-in handlers, src/ftq/handlers.
    - [Reaper], [Sweep]: src/ftq/reaper.py and dlq.py. [Client]: src/ftq/client.py.
    - [Metrics]: src/ftq/metrics.py. [Logging]: src/ftq/logs.py. [Cli]: src/ftq/cli.py.
      [Bench]: src/ftq/bench.py.
    - [Worker]: src/ftq/worker.py; [Host] is the specification of the event loop around
      one of its coroutines (what its other tasks may do meanwhile), [Slots] and
      [Attempts] prove what the fetch loop and one delivery do.
    - [Tables]: Python's round, dictionaries and Counter. [Analysis]: bench/analysis.py.
      [Random]: random.Random as a range of draws. [Mix]: chaos/mix.py. [Faults],
      [Schedule]: chaos/faults.py. [Verifier], [Verdicts]: chaos/verifier.py.
    - [Texts]: the text and base64 operations of Python's standard library that the
      tools use. [Shell]: a tool as a program that runs commands on a host, with the
      ways it can stop.
    - [Topology]: chaos/topology.py and toxiproxy.py. [Chaos], [Trial], [Drain]:
      chaos/run.py, its producer and its wait for an empty queue. [ChaosTable]:
      chaos/summary.py. [CastText]: chaos/cast_text.py.
    - [Session], [Driver], [AwsMain]: deploy/bench.py, the AWS and the local backend, the
      session over them and the command line. [Aws], [Billing]: deploy/aws.py.
    - [Loadgen], [Offered], [Judged], [Reports]: bench/loadgen.py, its producers, its
      several hosts, its report and the report's JSON. [LocalBench], [LocalRuns],
      [Labels]: bench/run.py. [Plots]: what bench/plot.py selects from the reports;
      [Charts]: what its charts show. [Pipelining]: bench/pipelining.py.
    - [Argparse]: Python's argparse on a table of options. [Flags]: the tables and the
      [_args] of bench/loadgen.py, bench/run.py, chaos/run.py, deploy/bench.py and
      bench/plot.py, a module for each.

    The tools meet in files and on command lines. [Flags] composes what the two drivers write
    for the load generator with its argument parser. [Reports] composes the load generator's report, the local
    driver's annotation and the charts' reader; [ChaosTable] the verifier's report, the
    chaos run's and the table's reader; [Driver] the report a container prints and the
    driver that reads its log.

    ** What the theorems show

    - Safety of the system, in every reachable state and from every interleaving: no
      accepted job is lost, results and effects are recorded exactly once, the
      dead-letter stream is exactly the dead jobs, no entry is stuck, a success is
      final, the counters agree with the records, a drained queue has finished
      everything ([Safety]).
    - Each script, on every branch: admission and its hysteresis, resends, first-wins
      commits, stale holders refused, retry, dead-lettering, requeueing, the
      scheduler's conservation, the reaper, pruning ([Operations]).
    - The Python code refines the system ([Coroutines]); one delivery sends at most one
      transition, the right one, and a handler's timeout is a true one ([Attempts]); a
      worker holds no more than its slots ([Slots]); the dead-letter sweep ends and
      empties the queue ([Sweep]); a producer's answers and counters are what the server
      said, and block mode gives up in time ([Client]); the snapshot is exact
      ([Metrics]).
    - Data: job and JSON round trips, keys of two queues never collide, the settings
      that are accepted, and that under them no record expires while a copy of its job
      can still be delivered ([Models], [Config]); the registry and the retry delay
      ([Registry]); what the built-in handlers may do ([Builtin]).
    - The tools that judge a run: percentiles ([Analysis]), the job mix ([Mix]), the
      fault schedule ([Schedule]), and the verifier, whose verdicts pass exactly when
      the keys say so ([Verdicts]).
    - A chaos run: a job is on record as accepted only when its enqueue call returned
      ([accepted_means_answered]); the wait for an empty queue ends, and says drained only
      of a finished one ([drained_means_finished]); a timeout of a job that may hang is
      not counted as false ([hang_not_false_timeout]); a saved report's row shows the
      verifier's verdicts ([chaos_row_exact]).
    - The benchmarks: the report that a load generator prints survives the container's
      log stream, also after a run that was cut short; an AWS call is never sent twice
      unless it only reads; a session flushes before every point and takes its points in
      order ([Driver]); a local session's stack is taken down however it ends
      ([local_session_down]). A producer's books balance at every step ([Offered]), and a
      report says exactly-once if and only if the data it was built from does ([Judged]).
      Every command line of the load generator is read, every value of its type, or refused
      ([loadgen_arguments_checked]); what the drivers write is read as the run they mean
      ([session_understood], [local_points_understood]).
      A local benchmark runs every point on a fresh stack and exits by the verdicts
      ([local_benchmark_judged]), its points have files of their own ([points_apart]), and
      what it saves is what the charts show ([report_charted]). Runs fall into sessions
      ([sessions_exact]), a rolling mean stays in range ([rolling_mean_bounded]), the
      throughput chart has a dot for each run of up to four sessions and no other
      ([scaling_chart_exact]), and the bars of the concurrency chart reach from the slowest run
      to the fastest ([bars_exact]). A
      measurement deletes its queue's keys ([queue_left_clean]).
    - The AWS account: the estimate adds up ([estimate_total]) and the final check says
      clean exactly when nothing billable is left ([verify_clean_exact]).

    ** Conventions, bounds and assumptions

    - Python integers and Redis counters are [Z]; Lua numbers are the integers the
      scripts convert; the 64-bit limit of Redis counters is not reached and not
      modelled. Floats are exact rationals ([Q], [Qc] in [Tables]): what rounding to 53
      bits would change is outside, except where the code rounds by itself.
    - Loops that may run for ever take fuel, one unit per turn; [None] or [inl] is the
      answer "still running". Where a loop ends, a theorem gives enough fuel
      ([plan_sound], [requeue_all_empties], [enqueue_many_terminates],
      [handler_wait_ends], [verifier_verdicts]); where it is meant to run for ever
      (fetch, heartbeat, maintenance), the theorems hold at any fuel.
    - Records of finished jobs expire after T ms (done_ttl_seconds; [None] keeps them).
      Where a theorem is about a job's record for ever, T is [None], as in chaos runs;
      [ttl_outlasts_redeliveries] is the bound for the others.
    - Job ids are what uuid4().hex prints ([uuid_like]); consumer names, queue names
      and handlers are arbitrary, handlers within what [World.ok] asks ([Builtin] shows
      that the built-in ones keep it).
    - Code outside src/ is a parameter: the Redis server, cjson, uuid4, the SHA-256
      function, float printing, texts of library exceptions, time stamps, random draws
      (within their documented range), and in [Host] the event loop's other tasks,
      which keep the guarantee each task of the worker is proved to keep.

    ** Not modelled

    - Pure plumbing: src/ftq/lua.py (reads script files), [make_redis] (connection
      options), __main__.py, logs.configure, the initialisation of pool children.
    - The arguments of the ftq command (typer), of deploy/aws.py (subcommands) and of
      bench/pipelining.py: these commands start from their parsed arguments. The texts that
      argparse prints.
    - The style of the charts: colours, markers, fonts, where texts and legends stand, the kind
      of scale. bench/lease_starvation.py, which
      drives the test suite's helpers. The Terraform files.
    - The schedule of asyncio's event loop inside the tools: a task is started, awaited or
      cancelled as an effect, and its coroutine is modelled as the task's body. The worker's
      own tasks are interleaved, see [World] and [Host].
    - The gzip class, the indented JSON printer and the text of a float are parameters.
    - Log lines, except what [Logging] formats and the summary of a chaos run; Redis
      persistence and replication; memory limits of the server. *)
From Stdlib Require Export Ascii.
From stdpp Require Export prelude gmap strings pretty list fin_maps sorting.
From Stdlib Require Export QArith Qround Qminmax.
From Stdlib Require Import Lia.

#[global] Open Scope list_scope.
#[global] Open Scope Z_scope.

(** The hint database of the development. *)
Create HintDb ftq discriminated.

(** Membership in a list that is written out. *)
Ltac listed := apply list_elem_of_In; cbn [In]; repeat first [left; reflexivity|right].

(** ** Results: Python exceptions and Redis error replies are values *)
Inductive result (E A : Type) : Type :=
  | Ok (a : A)
  | Err (e : E).
Arguments Ok {E A} a.
Arguments Err {E A} e.

Definition is_ok {E A} (r : result E A) : bool :=
  match r with Ok _ => true | Err _ => false end.

Definition of_ok {E A} (r : result E A) : option A :=
  match r with Ok a => Some a | Err _ => None end.

(** An exception passes through what would use the value. *)
Definition and_then {E A B} (r : result E A) (f : A -> result E B) : result E B :=
  match r with Ok a => f a | Err e => Err e end.
Notation "x <-! r ;; q" := (and_then r (fun x => q))
  (at level 100, r at next level, right associativity).

#[export] Instance result_eq_dec {E A} `{EqDecision E} `{EqDecision A} :
  EqDecision (result E A).
Proof. solve_decision. Defined.

(** ** Decimal text of integers: [str(n)] in Python, [string.format('%d', n)]
    in Lua, and the two parsers *)
Definition str_of_Z (z : Z) : string := pretty z.

Definition digit_val (c : Ascii.ascii) : option Z :=
  let n := Z.of_N (Ascii.N_of_ascii c) in
  if (48 <=? n) && (n <=? 57) then Some (n - 48) else None.

(** [digits s acc]: the value of a string of digits, [acc] being the value of
    the digits read before; [None] if any character is not a digit. *)
Fixpoint digits (s : string) (acc : Z) : option Z :=
  match s with
  | EmptyString => Some acc
  | String c s' =>
      match digit_val c with
      | Some d => digits s' (10 * acc + d)
      | None => None
      end
  end.

Definition nat_of_str (s : string) : option Z :=
  match s with EmptyString => None | _ => digits s 0 end.

(** The strict parser: an optional minus sign, then digits. Redis integer
    fields and the script arguments that Lua's [tonumber] reads. *)
Definition int_of_str (s : string) : option Z :=
  match s with
  | String "-"%char s' => Z.opp <$> nat_of_str s'
  | _ => nat_of_str s
  end.

Lemma digit_val_pretty (x : N) :
  (x < 10)%N -> digit_val (pretty_N_char x) = Some (Z.of_N x).
Proof.
  intros Hx. assert (Hc : (x = 0 \/ x = 1 \/ x = 2 \/ x = 3 \/ x = 4 \/ x = 5 \/
    x = 6 \/ x = 7 \/ x = 8 \/ x = 9)%N) by lia.
  by repeat (destruct Hc as [->|Hc]); [..|subst].
Qed.

Lemma digits_pretty_go (x : N) : forall s,
  (0 < x)%N -> digits (pretty_N_go x s) 0 = digits s (Z.of_N x).
Proof.
  induction x as [x IH] using (well_founded_induction N.lt_wf_0); intros s Hx.
  rewrite pretty_N_go_step by done.
  assert (Hm : (x `mod` 10 < 10)%N) by (apply N.mod_lt; done).
  assert (Hd : (x = 10 * (x `div` 10) + x `mod` 10)%N) by (apply N.div_mod; done).
  destruct (decide (x `div` 10 = 0)%N) as [Hz|Hnz].
  - rewrite Hz, pretty_N_go_0. cbn [digits].
    rewrite digit_val_pretty by done. f_equal. lia.
  - rewrite IH; [|apply N.div_lt; lia|lia]. cbn [digits].
    rewrite digit_val_pretty by done. f_equal. lia.
Qed.

Lemma digits_pretty_N (x : N) : digits (pretty x) 0 = Some (Z.of_N x).
Proof.
  unfold pretty, pretty_N. case_decide as Hx; [by subst|].
  by rewrite digits_pretty_go by lia.
Qed.

Lemma pretty_N_go_nonempty (x : N) s : s <> ""%string -> pretty_N_go x s <> ""%string.
Proof.
  revert s. induction x as [x IH] using (well_founded_induction N.lt_wf_0); intros s Hs.
  destruct (decide (x = 0)%N) as [->|Hx]; [by rewrite pretty_N_go_0|].
  rewrite pretty_N_go_step by lia. apply IH; [apply N.div_lt; lia|done].
Qed.

Lemma pretty_N_cons (x : N) :
  exists c s, pretty x = String c s /\ is_Some (digit_val c).
Proof.
  pose proof (digits_pretty_N x) as Hd.
  assert (pretty x <> ""%string) as Hne.
  { unfold pretty, pretty_N. case_decide as Hx; [done|].
    rewrite pretty_N_go_step by lia. by apply pretty_N_go_nonempty. }
  destruct (pretty x) as [|c s]; [done|]. exists c, s. split; [done|].
  cbn in Hd. destruct (digit_val c); [by eexists|done].
Qed.

Lemma nat_of_str_pretty (x : N) : nat_of_str (pretty x) = Some (Z.of_N x).
Proof.
  destruct (pretty_N_cons x) as (c & s & Heq & _).
  rewrite <- digits_pretty_N, Heq. done.
Qed.

Lemma int_of_str_pretty_N (x : N) : int_of_str (pretty x) = Some (Z.of_N x).
Proof.
  rewrite <- nat_of_str_pretty.
  destruct (pretty_N_cons x) as (c & s & Heq & [d Hd]). rewrite Heq.
  destruct c as [[] [] [] [] [] [] [] []]; try done; by cbn in Hd.
Qed.

(** Parsing the decimal text of an integer gives the integer back. *)
Lemma int_of_str_of_Z (z : Z) : int_of_str (str_of_Z z) = Some z.
Proof.
  unfold str_of_Z, pretty, pretty_Z. destruct z as [|p|p]; [done| |].
  - change (pretty p) with (pretty (N.pos p)). apply int_of_str_pretty_N.
  - change (Z.opp <$> nat_of_str (pretty (N.pos p)) = Some (Z.neg p)).
    by rewrite nat_of_str_pretty.
Qed.

Lemma str_of_Z_inj (a b : Z) : str_of_Z a = str_of_Z b -> a = b.
Proof.
  intros H. pose proof (int_of_str_of_Z a) as Ha.
  rewrite H, int_of_str_of_Z in Ha. by simplify_eq.
Qed.

(** ** Lists *)
Lemma filter_all {A} (P : A -> Prop) `{!forall x, Decision (P x)} l :
  Forall P l -> filter P l = l.
Proof.
  induction 1 as [|a l Ha _ IH]; [done|]. by rewrite filter_cons_True, IH by done.
Qed.

Lemma length_filter_split {A} (P : A -> Prop) `{!forall x, Decision (P x)} l :
  (length (filter P l) + length (filter (fun x => ~ P x) l) = length l)%nat.
Proof.
  induction l as [|a l IH]; [done|]. rewrite !filter_cons.
  repeat case_decide; try tauto; cbn [length]; lia.
Qed.
