(* ===== verification/Keys.v ===== *)
(** Redis key names of one queue (src/ftq/keys.py).

    [Keys.t] is the dataclass; one definition per property or method. [qkey]
    names the same keys as data, so that "two keys differ" is decided on
    constructors: [render_inj] says the rendering is injective inside one queue
    and [keys_disjoint] that two queues never share a key. *)
From S2P Require Import Prelude.

#[local] Open Scope string_scope.

(** ** The dataclass *)
Module Keys.
Record t := mk { queue : string }.

#[export] Instance t_eq_dec : EqDecision t.
Proof. solve_decision. Defined.

Definition prefix (k : t) : string := "ftq:{" +:+ queue k +:+ "}".
Definition stream (k : t) : string := prefix k +:+ ":stream".
Definition delayed (k : t) : string := prefix k +:+ ":delayed".
Definition dead (k : t) : string := prefix k +:+ ":dead".
Definition results (k : t) : string := prefix k +:+ ":results".
Definition effects (k : t) : string := prefix k +:+ ":effects".
Definition full (k : t) : string := prefix k +:+ ":full".
Definition reclaims (k : t) : string := prefix k +:+ ":reclaims".
Definition stats (k : t) : string := prefix k +:+ ":stats".
Definition done (k : t) (job_id : string) : string :=
  prefix k +:+ ":done:" +:+ job_id.
Definition idem (k : t) (idempotency_key : string) : string :=
  prefix k +:+ ":idem:" +:+ idempotency_key.
Definition ledger (k : t) (effect_key : string) : string :=
  prefix k +:+ ":ledger:" +:+ effect_key.
End Keys.

(** ** The same names as data *)
Inductive qkey : Type :=
  | KStream | KDelayed | KDead | KResults | KEffects | KFull | KReclaims | KStats
  | KDone (job_id : string)
  | KIdem (idempotency_key : string)
  | KLedger (effect_key : string).

#[export] Instance qkey_eq_dec : EqDecision qkey.
Proof. solve_decision. Defined.

Definition suffix (a : qkey) : string :=
  match a with
  | KStream => ":stream" | KDelayed => ":delayed" | KDead => ":dead"
  | KResults => ":results" | KEffects => ":effects" | KFull => ":full"
  | KReclaims => ":reclaims" | KStats => ":stats"
  | KDone j => ":done:" +:+ j
  | KIdem i => ":idem:" +:+ i
  | KLedger e => ":ledger:" +:+ e
  end.

Definition render (k : Keys.t) (a : qkey) : string := Keys.prefix k +:+ suffix a.

Lemma suffix_inj (a b : qkey) : suffix a = suffix b -> a = b.
Proof. destruct a, b; cbn; intros H; simplify_eq; done. Qed.

(** Inside one queue no two kinds of key, and no two jobs, idempotency keys or
    effects, share a Redis key. *)
Lemma render_inj (k : Keys.t) (a b : qkey) : render k a = render k b -> a = b.
Proof. intros H. apply suffix_inj. by apply (inj (String.append (Keys.prefix k))) in H. Qed.

Lemma render_ne (k : Keys.t) (a b : qkey) : a <> b -> render k a <> render k b.
Proof. intros Hne H. by apply Hne, (render_inj k). Qed.

#[export] Hint Resolve render_ne : ftq.

(** ** Two queues *)
Fixpoint no_char (c : ascii) (s : string) : bool :=
  match s with
  | EmptyString => true
  | String d s' => negb (Ascii.eqb c d) && no_char c s'
  end.

Lemma no_char_split (c : ascii) (s1 : string) : forall s2 r1 r2,
  no_char c s1 = true -> no_char c s2 = true ->
  s1 +:+ String c r1 = s2 +:+ String c r2 -> s1 = s2 /\ r1 = r2.
Proof.
  induction s1 as [|d s1 IH]; intros [|e s2] r1 r2 H1 H2 H; cbn in *; simplify_eq.
  - done.
  - by rewrite Ascii.eqb_refl in H2.
  - by rewrite Ascii.eqb_refl in H1.
  - apply andb_prop in H1 as [_ H1], H2 as [_ H2].
    destruct (IH s2 r1 r2) as [-> ->]; done.
Qed.

Lemma append_assoc (a b c : string) : (a +:+ b) +:+ c = a +:+ (b +:+ c).
Proof. induction a as [|x a IH]; [done|]. cbv [String.append]. fold String.append. by rewrite IH. Qed.

(** Queues whose names hold no closing brace (which [Settings] enforces) never
    share a key: what one queue's scripts write, another's never read. *)
Lemma keys_disjoint (k1 k2 : Keys.t) (a b : qkey) :
  no_char "}" (Keys.queue k1) = true -> no_char "}" (Keys.queue k2) = true ->
  render k1 a = render k2 b -> k1 = k2 /\ a = b.
Proof.
  unfold render, Keys.prefix. rewrite !append_assoc. cbn.
  intros H1 H2 H. simplify_eq.
  destruct (no_char_split "}" (Keys.queue k1) (Keys.queue k2) (suffix a) (suffix b))
    as [Hq Hs]; [done..|].
  destruct k1, k2; cbn in *; subst. split; [done|by apply suffix_inj].
Qed.
