(* ===== verification/Effects.v ===== *)
(** Programs over an outside world.

    [prog C E A] is a program that calls commands [C X] (an X-valued request to
    something outside the program), may stop with an error [E], and returns an
    [A]: Lua scripts calling Redis, and Python coroutines awaiting Redis, the
    clock, sleeps and random numbers. A command answers with a [result], and the
    continuation sees it, so [try_catch] models Python's [try/except].

    Two readings: [run] executes a program against a concrete world (a handler
    function), and [wp] is the weakest precondition against a specification of
    the world, a relation saying what each command may answer. [wp_run] joins
    them: what is proved by [wp] holds for every world that meets the
    specification. *)
From S2P Require Import Prelude.

Inductive prog (C : Type -> Type) (E A : Type) : Type :=
  | Ret (a : A)
  | Raise (e : E)
  | Vis {X : Type} (c : C X) (k : result E X -> prog C E A).
Arguments Ret {C E A} a.
Arguments Raise {C E A} e.
Arguments Vis {C E A X} c k.

Section Programs.
Context {C : Type -> Type} {E : Type}.

Fixpoint bind {A B} (p : prog C E A) (f : A -> prog C E B) : prog C E B :=
  match p with
  | Ret a => f a
  | Raise e => Raise e
  | Vis c k => Vis c (fun r => bind (k r) f)
  end.

(** A command as a program: its error is raised. *)
Definition call {X} (c : C X) : prog C E X :=
  Vis c (fun r => match r with Ok x => Ret x | Err e => Raise e end).

(** [try: p except e: h e] *)
Fixpoint try_catch {A} (p : prog C E A) (h : E -> prog C E A) : prog C E A :=
  match p with
  | Ret a => Ret a
  | Raise e => h e
  | Vis c k => Vis c (fun r => try_catch (k r) h)
  end.

(** [for x in l: s = f(x, s)] *)
Fixpoint for_each {A S} (l : list A) (f : A -> S -> prog C E S) (s : S) :
    prog C E S :=
  match l with
  | [] => Ret s
  | x :: l' => bind (f x s) (fun s' => for_each l' f s')
  end.

(** ** Execution against a handler *)
Section Run.
Context {W : Type} (handle : forall X, C X -> W -> result E X * W).

Fixpoint run {A} (p : prog C E A) (w : W) : result E A * W :=
  match p with
  | Ret a => (Ok a, w)
  | Raise e => (Err e, w)
  | Vis c k => let '(r, w') := handle _ c w in run (k r) w'
  end.

Lemma run_bind {A B} (p : prog C E A) (f : A -> prog C E B) w :
  run (bind p f) w =
    match run p w with
    | (Ok a, w') => run (f a) w'
    | (Err e, w') => (Err e, w')
    end.
Proof.
  revert w. induction p as [a|e|X c k IH]; intros w; cbn; [done|done|].
  destruct (handle X c w) as [r w']. apply IH.
Qed.
End Run.

(** ** Reasoning against a specification of the world *)
Section Wp.
Context {V : Type} (spec : forall X, C X -> V -> result E X -> V -> Prop).

(** [runs p v r v']: some execution that the specification allows takes [v]
    to [v'] with outcome [r]. *)
Fixpoint runs {A} (p : prog C E A) (v : V) (r : result E A) (v' : V) : Prop :=
  match p with
  | Ret a => r = Ok a /\ v' = v
  | Raise e => r = Err e /\ v' = v
  | Vis c k => exists x v1, spec _ c v x v1 /\ runs (k x) v1 r v'
  end.

(** [wp p v Q]: every execution that the specification allows from [v] ends
    in an outcome and state of [Q]. *)
Fixpoint wp {A} (p : prog C E A) (v : V) (Q : result E A -> V -> Prop) : Prop :=
  match p with
  | Ret a => Q (Ok a) v
  | Raise e => Q (Err e) v
  | Vis c k => forall x v1, spec _ c v x v1 -> wp (k x) v1 Q
  end.

Lemma wp_runs {A} (p : prog C E A) v r v' Q :
  wp p v Q -> runs p v r v' -> Q r v'.
Proof.
  revert v. induction p as [a|e|X c k IH]; intros v; cbn.
  - by intros ? [-> ->].
  - by intros ? [-> ->].
  - intros Hwp (x & v1 & Hs & Hr). eapply IH; [by apply Hwp|done].
Qed.

Lemma runs_wp {A} (p : prog C E A) v Q :
  (forall r v', runs p v r v' -> Q r v') -> wp p v Q.
Proof.
  revert v. induction p as [a|e|X c k IH]; intros v H; cbn.
  - by apply H.
  - by apply H.
  - intros x v1 Hs. apply IH. intros r v' Hr. apply H. cbn. eauto.
Qed.

Lemma wp_mono {A} (p : prog C E A) v (Q Q' : result E A -> V -> Prop) :
  wp p v Q -> (forall r v', Q r v' -> Q' r v') -> wp p v Q'.
Proof.
  revert v. induction p as [a|e|X c k IH]; intros v Hwp HQ; cbn in *; eauto.
Qed.

Lemma wp_ret {A} (a : A) v (Q : result E A -> V -> Prop) : Q (Ok a) v -> wp (Ret a) v Q.
Proof. done. Qed.

Lemma wp_bind {A B} (p : prog C E A) (f : A -> prog C E B) v Q :
  wp p v (fun r v' => match r with Ok a => wp (f a) v' Q | Err e => Q (Err e) v' end) ->
  wp (bind p f) v Q.
Proof. revert v. induction p as [a|e|X c k IH]; intros v; cbn; eauto. Qed.

Lemma wp_call {X B} (c : C X) (f : X -> prog C E B) v Q :
  (forall r v1, spec X c v r v1 ->
     match r with Ok x => wp (f x) v1 Q | Err e => Q (Err e) v1 end) ->
  wp (bind (call c) f) v Q.
Proof. cbn. intros H [x|e] v1 Hs; cbn; by apply H in Hs. Qed.

(** A world is a handler function on its own state [W] seen through [view];
    it meets the specification when every answer is one it allows. *)
Context {W : Type} (view : W -> V).
Context (handle : forall X, C X -> W -> result E X * W).
Hypothesis handle_ok : forall X (c : C X) w,
  spec X c (view w) (fst (handle X c w)) (view (snd (handle X c w))).

Lemma runs_run {A} (p : prog C E A) w :
  runs p (view w) (fst (run handle p w)) (view (snd (run handle p w))).
Proof using handle_ok.
  revert w. induction p as [a|e|X c k IH]; intros w; cbn; [done|done|].
  pose proof (handle_ok X c w) as Hok.
  destruct (handle X c w) as [r w'] eqn:Hh; cbn in Hok.
  exists r, (view w'). by split.
Qed.

Lemma wp_run {A} (p : prog C E A) w Q :
  wp p (view w) Q -> Q (fst (run handle p w)) (view (snd (run handle p w))).
Proof using handle_ok. intros H. eapply wp_runs; [exact H|apply runs_run]. Qed.
End Wp.
End Programs.

Declare Scope prog_scope.
Delimit Scope prog_scope with prog.
Notation "x <- p ;; q" := (bind p (fun x => q))
  (at level 100, p at next level, right associativity) : prog_scope.
Notation "p ;;; q" := (bind p (fun _ => q))
  (at level 100, right associativity) : prog_scope.
