(* ===== verification/Redis.v ===== *)
(** The Redis server, as the code relies on it.

    Redis is not part of the repository: it is a parameter of the model. [cmd]
    lists the commands the Lua scripts and the Python code send, [rview] is what
    a client can observe of the key space, and [doc c v r v'] states the
    documented behaviour of command [c]: from view [v] it may answer [r] and
    leave view [v']. A [RedisServer] is any state and command handler that meets
    [doc]; scripts are proved against [doc] and so hold for every such server.
    The file RedisRef.v gives one concrete server, so [doc] is satisfiable.

    What [doc] leaves open is what Redis leaves open: the id an XADD [*] picks
    (only that it is above every earlier one), which slice of the pending list
    one XAUTOCLAIM pass scans, the order of XINFO CONSUMERS. Counters are
    unbounded integers (Redis: 64-bit). *)
From S2P Require Import Prelude Effects.

#[local] Open Scope Z_scope.

(** ** Entry ids: milliseconds and sequence, ordered lexicographically *)
Abbreviation eid := (Z * Z)%type.

Definition eid_lt (a b : eid) : Prop :=
  a.1 < b.1 \/ (a.1 = b.1 /\ a.2 < b.2).
Definition eid_le (a b : eid) : Prop := eid_lt a b \/ a = b.

#[export] Instance eid_lt_dec a b : Decision (eid_lt a b).
Proof. unfold eid_lt. apply _. Defined.
#[export] Instance eid_le_dec a b : Decision (eid_le a b).
Proof. unfold eid_le. apply _. Defined.

Ltac eid_solve :=
  unfold eid_le, eid_lt in *;
  repeat match goal with x : eid |- _ => destruct x; cbn in * end;
  repeat match goal with H : _ \/ _ |- _ => destruct H | H : _ /\ _ |- _ => destruct H end;
  simplify_eq; try tauto; try lia.

Lemma eid_lt_irrefl a : ~ eid_lt a a.
Proof. unfold eid_lt. lia. Qed.
Lemma eid_lt_trans a b c : eid_lt a b -> eid_lt b c -> eid_lt a c.
Proof. unfold eid_lt. lia. Qed.
Lemma eid_le_lt_trans a b c : eid_le a b -> eid_lt b c -> eid_lt a c.
Proof. intros [H| ->]; [by apply eid_lt_trans|done]. Qed.
Lemma eid_lt_le a b : eid_lt a b -> eid_le a b.
Proof. by left. Qed.
Lemma eid_le_refl a : eid_le a a.
Proof. by right. Qed.
Lemma eid_le_trans a b c : eid_le a b -> eid_le b c -> eid_le a c.
Proof. intros [H1| ->] [H2|<-]; unfold eid_le; eauto using eid_lt_trans. Qed.
Lemma eid_le_antisym a b : eid_le a b -> eid_le b a -> a = b.
Proof.
  intros [H1| ->] [H2|]; try done. exfalso. by eapply eid_lt_irrefl, eid_lt_trans.
Qed.
Lemma eid_lt_not_le a b : eid_lt a b <-> ~ eid_le b a.
Proof.
  unfold eid_le, eid_lt. destruct a, b; cbn. split.
  - intros H [H'|H']; [lia|]. simplify_eq. lia.
  - intros H. destruct (decide (z = z1)) as [->|]; [|lia].
    destruct (decide (z0 = z2)) as [->|]; [naive_solver|lia].
Qed.

(** The ids XADD may pick for a stream whose highest id is [last]. *)
Definition fresh_id (last i : eid) : Prop :=
  eid_lt last i /\ 0 <= i.1 /\ 0 <= i.2.

(** One of them. *)
Definition next_id (last : eid) : eid := (Z.max 0 (last.1 + 1), 0).
Lemma next_id_fresh last : fresh_id last (next_id last).
Proof. unfold fresh_id, next_id, eid_lt. cbn. lia. Qed.

(** The text form [<ms>-<seq>], which scripts store in hash fields. *)
Definition str_of_eid (i : eid) : string := str_of_Z i.1 +:+ "-" +:+ str_of_Z i.2.

Fixpoint split_dash (s : string) : option (string * string) :=
  match s with
  | EmptyString => None
  | String "-"%char r => Some (EmptyString, r)
  | String c r => '(a, b) ← split_dash r; Some (String c a, b)
  end.

Definition eid_of_str (s : string) : option eid :=
  '(a, b) ← split_dash s; x ← nat_of_str a; y ← nat_of_str b; Some (x, y).

Lemma split_dash_digits (s : string) : forall acc z r,
  digits s acc = Some z -> split_dash (s +:+ String "-" r) = Some (s, r).
Proof.
  induction s as [|c s IH]; intros acc z r Hd; [done|].
  cbn in Hd. destruct (digit_val c) eqn:Hc; [|done]. apply (IH _ _ r) in Hd.
  change (String c s +:+ String "-" r) with (String c (s +:+ String "-" r)).
  cbn [split_dash]. rewrite Hd.
  by destruct c as [[] [] [] [] [] [] [] []].
Qed.

Lemma str_of_Z_nonneg (z : Z) : 0 <= z ->
  nat_of_str (str_of_Z z) = Some z /\ exists a, digits (str_of_Z z) a = Some z.
Proof.
  intros Hz. assert (H : str_of_Z z = pretty (Z.to_N z)).
  { destruct z as [|p|p]; [done|done|lia]. }
  rewrite H, nat_of_str_pretty. split; [f_equal; lia|]. exists 0.
  rewrite digits_pretty_N. f_equal. lia.
Qed.

(** An id Redis picked reads back from its text. *)
Lemma eid_of_str_of_eid (i : eid) :
  0 <= i.1 -> 0 <= i.2 -> eid_of_str (str_of_eid i) = Some i.
Proof.
  intros H1 H2. unfold eid_of_str, str_of_eid.
  destruct (str_of_Z_nonneg _ H1) as [Ha [a Hd]], (str_of_Z_nonneg _ H2) as [Hb _].
  change ("-" +:+ str_of_Z i.2) with (String "-" (str_of_Z i.2)).
  rewrite (split_dash_digits _ _ _ _ Hd). cbn [mbind option_bind].
  rewrite Ha. cbn [mbind option_bind]. rewrite Hb. by destruct i.
Qed.

(** ** The key space *)
Record lease := Lease {
  owner : string;       (* the consumer the entry is delivered to *)
  since_ms : Z;         (* when: idle time is [now - since_ms] *)
  deliveries : Z;       (* the delivery counter *)
}.

Record group := Group {
  last_delivered : eid;
  pel : gmap eid lease;                (* the Pending Entries List *)
  consumers : gmap string Z;           (* consumer -> when it was last seen, ms *)
}.

(** A stream: entries oldest first, each a flat name, value, name, value, ...
    list; the highest id ever used; its consumer groups. *)
Record stream := Stream {
  entries : list (eid * list string);
  last_id : eid;
  groups : gmap string group;
}.

Definition empty_stream : stream := Stream [] (0, 0) ∅.

Inductive rvalue : Type :=
  | RStr (s : string)
  | RHash (h : gmap string string)
  | RZset (z : gmap string Z)          (* member -> score *)
  | RStream (s : stream).

(** A key holds a value and possibly a deadline (ms) after which it is gone. *)
Record rview := View {
  keyspace : gmap string (rvalue * option Z);
  now_us : Z;
}.

Definition now_ms (v : rview) : Z := now_us v `div` 1000.

Definition alive (v : rview) (dl : option Z) : bool :=
  match dl with None => true | Some t => now_ms v <? t end.

(** The live value at a key. *)
Definition look (k : string) (v : rview) : option rvalue :=
  match keyspace v !! k with
  | Some (x, dl) => if alive v dl then Some x else None
  | None => None
  end.

(** The deadline of a live key. *)
Definition deadline (k : string) (v : rview) : option Z :=
  match keyspace v !! k with
  | Some (_, dl) => if alive v dl then dl else None
  | None => None
  end.

(** Write a key with a new deadline; modify it keeping its deadline; delete it. *)
Definition put (k : string) (x : rvalue) (dl : option Z) (v : rview) : rview :=
  View (<[k := (x, dl)]> (keyspace v)) (now_us v).
Definition modify (k : string) (x : rvalue) (v : rview) : rview :=
  put k x (deadline k v) v.
Definition remove (k : string) (v : rview) : rview :=
  View (delete k (keyspace v)) (now_us v).

(** The value of a key as one type: an absent key reads as empty, a key of
    another type as [None] (Redis answers WRONGTYPE). *)
Definition get_hash (k : string) (v : rview) : option (gmap string string) :=
  match look k v with None => Some ∅ | Some (RHash h) => Some h | _ => None end.
Definition get_zset (k : string) (v : rview) : option (gmap string Z) :=
  match look k v with None => Some ∅ | Some (RZset z) => Some z | _ => None end.
Definition get_stream (k : string) (v : rview) : option stream :=
  match look k v with None => Some empty_stream | Some (RStream s) => Some s | _ => None end.
Definition get_str (k : string) (v : rview) : option (option string) :=
  match look k v with None => Some None | Some (RStr s) => Some (Some s) | _ => None end.

(** ** Stream helpers *)
Definition set_entries (es : list (eid * list string)) (s : stream) : stream :=
  Stream es (last_id s) (groups s).
Definition set_group (g : string) (x : group) (s : stream) : stream :=
  Stream (entries s) (last_id s) (<[g := x]> (groups s)).
Definition set_pel (p : gmap eid lease) (x : group) : group :=
  Group (last_delivered x) p (consumers x).
Definition seen (c : string) (t : Z) (x : group) : group :=
  Group (last_delivered x) (pel x) (<[c := t]> (consumers x)).

(** XADD: append under a fresh id. *)
Definition s_add (i : eid) (fs : list string) (s : stream) : stream :=
  Stream (entries s ++ [(i, fs)]) i (groups s).
(** XDEL: drop the entry; the pending list is not touched. *)
Definition s_del (i : eid) (s : stream) : stream :=
  set_entries (filter (fun e => e.1 <> i) (entries s)) s.
(** XACK: drop the pending row. *)
Definition s_ack (g : string) (i : eid) (s : stream) : stream :=
  match groups s !! g with
  | Some x => set_group g (set_pel (delete i (pel x)) x) s
  | None => s
  end.
Definition has_entry (i : eid) (s : stream) : bool :=
  bool_decide (Exists (fun e => e.1 = i) (entries s)).

(** An entry's fields must be a non-empty list of pairs. *)
Fixpoint even_length {A} (l : list A) : bool :=
  match l with
  | [] => true
  | [_] => false
  | _ :: _ :: r => even_length r
  end.
Definition valid_fields (fs : list string) : bool :=
  negb (bool_decide (fs = [])) && even_length fs.

(** Inclusive and exclusive range ends of XRANGE: [-], [+], [id], [(id]. *)
Inductive bound : Type := BMin | BMax | BIncl (i : eid) | BExcl (i : eid).
Definition above (b : bound) (i : eid) : Prop :=
  match b with
  | BMin => True | BMax => False
  | BIncl j => eid_le j i | BExcl j => eid_lt j i
  end.
Definition below (b : bound) (i : eid) : Prop :=
  match b with
  | BMin => False | BMax => True
  | BIncl j => eid_le i j | BExcl j => eid_lt i j
  end.
#[export] Instance above_dec b i : Decision (above b i).
Proof. destruct b; cbn; apply _. Defined.
#[export] Instance below_dec b i : Decision (below b i).
Proof. destruct b; cbn; apply _. Defined.

Definition in_range (lo hi : bound) (es : list (eid * list string)) :
    list (eid * list string) :=
  filter (fun e => above lo e.1 /\ below hi e.1) es.

Definition opt_take {A} (n : option nat) (l : list A) : list A :=
  match n with Some n => take n l | None => l end.

(** A row of XPENDING: id, owner, idle time, delivery count. *)
Record pending_row := Row {
  row_id : eid; row_owner : string; row_idle : Z; row_deliveries : Z }.

Definition row_of (v : rview) (i : eid) (l : lease) : pending_row :=
  Row i (owner l) (now_ms v - since_ms l) (deliveries l).

(** A record of XINFO CONSUMERS. *)
Record consumer_info := Consumer {
  ci_name : string; ci_pending : Z; ci_idle : Z }.

(** ** Commands *)
Inductive cmd : Type -> Type :=
  | HGET (k f : string) : cmd (option string)
  | HSET (k : string) (fvs : list (string * string)) : cmd unit
  | HINCRBY (k f : string) (n : Z) : cmd Z
  | HGETALL (k : string) : cmd (gmap string string)
  | GET (k : string) : cmd (option string)
  | SET (k s : string) (nx : bool) (ex : option Z) : cmd bool
  | EXISTS (k : string) : cmd bool
  | DEL (k : string) : cmd unit
  | EXPIRE (k : string) (seconds : Z) : cmd unit
  | TIME : cmd (Z * Z)
  | XADD (k : string) (fs : list string) : cmd eid
  | XDEL (k : string) (i : eid) : cmd unit
  | XLEN (k : string) : cmd Z
  | XRANGE (k : string) (lo hi : bound) (count : option nat) :
      cmd (list (eid * list string))
  | XREVRANGE (k : string) (count : nat) : cmd (list (eid * list string))
  | XGROUP_CREATE (k g : string) : cmd unit            (* id 0, MKSTREAM *)
  | XREADGROUP (k g c : string) (count : nat) : cmd (list (eid * list string))
  | XACK (k g : string) (i : eid) : cmd unit
  | XPENDING (k g : string) (lo hi : bound) (count : nat) (c : option string) :
      cmd (list pending_row)
  | XPENDING_COUNT (k g : string) : cmd Z              (* the summary form *)
  | XCLAIM_JUSTID (k g c : string) (i : eid) : cmd unit     (* min-idle 0 *)
  | XCLAIM_RESTORE (k g c : string) (i : eid) (idle retrycount : Z) : cmd unit
      (* min-idle 0, IDLE, RETRYCOUNT, JUSTID *)
  | XAUTOCLAIM (k g c : string) (min_idle : Z) (start : eid) (count : nat) :
      cmd (eid * list (eid * list string) * list eid)
  | XINFO_CONSUMERS (k g : string) : cmd (list consumer_info)
  | XGROUP_DELCONSUMER (k g c : string) : cmd unit
  | ZADD (k : string) (score : Z) (m : string) : cmd unit
  | ZREM (k m : string) : cmd unit
  | ZCARD (k : string) : cmd Z
  | ZRANGE_DUE (k : string) (max : Z) (limit : nat) : cmd (list string).
      (* ZRANGE k -inf max BYSCORE LIMIT 0 limit *)

(** A stream's group, where both exist. *)
Definition get_group (k g : string) (v : rview) : option (stream * group) :=
  match look k v with
  | Some (RStream s) => x ← groups s !! g; Some (s, x)
  | _ => None
  end.

Definition modify_group (k g : string) (s : stream) (x : group) (v : rview) : rview :=
  modify k (RStream (set_group g x s)) v.

Definition hset (fvs : list (string * string)) (h : gmap string string) :
    gmap string string :=
  foldl (fun m fv => <[fv.1 := fv.2]> m) h fvs.

Definition give (c : string) (t : Z) (es : list (eid * list string))
    (p : gmap eid lease) : gmap eid lease :=
  foldl (fun m e => <[e.1 := Lease c t 1]> m) p es.

(** The entries a [>] read hands out. *)
Definition undelivered (count : nat) (s : stream) (x : group) :
    list (eid * list string) :=
  take count (filter (fun e => eid_lt (last_delivered x) e.1) (entries s)).

Definition last_of (es : list (eid * list string)) (d : eid) : eid :=
  match last es with Some e => e.1 | None => d end.

(** Taking over the entries of an XAUTOCLAIM reply. *)
Definition take_over (c : string) (t : Z) (claimed : list (eid * list string))
    (p : gmap eid lease) : gmap eid lease :=
  foldl (fun m e =>
    match m !! e.1 with
    | Some l => <[e.1 := Lease c t (deliveries l + 1)]> m
    | None => m
    end) p claimed.
Definition drop_all (ids : list eid) (p : gmap eid lease) : gmap eid lease :=
  foldl (fun m i => delete i m) p ids.

(** What one XAUTOCLAIM pass may answer: [claimed] entries were pending, old
    enough, at or after the cursor, and are still in the stream; [deleted] ids
    were pending but are no longer in the stream; together they are all the old
    enough pending ids between the cursor and the next one, [0-0] standing for
    the end of the list. *)
Definition autoclaim_ok (s : stream) (x : group) (t min_idle : Z) (start : eid)
    (count : nat) (next : eid) (claimed : list (eid * list string))
    (deleted : list eid) : Prop :=
  let eligible i := exists l, pel x !! i = Some l /\ min_idle <= t - since_ms l /\
                              eid_le start i in
  NoDup (claimed.*1 ++ deleted) /\
  (length claimed <= count)%nat /\
  (forall i fs, (i, fs) ∈ claimed -> eligible i /\ (i, fs) ∈ entries s) /\
  (forall i, i ∈ deleted -> eligible i /\ i ∉ (entries s).*1) /\
  (forall i, eligible i -> next = (0, 0) \/ eid_lt i next ->
     i ∈ claimed.*1 \/ i ∈ deleted).

(** XCLAIM of a pending id: the row is rewritten, or dropped if the stream no
    longer holds the entry. *)
Definition claim_row (s : stream) (i : eid) (l : lease) (p : gmap eid lease) :
    gmap eid lease :=
  if has_entry i s then <[i := l]> p else delete i p.

(** ** Documented behaviour *)
Section Doc.
Local Open Scope string_scope.

Definition doc {X} (c : cmd X) (v : rview) : result string X -> rview -> Prop :=
  match c in cmd X return result string X -> rview -> Prop with
  | HGET k f => fun r v' => v' = v /\
      match get_hash k v with
      | Some h => r = Ok (h !! f)
      | None => r = Err "WRONGTYPE"
      end
  | HSET k fvs => fun r v' =>
      match get_hash k v with
      | Some h => r = Ok tt /\ v' = modify k (RHash (hset fvs h)) v
      | None => r = Err "WRONGTYPE" /\ v' = v
      end
  | HINCRBY k f n => fun r v' =>
      match get_hash k v with
      | Some h =>
          match int_of_str (default "0" (h !! f)) with
          | Some z => r = Ok (z + n)%Z /\
              v' = modify k (RHash (<[f := str_of_Z (z + n)%Z]> h)) v
          | None => r = Err "ERR hash value is not an integer" /\ v' = v
          end
      | None => r = Err "WRONGTYPE" /\ v' = v
      end
  | HGETALL k => fun r v' => v' = v /\
      match get_hash k v with
      | Some h => r = Ok h
      | None => r = Err "WRONGTYPE"
      end
  | GET k => fun r v' => v' = v /\
      match get_str k v with
      | Some o => r = Ok o
      | None => r = Err "WRONGTYPE"
      end
  | SET k s nx ex => fun r v' =>
      if nx && bool_decide (is_Some (look k v)) then r = Ok false /\ v' = v
      else r = Ok true /\
        v' = put k (RStr s) ((fun n => now_ms v + 1000 * n)%Z <$> ex) v
  | EXISTS k => fun r v' => v' = v /\ r = Ok (bool_decide (is_Some (look k v)))
  | DEL k => fun r v' => r = Ok tt /\ v' = remove k v
  | EXPIRE k n => fun r v' => r = Ok tt /\
      match look k v with
      | Some x => v' = put k x (Some (now_ms v + 1000 * n)%Z) v
      | None => v' = v
      end
  | TIME => fun r v' => v' = v /\
      r = Ok (now_us v `div` 1000000, now_us v `mod` 1000000)%Z
  | XADD k fs => fun r v' =>
      match get_stream k v with
      | Some s =>
          if valid_fields fs then
            exists i, fresh_id (last_id s) i /\ r = Ok i /\
              v' = modify k (RStream (s_add i fs s)) v
          else r = Err "ERR wrong number of arguments" /\ v' = v
      | None => r = Err "WRONGTYPE" /\ v' = v
      end
  | XDEL k i => fun r v' =>
      match look k v with
      | None => r = Ok tt /\ v' = v
      | Some (RStream s) => r = Ok tt /\ v' = modify k (RStream (s_del i s)) v
      | Some _ => r = Err "WRONGTYPE" /\ v' = v
      end
  | XLEN k => fun r v' => v' = v /\
      match get_stream k v with
      | Some s => r = Ok (Z.of_nat (length (entries s)))
      | None => r = Err "WRONGTYPE"
      end
  | XRANGE k lo hi n => fun r v' => v' = v /\
      match get_stream k v with
      | Some s => r = Ok (opt_take n (in_range lo hi (entries s)))
      | None => r = Err "WRONGTYPE"
      end
  | XREVRANGE k n => fun r v' => v' = v /\
      match get_stream k v with
      | Some s => r = Ok (take n (rev (entries s)))
      | None => r = Err "WRONGTYPE"
      end
  | XGROUP_CREATE k g => fun r v' =>
      match get_stream k v with
      | Some s =>
          match groups s !! g with
          | Some _ => r = Err "BUSYGROUP Consumer Group name already exists" /\ v' = v
          | None => r = Ok tt /\
              v' = modify k (RStream (set_group g (Group (0, 0)%Z ∅ ∅) s)) v
          end
      | None => r = Err "WRONGTYPE" /\ v' = v
      end
  | XREADGROUP k g c n => fun r v' =>
      match get_group k g v with
      | Some (s, x) =>
          let new := undelivered n s x in
          r = Ok new /\
          v' = modify_group k g s
                 (seen c (now_ms v)
                   (Group (last_of new (last_delivered x))
                          (give c (now_ms v) new (pel x)) (consumers x))) v
      | None => (exists e, r = Err e) /\ v' = v
      end
  | XACK k g i => fun r v' =>
      match look k v with
      | None => r = Ok tt /\ v' = v
      | Some (RStream s) => r = Ok tt /\ v' = modify k (RStream (s_ack g i s)) v
      | Some _ => r = Err "WRONGTYPE" /\ v' = v
      end
  | XPENDING k g lo hi n c => fun r v' => v' = v /\
      match get_group k g v with
      | Some (s, x) => exists l, NoDup l.*1 /\
          (forall i le, (i, le) ∈ l <-> pel x !! i = Some le /\ above lo i /\
             below hi i /\ match c with Some w => owner le = w | None => True end) /\
          r = Ok ((fun '(i, le) => row_of v i le) <$> take n l)
      | None => exists e, r = Err e
      end
  | XPENDING_COUNT k g => fun r v' => v' = v /\
      match get_group k g v with
      | Some (s, x) => r = Ok (Z.of_nat (size (pel x)))
      | None => exists e, r = Err e
      end
  | XCLAIM_JUSTID k g c i => fun r v' =>
      match get_group k g v with
      | Some (s, x) => r = Ok tt /\
          match pel x !! i with
          | Some le => v' = modify_group k g s (seen c (now_ms v)
              (set_pel (claim_row s i (Lease c (now_ms v) (deliveries le)) (pel x)) x)) v
          | None => v' = modify_group k g s (seen c (now_ms v) x) v
          end
      | None => (exists e, r = Err e) /\ v' = v
      end
  | XCLAIM_RESTORE k g c i idle n => fun r v' =>
      match get_group k g v with
      | Some (s, x) => r = Ok tt /\
          match pel x !! i with
          | Some le => v' = modify_group k g s (seen c (now_ms v)
              (set_pel (claim_row s i (Lease c (now_ms v - idle)%Z n) (pel x)) x)) v
          | None => v' = modify_group k g s (seen c (now_ms v) x) v
          end
      | None => (exists e, r = Err e) /\ v' = v
      end
  | XAUTOCLAIM k g c m start n => fun r v' =>
      match get_group k g v with
      | Some (s, x) => exists next claimed deleted,
          autoclaim_ok s x (now_ms v) m start n next claimed deleted /\
          r = Ok (next, claimed, deleted) /\
          v' = modify_group k g s (seen c (now_ms v)
            (set_pel (drop_all deleted (take_over c (now_ms v) claimed (pel x))) x)) v
      | None => (exists e, r = Err e) /\ v' = v
      end
  | XINFO_CONSUMERS k g => fun r v' => v' = v /\
      match get_group k g v with
      | Some (s, x) => exists l, r = Ok l /\ NoDup (ci_name <$> l) /\
          (forall n, n ∈ ci_name <$> l <-> is_Some (consumers x !! n)) /\
          (forall i, i ∈ l -> consumers x !! ci_name i = Some (now_ms v - ci_idle i)%Z)
      | None => exists e, r = Err e
      end
  | XGROUP_DELCONSUMER k g c => fun r v' =>
      match get_group k g v with
      | Some (s, x) => r = Ok tt /\
          v' = modify_group k g s
                 (Group (last_delivered x)
                    (filter (fun il => owner il.2 <> c) (pel x))
                    (delete c (consumers x))) v
      | None => (exists e, r = Err e) /\ v' = v
      end
  | ZADD k sc m => fun r v' =>
      match get_zset k v with
      | Some z => r = Ok tt /\ v' = modify k (RZset (<[m := sc]> z)) v
      | None => r = Err "WRONGTYPE" /\ v' = v
      end
  | ZREM k m => fun r v' =>
      match get_zset k v with
      | Some z => r = Ok tt /\
          v' = if decide (delete m z = ∅) then remove k v
               else modify k (RZset (delete m z)) v
      | None => r = Err "WRONGTYPE" /\ v' = v
      end
  | ZCARD k => fun r v' => v' = v /\
      match get_zset k v with
      | Some z => r = Ok (Z.of_nat (size z))
      | None => r = Err "WRONGTYPE"
      end
  | ZRANGE_DUE k mx n => fun r v' => v' = v /\
      match get_zset k v with
      | Some z => exists l,
          Permutation l (filter (fun ms => (ms.2 <= mx)%Z) (map_to_list z)) /\
          StronglySorted (fun a b => (a.2 <= b.2)%Z) l /\
          r = Ok (take n l.*1)
      | None => r = Err "WRONGTYPE"
      end
  end.
End Doc.

(** A Redis server: any state, seen through [view], whose command handler
    behaves as documented. *)
Class RedisServer := {
  db : Type;
  view : db -> rview;
  handle : forall X, cmd X -> db -> result string X * db;
  handle_doc : forall X (c : cmd X) d,
    doc c (view d) (fst (handle X c d)) (view (snd (handle X c d)));
}.

(** A Lua script: a program over Redis commands. A failing command raises, and
    the script stops there with what it wrote so far. *)
Abbreviation lua := (prog cmd string).

(** [exec s v r v']: script [s] run from [v] may answer [r] and leave [v']. *)
Abbreviation exec := (runs (@doc)).
(** [lua_wp s v Q]: every run of [s] from [v] ends in [Q]. *)
Abbreviation lua_wp := (wp (@doc)).

(** Running a script on a server is one of the executions [exec] allows. *)
Lemma server_exec `{R : RedisServer} {A} (s : lua A) (d : db) :
  exec s (view d) (fst (run handle s d)) (view (snd (run handle s d))).
Proof. apply runs_run, handle_doc. Qed.
