(* ===== verification/LuaScripts.v ===== *)
(** The ten Lua scripts (src/ftq/scripts): every state change of the queue.

    Each script is a [lua] program, one parameter per KEYS and ARGV slot in the
    script's order. Numbers the script converts with [tonumber] are parameters of
    type Z; numbers it only stores stay text. [cjson], the JSON library inside
    Redis that encodes a delayed job, is a parameter with its round trip. *)
From S2P Require Import Prelude Effects Redis.

#[local] Open Scope Z_scope.
#[local] Open Scope prog_scope.

(** Lua's bundled cjson, as the scripts use it: decoding gives back an encoded
    non-empty array of strings. *)
Class CJson := {
  cjson_encode : list string -> string;
  cjson_decode : string -> result string (list string);
  cjson_roundtrip : forall l, l <> [] -> cjson_decode (cjson_encode l) = Ok l;
}.

Definition of_result {A} (r : result string A) : lua A :=
  match r with Ok a => Ret a | Err e => Raise e end.

(** [t[1] * 1000 + math.floor(t[2] / 1000)] on the reply of TIME. *)
Definition lua_now_ms (t : Z * Z) : Z := t.1 * 1000 + t.2 `div` 1000.

(** A stored entry id used as a command argument: Redis refuses a malformed one. *)
Definition id_arg (s : string) : lua eid :=
  match eid_of_str s with
  | Some i => Ret i
  | None => Raise "ERR Invalid stream ID specified as stream command argument"%string
  end.

(** [if redis.call('HGET', k, f)]: nil reads as false, anything else as true. *)
Definition truthy {A} (o : option A) : bool := bool_decide (is_Some o).

(** ** enqueue.lua *)
Definition enqueue_lua (k_stream k_delayed k_full k_stats : string)
    (k_idem : option string) (job_id : string) (ttl high low : Z)
    (count_as : string) (args : list string) : lua (string * Z * Z) :=
  original <- match k_idem with Some k => call (GET k) | None => Ret None end ;;
  match original with
  | Some o => Ret (o, 0, -1)
  | None =>
      xlen <- call (XLEN k_stream) ;;
      zcard <- call (ZCARD k_delayed) ;;
      let depth := xlen + zcard in
      was_full <- call (EXISTS k_full) ;;
      full <-
        (if was_full && (depth <? low) then call (DEL k_full) ;;; Ret false
         else if negb was_full && (high <=? depth)
              then call (SET k_full "1" false None) ;;; Ret true
              else Ret was_full) ;;
      if (full : bool) then
        (if decide (count_as = "none"%string) then Ret tt
         else call (HINCRBY k_stats count_as 1) ;;; Ret tt) ;;;
        Ret (""%string, -1, depth)
      else
        match k_idem with
        | Some k => call (SET k job_id true (Some ttl)) ;;; Ret tt
        | None => Ret tt
        end ;;;
        t <- call TIME ;;
        call (XADD k_stream
                (args ++ ["enqueued_at_ms"%string; str_of_Z (lua_now_ms t)])) ;;;
        Ret (job_id, 1, depth + 1)
  end.

(** ** commit.lua *)

(** Steps 2 to 5: record the success and remove the entry. *)
Definition commit_record (k_stream k_done k_results k_stats : string)
    (group : string) (entry_id : eid) (job_id res : string) (ttl : Z)
    (worker_id enqueued_at_ms : string) (outcome : Z) : lua Z :=
  t <- call TIME ;;
  let now_ms := str_of_Z (lua_now_ms t) in
  call (HSET k_done
          [("state", "SUCCEEDED"); ("result", res);
           ("finished_at_ms", now_ms); ("worker_id", worker_id)]%string) ;;;
  (if 0 <? ttl then call (EXPIRE k_done ttl) else Ret tt) ;;;
  call (XADD k_results
          ["job_id"; job_id; "worker_id"; worker_id;
           "enqueued_at_ms"; enqueued_at_ms; "finished_at_ms"; now_ms]%string) ;;;
  call (XACK k_stream group entry_id) ;;;
  call (XDEL k_stream entry_id) ;;;
  call (HINCRBY k_stats "processed" 1) ;;;
  Ret outcome.

Definition commit_lua (k_stream k_done k_results k_stats k_dead : string)
    (group : string) (entry_id : eid) (job_id res : string) (ttl : Z)
    (worker_id enqueued_at_ms : string) : lua Z :=
  state <- call (HGET k_done "state") ;;
  if decide (state = Some "SUCCEEDED"%string) then
    call (XACK k_stream group entry_id) ;;;
    call (XDEL k_stream entry_id) ;;;
    call (HINCRBY k_stats "duplicates_suppressed" 1) ;;;
    Ret 0
  else
    outcome <-
      (if decide (state = Some "DEAD"%string) then
         dead_id <- call (HGET k_done "dead_entry_id") ;;
         match dead_id with
         | Some d => i <- id_arg d ;; call (XDEL k_dead i)
         | None => Ret tt
         end ;;;
         call (DEL k_done) ;;;
         call (HINCRBY k_stats "late_successes" 1) ;;;
         Ret 2
       else Ret 1) ;;
    commit_record k_stream k_done k_results k_stats group entry_id job_id res ttl
      worker_id enqueued_at_ms outcome.

(** [#p == 0 or p[1][2] ~= caller] on the reply of a one-id XPENDING. *)
Definition owned_by (p : list pending_row) (worker : string) : option pending_row :=
  match p with
  | [] => None
  | r :: _ => if decide (row_owner r = worker) then Some r else None
  end.

(** ** heartbeat.lua *)
Definition heartbeat_lua (k_stream k_stats : string) (group : string)
    (entry_id : eid) (worker : string) : lua string :=
  p <- call (XPENDING k_stream group (BIncl entry_id) (BIncl entry_id) 1 None) ;;
  match owned_by p worker with
  | None =>
      call (HINCRBY k_stats "lease_lost" 1) ;;;
      Ret "LEASE_LOST"%string
  | Some _ =>
      call (XCLAIM_JUSTID k_stream group worker entry_id) ;;;
      call (HINCRBY k_stats "heartbeats" 1) ;;;
      Ret "OK"%string
  end.

(** [for i = 1, #fields, 2 do if fields[i] == 'attempt' then fields[i + 1] = n] *)
Fixpoint set_attempt (n : string) (fields : list string) : list string :=
  match fields with
  | name :: value :: r =>
      name :: (if decide (name = "attempt"%string) then n else value) :: set_attempt n r
  | [name] => if decide (name = "attempt"%string) then [name; n] else [name]
  | [] => []
  end.

(** ** retry.lua *)
Definition retry_lua `{CJson} (k_stream k_delayed k_done k_stats : string)
    (group : string) (entry_id : eid) (worker next_attempt : string)
    (delay_ms : Z) (timed_out : string) : lua string :=
  p <- call (XPENDING k_stream group (BIncl entry_id) (BIncl entry_id) 1 None) ;;
  match owned_by p worker with
  | None =>
      call (HINCRBY k_stats "lease_lost" 1) ;;;
      Ret "LEASE_LOST"%string
  | Some _ =>
      state <- call (HGET k_done "state") ;;
      if truthy state then
        call (XACK k_stream group entry_id) ;;;
        call (XDEL k_stream entry_id) ;;;
        call (HINCRBY k_stats "duplicates_suppressed" 1) ;;;
        Ret "TERMINAL"%string
      else
        entry <- call (XRANGE k_stream (BIncl entry_id) (BIncl entry_id) None) ;;
        match entry with
        | [] => Raise ("ENTRY_MISSING " +:+ str_of_eid entry_id)%string
        | e :: _ =>
            let fields := set_attempt next_attempt e.2 in
            t <- call TIME ;;
            call (ZADD k_delayed (lua_now_ms t + delay_ms) (cjson_encode fields)) ;;;
            call (XACK k_stream group entry_id) ;;;
            call (XDEL k_stream entry_id) ;;;
            call (HINCRBY k_stats "retried" 1) ;;;
            (if decide (timed_out = "1"%string)
             then call (HINCRBY k_stats "timeouts" 1) ;;; Ret tt else Ret tt) ;;;
            Ret "OK"%string
        end
  end.

(** ** dead.lua *)
Definition dead_lua (k_stream k_dead k_done k_stats : string) (group : string)
    (entry_id : eid) (worker job_id reason error attempts timed_out : string) :
    lua string :=
  p <- call (XPENDING k_stream group (BIncl entry_id) (BIncl entry_id) 1 None) ;;
  match owned_by p worker with
  | None =>
      call (HINCRBY k_stats "lease_lost" 1) ;;;
      Ret "LEASE_LOST"%string
  | Some row =>
      state <- call (HGET k_done "state") ;;
      if truthy state then
        call (XACK k_stream group entry_id) ;;;
        call (XDEL k_stream entry_id) ;;;
        call (HINCRBY k_stats "duplicates_suppressed" 1) ;;;
        Ret "TERMINAL"%string
      else
        entry <- call (XRANGE k_stream (BIncl entry_id) (BIncl entry_id) None) ;;
        let fields := match entry with [] => [] | e :: _ => e.2 end in
        t <- call TIME ;;
        let now_ms := str_of_Z (lua_now_ms t) in
        let meta :=
          ["dlq_job_id"; job_id; "dlq_reason"; reason; "dlq_error"; error;
           "dlq_attempts"; attempts; "dlq_deliveries"; str_of_Z (row_deliveries row);
           "dlq_dead_at_ms"; now_ms; "dlq_worker_id"; worker;
           "dlq_source_entry_id"; str_of_eid entry_id]%string in
        dead_id <- call (XADD k_dead (fields ++ meta)) ;;
        call (HSET k_done
                [("state", "DEAD"); ("dead_entry_id", str_of_eid dead_id);
                 ("reason", reason); ("error", error); ("finished_at_ms", now_ms);
                 ("worker_id", worker)]%string) ;;;
        call (XACK k_stream group entry_id) ;;;
        call (XDEL k_stream entry_id) ;;;
        call (HINCRBY k_stats "dead" 1) ;;;
        (if decide (timed_out = "1"%string)
         then call (HINCRBY k_stats "timeouts" 1) ;;; Ret tt else Ret tt) ;;;
        Ret "OK"%string
  end.

(** ** requeue.lua *)

(** [string.sub(name, 1, 4) ~= 'dlq_'] *)
Definition is_dlq_name (name : string) : bool :=
  bool_decide (String.substring 0 4 name = "dlq_"%string).

(** The field loop: drop the dlq_* pairs and reset the attempt number. *)
Fixpoint strip_dlq (src : list string) : list string :=
  match src with
  | name :: value :: r =>
      if is_dlq_name name then strip_dlq r
      else name :: (if decide (name = "attempt"%string) then "0"%string else value)
             :: strip_dlq r
  | [name] =>
      if is_dlq_name name then []
      else if decide (name = "attempt"%string) then [name; "0"%string] else [name]
  | [] => []
  end.

Definition requeue_lua (k_dead k_stream k_done k_stats : string) (job_id : string) :
    lua Z :=
  state <- call (HGET k_done "state") ;;
  if decide (state = Some "DEAD"%string) then
    dead_id <- call (HGET k_done "dead_entry_id") ;;
    match dead_id with
    | None => Raise "Lua redis lib command arguments must be strings or integers"%string
    | Some d =>
        i <- id_arg d ;;
        entry <- call (XRANGE k_dead (BIncl i) (BIncl i) None) ;;
        match entry with
        | [] => Ret 0
        | e :: _ =>
            let fields := strip_dlq e.2 in
            if decide (fields = []) then
              Raise ("NOTHING_TO_REQUEUE " +:+ job_id)%string
            else
              call (XADD k_stream fields) ;;;
              call (XDEL k_dead i) ;;;
              call (DEL k_done) ;;;
              call (HINCRBY k_stats "requeued" 1) ;;;
              Ret 1
        end
    end
  else Ret 0.

(** ** schedule.lua *)
Definition schedule_lua `{CJson} (k_delayed k_stream k_stats : string) (limit : nat) :
    lua Z :=
  t <- call TIME ;;
  due <- call (ZRANGE_DUE k_delayed (lua_now_ms t) limit) ;;
  for_each due (fun member _ =>
    call (ZREM k_delayed member) ;;;
    fields <- of_result (cjson_decode member) ;;
    call (XADD k_stream fields) ;;;
    Ret tt) tt ;;;
  (if (0 <? length due)%nat
   then call (HINCRBY k_stats "scheduled" (Z.of_nat (length due))) ;;; Ret tt
   else Ret tt) ;;;
  Ret (Z.of_nat (length due)).

(** ** ledger.lua *)
Definition ledger_lua (k_marker k_effects k_stats : string) (effect_key : string)
    (ttl : Z) (extra : list string) : lua Z :=
  claimed <- (if 0 <? ttl then call (SET k_marker "1" true (Some ttl))
              else call (SET k_marker "1" true None)) ;;
  if negb claimed then
    call (HINCRBY k_stats "effects_suppressed" 1) ;;;
    Ret 0
  else
    call (XADD k_effects ("key"%string :: effect_key :: extra)) ;;;
    call (HINCRBY k_stats "effects_applied" 1) ;;;
    Ret 1.

(** ** reclaim.lua *)

(** One entry a reaper keeps: id, fields, delivery count. *)
Abbreviation claimed_entry := (eid * list string * Z)%type.

(** Step 2 for one claimed entry. The loop state is the suspect slots left and
    the entries kept so far. *)
Definition reclaim_one (k_stream k_hist group worker : string)
    (min_idle threshold max_deliveries : Z) (e : eid * list string)
    (st : Z * list claimed_entry) : lua (Z * list claimed_entry) :=
  let '(slots, out) := st in
  p <- call (XPENDING k_stream group (BIncl e.1) (BIncl e.1) 1 None) ;;
  match p with
  | [] => Raise "attempt to index a nil value"%string
  | row :: _ =>
      let n := row_deliveries row in
      let suspect := (threshold <=? n) && (n <=? max_deliveries) in
      if suspect && (slots =? 0) then
        call (XCLAIM_RESTORE k_stream group worker e.1 min_idle (n - 1)) ;;;
        Ret (slots, out)
      else
        call (HINCRBY k_hist (str_of_Z n) 1) ;;;
        Ret (if suspect then slots - 1 else slots, out ++ [(e.1, e.2, n)])
  end.

Definition reclaim_lua (k_stream k_stats k_hist group worker : string)
    (min_idle : Z) (cursor : eid) (count : nat)
    (suspect_slots threshold max_deliveries : Z) :
    lua (eid * list claimed_entry * list eid) :=
  r <- call (XAUTOCLAIM k_stream group worker min_idle cursor count) ;;
  let '(next, claimed, deleted) := r in
  st <- for_each claimed
          (reclaim_one k_stream k_hist group worker min_idle threshold max_deliveries)
          (suspect_slots, []) ;;
  let out := st.2 in
  (if (0 <? length out)%nat
   then call (HINCRBY k_stats "reclaimed" (Z.of_nat (length out))) ;;; Ret tt
   else Ret tt) ;;;
  Ret (next, out, deleted).

(** ** prune_consumers.lua *)
Definition prune_one (k_stream group caller : string) (min_idle : Z)
    (c : consumer_info) (gone : list string) : lua (list string) :=
  if decide (ci_name c <> caller /\ min_idle <= ci_idle c) then
    owned <- call (XPENDING k_stream group BMin BMax 1 (Some (ci_name c))) ;;
    match owned with
    | [] =>
        call (XGROUP_DELCONSUMER k_stream group (ci_name c)) ;;;
        Ret (gone ++ [ci_name c])
    | _ :: _ => Ret gone
    end
  else Ret gone.

Definition prune_lua (k_stream k_stats group : string) (min_idle : Z) (caller : string) :
    lua (list string) :=
  cs <- call (XINFO_CONSUMERS k_stream group) ;;
  gone <- for_each cs (prune_one k_stream group caller min_idle) [] ;;
  (if (0 <? length gone)%nat
   then call (HINCRBY k_stats "consumers_pruned" (Z.of_nat (length gone))) ;;; Ret tt
   else Ret tt) ;;;
  Ret gone.
