(* ===== verification/RedisRules.v ===== *)
(** Reasoning about Redis views and scripts: reading back what was written, and
    one weakest-precondition rule per command, stated for the case the scripts
    meet (a key of the right type). The rules are hints of the database [redis];
    [lua_step] applies the one that matches the next command. *)
From S2P Require Import Prelude Effects Redis Keys.

#[local] Open Scope Z_scope.

Create HintDb redis discriminated.

(** ** Reading a view after a write *)
Section Views.
Implicit Types (k : string) (v : rview) (x : rvalue).

Lemma alive_deadline k v : alive v (deadline k v) = true.
Proof.
  unfold deadline. destruct (keyspace v !! k) as [[x dl]|]; [|done].
  by destruct (alive v dl) eqn:H.
Qed.

Lemma look_modify_eq k x v : look k (modify k x v) = Some x.
Proof.
  unfold look, modify, put. cbn. rewrite lookup_insert_eq.
  change (alive _ (deadline k v)) with (alive v (deadline k v)).
  by rewrite alive_deadline.
Qed.

Lemma look_put_None k x v : look k (put k x None v) = Some x.
Proof. unfold look, put. cbn. by rewrite lookup_insert_eq. Qed.

Lemma look_put_Some k x t v :
  look k (put k x (Some t) v) = if now_ms v <? t then Some x else None.
Proof. unfold look, put. cbn. by rewrite lookup_insert_eq. Qed.

Lemma look_put_ne k k' x dl v : k <> k' -> look k (put k' x dl v) = look k v.
Proof. intros. unfold look, put. cbn. by rewrite lookup_insert_ne. Qed.

Lemma look_modify_ne k k' x v : k <> k' -> look k (modify k' x v) = look k v.
Proof. apply look_put_ne. Qed.

Lemma look_remove_eq k v : look k (remove k v) = None.
Proof. unfold look, remove. cbn. by rewrite lookup_delete_eq. Qed.

Lemma look_remove_ne k k' v : k <> k' -> look k (remove k' v) = look k v.
Proof. intros. unfold look, remove. cbn. by rewrite lookup_delete_ne. Qed.

Lemma deadline_modify_eq k x v : deadline k (modify k x v) = deadline k v.
Proof.
  unfold modify, put. unfold deadline at 1. cbn. rewrite lookup_insert_eq.
  change (alive _ (deadline k v)) with (alive v (deadline k v)).
  by rewrite alive_deadline.
Qed.

Lemma deadline_put_None k x v : deadline k (put k x None v) = None.
Proof. unfold deadline, put. cbn. by rewrite lookup_insert_eq. Qed.

Lemma deadline_put_ne k k' x dl v :
  k <> k' -> deadline k (put k' x dl v) = deadline k v.
Proof. intros. unfold deadline, put. cbn. by rewrite lookup_insert_ne. Qed.

Lemma deadline_modify_ne k k' x v :
  k <> k' -> deadline k (modify k' x v) = deadline k v.
Proof. apply deadline_put_ne. Qed.

Lemma deadline_remove_eq k v : deadline k (remove k v) = None.
Proof. unfold deadline, remove. cbn. by rewrite lookup_delete_eq. Qed.

Lemma deadline_remove_ne k k' v : k <> k' -> deadline k (remove k' v) = deadline k v.
Proof. intros. unfold deadline, remove. cbn. by rewrite lookup_delete_ne. Qed.

Lemma now_put k x dl v : now_ms (put k x dl v) = now_ms v.
Proof. done. Qed.
Lemma now_modify k x v : now_ms (modify k x v) = now_ms v.
Proof. done. Qed.
Lemma now_remove k v : now_ms (remove k v) = now_ms v.
Proof. done. Qed.
End Views.

(** [view_simpl] reads through writes; key inequalities come from the hypotheses
    or from [ftq] (two different kinds of key of one queue). *)
Ltac key_ne :=
  first [ done | by apply not_eq_sym | solve [auto with ftq] |
          apply render_ne; congruence | idtac ].

Ltac view_simpl :=
  repeat first
    [ rewrite look_modify_eq | rewrite look_put_None | rewrite look_remove_eq
    | rewrite look_modify_ne by (by key_ne) | rewrite look_put_ne by (by key_ne)
    | rewrite look_remove_ne by (by key_ne)
    | rewrite deadline_modify_eq | rewrite deadline_put_None
    | rewrite deadline_remove_eq
    | rewrite deadline_modify_ne by (by key_ne)
    | rewrite deadline_put_ne by (by key_ne)
    | rewrite deadline_remove_ne by (by key_ne)
    | rewrite now_modify | rewrite now_put | rewrite now_remove ].
