(* ===== verification/Queue.v ===== *)
(** The queue as data, and the coupling with its Redis keys.

    [queue] is the abstract state of one queue: what its Redis keys mean, with the
    encodings gone (counters are integers, a marker key is membership of a set).
    [rep v q] couples a Redis view with a queue. One lemma per command and key the
    scripts use ([rep_xack], [rep_hget_done], ...) says what the command's
    documented behaviour does to the queue; [lua_step] applies the one that fits. *)
From S2P Require Import Prelude Effects Redis Keys LuaScripts RedisRules.

#[local] Open Scope Z_scope.

(** ** The abstract state *)
Record queue := Queue {
  q_now : Z;                                 (* Redis's clock, ms *)
  q_entries : list (eid * list string);      (* the stream: undelivered + in flight *)
  q_last : eid;                              (* its highest id ever *)
  q_ld : eid;                                (* the group's last delivered id *)
  q_pel : gmap eid lease;                    (* in flight *)
  q_cons : gmap string Z;                    (* the group's consumers *)
  q_delayed : gmap string Z;                 (* retries: encoded fields -> due time *)
  q_dead : stream;                           (* the dead-letter stream *)
  q_results : stream;                        (* the results log *)
  q_effects : stream;                        (* the effects log *)
  q_full : bool;                             (* backpressure flag *)
  q_reclaims : gmap string Z;                (* delivery count -> claims *)
  q_stats : gmap string Z;                   (* counters *)
  q_done : gmap string (gmap string string); (* job -> terminal record *)
  q_idem : gmap string string;               (* idempotency key -> job *)
  q_marks : gset string;                     (* applied effects *)
}.

(** Field updates. *)
Definition with_entries es la q := Queue (q_now q) es la (q_ld q) (q_pel q) (q_cons q)
  (q_delayed q) (q_dead q) (q_results q) (q_effects q) (q_full q) (q_reclaims q)
  (q_stats q) (q_done q) (q_idem q) (q_marks q).
Definition with_group ld p c q := Queue (q_now q) (q_entries q) (q_last q) ld p c
  (q_delayed q) (q_dead q) (q_results q) (q_effects q) (q_full q) (q_reclaims q)
  (q_stats q) (q_done q) (q_idem q) (q_marks q).
Definition with_delayed z q := Queue (q_now q) (q_entries q) (q_last q) (q_ld q) (q_pel q)
  (q_cons q) z (q_dead q) (q_results q) (q_effects q) (q_full q) (q_reclaims q)
  (q_stats q) (q_done q) (q_idem q) (q_marks q).
Definition with_dead s q := Queue (q_now q) (q_entries q) (q_last q) (q_ld q) (q_pel q)
  (q_cons q) (q_delayed q) s (q_results q) (q_effects q) (q_full q) (q_reclaims q)
  (q_stats q) (q_done q) (q_idem q) (q_marks q).
Definition with_results s q := Queue (q_now q) (q_entries q) (q_last q) (q_ld q) (q_pel q)
  (q_cons q) (q_delayed q) (q_dead q) s (q_effects q) (q_full q) (q_reclaims q)
  (q_stats q) (q_done q) (q_idem q) (q_marks q).
Definition with_effects s m q := Queue (q_now q) (q_entries q) (q_last q) (q_ld q) (q_pel q)
  (q_cons q) (q_delayed q) (q_dead q) (q_results q) s (q_full q) (q_reclaims q)
  (q_stats q) (q_done q) (q_idem q) m.
Definition with_full b q := Queue (q_now q) (q_entries q) (q_last q) (q_ld q) (q_pel q)
  (q_cons q) (q_delayed q) (q_dead q) (q_results q) (q_effects q) b (q_reclaims q)
  (q_stats q) (q_done q) (q_idem q) (q_marks q).
Definition with_reclaims h q := Queue (q_now q) (q_entries q) (q_last q) (q_ld q) (q_pel q)
  (q_cons q) (q_delayed q) (q_dead q) (q_results q) (q_effects q) (q_full q) h
  (q_stats q) (q_done q) (q_idem q) (q_marks q).
Definition with_stats h q := Queue (q_now q) (q_entries q) (q_last q) (q_ld q) (q_pel q)
  (q_cons q) (q_delayed q) (q_dead q) (q_results q) (q_effects q) (q_full q)
  (q_reclaims q) h (q_done q) (q_idem q) (q_marks q).
Definition with_done d q := Queue (q_now q) (q_entries q) (q_last q) (q_ld q) (q_pel q)
  (q_cons q) (q_delayed q) (q_dead q) (q_results q) (q_effects q) (q_full q)
  (q_reclaims q) (q_stats q) d (q_idem q) (q_marks q).
Definition with_idem m q := Queue (q_now q) (q_entries q) (q_last q) (q_ld q) (q_pel q)
  (q_cons q) (q_delayed q) (q_dead q) (q_results q) (q_effects q) (q_full q)
  (q_reclaims q) (q_stats q) (q_done q) m (q_marks q).

(** ** Basic operations *)
Definition q_add (i : eid) (fs : list string) (q : queue) : queue :=
  with_entries (q_entries q ++ [(i, fs)]) i q.
Definition q_xdel (i : eid) (q : queue) : queue :=
  with_entries (filter (fun e => e.1 <> i) (q_entries q)) (q_last q) q.
Definition q_setpel (p : gmap eid lease) (q : queue) : queue :=
  with_group (q_ld q) p (q_cons q) q.
Definition q_ack (i : eid) (q : queue) : queue := q_setpel (delete i (q_pel q)) q.
(** Every exit: out of the PEL, then out of the stream. *)
Definition q_drop (i : eid) (q : queue) : queue := q_xdel i (q_ack i q).
Definition q_incr (f : string) (n : Z) (q : queue) : queue :=
  with_stats (<[f := default 0 (q_stats q !! f) + n]> (q_stats q)) q.
Definition q_hist (f : string) (n : Z) (q : queue) : queue :=
  with_reclaims (<[f := default 0 (q_reclaims q !! f) + n]> (q_reclaims q)) q.
Definition q_see (c : string) (q : queue) : queue :=
  with_group (q_ld q) (q_pel q) (<[c := q_now q]> (q_cons q)) q.
Definition stat (f : string) (q : queue) : Z := default 0 (q_stats q !! f).
(** The terminal record of a job. *)
Definition q_rec (j : string) (q : queue) : gmap string string := default ∅ (q_done q !! j).
Definition q_state (j : string) (q : queue) : option string := q_rec j q !! "state"%string.

(** ** The coupling *)
Inductive absv : Type :=
  | AHash (h : gmap string string)
  | AZset (z : gmap string Z)
  | AStream (s : stream)
  | AStr (o : option string).

Definition denotes (o : option rvalue) (x : absv) : Prop :=
  match x with
  | AHash h => match o with None => Some ∅ | Some (RHash h) => Some h | _ => None end = Some h
  | AZset z => match o with None => Some ∅ | Some (RZset h) => Some h | _ => None end = Some z
  | AStream s =>
      match o with None => Some empty_stream | Some (RStream s) => Some s | _ => None end = Some s
  | AStr t =>
      match o with None => Some None | Some (RStr s) => Some (Some s) | _ => None end = Some t
  end.

Section Coupling.
Context (K : Keys.t) (G : string).

Definition q_str (q : queue) : stream :=
  Stream (q_entries q) (q_last q) {[G := Group (q_ld q) (q_pel q) (q_cons q)]}.

Definition qval (q : queue) (a : qkey) : absv :=
  match a with
  | KStream => AStream (q_str q)
  | KDelayed => AZset (q_delayed q)
  | KDead => AStream (q_dead q)
  | KResults => AStream (q_results q)
  | KEffects => AStream (q_effects q)
  | KFull => AStr (if q_full q then Some "1"%string else None)
  | KReclaims => AHash (str_of_Z <$> q_reclaims q)
  | KStats => AHash (str_of_Z <$> q_stats q)
  | KDone j => AHash (q_rec j q)
  | KIdem i => AStr (q_idem q !! i)
  | KLedger e => AStr (if decide (e ∈ q_marks q) then Some "1"%string else None)
  end.

Definition is_idem (a : qkey) : bool := match a with KIdem _ => true | _ => false end.

(** [T]: some record may have a TTL (a positive done-key or ledger TTL). With
    [T = false] only idempotency keys ever expire. *)
Record rep (T : bool) (v : rview) (q : queue) : Prop := {
  rep_now : now_ms v = q_now q;
  rep_val : forall a, denotes (look (render K a) v) (qval q a);
  rep_ttl : T = false -> forall a, is_idem a = false -> deadline (render K a) v = None;
}.

Context (T : bool).

Lemma rep_modify v q q' a x :
  rep T v q -> denotes (Some x) (qval q' a) ->
  (forall b, b <> a -> qval q' b = qval q b) -> q_now q' = q_now q ->
  rep T (modify (render K a) x v) q'.
Proof.
  intros [Hn Hv Ht] Hx Hb Hq. split.
  - by rewrite now_modify, Hn.
  - intros b. destruct (decide (b = a)) as [->|Hne].
    + by rewrite look_modify_eq.
    + rewrite look_modify_ne by by apply render_ne. by rewrite Hb.
  - intros HT b Hb'. destruct (decide (b = a)) as [->|Hne].
    + rewrite deadline_modify_eq. by apply Ht.
    + rewrite deadline_modify_ne by by apply render_ne. by apply Ht.
Qed.

Lemma rep_put v q q' a x dl :
  rep T v q -> denotes (Some x) (qval q' a) ->
  (forall b, b <> a -> qval q' b = qval q b) -> q_now q' = q_now q ->
  (forall t, dl = Some t -> q_now q < t) ->
  (T = false -> is_idem a = false -> dl = None) ->
  rep T (put (render K a) x dl v) q'.
Proof.
  intros [Hn Hv Ht] Hx Hb Hq Hdl HT. split.
  - by rewrite now_put, Hn.
  - intros b. destruct (decide (b = a)) as [->|Hne].
    + destruct dl as [t|]; [|by rewrite look_put_None].
      rewrite look_put_Some, (proj2 (Z.ltb_lt _ _)); [done|].
      rewrite Hn. by apply Hdl.
    + rewrite look_put_ne by by apply render_ne. by rewrite Hb.
  - intros HT' b Hb'. destruct (decide (b = a)) as [->|Hne].
    + rewrite HT by done. by rewrite deadline_put_None.
    + rewrite deadline_put_ne by by apply render_ne. by apply Ht.
Qed.

Lemma rep_remove v q q' a :
  rep T v q -> denotes None (qval q' a) ->
  (forall b, b <> a -> qval q' b = qval q b) -> q_now q' = q_now q ->
  rep T (remove (render K a) v) q'.
Proof.
  intros [Hn Hv Ht] Hx Hb Hq. split.
  - by rewrite now_remove, Hn.
  - intros b. destruct (decide (b = a)) as [->|Hne].
    + by rewrite look_remove_eq.
    + rewrite look_remove_ne by by apply render_ne. by rewrite Hb.
  - intros HT b Hb'. destruct (decide (b = a)) as [->|Hne].
    + by rewrite deadline_remove_eq.
    + rewrite deadline_remove_ne by by apply render_ne. by apply Ht.
Qed.

Lemma rep_hash v q a h : rep T v q -> qval q a = AHash h -> get_hash (render K a) v = Some h.
Proof. intros Hr Ha. pose proof (rep_val _ _ _ Hr a) as H. by rewrite Ha in H. Qed.
Lemma rep_zset v q a z : rep T v q -> qval q a = AZset z -> get_zset (render K a) v = Some z.
Proof. intros Hr Ha. pose proof (rep_val _ _ _ Hr a) as H. by rewrite Ha in H. Qed.
Lemma rep_stream v q a s :
  rep T v q -> qval q a = AStream s -> get_stream (render K a) v = Some s.
Proof. intros Hr Ha. pose proof (rep_val _ _ _ Hr a) as H. by rewrite Ha in H. Qed.
Lemma rep_str v q a s : rep T v q -> qval q a = AStr s -> get_str (render K a) v = Some s.
Proof. intros Hr Ha. pose proof (rep_val _ _ _ Hr a) as H. by rewrite Ha in H. Qed.

(** A string key exists exactly when its value is known. *)
Lemma rep_exists v q a s :
  rep T v q -> qval q a = AStr s -> bool_decide (is_Some (look (render K a) v)) = bool_decide (is_Some s).
Proof.
  intros Hr Ha. pose proof (rep_val _ _ _ Hr a) as H. rewrite Ha in H.
  apply bool_decide_ext. cbn in H.
  destruct (look _ v) as [[]|], s; simplify_eq; split; intros [x Hx]; eauto; done.
Qed.
End Coupling.

(** ** One lemma per command and key *)
Ltac qval_other :=
  let b := fresh "b" in
  intros b ?; destruct b; cbn; try done; try congruence.

Section Commands.
Context (K : Keys.t) (G : string) (T : bool).
Abbreviation rep := (rep K G T).
Implicit Types (v : rview) (q : queue).

Lemma rep_get_group v q :
  rep v q -> get_group (Keys.stream K) G v =
    Some (q_str G q, Group (q_ld q) (q_pel q) (q_cons q)).
Proof.
  intros Hr. pose proof (rep_val _ _ _ _ _ Hr KStream) as H. cbn in H.
  unfold get_group. change (Keys.stream K) with (render K KStream).
  destruct (look _ v) as [[]|]; simplify_eq.
  cbn. by rewrite lookup_singleton_eq.
Qed.

Lemma q_str_group q x :
  set_group G x (q_str G q) =
    q_str G (with_group (last_delivered x) (pel x) (consumers x) q).
Proof.
  unfold set_group, q_str. cbn. rewrite insert_singleton_eq. by destruct x.
Qed.

Lemma rep_modify_group v q x :
  rep v q ->
  rep (modify_group (Keys.stream K) G (q_str G q) x v)
      (with_group (last_delivered x) (pel x) (consumers x) q).
Proof.
  intros Hr. unfold modify_group. change (Keys.stream K) with (render K KStream).
  apply (rep_modify K G T v q _ KStream); [done| |by qval_other|done].
  by rewrite q_str_group.
Qed.

Lemma rep_time v q r v' :
  rep v q -> doc TIME v r v' ->
  exists t, r = Ok t /\ lua_now_ms t = q_now q /\ v' = v.
Proof.
  intros Hr [-> ->]. eexists. split; [done|]. split; [|done].
  rewrite <- (rep_now _ _ _ _ _ Hr). unfold lua_now_ms, now_ms. cbn.
  rewrite (Z.div_mod (now_us v) 1000000) at 3 by done.
  replace (1000000 * (now_us v `div` 1000000) + now_us v `mod` 1000000)
    with (now_us v `mod` 1000000 + (now_us v `div` 1000000 * 1000) * 1000) by lia.
  rewrite Z.div_add by done. lia.
Qed.

(** Counters. *)
Lemma rep_incr v q r v' f n :
  rep v q -> doc (HINCRBY (Keys.stats K) f n) v r v' ->
  exists z, r = Ok z /\ rep v' (q_incr f n q).
Proof.
  intros Hr Hd. change (Keys.stats K) with (render K KStats) in Hd. cbn in Hd.
  rewrite (rep_hash K G T v q KStats _ Hr eq_refl), lookup_fmap in Hd.
  assert (Hi : int_of_str (default "0"%string (str_of_Z <$> q_stats q !! f)) =
               Some (default 0 (q_stats q !! f))).
  { destruct (q_stats q !! f); cbn; [apply int_of_str_of_Z|done]. }
  rewrite Hi in Hd. destruct Hd as [-> ->]. eexists. split; [done|].
  eapply (rep_modify K G T v q _ KStats); [done| |by qval_other|done].
  cbn. by rewrite fmap_insert.
Qed.

Lemma rep_hist v q r v' f n :
  rep v q -> doc (HINCRBY (Keys.reclaims K) f n) v r v' ->
  exists z, r = Ok z /\ rep v' (q_hist f n q).
Proof.
  intros Hr Hd. change (Keys.reclaims K) with (render K KReclaims) in Hd. cbn in Hd.
  rewrite (rep_hash K G T v q KReclaims _ Hr eq_refl), lookup_fmap in Hd.
  assert (Hi : int_of_str (default "0"%string (str_of_Z <$> q_reclaims q !! f)) =
               Some (default 0 (q_reclaims q !! f))).
  { destruct (q_reclaims q !! f); cbn; [apply int_of_str_of_Z|done]. }
  rewrite Hi in Hd. destruct Hd as [-> ->]. eexists. split; [done|].
  eapply (rep_modify K G T v q _ KReclaims); [done| |by qval_other|done].
  cbn. by rewrite fmap_insert.
Qed.

(** The terminal record. *)
Lemma rep_hget v q r v' j f :
  rep v q -> doc (HGET (Keys.done K j) f) v r v' -> r = Ok (q_rec j q !! f) /\ v' = v.
Proof.
  intros Hr [-> Hd]. change (Keys.done K j) with (render K (KDone j)) in Hd.
  by rewrite (rep_hash K G T v q (KDone j) _ Hr eq_refl) in Hd.
Qed.

Lemma rep_hset v q r v' j fvs :
  rep v q -> doc (HSET (Keys.done K j) fvs) v r v' ->
  r = Ok tt /\ rep v' (with_done (<[j := hset fvs (q_rec j q)]> (q_done q)) q).
Proof.
  intros Hr Hd. change (Keys.done K j) with (render K (KDone j)) in Hd. cbn in Hd.
  rewrite (rep_hash K G T v q (KDone j) _ Hr eq_refl) in Hd.
  destruct Hd as [-> ->]. split; [done|].
  eapply (rep_modify K G T v q _ (KDone j)); [done| | |done].
  - cbn. unfold q_rec. cbn. by rewrite lookup_insert_eq.
  - qval_other. unfold q_rec. cbn. by rewrite lookup_insert_ne by congruence.
Qed.

Lemma rep_del_done v q r v' j :
  rep v q -> doc (DEL (Keys.done K j)) v r v' ->
  r = Ok tt /\ rep v' (with_done (delete j (q_done q)) q).
Proof.
  intros Hr [-> ->]. split; [done|]. change (Keys.done K j) with (render K (KDone j)).
  eapply (rep_remove K G T v q _ (KDone j)); [done| | |done].
  - cbn. unfold q_rec. cbn. by rewrite lookup_delete_eq.
  - qval_other. unfold q_rec. cbn. by rewrite lookup_delete_ne by congruence.
Qed.

Lemma rep_expire v q r v' j n :
  rep v q -> 0 < n -> T = true ->
  doc (EXPIRE (Keys.done K j) n) v r v' -> r = Ok tt /\ rep v' q.
Proof.
  intros Hr Hn HT [-> Hd]. split; [done|].
  change (Keys.done K j) with (render K (KDone j)) in Hd.
  pose proof (rep_val _ _ _ _ _ Hr (KDone j)) as Hv.
  destruct (look _ v) as [x|]; subst v'; [|done].
  eapply (rep_put K G T v q q (KDone j)); try done.
  - intros t [= <-]. rewrite (rep_now _ _ _ _ _ Hr). lia.
  - by rewrite HT.
Qed.

(** The stream. *)
Lemma rep_xlen v q r v' :
  rep v q -> doc (XLEN (Keys.stream K)) v r v' ->
  r = Ok (Z.of_nat (length (q_entries q))) /\ v' = v.
Proof.
  intros Hr [-> Hd]. change (Keys.stream K) with (render K KStream) in Hd.
  by rewrite (rep_stream K G T v q KStream _ Hr eq_refl) in Hd.
Qed.

Lemma rep_xadd v q r v' fs :
  rep v q -> doc (XADD (Keys.stream K) fs) v r v' -> valid_fields fs = true ->
  exists i, fresh_id (q_last q) i /\ r = Ok i /\ rep v' (q_add i fs q).
Proof.
  intros Hr Hd Hfs. change (Keys.stream K) with (render K KStream) in Hd. cbn in Hd.
  rewrite (rep_stream K G T v q KStream _ Hr eq_refl), Hfs in Hd.
  destruct Hd as (i & Hi & -> & ->). exists i. split; [done|split; [done|]].
  by eapply (rep_modify K G T v q _ KStream); [done| |by qval_other|done].
Qed.

Lemma rep_look_stream v q :
  rep v q -> look (Keys.stream K) v = Some (RStream (q_str G q)).
Proof.
  intros Hr. pose proof (rep_get_group v q Hr) as Hg. unfold get_group in Hg.
  destruct (look _ v) as [[]|]; try done.
  destruct (groups s !! G) as [x|]; [|done]. cbn in Hg. by injection Hg as -> _.
Qed.

Lemma s_ack_q_str i q : s_ack G i (q_str G q) = q_str G (q_ack i q).
Proof.
  unfold s_ack, q_str at 1. cbn [groups]. rewrite lookup_singleton_eq.
  by rewrite q_str_group.
Qed.

Lemma rep_xack v q r v' i :
  rep v q -> doc (XACK (Keys.stream K) G i) v r v' -> r = Ok tt /\ rep v' (q_ack i q).
Proof.
  intros Hr Hd. cbn in Hd. rewrite (rep_look_stream v q Hr) in Hd.
  destruct Hd as [-> ->]. split; [done|]. rewrite s_ack_q_str.
  by eapply (rep_modify K G T v q _ KStream); [done| |by qval_other|done].
Qed.

Lemma rep_xdel v q r v' i :
  rep v q -> doc (XDEL (Keys.stream K) i) v r v' -> r = Ok tt /\ rep v' (q_xdel i q).
Proof.
  intros Hr Hd. cbn in Hd. rewrite (rep_look_stream v q Hr) in Hd.
  destruct Hd as [-> ->]. split; [done|].
  by eapply (rep_modify K G T v q _ KStream); [done| |by qval_other|done].
Qed.

(** The entries with one id (at most one, [Well_formed]). *)
Lemma in_range_one i es :
  in_range (BIncl i) (BIncl i) es = filter (fun e => e.1 = i) es.
Proof.
  apply list_filter_iff. intros [j fs]. cbn. split.
  - intros [H1 H2]. by apply eid_le_antisym.
  - intros ->. split; apply eid_le_refl.
Qed.

Lemma rep_xrange v q r v' i :
  rep v q -> doc (XRANGE (Keys.stream K) (BIncl i) (BIncl i) None) v r v' ->
  r = Ok (filter (fun e => e.1 = i) (q_entries q)) /\ v' = v.
Proof.
  intros Hr [-> Hd]. change (Keys.stream K) with (render K KStream) in Hd.
  rewrite (rep_stream K G T v q KStream _ Hr eq_refl) in Hd. cbn [opt_take] in Hd.
  by rewrite in_range_one in Hd.
Qed.

(** The pending list. *)
Definition q_row q i le : pending_row :=
  Row i (owner le) (q_now q - since_ms le) (deliveries le).

Lemma rep_xpending v q r v' i :
  rep v q -> doc (XPENDING (Keys.stream K) G (BIncl i) (BIncl i) 1 None) v r v' ->
  r = Ok (match q_pel q !! i with Some le => [q_row q i le] | None => [] end) /\ v' = v.
Proof.
  intros Hr [-> Hd]. split; [|done]. rewrite (rep_get_group v q Hr) in Hd.
  destruct Hd as (l & Hnd & Hl & ->). f_equal. cbn [pel] in Hl.
  assert (Hone : forall j le, (j, le) ∈ l <-> j = i /\ q_pel q !! i = Some le).
  { intros j le. rewrite Hl. cbn. split.
    - intros (Hj & H1 & H2 & _). by rewrite (eid_le_antisym _ _ H2 H1) in *.
    - intros [-> Hj]. eauto 6 using eid_le_refl. }
  destruct l as [|[j le] l].
  - destruct (q_pel q !! i) as [le|] eqn:Hi; [|done].
    assert (H : (i, le) ∈ @nil (eid * lease)) by by apply Hone. by apply elem_of_nil in H.
  - assert (H : j = i /\ q_pel q !! i = Some le) by (apply Hone; left).
    destruct H as [-> Hi]. rewrite Hi. cbn. unfold row_of, q_row.
    by rewrite (rep_now _ _ _ _ _ Hr).
Qed.

(** The rows of one consumer: none is listed exactly when it owns nothing. *)
Lemma rep_xpending_owned v q r v' c :
  rep v q -> doc (XPENDING (Keys.stream K) G BMin BMax 1 (Some c)) v r v' ->
  v' = v /\ exists l, r = Ok l /\
    (l = [] <-> forall i le, q_pel q !! i = Some le -> owner le <> c).
Proof.
  intros Hr [-> Hd]. split; [done|]. rewrite (rep_get_group v q Hr) in Hd.
  destruct Hd as (l & Hnd & Hl & ->). eexists. split; [done|]. cbn [pel] in Hl.
  split.
  - intros He i le Hi Ho. destruct l as [|[j lj] l]; [|done].
    assert (H : (i, le) ∈ @nil (eid * lease)) by by apply Hl. by apply elem_of_nil in H.
  - intros Hno. destruct l as [|[j lj] l]; [done|].
    assert (H : (j, lj) ∈ (j, lj) :: l) by left. apply Hl in H as (Hj & _ & _ & Ho).
    by destruct (Hno _ _ Hj).
Qed.

Lemma rep_xclaim_justid v q r v' c i :
  rep v q -> doc (XCLAIM_JUSTID (Keys.stream K) G c i) v r v' ->
  r = Ok tt /\ rep v' (q_see c
    match q_pel q !! i with
    | Some le => q_setpel (claim_row (q_str G q) i (Lease c (q_now q) (deliveries le))
                             (q_pel q)) q
    | None => q
    end).
Proof.
  intros Hr Hd. cbn in Hd. rewrite (rep_get_group v q Hr) in Hd. cbn [pel] in Hd.
  destruct Hd as [-> Hd]. split; [done|]. rewrite (rep_now _ _ _ _ _ Hr) in Hd.
  destruct (q_pel q !! i) as [le|]; subst v'; by apply rep_modify_group.
Qed.

Lemma rep_xclaim_restore v q r v' c i idle n :
  rep v q -> doc (XCLAIM_RESTORE (Keys.stream K) G c i idle n) v r v' ->
  r = Ok tt /\ rep v' (q_see c
    match q_pel q !! i with
    | Some le => q_setpel (claim_row (q_str G q) i (Lease c (q_now q - idle) n)
                             (q_pel q)) q
    | None => q
    end).
Proof.
  intros Hr Hd. cbn in Hd. rewrite (rep_get_group v q Hr) in Hd. cbn [pel] in Hd.
  destruct Hd as [-> Hd]. split; [done|]. rewrite (rep_now _ _ _ _ _ Hr) in Hd.
  destruct (q_pel q !! i) as [le|]; subst v'; by apply rep_modify_group.
Qed.

Definition q_group q : group := Group (q_ld q) (q_pel q) (q_cons q).

Lemma rep_xautoclaim v q r v' c m start n :
  rep v q -> doc (XAUTOCLAIM (Keys.stream K) G c m start n) v r v' ->
  exists next claimed deleted,
    autoclaim_ok (q_str G q) (q_group q) (q_now q) m start n next claimed deleted /\
    r = Ok (next, claimed, deleted) /\
    rep v' (q_see c (q_setpel
      (drop_all deleted (take_over c (q_now q) claimed (q_pel q))) q)).
Proof.
  intros Hr Hd. cbn in Hd. rewrite (rep_get_group v q Hr) in Hd. cbn [pel] in Hd.
  rewrite (rep_now _ _ _ _ _ Hr) in Hd.
  destruct Hd as (next & claimed & deleted & Hok & -> & ->).
  exists next, claimed, deleted. split; [done|]. split; [done|].
  by apply rep_modify_group.
Qed.

(** The read of new entries. *)
Definition q_new (n : nat) q : list (eid * list string) :=
  take n (filter (fun e => eid_lt (q_ld q) e.1) (q_entries q)).
Definition q_read (c : string) (n : nat) q : queue :=
  with_group (last_of (q_new n q) (q_ld q)) (give c (q_now q) (q_new n q) (q_pel q))
    (<[c := q_now q]> (q_cons q)) q.

Lemma rep_xreadgroup v q r v' c n :
  rep v q -> doc (XREADGROUP (Keys.stream K) G c n) v r v' ->
  r = Ok (q_new n q) /\ rep v' (q_read c n q).
Proof.
  intros Hr Hd. cbn in Hd. rewrite (rep_get_group v q Hr) in Hd. cbn [pel] in Hd.
  rewrite (rep_now _ _ _ _ _ Hr) in Hd. destruct Hd as [-> ->]. split; [done|].
  by apply rep_modify_group.
Qed.

Lemma rep_xinfo v q r v' :
  rep v q -> doc (XINFO_CONSUMERS (Keys.stream K) G) v r v' ->
  v' = v /\ exists l, r = Ok l /\ NoDup (ci_name <$> l) /\
    (forall n, n ∈ ci_name <$> l <-> is_Some (q_cons q !! n)) /\
    (forall i, i ∈ l -> q_cons q !! ci_name i = Some (q_now q - ci_idle i)).
Proof.
  intros Hr [-> Hd]. split; [done|]. rewrite (rep_get_group v q Hr) in Hd.
  rewrite (rep_now _ _ _ _ _ Hr) in Hd. destruct Hd as (l & -> & Hl). by exists l.
Qed.

Lemma rep_delconsumer v q r v' c :
  rep v q -> doc (XGROUP_DELCONSUMER (Keys.stream K) G c) v r v' ->
  r = Ok tt /\ rep v' (with_group (q_ld q) (filter (fun il => owner il.2 <> c) (q_pel q))
                         (delete c (q_cons q)) q).
Proof.
  intros Hr Hd. cbn in Hd. rewrite (rep_get_group v q Hr) in Hd. cbn [pel] in Hd.
  destruct Hd as [-> ->]. split; [done|]. by apply rep_modify_group.
Qed.

(** The logs and the dead-letter stream. *)
Lemma rep_xadd_results v q r v' fs :
  rep v q -> doc (XADD (Keys.results K) fs) v r v' -> valid_fields fs = true ->
  exists i, fresh_id (last_id (q_results q)) i /\ r = Ok i /\
    rep v' (with_results (s_add i fs (q_results q)) q).
Proof.
  intros Hr Hd Hfs. change (Keys.results K) with (render K KResults) in Hd. cbn in Hd.
  rewrite (rep_stream K G T v q KResults _ Hr eq_refl), Hfs in Hd.
  destruct Hd as (i & Hi & -> & ->). exists i. split; [done|split; [done|]].
  by eapply (rep_modify K G T v q _ KResults); [done| |by qval_other|done].
Qed.

Lemma rep_xadd_dead v q r v' fs :
  rep v q -> doc (XADD (Keys.dead K) fs) v r v' -> valid_fields fs = true ->
  exists i, fresh_id (last_id (q_dead q)) i /\ r = Ok i /\
    rep v' (with_dead (s_add i fs (q_dead q)) q).
Proof.
  intros Hr Hd Hfs. change (Keys.dead K) with (render K KDead) in Hd. cbn in Hd.
  rewrite (rep_stream K G T v q KDead _ Hr eq_refl), Hfs in Hd.
  destruct Hd as (i & Hi & -> & ->). exists i. split; [done|split; [done|]].
  by eapply (rep_modify K G T v q _ KDead); [done| |by qval_other|done].
Qed.

Lemma rep_xadd_effects v q r v' fs :
  rep v q -> doc (XADD (Keys.effects K) fs) v r v' -> valid_fields fs = true ->
  exists i, fresh_id (last_id (q_effects q)) i /\ r = Ok i /\
    rep v' (with_effects (s_add i fs (q_effects q)) (q_marks q) q).
Proof.
  intros Hr Hd Hfs. change (Keys.effects K) with (render K KEffects) in Hd. cbn in Hd.
  rewrite (rep_stream K G T v q KEffects _ Hr eq_refl), Hfs in Hd.
  destruct Hd as (i & Hi & -> & ->). exists i. split; [done|split; [done|]].
  by eapply (rep_modify K G T v q _ KEffects); [done| |by qval_other|done].
Qed.

Lemma rep_xdel_dead v q r v' i :
  rep v q -> doc (XDEL (Keys.dead K) i) v r v' ->
  r = Ok tt /\ rep v' (with_dead (s_del i (q_dead q)) q).
Proof.
  intros Hr Hd. change (Keys.dead K) with (render K KDead) in Hd. cbn in Hd.
  pose proof (rep_val _ _ _ _ _ Hr KDead) as Hv. cbn in Hv.
  destruct (look _ v) as [[]|] eqn:Hl; try done.
  - destruct Hd as [-> ->]. split; [done|]. injection Hv as <-.
    by eapply (rep_modify K G T v q _ KDead); [done| |by qval_other|done].
  - destruct Hd as [-> ->]. split; [done|]. injection Hv as Hv.
    destruct q. cbn in Hv. subst. done.
Qed.

Lemma rep_xrange_dead v q r v' i :
  rep v q -> doc (XRANGE (Keys.dead K) (BIncl i) (BIncl i) None) v r v' ->
  r = Ok (filter (fun e => e.1 = i) (entries (q_dead q))) /\ v' = v.
Proof.
  intros Hr [-> Hd]. change (Keys.dead K) with (render K KDead) in Hd.
  rewrite (rep_stream K G T v q KDead _ Hr eq_refl) in Hd. cbn [opt_take] in Hd.
  by rewrite in_range_one in Hd.
Qed.

(** The delayed set. *)
Lemma rep_zcard v q r v' :
  rep v q -> doc (ZCARD (Keys.delayed K)) v r v' ->
  r = Ok (Z.of_nat (size (q_delayed q))) /\ v' = v.
Proof.
  intros Hr [-> Hd]. change (Keys.delayed K) with (render K KDelayed) in Hd.
  by rewrite (rep_zset K G T v q KDelayed _ Hr eq_refl) in Hd.
Qed.

Lemma rep_zadd v q r v' sc m :
  rep v q -> doc (ZADD (Keys.delayed K) sc m) v r v' ->
  r = Ok tt /\ rep v' (with_delayed (<[m := sc]> (q_delayed q)) q).
Proof.
  intros Hr Hd. change (Keys.delayed K) with (render K KDelayed) in Hd. cbn in Hd.
  rewrite (rep_zset K G T v q KDelayed _ Hr eq_refl) in Hd.
  destruct Hd as [-> ->]. split; [done|].
  by eapply (rep_modify K G T v q _ KDelayed); [done| |by qval_other|done].
Qed.

Lemma rep_zrem v q r v' m :
  rep v q -> doc (ZREM (Keys.delayed K) m) v r v' ->
  r = Ok tt /\ rep v' (with_delayed (delete m (q_delayed q)) q).
Proof.
  intros Hr Hd. change (Keys.delayed K) with (render K KDelayed) in Hd. cbn in Hd.
  rewrite (rep_zset K G T v q KDelayed _ Hr eq_refl) in Hd.
  destruct Hd as [-> ->]. split; [done|]. case_decide as Hz.
  - by eapply (rep_remove K G T v q _ KDelayed); [done|cbn; by rewrite Hz|by qval_other|].
  - by eapply (rep_modify K G T v q _ KDelayed); [done| |by qval_other|done].
Qed.

(** The members due now, oldest first, at most [n]. *)
Definition due_list (n : nat) q (l : list string) : Prop :=
  exists ms, Permutation ms (filter (fun m => m.2 <= q_now q) (map_to_list (q_delayed q))) /\
    StronglySorted (fun a b => a.2 <= b.2) ms /\ l = take n ms.*1.

Lemma rep_zrange v q r v' n :
  rep v q -> doc (ZRANGE_DUE (Keys.delayed K) (q_now q) n) v r v' ->
  v' = v /\ exists l, r = Ok l /\ due_list n q l.
Proof.
  intros Hr [-> Hd]. change (Keys.delayed K) with (render K KDelayed) in Hd.
  rewrite (rep_zset K G T v q KDelayed _ Hr eq_refl) in Hd. split; [done|].
  destruct Hd as (l & Hp & Hs & ->). eexists. split; [done|]. by exists l.
Qed.

(** The backpressure flag. *)
Lemma rep_exists_full v q r v' :
  rep v q -> doc (EXISTS (Keys.full K)) v r v' -> r = Ok (q_full q) /\ v' = v.
Proof.
  intros Hr [-> ->]. split; [|done]. change (Keys.full K) with (render K KFull).
  rewrite (rep_exists K G T v q KFull _ Hr eq_refl). by destruct (q_full q).
Qed.

Lemma rep_del_full v q r v' :
  rep v q -> doc (DEL (Keys.full K)) v r v' -> r = Ok tt /\ rep v' (with_full false q).
Proof.
  intros Hr [-> ->]. split; [done|]. change (Keys.full K) with (render K KFull).
  by eapply (rep_remove K G T v q _ KFull); [done| |by qval_other|].
Qed.

Lemma rep_set_full v q r v' :
  rep v q -> doc (SET (Keys.full K) "1" false None) v r v' ->
  r = Ok true /\ rep v' (with_full true q).
Proof.
  intros Hr [-> ->]. split; [done|]. change (Keys.full K) with (render K KFull).
  by eapply (rep_put K G T v q _ KFull); [done| |by qval_other|..].
Qed.

(** Idempotency keys. *)
Lemma rep_get_idem v q r v' i :
  rep v q -> doc (GET (Keys.idem K i)) v r v' -> r = Ok (q_idem q !! i) /\ v' = v.
Proof.
  intros Hr [-> Hd]. change (Keys.idem K i) with (render K (KIdem i)) in Hd.
  by rewrite (rep_str K G T v q (KIdem i) _ Hr eq_refl) in Hd.
Qed.

Lemma rep_set_idem v q r v' i j ttl :
  rep v q -> doc (SET (Keys.idem K i) j true (Some ttl)) v r v' ->
  q_idem q !! i = None -> 0 < ttl ->
  r = Ok true /\ rep v' (with_idem (<[i := j]> (q_idem q)) q).
Proof.
  intros Hr Hd Hi Ht. change (Keys.idem K i) with (render K (KIdem i)) in Hd. cbn in Hd.
  rewrite (rep_exists K G T v q (KIdem i) _ Hr eq_refl), Hi in Hd.
  destruct Hd as [-> ->]. split; [done|].
  eapply (rep_put K G T v q _ (KIdem i)); [done| | |done| |done].
  - cbn. by rewrite lookup_insert_eq.
  - qval_other. by rewrite lookup_insert_ne by congruence.
  - intros t [= <-]. rewrite (rep_now _ _ _ _ _ Hr). lia.
Qed.

(** Effect markers. *)
Lemma rep_set_mark v q r v' e ex :
  rep v q -> doc (SET (Keys.ledger K e) "1" true ex) v r v' ->
  (forall t, ex = Some t -> 0 < t /\ T = true) ->
  (e ∈ q_marks q /\ r = Ok false /\ v' = v) \/
  ((e ∉ q_marks q) /\ r = Ok true /\
    rep v' (with_effects (q_effects q) ({[e]} ∪ q_marks q) q)).
Proof.
  intros Hr Hd Hex. change (Keys.ledger K e) with (render K (KLedger e)) in Hd. cbn in Hd.
  rewrite (rep_exists K G T v q (KLedger e) _ Hr eq_refl) in Hd.
  destruct (decide (e ∈ q_marks q)) as [He|He]; cbn in Hd; destruct Hd as [-> ->];
    [by left|right]. split; [done|split; [done|]].
  eapply (rep_put K G T v q _ (KLedger e)); [done| | |done| |].
  - cbn. by rewrite decide_True by set_solver.
  - qval_other. f_equal. apply decide_ext. set_solver.
  - intros t Ht. destruct ex as [z|]; [|done]. cbn in Ht. injection Ht as <-.
    destruct (Hex z eq_refl). rewrite (rep_now _ _ _ _ _ Hr). lia.
  - intros HT _. destruct ex as [z|]; [|done]. destruct (Hex z eq_refl). congruence.
Qed.
End Commands.
