(* ===== verification/Ops.v ===== *)
(** What each script promises: one atomic operation on the abstract queue.

    Every operation is a total function of the queue and of what Redis picks (a
    fresh entry id, the members that are due, the entries an XAUTOCLAIM pass
    takes); it returns the new queue and the script's reply. Refine.v proves that
    the scripts implement these operations; Invariants.v reasons about them. *)
From S2P Require Import Prelude Effects Redis Keys LuaScripts RedisRules Queue.

#[local] Open Scope Z_scope.

(** Undelivered, in flight, and waiting for a retry. *)
Definition q_depth (q : queue) : Z :=
  Z.of_nat (length (q_entries q)) + Z.of_nat (size (q_delayed q)).

(** The backpressure flag after an admission check (hysteresis). *)
Definition next_full (high low : Z) (q : queue) : bool :=
  if q_full q then negb (q_depth q <? low) else high <=? q_depth q.

Definition q_enqueue (idem : option string) (j : string) (high low : Z)
    (count_as : string) (args : list string) (i : eid) (q : queue) :
    queue * (string * Z * Z) :=
  match idem ≫= (fun k => q_idem q !! k) with
  | Some original => (q, (original, 0, -1))
  | None =>
      let q1 := with_full (next_full high low q) q in
      if next_full high low q then
        (if decide (count_as = "none"%string) then q1 else q_incr count_as 1 q1,
         (""%string, -1, q_depth q))
      else
        let q2 := match idem with
                  | Some k => with_idem (<[k := j]> (q_idem q1)) q1
                  | None => q1
                  end in
        (q_add i (args ++ ["enqueued_at_ms"; str_of_Z (q_now q)]%string) q2,
         (j, 1, q_depth q + 1))
  end.

(** A delivery whose job already has a terminal record: dropped and counted. *)
Definition q_suppress (e : eid) (q : queue) : queue :=
  q_incr "duplicates_suppressed" 1 (q_drop e q).

(** Take a DEAD job out of the dead-letter stream and clear its record. *)
Definition undead (j : string) (q : queue) : queue :=
  let q1 := match q_rec j q !! "dead_entry_id"%string ≫= eid_of_str with
            | Some d => with_dead (s_del d (q_dead q)) q
            | None => q
            end in
  with_done (delete j (q_done q1)) q1.

Definition success_record (res worker : string) (now : Z) : list (string * string) :=
  [("state", "SUCCEEDED"); ("result", res); ("finished_at_ms", str_of_Z now);
   ("worker_id", worker)]%string.
Definition result_row (j worker enq : string) (now : Z) : list string :=
  ["job_id"; j; "worker_id"; worker; "enqueued_at_ms"; enq;
   "finished_at_ms"; str_of_Z now]%string.

Definition record_success (e : eid) (j res worker enq : string) (i : eid) (q : queue) :
    queue :=
  let q2 := with_done (<[j := hset (success_record res worker (q_now q)) (q_rec j q)]>
                         (q_done q)) q in
  let q3 := with_results (s_add i (result_row j worker enq (q_now q)) (q_results q2)) q2 in
  q_incr "processed" 1 (q_drop e q3).

Definition q_commit (e : eid) (j res worker enq : string) (i : eid) (q : queue) :
    queue * Z :=
  if decide (q_state j q = Some "SUCCEEDED"%string) then (q_suppress e q, 0)
  else if decide (q_state j q = Some "DEAD"%string) then
    (record_success e j res worker enq i (q_incr "late_successes" 1 (undead j q)), 2)
  else (record_success e j res worker enq i q, 1).

(** The owner check of heartbeat.lua, retry.lua and dead.lua. *)
Definition owns (w : string) (e : eid) (q : queue) : option lease :=
  le ← q_pel q !! e; if decide (owner le = w) then Some le else None.

Definition lease_lost (q : queue) : queue * string :=
  (q_incr "lease_lost" 1 q, "LEASE_LOST"%string).

Definition q_heartbeat (e : eid) (w : string) (q : queue) : queue * string :=
  match owns w e q with
  | None => lease_lost q
  | Some le =>
      (q_incr "heartbeats" 1
         (q_see w (q_setpel (<[e := Lease w (q_now q) (deliveries le)]> (q_pel q)) q)),
       "OK"%string)
  end.

(** The fields of the entry with an id. *)
Definition fields_at (e : eid) (es : list (eid * list string)) : option (list string) :=
  snd <$> head (filter (fun x => x.1 = e) es).

Definition count_timeout (timed_out : string) (q : queue) : queue :=
  if decide (timed_out = "1"%string) then q_incr "timeouts" 1 q else q.

Definition q_retry `{CJson} (e : eid) (w : string) (j next_attempt : string)
    (delay_ms : Z) (timed_out : string) (q : queue) : queue * result string string :=
  match owns w e q with
  | None => (q_incr "lease_lost" 1 q, Ok "LEASE_LOST"%string)
  | Some _ =>
      if truthy (q_state j q) then (q_suppress e q, Ok "TERMINAL"%string)
      else match fields_at e (q_entries q) with
      | None => (q, Err ("ENTRY_MISSING " +:+ str_of_eid e)%string)
      | Some fs =>
          let m := cjson_encode (set_attempt next_attempt fs) in
          let q1 := with_delayed (<[m := q_now q + delay_ms]> (q_delayed q)) q in
          (count_timeout timed_out (q_incr "retried" 1 (q_drop e q1)), Ok "OK"%string)
      end
  end.

Definition dlq_meta (e : eid) (w j reason error attempts : string) (n now : Z) :
    list string :=
  ["dlq_job_id"; j; "dlq_reason"; reason; "dlq_error"; error;
   "dlq_attempts"; attempts; "dlq_deliveries"; str_of_Z n;
   "dlq_dead_at_ms"; str_of_Z now; "dlq_worker_id"; w;
   "dlq_source_entry_id"; str_of_eid e]%string.
Definition dead_record (d : eid) (w reason error : string) (now : Z) :
    list (string * string) :=
  [("state", "DEAD"); ("dead_entry_id", str_of_eid d); ("reason", reason);
   ("error", error); ("finished_at_ms", str_of_Z now); ("worker_id", w)]%string.

Definition q_dead_letter (e : eid) (w j reason error attempts timed_out : string)
    (d : eid) (q : queue) : queue * string :=
  match owns w e q with
  | None => lease_lost q
  | Some le =>
      if truthy (q_state j q) then (q_suppress e q, "TERMINAL"%string)
      else
        let fs := default [] (fields_at e (q_entries q)) in
        let q1 := with_dead (s_add d (fs ++ dlq_meta e w j reason error attempts
                                        (deliveries le) (q_now q)) (q_dead q)) q in
        let q2 := with_done (<[j := hset (dead_record d w reason error (q_now q))
                                      (q_rec j q1)]> (q_done q1)) q1 in
        (count_timeout timed_out (q_incr "dead" 1 (q_drop e q2)), "OK"%string)
  end.

Definition q_requeue (j : string) (i : eid) (q : queue) : queue * result string Z :=
  if decide (q_state j q = Some "DEAD"%string) then
    match q_rec j q !! "dead_entry_id"%string ≫= eid_of_str with
    | None => (q, Err "no dead_entry_id"%string)
    | Some d =>
        match fields_at d (entries (q_dead q)) with
        | None => (q, Ok 0)
        | Some fs =>
            if decide (strip_dlq fs = [])
            then (q, Err ("NOTHING_TO_REQUEUE " +:+ j)%string)
            else (q_incr "requeued" 1
                    (undead j (q_add i (strip_dlq fs) q)), Ok 1)
        end
    end
  else (q, Ok 0).

(** Move one due member back to the stream under id [i]. *)
Definition q_move (m : string) (fs : list string) (i : eid) (q : queue) : queue :=
  q_add i fs (with_delayed (delete m (q_delayed q)) q).

Definition q_ledger (e : string) (extra : list string) (i : eid) (q : queue) : queue * Z :=
  if decide (e ∈ q_marks q) then (q_incr "effects_suppressed" 1 q, 0)
  else (q_incr "effects_applied" 1
          (with_effects (s_add i ("key"%string :: e :: extra) (q_effects q))
             ({[e]} ∪ q_marks q) q), 1).

(** Counters of a batch are only touched when the batch is not empty. *)
Definition incr_if (f : string) (n : nat) (q : queue) : queue :=
  if (0 <? n)%nat then q_incr f (Z.of_nat n) q else q.

(** One claimed entry: [slots] suspects may still be taken. *)
Definition is_suspect (threshold max_deliveries n : Z) : bool :=
  (threshold <=? n) && (n <=? max_deliveries).

Definition q_keep (w : string) (min_idle threshold maxd : Z) (e : eid * list string)
    (st : queue * (Z * list claimed_entry)) : queue * (Z * list claimed_entry) :=
  let '(q, (slots, out)) := st in
  let n := from_option deliveries 0 (q_pel q !! e.1) in
  let suspect := is_suspect threshold maxd n in
  if suspect && (slots =? 0) then
    (q_see w (q_setpel (<[e.1 := Lease w (q_now q - min_idle) (n - 1)]> (q_pel q)) q),
     (slots, out))
  else (q_hist (str_of_Z n) 1 q,
        (if suspect then slots - 1 else slots, (out ++ [(e.1, e.2, n)])%list)).

Definition q_reclaim (w : string) (min_idle slots threshold maxd : Z)
    (claimed : list (eid * list string)) (q : queue) : queue * list claimed_entry :=
  let q1 := q_see w (q_setpel (take_over w (q_now q) claimed (q_pel q)) q) in
  let '(q2, (_, out)) := foldl (fun st e => q_keep w min_idle threshold maxd e st)
                           (q1, (slots, [])) claimed in
  (incr_if "reclaimed" (length out) q2, out).

(** Forget consumers (only those that own nothing are ever forgotten). *)
Definition q_forget (names : list string) (q : queue) : queue :=
  with_group (q_ld q) (q_pel q) (foldl (fun m n => delete n m) (q_cons q) names) q.

(** [moved l q q']: the members [l] moved to the stream one by one. *)
Inductive moved `{CJson} : list string -> queue -> queue -> Prop :=
  | moved_nil q : moved [] q q
  | moved_cons m l fs i q q' :
      cjson_decode m = Ok fs -> fresh_id (q_last q) i ->
      moved l (q_move m fs i q) q' -> moved (m :: l) q q'.
