(* ===== verification/Refine.v ===== *)
(** The scripts implement the abstract operations.

    For each script: from every view that represents a queue, every execution the
    documented behaviour of Redis allows answers what the operation of Ops.v
    answers and leaves a view that represents the operation's result. The
    hypotheses are the parts of the queue invariant (Invariants.v) a script
    relies on. *)
From S2P Require Import Prelude Effects Redis Keys LuaScripts RedisRules Queue Ops.

#[local] Open Scope Z_scope.

(** One command of a script: consume the next [Vis] node with the rule for its
    command and key. *)
Ltac lua_norm :=
  lazymatch goal with |- wp _ (call _) _ _ => unfold call | _ => idtac end;
  cbn [bind call try_catch of_result for_each].

Ltac lua_step :=
  lua_norm;
  lazymatch goal with
  | Hr : rep ?K ?G ?T ?v ?q |- wp _ (Vis ?c _) ?v _ =>
    let r := fresh "r" in let v' := fresh "v" in let Hd := fresh "Hd" in
    intros r v' Hd;
    lazymatch c with
    | TIME =>
        let t := fresh "t" in let Ht := fresh "Ht" in
        apply (rep_time K G T v q _ _ Hr) in Hd as (t & -> & Ht & ->)
    | HGET _ _ => apply (rep_hget K G T v q _ _ _ _ Hr) in Hd as [-> ->]
    | HSET _ _ => apply (rep_hset K G T v q _ _ _ _ Hr) in Hd as [-> Hd]; clear Hr
    | HINCRBY (Keys.stats _) _ _ =>
        apply (rep_incr K G T v q _ _ _ _ Hr) in Hd as (? & -> & Hd); clear Hr
    | HINCRBY (Keys.reclaims _) _ _ =>
        apply (rep_hist K G T v q _ _ _ _ Hr) in Hd as (? & -> & Hd); clear Hr
    | DEL (Keys.done _ _) => apply (rep_del_done K G T v q _ _ _ Hr) in Hd as [-> Hd]; clear Hr
    | DEL (Keys.full _) => apply (rep_del_full K G T v q _ _ Hr) in Hd as [-> Hd]; clear Hr
    | SET (Keys.full _) _ _ _ =>
        apply (rep_set_full K G T v q _ _ Hr) in Hd as [-> Hd]; clear Hr
    | EXISTS _ => apply (rep_exists_full K G T v q _ _ Hr) in Hd as [-> ->]
    | GET _ => apply (rep_get_idem K G T v q _ _ _ Hr) in Hd as [-> ->]
    | XLEN _ => apply (rep_xlen K G T v q _ _ Hr) in Hd as [-> ->]
    | ZCARD _ => apply (rep_zcard K G T v q _ _ Hr) in Hd as [-> ->]
    | XACK _ _ _ => apply (rep_xack K G T v q _ _ _ Hr) in Hd as [-> Hd]; clear Hr
    | XDEL (Keys.stream _) _ => apply (rep_xdel K G T v q _ _ _ Hr) in Hd as [-> Hd]; clear Hr
    | XDEL (Keys.dead _) _ =>
        apply (rep_xdel_dead K G T v q _ _ _ Hr) in Hd as [-> Hd]; clear Hr
    | XRANGE (Keys.stream _) _ _ _ =>
        apply (rep_xrange K G T v q _ _ _ Hr) in Hd as [-> ->]
    | XRANGE (Keys.dead _) _ _ _ =>
        apply (rep_xrange_dead K G T v q _ _ _ Hr) in Hd as [-> ->]
    | XPENDING _ _ (BIncl _) _ _ _ =>
        apply (rep_xpending K G T v q _ _ _ Hr) in Hd as [-> ->]
    | XCLAIM_JUSTID _ _ _ _ =>
        apply (rep_xclaim_justid K G T v q _ _ _ _ Hr) in Hd as [-> Hd]; clear Hr
    | XCLAIM_RESTORE _ _ _ _ _ _ =>
        apply (rep_xclaim_restore K G T v q _ _ _ _ _ _ Hr) in Hd as [-> Hd]; clear Hr
    | ZADD _ _ _ => apply (rep_zadd K G T v q _ _ _ _ Hr) in Hd as [-> Hd]; clear Hr
    | ZREM _ _ => apply (rep_zrem K G T v q _ _ _ Hr) in Hd as [-> Hd]; clear Hr
    | XGROUP_DELCONSUMER _ _ _ =>
        apply (rep_delconsumer K G T v q _ _ _ Hr) in Hd as [-> Hd]; clear Hr
    end
  end; lua_norm.

(** XADD picks a fresh id: [lua_add i Hi] names it. *)
Ltac lua_add i Hi :=
  lua_norm;
  lazymatch goal with
  | Hr : rep ?K ?G ?T ?v ?q |- wp _ (Vis (XADD (?f _) ?fs) _) ?v _ =>
    let r := fresh "r" in let v' := fresh "v" in let Hd := fresh "Hd" in
    intros r v' Hd;
    lazymatch f with
    | Keys.stream => apply (rep_xadd K G T v q _ _ _ Hr) in Hd
    | Keys.results => apply (rep_xadd_results K G T v q _ _ _ Hr) in Hd
    | Keys.dead => apply (rep_xadd_dead K G T v q _ _ _ Hr) in Hd
    | Keys.effects => apply (rep_xadd_effects K G T v q _ _ _ Hr) in Hd
    end; [destruct Hd as (i & Hi & -> & Hd); clear Hr|]
  end; lua_norm.

(** The coupling hypothesis of the current view. *)
Ltac with_rep tac :=
  lazymatch goal with H : rep _ _ _ ?v _ |- wp _ _ ?v _ => tac H end.

Section Refine.
Context (K : Keys.t) (G : string) (T : bool).
Abbreviation rep := (rep K G T).

(** The DEAD records point at well-formed entry ids. *)
Definition dead_ids_ok (q : queue) : Prop :=
  forall j d, q_rec j q !! "dead_entry_id"%string = Some d -> is_Some (eid_of_str d).

(** Every pending id is in the stream: exits ack before they delete. *)
Definition pel_in_stream (q : queue) : Prop :=
  forall e le, q_pel q !! e = Some le -> has_entry e (q_str G q) = true.

Lemma valid_fields_snoc (l : list string) a b :
  even_length l = true -> valid_fields (l ++ [a; b]) = true.
Proof.
  intros Hl. unfold valid_fields. rewrite bool_decide_false by by destruct l.
  cbn [negb andb]. revert Hl.
  induction l as [l IH] using (induction_ltof1 _ (@length string)); unfold ltof in IH.
  destruct l as [|x [|y l]]; cbn; [done..|]. intros. apply IH; [cbn; lia|done].
Qed.

Lemma commit_record_refines v q e j res w enq ttl out :
  rep v q -> (0 < ttl -> T = true) ->
  lua_wp (commit_record (Keys.stream K) (Keys.done K j) (Keys.results K) (Keys.stats K)
            G e j res ttl w enq out) v
    (fun r v' => exists i, fresh_id (last_id (q_results q)) i /\
       rep v' (record_success e j res w enq i q) /\ r = Ok out).
Proof.
  intros Hr HT. unfold commit_record. do 2 lua_step. rewrite Ht in *.
  destruct (Z.ltb_spec 0 ttl) as [Hpos|_].
  - lua_norm. intros r v' He. eapply rep_expire in He as [-> He]; [|done|done|by apply HT].
    lua_add i Hi; [|done]. do 3 lua_step. by exists i.
  - lua_add i Hi; [|done]. do 3 lua_step. by exists i.
Qed.

Lemma commit_refines (v : rview) (q : queue) (e : eid) (j res w enq : string) (ttl : Z) :
  rep v q -> dead_ids_ok q -> (0 < ttl -> T = true) ->
  lua_wp (commit_lua (Keys.stream K) (Keys.done K j) (Keys.results K) (Keys.stats K)
            (Keys.dead K) G e j res ttl w enq) v
    (fun r v' => exists i, fresh_id (last_id (q_results q)) i /\
       rep v' (q_commit e j res w enq i q).1 /\ r = Ok (q_commit e j res w enq i q).2).
Proof.
  intros Hr Hd HT. unfold commit_lua, q_commit. lua_step.
  unfold q_state. case_decide as Hs.
  - do 3 lua_step. exists (next_id (last_id (q_results q))).
    split; [apply next_id_fresh|]. done.
  - lua_norm. case_decide as Hdead.
    + lua_step. unfold undead.
      destruct (q_rec j q !! "dead_entry_id"%string) as [d|] eqn:Hid.
      * destruct (Hd _ _ Hid) as [i Hi]. unfold id_arg. cbn [mbind option_bind].
        rewrite Hi. do 3 lua_step. with_rep ltac:(fun H => exact (commit_record_refines _ _ e j res w enq ttl _ H HT)).
      * do 2 lua_step. with_rep ltac:(fun H => exact (commit_record_refines _ _ e j res w enq ttl _ H HT)).
    + exact (commit_record_refines _ _ e j res w enq ttl _ Hr HT).
Qed.

(** ** enqueue.lua *)
Lemma enqueue_refines v q idem j ttl high low count_as args :
  rep v q -> even_length args = true -> 0 < ttl ->
  lua_wp (enqueue_lua (Keys.stream K) (Keys.delayed K) (Keys.full K) (Keys.stats K)
            (Keys.idem K <$> idem) j ttl high low count_as args) v
    (fun r v' => exists i, fresh_id (q_last q) i /\
       rep v' (q_enqueue idem j high low count_as args i q).1 /\
       r = Ok (q_enqueue idem j high low count_as args i q).2).
Proof.
  intros Hr Heven Httl. unfold enqueue_lua.
  apply wp_bind.
  assert (Hget : lua_wp (match Keys.idem K <$> idem with
      | Some k => call (GET k) | None => Ret None end) v
      (fun r v' => v' = v /\ r = Ok (idem ≫= (fun k => q_idem q !! k)))).
  { destruct idem as [k|]; cbn [fmap option_fmap option_map]; [|done]. by lua_step. }
  eapply wp_mono; [exact Hget|]. clear Hget. intros r v' [-> ->].
  unfold q_enqueue.
  destruct (idem ≫= (fun k => q_idem q !! k)) as [o|] eqn:Ho.
  { exists (next_id (q_last q)). by split; [apply next_id_fresh|]. }
  do 3 lua_step. fold (q_depth q).
  apply wp_bind.
  eapply (wp_mono _ _ _ (fun r v' => r = Ok (next_full high low q) /\
    rep v' (with_full (next_full high low q) q))).
  { unfold next_full. destruct (q_full q) eqn:Hf; cbn [negb andb].
    - destruct (q_depth q <? low); [by lua_step|]. split; [done|].
      by destruct q; cbn in Hf; subst.
    - destruct (high <=? q_depth q); [by lua_step|]. split; [done|].
      by destruct q; cbn in Hf; subst. }
  clear Hr v. intros r v [-> Hr].
  destruct (next_full high low q).
  - case_decide; [lua_norm|lua_step];
      (exists (next_id (q_last q)); split; [apply next_id_fresh|done]).
  - destruct idem as [k|]; cbn [fmap option_fmap option_map].
    + cbn in Ho. lua_norm. intros r1 v1 Hs.
      apply (rep_set_idem K G T v (with_full false q) _ _ _ _ _ Hr) in Hs as [-> Hs]; [|done..].
      clear Hr. lua_step. lua_add i Hi.
      * exists i. split; [done|]. by rewrite Ht in *.
      * by rewrite valid_fields_snoc.
    + lua_step. lua_add i Hi.
      * exists i. split; [done|]. by rewrite Ht in *.
      * by rewrite valid_fields_snoc.
Qed.

(** ** heartbeat.lua *)
Lemma heartbeat_refines v q e w :
  rep v q -> pel_in_stream q ->
  lua_wp (heartbeat_lua (Keys.stream K) (Keys.stats K) G e w) v
    (fun r v' => rep v' (q_heartbeat e w q).1 /\ r = Ok (q_heartbeat e w q).2).
Proof.
  intros Hr Hp. unfold heartbeat_lua, q_heartbeat, owns. lua_step.
  destruct (q_pel q !! e) as [le|] eqn:He; cbn [owned_by mbind option_bind];
    [|by lua_step].
  cbn [row_owner q_row]. case_decide as Ho; [|by lua_step].
  do 2 lua_step. rewrite He in *. unfold claim_row in *.
  by rewrite (Hp e le He) in *.
Qed.

Lemma owned_by_owns q e w :
  owned_by (match q_pel q !! e with Some le => [q_row q e le] | None => [] end) w =
    q_row q e <$> owns w e q.
Proof.
  unfold owns. destruct (q_pel q !! e) as [le|]; [|done]. cbn. by case_decide.
Qed.

(** ** retry.lua *)
Lemma retry_refines `{CJson} v q e w j next_attempt delay_ms timed_out :
  rep v q ->
  lua_wp (retry_lua (Keys.stream K) (Keys.delayed K) (Keys.done K j) (Keys.stats K)
            G e w next_attempt delay_ms timed_out) v
    (fun r v' => let p := q_retry e w j next_attempt delay_ms timed_out q in
       rep v' p.1 /\ r = p.2).
Proof.
  intros Hr. unfold retry_lua, q_retry. lua_step. rewrite owned_by_owns.
  destruct (owns w e q) as [le|] eqn:He; cbn [fmap option_fmap option_map];
    [|by lua_step].
  lua_step. fold (q_state j q). destruct (truthy (q_state j q)); [by do 3 lua_step|].
  lua_step. unfold fields_at.
  destruct (filter _ (q_entries q)) as [|x l]; cbn [head fmap option_fmap option_map];
    [done|].
  lua_step. rewrite Ht. do 4 lua_step. unfold count_timeout. case_decide; [by lua_step|done].
Qed.

(** ** dead.lua *)
Definition entries_valid (es : list (eid * list string)) : Prop :=
  forall i fs, (i, fs) ∈ es -> valid_fields fs = true.

Lemma even_length_app {A} (l1 l2 : list A) :
  even_length l1 = true -> even_length l2 = true -> even_length (l1 ++ l2) = true.
Proof.
  induction l1 as [l1 IH] using (induction_ltof1 _ (@length A)); unfold ltof in IH.
  destruct l1 as [|x [|y l1]]; cbn; [done..|]. intros. apply IH; [cbn; lia|done..].
Qed.

Lemma valid_even fs : valid_fields fs = true -> even_length fs = true.
Proof. unfold valid_fields. by destruct (even_length fs), (bool_decide _). Qed.

Lemma valid_ne fs : valid_fields fs = true -> fs <> [].
Proof. by destruct fs. Qed.

Lemma fields_at_elem e es fs : fields_at e es = Some fs -> (e, fs) ∈ es.
Proof.
  unfold fields_at. destruct (filter _ es) as [|[i gs] l] eqn:Hf; [done|].
  cbn. intros [= <-].
  assert (Hx : (i, gs) ∈ filter (fun x : eid * list string => x.1 = e) es)
    by (rewrite Hf; left).
  apply list_elem_of_filter in Hx as [Hx Hin]. cbn in Hx. by subst.
Qed.

Lemma fields_at_even e es :
  entries_valid es -> even_length (default [] (fields_at e es)) = true.
Proof.
  intros Hv. destruct (fields_at e es) as [fs|] eqn:Hf; [|done].
  by eapply valid_even, Hv, fields_at_elem.
Qed.

Lemma dead_refines v q e w j reason error attempts timed_out :
  rep v q -> entries_valid (q_entries q) ->
  lua_wp (dead_lua (Keys.stream K) (Keys.dead K) (Keys.done K j) (Keys.stats K)
            G e w j reason error attempts timed_out) v
    (fun r v' => exists d, fresh_id (last_id (q_dead q)) d /\
       let p := q_dead_letter e w j reason error attempts timed_out d q in
       rep v' p.1 /\ r = Ok p.2).
Proof.
  intros Hr Hv. unfold dead_lua, q_dead_letter. lua_step. rewrite owned_by_owns.
  destruct (owns w e q) as [le|] eqn:He; cbn [fmap option_fmap option_map];
    [|lua_step; by eexists; split; [apply next_id_fresh|]].
  lua_step. fold (q_state j q). destruct (truthy (q_state j q)).
  { do 3 lua_step. by eexists; split; [apply next_id_fresh|]. }
  lua_step.
  replace (match filter (fun x => x.1 = e) (q_entries q) with [] => [] | x :: _ => x.2 end)
    with (default [] (fields_at e (q_entries q)))
    by (unfold fields_at; by destruct (filter _ _)).
  lua_step. rewrite Ht. lua_add d Hd.
  - do 4 lua_step. unfold count_timeout.
    case_decide; [lua_step|]; by exists d.
  - unfold valid_fields. rewrite even_length_app; [|by apply fields_at_even|done].
    by destruct (default [] _).
Qed.

(** ** requeue.lua *)
Lemma strip_dlq_even fs : even_length fs = true -> even_length (strip_dlq fs) = true.
Proof.
  induction fs as [l IH] using (induction_ltof1 _ (@length string)); unfold ltof in IH.
  destruct l as [|x [|y l]]; cbn; [done..|]. intros Hl.
  destruct (is_dlq_name x); [|cbn]; apply IH; [cbn; lia|done|cbn; lia|done].
Qed.

Lemma requeue_refines v q j :
  rep v q -> entries_valid (entries (q_dead q)) -> dead_ids_ok q ->
  (q_state j q = Some "DEAD"%string -> is_Some (q_rec j q !! "dead_entry_id"%string)) ->
  lua_wp (requeue_lua (Keys.dead K) (Keys.stream K) (Keys.done K j) (Keys.stats K) j) v
    (fun r v' => exists i, fresh_id (q_last q) i /\
       rep v' (q_requeue j i q).1 /\ r = (q_requeue j i q).2).
Proof.
  intros Hr Hv Hd Hid. unfold requeue_lua, q_requeue. lua_step.
  fold (q_state j q). case_decide as Hs;
    [|lua_norm; by eexists; split; [apply next_id_fresh|]].
  lua_step. destruct (Hid Hs) as [d Hdj]. rewrite Hdj.
  destruct (Hd _ _ Hdj) as [i Hi]. unfold id_arg. cbn [mbind option_bind]. rewrite Hi.
  lua_step. destruct (fields_at i (entries (q_dead q))) as [fs|] eqn:Hat;
    pose proof Hat as Hhd; unfold fields_at in Hhd;
    destruct (filter _ (entries (q_dead q))) as [|[i' fs'] l];
    cbn [head fmap option_fmap option_map snd] in Hhd; try done;
    [|lua_norm; by eexists; split; [apply next_id_fresh|]].
  injection Hhd as ->. cbn [snd].
  case_decide as Hn; [lua_norm; by eexists; split; [apply next_id_fresh|]|].
  lua_add k Hk.
  - do 3 lua_step. exists k. split; [done|]. split; [|done].
    unfold undead. change (q_rec j (q_add k (strip_dlq fs) q)) with (q_rec j q).
    rewrite Hdj. cbn [mbind option_bind]. by rewrite Hi.
  - unfold valid_fields. rewrite bool_decide_false by done.
    by eapply strip_dlq_even, valid_even, (Hv i), fields_at_elem.
Qed.

(** ** ledger.lua *)
Lemma ledger_refines v q e ttl extra :
  rep v q -> even_length extra = true -> (0 < ttl -> T = true) ->
  lua_wp (ledger_lua (Keys.ledger K e) (Keys.effects K) (Keys.stats K) e ttl extra) v
    (fun r v' => exists i, fresh_id (last_id (q_effects q)) i /\
       rep v' (q_ledger e extra i q).1 /\ r = Ok (q_ledger e extra i q).2).
Proof.
  intros Hr He HT. unfold ledger_lua, q_ledger. apply wp_bind.
  eapply (wp_mono _ _ _ (fun r v' => r = Ok (bool_decide (e ∉ q_marks q)) /\
    rep v' (if decide (e ∈ q_marks q) then q
            else with_effects (q_effects q) ({[e]} ∪ q_marks q) q))).
  - assert (Hset : forall ex r v', doc (SET (Keys.ledger K e) "1" true ex) v r v' ->
      (forall t, ex = Some t -> 0 < t /\ T = true) ->
      r = Ok (bool_decide (e ∉ q_marks q)) /\
      rep v' (if decide (e ∈ q_marks q) then q
              else with_effects (q_effects q) ({[e]} ∪ q_marks q) q)).
    { intros ex r v' Hd Hex.
      apply (rep_set_mark K G T v q _ _ _ _ Hr) in Hd as [(? & -> & ->)|(? & -> & ?)];
        [| |done].
      - rewrite bool_decide_false by tauto. by rewrite decide_True.
      - rewrite bool_decide_true by done. by rewrite decide_False. }
    destruct (Z.ltb_spec 0 ttl); lua_norm; intros r v' Hd; apply Hset in Hd;
      [by destruct Hd as [-> ?]|intros t [= <-]; auto|by destruct Hd as [-> ?]|done].
  - clear Hr v. intros r v [-> Hr]. case_decide as Hm.
    + rewrite bool_decide_false by tauto. cbn [negb]. lua_step.
      by eexists; split; [apply next_id_fresh|].
    + rewrite bool_decide_true by done. cbn [negb]. lua_add i Hi; [|by cbn].
      lua_step. by exists i.
Qed.

(** ** schedule.lua *)
Lemma move_refines `{CJson} (l : list string) : forall v q,
  rep v q ->
  (forall m, m ∈ l -> exists fs, cjson_decode m = Ok fs /\ valid_fields fs = true) ->
  lua_wp (for_each l (fun member _ =>
      call (ZREM (Keys.delayed K) member) ;;;
      fields <- of_result (cjson_decode member) ;;
      call (XADD (Keys.stream K) fields) ;;;
      Ret tt)%prog tt) v
    (fun r v' => r = Ok tt /\ exists q', moved l q q' /\ rep v' q').
Proof.
  induction l as [|m l IH]; intros v q Hr Hl; cbn [for_each].
  - split; [done|]. exists q. by split; [constructor|].
  - destruct (Hl m) as (fs & Hm & Hfs); [by left|].
    lua_step. rewrite Hm. cbn [of_result]. lua_add i Hi; [|done].
    eapply wp_mono; [apply IH; [done|]|].
    + intros m' Hm'. apply Hl. by right.
    + intros r v' (-> & q' & Hq' & Hr'). split; [done|]. exists q'.
      split; [|done]. by eapply moved_cons.
Qed.

Definition members_valid `{CJson} (q : queue) : Prop :=
  forall m, is_Some (q_delayed q !! m) ->
    exists fs, m = cjson_encode fs /\ valid_fields fs = true.

Lemma due_list_elem n q l m : due_list n q l -> m ∈ l ->
  exists sc, q_delayed q !! m = Some sc /\ sc <= q_now q.
Proof.
  intros (ms & Hp & _ & ->) Hm.
  assert (H : m ∈ ms.*1).
  { rewrite <- (take_drop n (ms.*1)). by apply elem_of_app; left. }
  apply list_elem_of_fmap in H as ([m' sc] & -> & H). rewrite Hp in H.
  apply list_elem_of_filter in H as [Hs H]. apply elem_of_map_to_list in H. by exists sc.
Qed.

Lemma member_decodes `{CJson} q m :
  members_valid q -> is_Some (q_delayed q !! m) ->
  exists fs, cjson_decode m = Ok fs /\ valid_fields fs = true.
Proof.
  intros Hv Hm. destruct (Hv m Hm) as (fs & -> & Hfs). exists fs. split; [|done].
  by apply cjson_roundtrip, valid_ne.
Qed.

Lemma schedule_refines `{CJson} v q n :
  rep v q -> members_valid q ->
  lua_wp (schedule_lua (Keys.delayed K) (Keys.stream K) (Keys.stats K) n) v
    (fun r v' => exists l q', due_list n q l /\ moved l q q' /\
       rep v' (incr_if "scheduled" (length l) q') /\ r = Ok (Z.of_nat (length l))).
Proof.
  intros Hr Hv. unfold schedule_lua. lua_step. rewrite Ht. lua_norm.
  intros r v' Hd. apply (rep_zrange K G T v q _ _ _ Hr) in Hd as (-> & l & -> & Hl).
  lua_norm. apply wp_bind.
  eapply wp_mono; [apply (move_refines l); [exact Hr|]|].
  - intros m Hm. apply (member_decodes q); [done|].
    apply (due_list_elem _ _ _ _ Hl) in Hm as (sc & Hm & _). by exists sc.
  - clear Hr v. intros r v (-> & q' & Hq & Hr). unfold incr_if.
    destruct (0 <? length l)%nat eqn:Hn; [lua_step|lua_norm]; exists l, q'; by rewrite Hn.
Qed.

(** ** reclaim.lua *)

(** Nothing pending has left the stream, so XAUTOCLAIM finds nothing deleted. *)
Lemma autoclaim_none_deleted q t m start n next claimed deleted :
  pel_in_stream q ->
  autoclaim_ok (q_str G q) (q_group q) t m start n next claimed deleted -> deleted = [].
Proof.
  intros Hp (_ & _ & _ & Hdel & _). destruct deleted as [|i l]; [done|].
  destruct (Hdel i) as [(le & Hi & _) Hni]; [by left|]. apply Hp in Hi.
  destruct Hni. unfold has_entry in Hi. apply bool_decide_eq_true_1 in Hi.
  apply Exists_exists in Hi as ([j fs] & Hj & <-). apply list_elem_of_fmap. eauto.
Qed.

Lemma take_over_lookup w t claimed : forall p i,
  is_Some (take_over w t claimed p !! i) <-> is_Some (p !! i).
Proof.
  unfold take_over. induction claimed as [|e l IH]; intros p i; cbn [foldl]; [done|].
  rewrite IH. destruct (p !! e.1) as [le|] eqn:He; [|done].
  destruct (decide (i = e.1)) as [->|Hne];
    [rewrite lookup_insert_eq, He|rewrite lookup_insert_ne by done]; [|done]. by split; intros _; eexists.
Qed.

Definition claimable (q : queue) (claimed : list (eid * list string)) : Prop :=
  forall e, e ∈ claimed -> is_Some (q_pel q !! e.1) /\ has_entry e.1 (q_str G q) = true.

Lemma keep_refines (w : string) (m thr maxd : Z) e v q slots out :
  rep v q -> is_Some (q_pel q !! e.1) -> has_entry e.1 (q_str G q) = true ->
  lua_wp (reclaim_one (Keys.stream K) (Keys.reclaims K) G w m thr maxd e (slots, out)) v
    (fun r v' => let p := q_keep w m thr maxd e (q, (slots, out)) in
       rep v' p.1 /\ r = Ok p.2).
Proof.
  intros Hr [le He] Hin. unfold reclaim_one, q_keep. lua_step. rewrite He.
  cbn [q_row row_deliveries from_option]. fold (is_suspect thr maxd (deliveries le)).
  destruct (is_suspect thr maxd (deliveries le) && (slots =? 0)); cbn [fst snd].
  - lua_step. rewrite He in *. unfold claim_row in *. by rewrite Hin in *.
  - by lua_step.
Qed.

Lemma q_keep_claimable w m thr maxd e st claimed :
  claimable st.1 claimed -> claimable (q_keep w m thr maxd e st).1 claimed.
Proof.
  destruct st as [q [slots out]]. unfold q_keep. intros Hc.
  destruct (_ && _); [|done]. intros e' He'. destruct (Hc e' He') as [Hp Hh].
  split; [|done]. cbn.
  destruct (decide (e'.1 = e.1)) as [->|Hne];
    [rewrite lookup_insert_eq|rewrite lookup_insert_ne by done]; [by eexists|done].
Qed.

Lemma keep_all_refines (w : string) (m thr maxd : Z) claimed : forall v q st,
  rep v q -> claimable q claimed ->
  lua_wp (for_each claimed
            (reclaim_one (Keys.stream K) (Keys.reclaims K) G w m thr maxd) st) v
    (fun r v' => let p := foldl (fun st e => q_keep w m thr maxd e st) (q, st) claimed in
       rep v' p.1 /\ r = Ok p.2).
Proof.
  induction claimed as [|e l IH]; intros v q [slots out] Hr Hc; cbn [for_each foldl];
    [done|].
  apply wp_bind. destruct (Hc e) as [Hp Hh]; [by left|].
  eapply wp_mono; [by apply keep_refines|]. intros r v' [Hr' ->].
  pose proof (q_keep_claimable w m thr maxd e (q, (slots, out)) l) as Hcl.
  destruct (q_keep _ _ _ _ _ _) as [q' st']. apply IH; [done|]. apply Hcl.
  intros e' He'. apply Hc. by right.
Qed.

Lemma reclaim_refines v q w m cursor n slots thr maxd :
  rep v q -> pel_in_stream q ->
  lua_wp (reclaim_lua (Keys.stream K) (Keys.stats K) (Keys.reclaims K) G w m cursor n
            slots thr maxd) v
    (fun r v' => exists next claimed,
       autoclaim_ok (q_str G q) (q_group q) (q_now q) m cursor n next claimed [] /\
       let p := q_reclaim w m slots thr maxd claimed q in
       rep v' p.1 /\ r = Ok (next, p.2, [])).
Proof.
  intros Hr Hp. unfold reclaim_lua. lua_norm. intros r v' Hd.
  apply (rep_xautoclaim K G T v q _ _ _ _ _ _ Hr) in Hd
    as (next & claimed & deleted & Hok & -> & Hd). clear Hr.
  pose proof (autoclaim_none_deleted _ _ _ _ _ _ _ _ Hp Hok) as ->. lua_norm.
  apply wp_bind.
  eapply wp_mono; [apply keep_all_refines; [exact Hd|]|].
  - intros e He. destruct Hok as (_ & _ & Hcl & _). destruct e as [i fs].
    destruct (Hcl i fs He) as ((le & Hi & _) & Hin). cbn. split.
    + apply take_over_lookup. by exists le.
    + by apply (Hp i le).
  - clear Hd v'. intros r v' [Hr ->]. unfold q_reclaim. cbn [drop_all foldl] in *.
    destruct (foldl _ _ claimed) as [q2 [s2 out]] eqn:Hf. cbn [fst snd] in *.
    destruct (0 <? length out)%nat eqn:Hn; [lua_step|lua_norm]; exists next, claimed;
      (split; [done|]); rewrite Hf; unfold incr_if; cbn [fst snd]; by rewrite Hn.
Qed.

(** ** prune_consumers.lua *)
Definition owns_nothing (c : string) (q : queue) : Prop :=
  forall i le, q_pel q !! i = Some le -> owner le <> c.

Lemma forget_one q c :
  owns_nothing c q ->
  with_group (q_ld q) (filter (fun il => owner il.2 <> c) (q_pel q))
    (delete c (q_cons q)) q = q_forget [c] q.
Proof.
  intros Hn. unfold q_forget. cbn [foldl]. f_equal.
  apply map_filter_id. intros i le Hi. cbn. by apply (Hn i).
Qed.

Lemma prune_loop_refines w m cs : forall v q gone,
  rep v q ->
  lua_wp (for_each cs (prune_one (Keys.stream K) G w m) gone) v
    (fun r v' => exists names, r = Ok (gone ++ names) /\ rep v' (q_forget names q) /\
       (forall n, n ∈ names -> n <> w /\ owns_nothing n q /\
          exists c, c ∈ cs /\ ci_name c = n /\ m <= ci_idle c)).
Proof.
  induction cs as [|c cs IH]; intros v q gone Hr; cbn [for_each].
  - exists []. rewrite app_nil_r. split_and!; [done|by destruct q|].
    by intros n Hn%elem_of_nil.
  - apply wp_bind. unfold prune_one at 1. case_decide as Hc.
    + lua_norm. intros r v' Hd.
      apply (rep_xpending_owned K G T v q _ _ _ Hr) in Hd as (-> & l & -> & Hl).
      lua_norm. destruct l as [|row l].
      * lua_step. with_rep ltac:(fun H => rewrite forget_one in H by (unfold owns_nothing; by apply Hl)).
        apply wp_ret. cbn beta iota. eapply wp_mono; [by apply IH|]. cbn.
        intros r v1 (names & -> & Hr' & Hn). exists (ci_name c :: names).
        rewrite <- app_assoc. split; [done|]. split; [done|].
        intros n [->|Hin]%elem_of_cons.
        -- split; [by destruct Hc|]. split; [unfold owns_nothing; by apply Hl|]. exists c.
           repeat split; [by left|by destruct Hc].
        -- destruct (Hn n Hin) as (? & ? & c' & ? & ?). repeat split; [done..|].
           exists c'. split; [by right|done].
      * apply wp_ret. cbn beta iota. eapply wp_mono; [by apply IH|].
        intros r v1 (names & -> & Hr' & Hn). exists names. split_and!; [done..|].
        intros n Hin. destruct (Hn n Hin) as (? & ? & c' & ? & ?).
        repeat split; [done..|]. exists c'. split; [by right|done].
    + apply wp_ret. cbn beta iota. eapply wp_mono; [by apply IH|].
      intros r v1 (names & -> & Hr' & Hn). exists names. split_and!; [done..|].
      intros n Hin. destruct (Hn n Hin) as (? & ? & c' & ? & ?).
      repeat split; [done..|]. exists c'. split; [by right|done].
Qed.

Lemma prune_refines v q m w :
  rep v q ->
  lua_wp (prune_lua (Keys.stream K) (Keys.stats K) G m w) v
    (fun r v' => exists names, r = Ok names /\
       rep v' (incr_if "consumers_pruned" (length names) (q_forget names q)) /\
       (forall n, n ∈ names -> n <> w /\ owns_nothing n q /\
          exists t, q_cons q !! n = Some t /\ m <= q_now q - t)).
Proof.
  intros Hr. unfold prune_lua. lua_norm. intros r v' Hd.
  apply (rep_xinfo K G T v q _ _ Hr) in Hd as (-> & cs & -> & _ & _ & Hcs).
  lua_norm. apply wp_bind. eapply wp_mono; [by apply prune_loop_refines|].
  clear Hr v. intros r v (names & -> & Hr & Hn). cbn [app] in *.
  assert (Hn' : forall n, n ∈ names -> n <> w /\ owns_nothing n q /\
          exists t, q_cons q !! n = Some t /\ m <= q_now q - t).
  { intros n Hin. destruct (Hn n Hin) as (? & ? & c & Hc & <- & Hm). split_and!; [done..|].
    rewrite (Hcs c Hc). eexists. split; [done|]. lia. }
  unfold incr_if. destruct (0 <? length names)%nat eqn:Hl; [lua_step|lua_norm];
    exists names; rewrite Hl; by split_and!.
Qed.
End Refine.
