(* ===== verification/Fields.v ===== *)
(** Flat field lists as the dictionaries Python reads them into: for a repeated
    name the last value wins. How the scripts' field rewriting affects a lookup. *)
From S2P Require Import Prelude Effects Redis LuaScripts Ops Refine.

#[local] Open Scope Z_scope.

Fixpoint field (n : string) (fs : list string) : option string :=
  match fs with
  | name :: value :: r =>
      match field n r with
      | Some x => Some x
      | None => if decide (name = n) then Some value else None
      end
  | _ => None
  end.

(** Induction two elements at a time, for lists of pairs. *)
Lemma pairs_ind (P : list string -> Prop) :
  P [] -> (forall a, P [a]) -> (forall a b l, P l -> P (a :: b :: l)) -> forall l, P l.
Proof.
  intros H0 H1 H2. fix IH 1. intros [|a [|b l]]; [done|apply H1|apply H2, IH].
Qed.

Lemma field_app n l1 l2 :
  even_length l1 = true ->
  field n (l1 ++ l2) = match field n l2 with Some x => Some x | None => field n l1 end.
Proof.
  induction l1 as [|a|a b l IH] using pairs_ind; intros He; [cbn; by destruct (field n l2)|done|cbn].
  rewrite IH by done. by destruct (field n l2).
Qed.

Lemma field_set_attempt n v fs :
  n <> "attempt"%string -> field n (set_attempt v fs) = field n fs.
Proof.
  intros Hn. induction fs as [|a|a b l IH] using pairs_ind; [done| |].
  { cbn. case_decide; subst; cbn; [by rewrite decide_False|done]. }
  cbn. rewrite IH. destruct (field n l); [done|].
  destruct (decide (a = n)) as [->|]; [|done]. by rewrite decide_False.
Qed.

Lemma set_attempt_valid v fs :
  valid_fields fs = true -> valid_fields (set_attempt v fs) = true.
Proof.
  intros Hv. assert (He : even_length (set_attempt v fs) = true).
  { apply valid_even in Hv. revert Hv.
    induction fs as [|a|a b l IH] using pairs_ind; [done|done|apply IH]. }
  unfold valid_fields. rewrite He, bool_decide_false; [done|].
  destruct fs as [|a [|b l]]; [done|..]; cbn; [by case_decide|done].
Qed.

Lemma field_strip_dlq n fs :
  n <> "attempt"%string -> is_dlq_name n = false -> even_length fs = true ->
  field n (strip_dlq fs) = field n fs.
Proof.
  intros Hn Hd. induction fs as [|a|a b l IH] using pairs_ind; intros He; [done|done|].
  cbn. rewrite <- IH by done. destruct (is_dlq_name a) eqn:Ha.
  - destruct (field n (strip_dlq l)); [done|].
    by rewrite decide_False by (intros ->; congruence).
  - cbn. destruct (field n (strip_dlq l)); [done|].
    destruct (decide (a = n)) as [->|]; [|done]. by rewrite decide_False.
Qed.

Lemma strip_dlq_app l1 l2 :
  even_length l1 = true -> strip_dlq (l1 ++ l2) = strip_dlq l1 ++ strip_dlq l2.
Proof.
  induction l1 as [|a|a b l IH] using pairs_ind; intros He; [done|done|].
  cbn. rewrite IH by done. by destruct (is_dlq_name a).
Qed.

Lemma strip_dlq_meta e w j reason error attempts n now :
  strip_dlq (dlq_meta e w j reason error attempts n now) = [].
Proof. done. Qed.

(** Requeue's field loop gives back the fields the entry had when it died, less any
    dlq_* field, with the attempt number reset. *)
Lemma strip_dlq_dead fs e w j reason error attempts n now :
  even_length fs = true ->
  strip_dlq (fs ++ dlq_meta e w j reason error attempts n now) = strip_dlq fs.
Proof. intros He. by rewrite strip_dlq_app, strip_dlq_meta, app_nil_r. Qed.
