(* ===== verification/Streams.v ===== *)
(** Facts about stream entries and the pending list: ids increase, an id names one
    entry, and what XREADGROUP, XACK and XDEL do to "undelivered or pending". *)
From S2P Require Import Prelude Effects Redis Keys LuaScripts Queue Ops Refine.

#[local] Open Scope Z_scope.

Abbreviation entry := (eid * list string)%type.

(** Ids strictly increase, none above [last], all readable back from their text. *)
Record ids_ok (es : list entry) (last : eid) : Prop := {
  ids_sorted : StronglySorted (fun a b : entry => eid_lt a.1 b.1) es;
  ids_below : forall e, e ∈ es -> eid_le e.1 last;
  ids_nonneg : forall e, e ∈ es -> 0 <= e.1.1 /\ 0 <= e.1.2;
}.

Lemma ids_ok_nil last : ids_ok [] last.
Proof. split; [constructor|..]; by intros e ?%elem_of_nil. Qed.

Lemma ids_ok_add es last i fs :
  ids_ok es last -> fresh_id last i -> ids_ok (es ++ [(i, fs)]) i.
Proof.
  intros [Hs Hb Hn] (Hi & H1 & H2). split.
  - apply StronglySorted_app_2; [|done|repeat constructor].
    intros e x He ->%list_elem_of_singleton. cbn. eapply eid_le_lt_trans; eauto.
  - intros e [He| ->%list_elem_of_singleton]%elem_of_app; [|apply eid_le_refl].
    eapply eid_le_trans; [by apply Hb|by apply eid_lt_le].
  - intros e [He| ->%list_elem_of_singleton]%elem_of_app; [by apply Hn|done].
Qed.

Lemma sorted_filter {A} (R : A -> A -> Prop) (P : A -> Prop) `{!forall x, Decision (P x)} l :
  StronglySorted R l -> StronglySorted R (filter P l).
Proof.
  intros Hs. induction Hs as [|a l Hs IH Hf]; [rewrite filter_nil; constructor|].
  rewrite filter_cons. destruct (decide (P a)); [|exact IH].
  apply SSorted_cons; [exact IH|]. rewrite Forall_forall in Hf |- *.
  intros x [_ Hx]%list_elem_of_filter. by apply Hf.
Qed.

Lemma ids_ok_filter (P : entry -> Prop) `{!forall x, Decision (P x)} es last :
  ids_ok es last -> ids_ok (filter P es) last.
Proof.
  intros [Hs Hb Hn]. split; [by apply sorted_filter|..]; intros e [_ He]%list_elem_of_filter; [by apply Hb|by apply Hn].
Qed.

Lemma ids_ok_unique es last i a b :
  ids_ok es last -> (i, a) ∈ es -> (i, b) ∈ es -> a = b.
Proof.
  intros [Hs _ _]. induction Hs as [|e es Hs IH Hf]; [by intros ?%elem_of_nil|].
  rewrite Forall_forall in Hf.
  intros [Ha|Ha]%elem_of_cons [Hb|Hb]%elem_of_cons; [congruence| | |by apply IH].
  - subst. by destruct (eid_lt_irrefl i); apply (Hf _ Hb).
  - subst. by destruct (eid_lt_irrefl i); apply (Hf _ Ha).
Qed.

(** An entry removed by id. *)
Lemma elem_of_del i (es : list entry) e :
  e ∈ filter (fun e => e.1 <> i) es <-> e ∈ es /\ e.1 <> i.
Proof. rewrite list_elem_of_filter. tauto. Qed.

Lemma fields_at_unique es last i fs :
  ids_ok es last -> (i, fs) ∈ es -> fields_at i es = Some fs.
Proof.
  intros Hok Hin. unfold fields_at.
  destruct (filter _ es) as [|[j gs] l] eqn:Hf.
  - assert (H : (i, fs) ∈ @nil entry).
    { rewrite <- Hf. by apply list_elem_of_filter. }
    by apply elem_of_nil in H.
  - cbn. f_equal. assert (H : (j, gs) ∈ filter (fun x : entry => x.1 = i) es)
      by (rewrite Hf; left).
    apply list_elem_of_filter in H as [Hj H]. cbn in Hj. subst j.
    eapply ids_ok_unique; eauto.
Qed.

(** Removing an existing entry shortens the stream by one. *)
Lemma length_del es last i fs :
  ids_ok es last -> (i, fs) ∈ es ->
  length (filter (fun e : entry => e.1 <> i) es) = (length es - 1)%nat.
Proof.
  intros [Hs _ _]. induction Hs as [|e es Hs IH Hf]; [by intros ?%elem_of_nil|].
  rewrite Forall_forall in Hf. intros [<-|Hin]%elem_of_cons.
  - rewrite filter_cons_False by (cbn; tauto). cbn. rewrite Nat.sub_0_r.
    f_equal. apply filter_all, Forall_forall. intros x Hx Hi.
    destruct (eid_lt_irrefl i). rewrite <- Hi at 2. by apply (Hf _ Hx).
  - rewrite filter_cons_True.
    + cbn. rewrite IH by done. destruct es; [by apply elem_of_nil in Hin|cbn; lia].
    + intros He. destruct (eid_lt_irrefl i). rewrite <- He at 1. by apply (Hf _ Hin).
Qed.

(** ** Reading new entries *)
Lemma give_lookup c t new : forall p i,
  give c t new p !! i = if decide (i ∈ new.*1) then Some (Lease c t 1) else p !! i.
Proof.
  unfold give. induction new as [|e l IH]; intros p i; cbn [foldl fmap list_fmap].
  - rewrite decide_False; [done|]. by apply not_elem_of_nil.
  - rewrite IH. destruct (decide (i ∈ l.*1)) as [Hin|Hin].
    + rewrite decide_True; [done|]. by right.
    + destruct (decide (i = e.1)) as [->|Hne].
      * rewrite lookup_insert_eq, decide_True; [done|]. left.
      * rewrite lookup_insert_ne by done. rewrite decide_False; [done|].
        by intros [?|?]%elem_of_cons.
Qed.

Lemma last_of_elem new d : last_of new d = d \/ exists e, e ∈ new /\ last_of new d = e.1.
Proof.
  unfold last_of. destruct (last new) as [e|] eqn:H; [right|by left].
  exists e. split; [by apply last_Some_elem_of|done].
Qed.

(** A read hands out an initial segment: what it leaves is above what it gave. *)
Lemma read_new_split n q last e :
  ids_ok (q_entries q) last -> e ∈ q_entries q -> eid_lt (q_ld q) e.1 ->
  e ∈ q_new n q \/ eid_lt (last_of (q_new n q) (q_ld q)) e.1.
Proof.
  intros [Hs _ _] Hin Hlt. unfold q_new.
  set (l := filter (fun e => eid_lt (q_ld q) e.1) (q_entries q)).
  assert (Hl : StronglySorted (fun a b : entry => eid_lt a.1 b.1) l) by by apply sorted_filter.
  assert (He : e ∈ l) by by apply list_elem_of_filter.
  rewrite <- (take_drop n l) in He, Hl. apply elem_of_app in He as [He|He]; [by left|right].
  destruct (last_of_elem (take n l) (q_ld q)) as [->|(x & Hx & ->)]; [done|].
  apply StronglySorted_app in Hl as [Hl _]. by apply Hl.
Qed.

Lemma q_new_elem n q e : e ∈ q_new n q -> e ∈ q_entries q /\ eid_lt (q_ld q) e.1.
Proof.
  unfold q_new. intros He. assert (H : e ∈ filter (fun e => eid_lt (q_ld q) e.1) (q_entries q)).
  { rewrite <- (take_drop n (filter _ _)). by apply elem_of_app; left. }
  apply list_elem_of_filter in H. tauto.
Qed.

(** ** The stream invariant

    Every entry is either still to be read or pending, and nothing else is pending:
    no entry is ever stuck. [D] holds every (id, fields) pair ever handed out. *)
Record sok (es : list entry) (la ld : eid) (p : gmap eid lease) (D : gset entry) :
    Prop := {
  so_ids : ids_ok es la;
  so_valid : entries_valid es;
  so_ld : eid_le ld la;
  so_pel : forall e, is_Some (p !! e) -> exists fs, (e, fs) ∈ es;
  so_reach : forall e fs, (e, fs) ∈ es -> eid_lt ld e \/ is_Some (p !! e);
  so_given : forall e fs, (e, fs) ∈ D -> eid_le e la /\
    (forall fs', (e, fs') ∈ es -> fs' = fs);
}.

Abbreviation stream_ok q D := (sok (q_entries q) (q_last q) (q_ld q) (q_pel q) D).

Lemma sok_pel_in q D G : stream_ok q D -> pel_in_stream G q.
Proof.
  intros H e le He. destruct (so_pel _ _ _ _ _ H e) as [fs Hfs]; [by eexists|].
  unfold has_entry. apply bool_decide_eq_true_2, Exists_exists. by exists (e, fs).
Qed.

Lemma sok_add es la ld p D i fs :
  sok es la ld p D -> fresh_id la i -> valid_fields fs = true ->
  sok (es ++ [(i, fs)]) i ld p D.
Proof.
  intros [Hi Hv Hl Hp Hr Hg] Hf Hfs. destruct Hf as [Hlt Hnn]. split.
  - by eapply ids_ok_add.
  - intros e gs [?|[= -> ->]%list_elem_of_singleton]%elem_of_app; [by eapply Hv|done].
  - eapply eid_le_trans; [done|by apply eid_lt_le].
  - intros e He. destruct (Hp e He) as [gs ?]. exists gs. apply elem_of_app. by left.
  - intros e gs [He|[= -> ->]%list_elem_of_singleton]%elem_of_app; [by eapply Hr|left].
    by eapply eid_le_lt_trans.
  - intros e gs He. destruct (Hg e gs He) as [Hle Hu]. split.
    + eapply eid_le_trans; [done|by apply eid_lt_le].
    + intros gs' [?|[= -> ->]%list_elem_of_singleton]%elem_of_app; [by apply Hu|].
      by apply eid_lt_not_le in Hlt.
Qed.

Lemma sok_drop es la ld p D i :
  sok es la ld p D ->
  sok (filter (fun e => e.1 <> i) es) la ld (delete i p) D.
Proof.
  intros [Hi Hv Hl Hp Hr Hg]. split.
  - by apply ids_ok_filter.
  - intros e fs [_ He]%list_elem_of_filter. by eapply Hv.
  - done.
  - intros e He. destruct (decide (e = i)) as [->|Hne];
      [rewrite lookup_delete_eq in He; by destruct He|].
    rewrite lookup_delete_ne in He by done. destruct (Hp e He) as [fs Hfs].
    exists fs. by apply elem_of_del.
  - intros e fs [He Hne]%elem_of_del. cbn in Hne.
    rewrite lookup_delete_ne by done. by eapply Hr.
  - intros e fs He. destruct (Hg e fs He) as [Hle Hu]. split; [done|].
    intros fs' [? _]%elem_of_del. by apply Hu.
Qed.

(** The pending list may change owners, times and counts, not which ids it holds. *)
Lemma sok_pel es la ld p p' D :
  sok es la ld p D -> (forall e, is_Some (p' !! e) <-> is_Some (p !! e)) ->
  sok es la ld p' D.
Proof.
  intros [Hi Hv Hl Hp Hr Hg] Hpp. split; try done.
  - intros e He. by apply Hp, Hpp.
  - intros e fs He. rewrite Hpp. by eapply Hr.
Qed.

(** More deliveries: of entries the stream holds. *)
Lemma sok_deliver es la ld p D (l : list entry) :
  sok es la ld p D -> (forall e, e ∈ l -> e ∈ es) -> sok es la ld p (D ∪ list_to_set l).
Proof.
  intros [Hi Hv Hl Hp Hr Hg] Hin. split; try done.
  intros e fs [He|He%elem_of_list_to_set]%elem_of_union; [by apply Hg|].
  apply Hin in He. split; [by apply (ids_below _ _ Hi (e, fs))|].
  intros fs' He'. by eapply ids_ok_unique.
Qed.

Lemma sok_read c n q D :
  stream_ok q D -> stream_ok (q_read c n q) (D ∪ list_to_set (q_new n q)).
Proof.
  intros H. apply sok_deliver; [|by intros e [He _]%q_new_elem].
  destruct H as [Hi Hv Hl Hp Hr Hg]. split; cbn; try done.
  - destruct (last_of_elem (q_new n q) (q_ld q)) as [->|(x & Hx & ->)]; [done|].
    apply q_new_elem in Hx as [Hx _]. by apply (ids_below _ _ Hi).
  - intros e. rewrite give_lookup. case_decide as Hin; [|by apply Hp].
    intros _. apply list_elem_of_fmap in Hin as ([e' fs] & -> & Hin).
    exists fs. by apply q_new_elem in Hin as [Hin _].
  - intros e fs He. rewrite give_lookup. case_decide as Hin; [right; by eexists|].
    destruct (Hr e fs He) as [Hlt|Hpe]; [|by right].
    destruct (read_new_split n q (q_last q) (e, fs) Hi He Hlt) as [Hnew|Hgt]; [|by left].
    destruct Hin. apply list_elem_of_fmap. by exists (e, fs).
Qed.

(** An owned entry is in the stream, with the fields its holder was given. *)
Lemma owned_entry q D w e le fs :
  stream_ok q D -> owns w e q = Some le -> (e, fs) ∈ D ->
  (e, fs) ∈ q_entries q /\ fields_at e (q_entries q) = Some fs.
Proof.
  intros H Ho HD. unfold owns in Ho. destruct (q_pel q !! e) as [le'|] eqn:He; [|done].
  destruct (so_pel _ _ _ _ _ H e) as [fs' Hin]; [by eexists|].
  destruct (so_given _ _ _ _ _ H e fs HD) as [_ Hu]. rewrite (Hu _ Hin) in Hin.
  split; [done|]. eapply fields_at_unique; [by apply H|done].
Qed.
