(* ===== verification/Logs.v ===== *)
(** The terminal records and the three append-only streams that go with them: the
    dead-letter stream holds exactly the DEAD jobs, the results log exactly the
    SUCCEEDED ones, once each, and the effects log exactly the marked effects. *)
From S2P Require Import Prelude Effects Redis Keys LuaScripts Queue Ops Refine.
From S2P Require Import Fields Streams.

#[local] Open Scope Z_scope.

(** ** Terminal records *)
Abbreviation records := (gmap string (gmap string string)).

Definition rec_of (dn : records) (j : string) : gmap string string := default ∅ (dn !! j).
Definition state_of (dn : records) (j : string) : option string :=
  rec_of dn j !! "state"%string.

Definition succeeded (r : gmap string string) : Prop :=
  r !! "state"%string = Some "SUCCEEDED"%string /\ r !! "dead_entry_id"%string = None.
Definition dead_at (r : gmap string string) (d : eid) : Prop :=
  r !! "state"%string = Some "DEAD"%string /\
  r !! "dead_entry_id"%string = Some (str_of_eid d) /\ 0 <= d.1 /\ 0 <= d.2.

(** Every record is one of the two. *)
Definition records_ok (dn : records) : Prop :=
  forall j r, dn !! j = Some r -> succeeded r \/ exists d, dead_at r d.

Lemma dead_at_inj r d d' : dead_at r d -> dead_at r d' -> d = d'.
Proof.
  intros (_ & H & H1 & H2) (_ & H' & H1' & H2'). rewrite H in H'. injection H' as He.
  apply (f_equal eid_of_str) in He. rewrite !eid_of_str_of_eid in He by done. by injection He.
Qed.

Lemma rec_insert_eq j r dn : rec_of (<[j := r]> dn) j = r.
Proof. unfold rec_of. by rewrite lookup_insert_eq. Qed.
Lemma rec_insert_ne j j' r dn : j' <> j -> rec_of (<[j := r]> dn) j' = rec_of dn j'.
Proof. intros. unfold rec_of. by rewrite lookup_insert_ne. Qed.
Lemma rec_delete_eq j dn : rec_of (delete j dn) j = ∅.
Proof. unfold rec_of. by rewrite lookup_delete_eq. Qed.
Lemma rec_delete_ne j j' dn : j' <> j -> rec_of (delete j dn) j' = rec_of dn j'.
Proof. intros. unfold rec_of. by rewrite lookup_delete_ne. Qed.
Lemma rec_none j dn : dn !! j = None -> rec_of dn j = ∅.
Proof. intros H. unfold rec_of. by rewrite H. Qed.

Lemma dead_at_empty d : ~ dead_at ∅ d.
Proof. by intros [H _]; rewrite lookup_empty in H. Qed.

Lemma records_state dn j s :
  records_ok dn -> state_of dn j = Some s ->
  exists r, dn !! j = Some r /\ rec_of dn j = r /\
    (s = "SUCCEEDED"%string /\ succeeded r \/ s = "DEAD"%string /\ exists d, dead_at r d).
Proof.
  intros Hok Hs. unfold state_of, rec_of in *. destruct (dn !! j) as [r|] eqn:Hj;
    [|cbn in Hs; by rewrite lookup_empty in Hs].
  exists r. split; [done|]. split; [done|]. cbn in Hs.
  destruct (Hok j r Hj) as [Hsu|[d Hd]].
  - left. split; [|done]. destruct Hsu. congruence.
  - right. split; [|by exists d]. destruct Hd. congruence.
Qed.

Lemma records_none dn j : records_ok dn -> state_of dn j = None -> dn !! j = None.
Proof.
  intros Hok Hs. destruct (dn !! j) as [r|] eqn:Hj; [|done].
  unfold state_of, rec_of in Hs. rewrite Hj in Hs. cbn in Hs.
  destruct (Hok j r Hj) as [[H _]|[d [H _]]]; congruence.
Qed.

Lemma records_insert dn j r :
  records_ok dn -> (succeeded r \/ exists d, dead_at r d) -> records_ok (<[j := r]> dn).
Proof.
  intros Hok Hr j' r'. destruct (decide (j' = j)) as [->|Hne].
  - rewrite lookup_insert_eq. by intros [= <-].
  - rewrite lookup_insert_ne by done. apply Hok.
Qed.

Lemma records_delete dn j : records_ok dn -> records_ok (delete j dn).
Proof.
  intros Hok j' r' [Hne Hj]%lookup_delete_Some. by eapply Hok.
Qed.

Lemma records_dead_ids q : records_ok (q_done q) -> dead_ids_ok q.
Proof.
  intros Hok j d Hd. change (q_rec j q) with (rec_of (q_done q) j) in Hd.
  unfold rec_of in Hd. destruct (q_done q !! j) as [r|] eqn:Hj; [|done].
  cbn in Hd. destruct (Hok j r Hj) as [[_ H]|[i (_ & H & H1 & H2)]]; [congruence|].
  rewrite H in Hd. injection Hd as <-. rewrite eid_of_str_of_eid by done. by eexists.
Qed.

(** ** The dead-letter stream *)

(** The job a delivered entry stands for: its job_id, or a made-up name. *)
Definition names (j : string) (e : eid) (fs : list string) : Prop :=
  field "job_id" fs = Some j \/
  (j = ("entry:" +:+ str_of_eid e)%string /\
   (field "job_id" fs = None \/ field "job_id" fs = Some ""%string)).

Definition dead_row (j : string) (row : list string) : Prop :=
  exists e w fs reason error attempts n now,
    row = fs ++ dlq_meta e w j reason error attempts n now /\
    valid_fields fs = true /\ names j e fs.

Lemma dead_row_job j row : dead_row j row -> field "dlq_job_id" row = Some j.
Proof.
  intros (e & w & fs & reason & error & attempts & n & now & -> & Hv & _).
  by rewrite field_app by by apply valid_even.
Qed.

Record dlq_ok (dn : records) (s : stream) : Prop := {
  dlq_ids : ids_ok (entries s) (last_id s);
  dlq_valid : entries_valid (entries s);
  dlq_has : forall j d, dead_at (rec_of dn j) d ->
    exists row, (d, row) ∈ entries s /\ dead_row j row;
  dlq_only : forall d row, (d, row) ∈ entries s ->
    exists j, dead_at (rec_of dn j) d /\ dead_row j row;
}.

Lemma dlq_undead dn s j d :
  dlq_ok dn s -> dead_at (rec_of dn j) d ->
  dlq_ok (delete j dn) (s_del d s) /\
  S (length (entries (s_del d s))) = length (entries s).
Proof.
  intros [Hi Hv Hh Ho] Hd. destruct (Hh j d Hd) as (row & Hin & Hrow). split; [split|].
  - by apply ids_ok_filter.
  - intros i fs [_ He]%list_elem_of_filter. by eapply Hv.
  - intros j' d' Hd'. destruct (decide (j' = j)) as [->|Hne].
    { rewrite rec_delete_eq in Hd'. by apply dead_at_empty in Hd'. }
    rewrite rec_delete_ne in Hd' by done. destruct (Hh j' d' Hd') as (row' & Hin' & Hrow').
    exists row'. split; [|done]. apply elem_of_del. split; [done|]. cbn. intros ->.
    rewrite (ids_ok_unique _ _ _ _ _ Hi Hin' Hin) in Hrow'.
    apply dead_row_job in Hrow, Hrow'. congruence.
  - intros d' row' [Hin' Hne]%elem_of_del. cbn in Hne.
    destruct (Ho d' row' Hin') as (j' & Hd' & Hrow'). exists j'. split; [|done].
    destruct (decide (j' = j)) as [->|]; [by destruct Hne; eapply dead_at_inj|].
    by rewrite rec_delete_ne.
  - cbn [s_del set_entries entries]. rewrite (length_del _ _ _ _ Hi Hin).
    destruct (entries s); [by apply elem_of_nil in Hin|]. cbn. lia.
Qed.

Lemma dlq_bury dn s j r d row :
  dlq_ok dn s -> dn !! j = None -> fresh_id (last_id s) d -> dead_at r d ->
  dead_row j row -> valid_fields row = true ->
  dlq_ok (<[j := r]> dn) (s_add d row s).
Proof.
  intros [Hi Hv Hh Ho] Hj Hf Hr Hrow Hval. split; cbn [s_add entries last_id].
  - by eapply ids_ok_add.
  - intros i fs [?|[= -> ->]%list_elem_of_singleton]%elem_of_app; [by eapply Hv|done].
  - intros j' d' Hd'. destruct (decide (j' = j)) as [->|Hne].
    + rewrite rec_insert_eq in Hd'. rewrite (dead_at_inj _ _ _ Hd' Hr).
      exists row. split; [|done]. apply elem_of_app. right. by apply list_elem_of_singleton.
    + rewrite rec_insert_ne in Hd' by done. destruct (Hh j' d' Hd') as (row' & Hin' & ?).
      exists row'. split; [|done]. apply elem_of_app. by left.
  - intros d' row' [Hin|[= -> ->]%list_elem_of_singleton]%elem_of_app.
    + destruct (Ho d' row' Hin) as (j' & Hd' & Hrow'). exists j'. split; [|done].
      rewrite rec_insert_ne; [done|]. intros ->. rewrite (rec_none _ _ Hj) in Hd'.
      by apply dead_at_empty in Hd'.
    + exists j. by rewrite rec_insert_eq.
Qed.

Lemma dlq_succeed dn s j r :
  dlq_ok dn s -> dn !! j = None -> succeeded r -> dlq_ok (<[j := r]> dn) s.
Proof.
  intros [Hi Hv Hh Ho] Hj Hr. split; try done.
  - intros j' d' Hd'. destruct (decide (j' = j)) as [->|Hne].
    + rewrite rec_insert_eq in Hd'. destruct Hd', Hr. congruence.
    + rewrite rec_insert_ne in Hd' by done. by apply Hh.
  - intros d' row' Hin. destruct (Ho d' row' Hin) as (j' & Hd' & Hrow'). exists j'.
    split; [|done]. rewrite rec_insert_ne; [done|]. intros ->.
    rewrite (rec_none _ _ Hj) in Hd'. by apply dead_at_empty in Hd'.
Qed.

(** ** The results log *)
Definition result_jobs (s : stream) : list string :=
  (fun e : entry => default ""%string (field "job_id" e.2)) <$> entries s.

Lemma result_jobs_add i fs s :
  result_jobs (s_add i fs s) = result_jobs s ++ [default ""%string (field "job_id" fs)].
Proof. unfold result_jobs. cbn [s_add entries]. by rewrite fmap_app. Qed.

Record results_ok (dn : records) (s : stream) : Prop := {
  res_once : NoDup (result_jobs s);
  res_exact : forall j, j ∈ result_jobs s <-> state_of dn j = Some "SUCCEEDED"%string;
  res_ids : ids_ok (entries s) (last_id s);
  res_named : forall e, e ∈ entries s -> is_Some (field "job_id" e.2);
}.

Lemma state_insert_eq j r dn : state_of (<[j := r]> dn) j = r !! "state"%string.
Proof. unfold state_of. by rewrite rec_insert_eq. Qed.
Lemma state_insert_ne j j' r dn : j' <> j -> state_of (<[j := r]> dn) j' = state_of dn j'.
Proof. intros. unfold state_of. by rewrite rec_insert_ne. Qed.
Lemma state_delete_eq j dn : state_of (delete j dn) j = None.
Proof. unfold state_of. by rewrite rec_delete_eq. Qed.
Lemma state_delete_ne j j' dn : j' <> j -> state_of (delete j dn) j' = state_of dn j'.
Proof. intros. unfold state_of. by rewrite rec_delete_ne. Qed.
Lemma state_none j dn : dn !! j = None -> state_of dn j = None.
Proof. intros H. unfold state_of. by rewrite rec_none. Qed.

Lemma results_succeed dn s j r i w enq now :
  results_ok dn s -> dn !! j = None -> succeeded r -> fresh_id (last_id s) i ->
  results_ok (<[j := r]> dn) (s_add i (result_row j w enq now) s).
Proof.
  intros [Hn He Hids Hnm] Hj [Hr _] Hi. split; try rewrite result_jobs_add;
    change (default ""%string (field "job_id" (result_row j w enq now))) with j.
  - apply NoDup_app. split_and!; [done| |by apply NoDup_singleton].
    intros j' Hin ->%list_elem_of_singleton. apply He in Hin.
    by rewrite (state_none _ _ Hj) in Hin.
  - intros j'. rewrite elem_of_app, list_elem_of_singleton, He.
    destruct (decide (j' = j)) as [->|Hne].
    + rewrite state_insert_eq. tauto.
    + rewrite state_insert_ne by done. tauto.
  - by eapply ids_ok_add.
  - intros e [Hin| ->%list_elem_of_singleton]%elem_of_app; [by apply Hnm|by eexists].
Qed.

Lemma results_other dn s j r :
  results_ok dn s -> dn !! j = None -> r !! "state"%string <> Some "SUCCEEDED"%string ->
  results_ok (<[j := r]> dn) s.
Proof.
  intros [Hn He Hids Hnm] Hj Hr. split; [done| |done|done]. intros j'. rewrite He.
  destruct (decide (j' = j)) as [->|Hne].
  - rewrite state_insert_eq, (state_none _ _ Hj). by split.
  - by rewrite state_insert_ne.
Qed.

Lemma results_delete dn s j :
  results_ok dn s -> state_of dn j <> Some "SUCCEEDED"%string -> results_ok (delete j dn) s.
Proof.
  intros [Hn He Hids Hnm] Hj. split; [done| |done|done]. intros j'. rewrite He.
  destruct (decide (j' = j)) as [->|Hne].
  - rewrite state_delete_eq. by split.
  - by rewrite state_delete_ne.
Qed.

(** ** The effects log *)
Definition effect_of (row : list string) : string :=
  match row with _ :: e :: _ => e | _ => ""%string end.
Definition effect_keys (s : stream) : list string :=
  (fun e : entry => effect_of e.2) <$> entries s.

Lemma effect_keys_add i fs s : effect_keys (s_add i fs s) = effect_keys s ++ [effect_of fs].
Proof. unfold effect_keys. cbn [s_add entries]. by rewrite fmap_app. Qed.

Record effects_ok (m : gset string) (s : stream) : Prop := {
  eff_once : NoDup (effect_keys s);
  eff_exact : forall e, e ∈ effect_keys s <-> e ∈ m;
  eff_ids : ids_ok (entries s) (last_id s);
}.

Lemma effects_apply m s e extra i :
  effects_ok m s -> (e ∉ m) -> fresh_id (last_id s) i ->
  effects_ok ({[e]} ∪ m) (s_add i ("key"%string :: e :: extra) s).
Proof.
  intros [Hn He Hids] Hm Hi. split; try rewrite effect_keys_add; cbn [effect_of].
  - apply NoDup_app. split_and!; [done| |by apply NoDup_singleton].
    intros x Hin ->%list_elem_of_singleton. by apply He in Hin.
  - intros x. rewrite elem_of_app, list_elem_of_singleton, He.
    rewrite elem_of_union, elem_of_singleton. tauto.
  - by eapply ids_ok_add.
Qed.
