(* ===== verification/Invariants.v ===== *)
(** The invariant of the queue, and that every operation of Ops.v preserves it.

    [A] is the set of accepted jobs (an enqueue answered with their id), [D] the set
    of entries ever delivered to some worker. *)
From S2P Require Import Prelude Effects Redis Keys LuaScripts Queue Ops Refine.
From S2P Require Import Fields Streams Logs.

#[local] Open Scope Z_scope.

(** What [new_job_id] guarantees: a UUID is not empty and is not of the form the
    worker makes up for an entry without a job id. *)
Definition uuid_like (j : string) : Prop :=
  j <> ""%string /\ forall e, j <> ("entry:" +:+ str_of_eid e)%string.

Lemma names_field j e fs : names j e fs -> uuid_like j -> field "job_id" fs = Some j.
Proof. intros [H|[-> _]] [_ Hu]; [done|]. by destruct (Hu e). Qed.

Lemma names_unique j j' e fs :
  names j e fs -> uuid_like j' -> field "job_id" fs = Some j' -> j' = j.
Proof. intros [H|[_ [H|H]]] [Hne _] H'; congruence. Qed.

Section Invariants.
Context `{CJson}.

(** Where a job is: in the stream, waiting for a retry, or finished. *)
Definition in_stream (j : string) (q : queue) : Prop :=
  exists e fs, (e, fs) ∈ q_entries q /\ field "job_id" fs = Some j.
Definition waiting (j : string) (q : queue) : Prop :=
  exists m fs, is_Some (q_delayed q !! m) /\ cjson_decode m = Ok fs /\
    field "job_id" fs = Some j.
Definition finished (j : string) (q : queue) : Prop :=
  is_Some (state_of (q_done q) j).
Definition live (j : string) (q : queue) : Prop :=
  in_stream j q \/ waiting j q \/ finished j q.

Definition members_ok (z : gmap string Z) : Prop :=
  forall m, is_Some (z !! m) -> exists fs, m = cjson_encode fs /\ valid_fields fs = true.

(** The counters that must agree with the logs. *)
Definition counters_ok (q : queue) : Prop :=
  stat "processed" q = Z.of_nat (length (entries (q_results q))) /\
  stat "effects_applied" q = Z.of_nat (length (entries (q_effects q))) /\
  stat "dead" q - stat "late_successes" q - stat "requeued" q =
    Z.of_nat (length (entries (q_dead q))).

Record inv (q : queue) (A : gset string) (D : gset entry) : Prop := {
  inv_stream : stream_ok q D;
  inv_members : members_ok (q_delayed q);
  inv_records : records_ok (q_done q);
  inv_dlq : dlq_ok (q_done q) (q_dead q);
  inv_results : results_ok (q_done q) (q_results q);
  inv_effects : effects_ok (q_marks q) (q_effects q);
  inv_jobs : forall j, j ∈ A -> live j q;
  inv_uuid : forall j, j ∈ A -> uuid_like j;
  inv_counters : counters_ok q;
}.

Lemma inv_weaken q A A' D : inv q A D -> A' ⊆ A -> inv q A' D.
Proof. intros [] Hs. split; try done; intros j Hj; auto. Qed.

(** ** Counters *)
Lemma stat_incr_eq f n q : stat f (q_incr f n q) = stat f q + n.
Proof. unfold stat. cbn. by rewrite lookup_insert_eq. Qed.
Lemma stat_incr_ne f g n q : f <> g -> stat f (q_incr g n q) = stat f q.
Proof. intros. unfold stat. cbn. by rewrite lookup_insert_ne. Qed.

Definition tracked (f : string) : bool :=
  bool_decide (f ∈ ["processed"; "effects_applied"; "dead"; "late_successes";
                    "requeued"]%string).

Lemma counters_incr f n q :
  tracked f = false -> counters_ok q -> counters_ok (q_incr f n q).
Proof.
  intros Hf Hc. apply bool_decide_eq_false in Hf. unfold counters_ok.
  rewrite !stat_incr_ne by (intros <-; apply Hf; set_solver). done.
Qed.

Lemma inv_incr f n q A D : tracked f = false -> inv q A D -> inv (q_incr f n q) A D.
Proof. intros Hf []. split; try done. by apply counters_incr. Qed.

Lemma inv_incr_if f n q A D : tracked f = false -> inv q A D -> inv (incr_if f n q) A D.
Proof. intros Hf Hi. unfold incr_if. destruct (_ <? _)%nat; [by apply inv_incr|done]. Qed.

Lemma inv_hist f n q A D : inv q A D -> inv (q_hist f n q) A D.
Proof. intros []. by split. Qed.

Lemma inv_timeout t q A D : inv q A D -> inv (count_timeout t q) A D.
Proof. intros Hi. unfold count_timeout. case_decide; [by apply inv_incr|done]. Qed.

(** Operations on the group only. *)
Lemma inv_setpel p q A D :
  inv q A D -> (forall e, is_Some (p !! e) <-> is_Some (q_pel q !! e)) ->
  inv (q_setpel p q) A D.
Proof. intros [] Hp. split; try done. by eapply sok_pel. Qed.

Lemma inv_see c q A D : inv q A D -> inv (q_see c q) A D.
Proof. intros []. by split. Qed.

Lemma inv_forget l q A D : inv q A D -> inv (q_forget l q) A D.
Proof. intros []. by split. Qed.

Lemma inv_full b q A D : inv q A D -> inv (with_full b q) A D.
Proof. intros []. by split. Qed.
Lemma inv_idem m q A D : inv q A D -> inv (with_idem m q) A D.
Proof. intros []. by split. Qed.

(** ** Dropping an entry of a job that is finished or waiting *)
Definition entry_is (e : eid) (j : string) (q : queue) : Prop :=
  forall fs, (e, fs) ∈ q_entries q -> names j e fs.

Lemma live_drop e j j' q :
  entry_is e j q -> uuid_like j' -> live j' q ->
  waiting j q \/ finished j q -> live j' (q_drop e q).
Proof.
  intros He Hu [(i & fs & Hin & Hf)|[Hw|Hw]] Hj; [|by right; left|by right; right].
  destruct (decide (i = e)) as [->|Hne].
  - rewrite (names_unique _ _ _ _ (He _ Hin) Hu Hf).
    destruct Hj; [by right; left|by right; right].
  - left. exists i, fs. split; [|done]. by apply elem_of_del.
Qed.

Lemma inv_drop e j q A D :
  inv q A D -> entry_is e j q -> waiting j q \/ finished j q -> inv (q_drop e q) A D.
Proof.
  intros [] He Hj. split; try done.
  - by apply sok_drop.
  - intros j' Hj'. eapply live_drop; eauto.
Qed.

Lemma inv_suppress e j q A D :
  inv q A D -> entry_is e j q -> finished j q -> inv (q_suppress e q) A D.
Proof. intros. apply inv_incr; [done|]. eapply inv_drop; eauto. Qed.

(** An entry some worker was given stands for the job the worker took it for. *)
Lemma given_entry_is e fs j q A D :
  inv q A D -> (e, fs) ∈ D -> names j e fs -> entry_is e j q.
Proof.
  intros Hi HD Hn fs' Hin.
  destruct (so_given _ _ _ _ _ (inv_stream _ _ _ Hi) e fs HD) as [_ Hu].
  by rewrite (Hu _ Hin).
Qed.

(** ** Clearing a DEAD record *)
Lemma undead_step j q A D :
  inv q A D -> q_state j q = Some "DEAD"%string ->
  exists d, dead_at (rec_of (q_done q) j) d /\
    undead j q = with_done (delete j (q_done q)) (with_dead (s_del d (q_dead q)) q).
Proof.
  intros Hi Hs. change (q_state j q) with (state_of (q_done q) j) in Hs.
  destruct (records_state _ _ _ (inv_records _ _ _ Hi) Hs)
    as (r & _ & Hr & [[? _]|[_ [d Hd]]]); [done|].
  exists d. rewrite Hr. split; [done|]. unfold undead.
  change (q_rec j q) with (rec_of (q_done q) j). rewrite Hr.
  destruct Hd as (_ & -> & H1 & H2). cbn [mbind option_bind].
  by rewrite eid_of_str_of_eid.
Qed.

Lemma inv_undead j f q A D :
  inv q A D -> q_state j q = Some "DEAD"%string ->
  f = "late_successes"%string \/ f = "requeued"%string ->
  inv (q_incr f 1 (undead j q)) (A ∖ {[j]}) D.
Proof.
  intros Hi Hs Hf. destruct (undead_step _ _ _ _ Hi Hs) as (d & Hd & ->).
  destruct Hi. destruct (dlq_undead _ _ _ _ inv_dlq0 Hd) as [Hdlq Hlen].
  split; try done.
  - by apply records_delete.
  - apply results_delete; [done|]. unfold q_state in Hs.
    change (q_rec j q !! "state"%string) with (state_of (q_done q) j) in Hs. congruence.
  - intros j' [Hj' Hne]%elem_of_difference. rewrite elem_of_singleton in Hne.
    destruct (inv_jobs0 j' Hj') as [?|[?|Hfin]]; [by left|by right; left|right; right].
    unfold finished. cbn. by rewrite state_delete_ne.
  - intros j' [Hj' _]%elem_of_difference. auto.
  - destruct inv_counters0 as (Hp & He & Hdd). unfold counters_ok.
    destruct Hf as [-> | ->]; rewrite stat_incr_eq, !stat_incr_ne by done;
      cbn [q_dead q_results q_effects with_done with_dead q_incr with_stats];
      unfold stat in *; cbn in *; rewrite <- Hlen in Hdd; split_and!; try done; lia.
Qed.

(** ** Recording a success *)
Lemma success_record_ok res w now :
  succeeded (hset (success_record res w now) ∅).
Proof. split; cbn; by simplify_map_eq. Qed.

Lemma dead_record_ok d w reason error now :
  0 <= d.1 -> 0 <= d.2 -> dead_at (hset (dead_record d w reason error now) ∅) d.
Proof. intros. split_and!; cbn; by simplify_map_eq. Qed.

Lemma inv_success e j res w enq i q A D :
  inv q A D -> q_state j q = None -> entry_is e j q -> uuid_like j ->
  fresh_id (last_id (q_results q)) i ->
  inv (record_success e j res w enq i q) (A ∪ {[j]}) D.
Proof.
  intros [] Hs He Hu Hfi. change (q_state j q) with (state_of (q_done q) j) in Hs.
  pose proof (records_none _ _ inv_records0 Hs) as Hj.
  assert (Hrec : q_rec j q = ∅) by by apply rec_none.
  unfold record_success. rewrite Hrec.
  set (r := hset _ ∅). assert (Hr : succeeded r) by apply success_record_ok.
  clearbody r. split; try done.
  - by apply sok_drop.
  - apply records_insert; [done|by left].
  - by apply dlq_succeed.
  - by apply results_succeed.
  - intros j' Hj'. change (live j' (q_drop e (with_done (<[j := r]> (q_done q)) q))).
    assert (Hfin : finished j (with_done (<[j := r]> (q_done q)) q)).
    { unfold finished. cbn. rewrite state_insert_eq. destruct Hr as [-> _]. by eexists. }
    destruct (decide (j' = j)) as [->|Hne]; [by right; right|].
    apply elem_of_union in Hj' as [Hin|Hin]; [|by apply elem_of_singleton in Hin].
    apply (live_drop e j); [done|by apply inv_uuid0| |by right].
    destruct (inv_jobs0 j' Hin) as [?|[?|Hf]]; [by left|by right; left|right; right].
    unfold finished. cbn. by rewrite state_insert_ne.
  - intros j' [?|?%elem_of_singleton]%elem_of_union; [auto|by subst].
  - destruct inv_counters0 as (Hp & Hee & Hdd). unfold counters_ok.
    rewrite stat_incr_eq, !stat_incr_ne by done.
    cbn [q_dead q_results q_effects with_done with_results q_incr with_stats q_drop
         q_xdel with_entries q_ack q_setpel with_group].
    unfold stat in *; cbn in *. rewrite length_app. cbn. split_and!; try done. lia.
Qed.

Lemma inv_weaken_union q A D j : inv q (A ∖ {[j]} ∪ {[j]}) D -> inv q A D.
Proof.
  intros Hi. eapply inv_weaken; [exact Hi|]. intros x Hx.
  destruct (decide (x = j)); set_solver.
Qed.

(** ** The scripts *)
Lemma inv_commit e fs j res w enq i q A D :
  inv q A D -> (e, fs) ∈ D -> field "job_id" fs = Some j -> uuid_like j ->
  fresh_id (last_id (q_results q)) i ->
  inv (q_commit e j res w enq i q).1 A D.
Proof.
  intros Hi HD Hf Hu Hfi. assert (He : entry_is e j q) by (eapply given_entry_is; eauto; by left).
  unfold q_commit. case_decide as Hs; [|case_decide as Hd]; cbn [fst].
  - eapply inv_suppress; eauto. by eexists.
  - apply inv_weaken_union with j. apply inv_success; [|..|done|].
    4: { by destruct (undead_step _ _ _ _ Hi Hd) as (d & _ & ->). }
    + apply inv_undead; auto.
    + destruct (undead_step _ _ _ _ Hi Hd) as (d & _ & ->). apply state_delete_eq.
    + intros fs' Hin. apply He. revert Hin.
      by destruct (undead_step _ _ _ _ Hi Hd) as (d & _ & ->).
  - eapply inv_weaken; [apply inv_success; [exact Hi| |exact He|exact Hu|exact Hfi]|set_solver].
    destruct (q_state j q) as [s|] eqn:Hst; [|done].
    change (q_state j q) with (state_of (q_done q) j) in Hst.
    by destruct (records_state _ _ _ (inv_records _ _ _ Hi) Hst)
      as (r & _ & _ & [[-> _]|[-> _]]).
Qed.

Lemma inv_heartbeat e w q A D : inv q A D -> inv (q_heartbeat e w q).1 A D.
Proof.
  intros Hi. unfold q_heartbeat, owns. destruct (q_pel q !! e) as [le|] eqn:He;
    cbn [mbind option_bind]; [case_decide|]; try by apply inv_incr.
  apply inv_incr; [done|]. apply inv_see, inv_setpel; [done|]. intros e'.
  destruct (decide (e' = e)) as [->|Hne].
  - rewrite lookup_insert_eq, He. split; intros; by eexists.
  - by rewrite lookup_insert_ne.
Qed.

Lemma inv_lease_lost q A D : inv q A D -> inv (lease_lost q).1 A D.
Proof. by apply inv_incr. Qed.

Lemma live_delayed m fs sc j q :
  cjson_decode m = Ok fs -> live j q ->
  live j (with_delayed (<[m := sc]> (q_delayed q)) q).
Proof.
  intros Hm [?|[(m' & fs' & Hin & ? & ?)|?]]; [by left|right; left|by right; right].
  exists m', fs'. split; [|done]. cbn.
  destruct (decide (m' = m)) as [->|]; [rewrite lookup_insert_eq; by eexists|].
  by rewrite lookup_insert_ne.
Qed.

Lemma inv_retry e fs w j n delay t q A D :
  inv q A D -> (e, fs) ∈ D -> field "job_id" fs = Some j ->
  inv (q_retry e w j n delay t q).1 A D.
Proof.
  intros Hi HD Hf. assert (He : entry_is e j q) by (eapply given_entry_is; eauto; by left).
  unfold q_retry. destruct (owns w e q) as [le|] eqn:Ho; [|by apply inv_lease_lost].
  destruct (owned_entry _ _ _ _ _ _ (inv_stream _ _ _ Hi) Ho HD) as [Hin Hat].
  unfold truthy. case_bool_decide as Hs; [by eapply inv_suppress|]. rewrite Hat.
  assert (Hval : valid_fields (set_attempt n fs) = true).
  { apply set_attempt_valid. by eapply (so_valid _ _ _ _ _ (inv_stream _ _ _ Hi)). }
  assert (Hdec : cjson_decode (cjson_encode (set_attempt n fs)) = Ok (set_attempt n fs)).
  { by apply cjson_roundtrip, valid_ne. }
  cbn [fst]. apply inv_timeout, inv_incr; [done|]. apply (inv_drop e j); [|done|left].
  - destruct Hi. split; try done.
    + intros m Hm. cbn in Hm. destruct (decide (m = cjson_encode (set_attempt n fs))) as [->|Hne].
      * by eexists.
      * rewrite lookup_insert_ne in Hm by done. by apply inv_members0.
    + intros j' Hj'. eapply live_delayed; [done|]. auto.
  - exists (cjson_encode (set_attempt n fs)), (set_attempt n fs). cbn.
    rewrite lookup_insert_eq. split; [by eexists|]. split; [done|].
    by rewrite field_set_attempt.
Qed.

Lemma inv_dead_letter e fs w j reason error attempts t d q A D :
  inv q A D -> (e, fs) ∈ D -> names j e fs -> fresh_id (last_id (q_dead q)) d ->
  inv (q_dead_letter e w j reason error attempts t d q).1 A D.
Proof.
  intros Hi HD Hn Hd. assert (He : entry_is e j q) by (eapply given_entry_is; eauto).
  unfold q_dead_letter. destruct (owns w e q) as [le|] eqn:Ho; [|by apply inv_lease_lost].
  destruct (owned_entry _ _ _ _ _ _ (inv_stream _ _ _ Hi) Ho HD) as [Hin Hat].
  unfold truthy. case_bool_decide as Hs; [by eapply inv_suppress|].
  apply eq_None_not_Some in Hs. change (q_state j q) with (state_of (q_done q) j) in Hs.
  rewrite Hat. change (default [] (Some fs)) with fs. cbn [fst].
  set (row := fs ++ dlq_meta e w j reason error attempts (deliveries le) (q_now q)).
  assert (Hval : valid_fields fs = true) by by eapply (so_valid _ _ _ _ _ (inv_stream _ _ _ Hi)).
  pose proof (records_none _ _ (inv_records _ _ _ Hi) Hs) as Hj.
  change (q_rec j (with_dead (s_add d row (q_dead q)) q)) with (rec_of (q_done q) j). rewrite (rec_none _ _ Hj).
  set (r := hset _ ∅).
  assert (Hr : dead_at r d) by (apply dead_record_ok; apply Hd). clearbody r.
  apply inv_timeout. destruct Hi. split; try done.
  - by apply sok_drop.
  - apply records_insert; [done|]. right. by exists d.
  - apply dlq_bury; try done.
    + by exists e, w, fs, reason, error, attempts, (deliveries le), (q_now q).
    + unfold row, valid_fields. rewrite even_length_app by (try apply valid_even; done).
      by destruct fs.
  - apply results_other; [done..|]. destruct Hr as [-> _]. done.
  - intros j' Hj'.
    change (live j' (q_drop e (with_done (<[j := r]> (q_done q)) q))).
    apply (live_drop e j); [done|by apply inv_uuid0| |].
    + destruct (inv_jobs0 j' Hj') as [?|[?|Hf]]; [by left|by right; left|right; right].
      unfold finished in *. cbn. destruct (decide (j' = j)) as [->|Hne].
      * rewrite state_insert_eq. destruct Hr as [-> _]. by eexists.
      * by rewrite state_insert_ne.
    + right. unfold finished. cbn. rewrite state_insert_eq. destruct Hr as [-> _]. by eexists.
  - destruct inv_counters0 as (Hp & Hee & Hdd). unfold counters_ok.
    rewrite stat_incr_eq, !stat_incr_ne by done.
    cbn [q_dead q_results q_effects with_done with_dead q_incr with_stats q_drop
         q_xdel with_entries q_ack q_setpel with_group s_add entries].
    unfold stat in *; cbn in *. rewrite length_app. cbn. split_and!; try done. lia.
Qed.

Lemma live_add i fs j q : live j q -> live j (q_add i fs q).
Proof.
  intros [(e & gs & Hin & Hf)|[?|?]]; [left|by right; left|by right; right].
  exists e, gs. split; [|done]. apply elem_of_app. by left.
Qed.

Lemma live_added i fs j q : field "job_id" fs = Some j -> live j (q_add i fs q).
Proof.
  intros Hf. left. exists i, fs. split; [|done].
  apply elem_of_app. right. by apply list_elem_of_singleton.
Qed.

Lemma inv_add i fs q A D :
  inv q A D -> fresh_id (q_last q) i -> valid_fields fs = true ->
  inv (q_add i fs q) A D.
Proof.
  intros [] Hi Hfs. split; try done; [by eapply sok_add|].
  intros j Hj. apply live_add. auto.
Qed.

Lemma inv_add_job i fs j q A D :
  inv q A D -> fresh_id (q_last q) i -> valid_fields fs = true ->
  field "job_id" fs = Some j -> uuid_like j -> inv (q_add i fs q) (A ∪ {[j]}) D.
Proof.
  intros Hi Hf Hfs Hj Hu. pose proof (inv_add _ _ _ _ _ Hi Hf Hfs) as Hi'.
  destruct Hi'. split; try done.
  - intros j' [?| ->%elem_of_singleton]%elem_of_union; [auto|by apply live_added].
  - intros j' [?| ->%elem_of_singleton]%elem_of_union; auto.
Qed.

Definition count_kind (c : string) : Prop :=
  c = "rejected"%string \/ c = "blocked"%string \/ c = "none"%string.

Lemma inv_enqueue idem j high low c args i q A D :
  inv q A D -> fresh_id (q_last q) i -> even_length args = true ->
  field "job_id" args = Some j -> uuid_like j -> count_kind c ->
  inv (q_enqueue idem j high low c args i q).1
      (if decide ((q_enqueue idem j high low c args i q).2.1.2 = 1) then A ∪ {[j]} else A) D.
Proof.
  intros Hi Hf He Hj Hu Hc. unfold q_enqueue.
  destruct (idem ≫= _) as [o|]; [done|].
  destruct (next_full high low q).
  - cbn [fst snd]. rewrite (decide_False (P := _ = 1)) by done.
    case_decide; [by apply inv_full|].
    apply inv_incr; [by destruct Hc as [-> |[-> | ->]]|by apply inv_full].
  - cbn [fst snd]. rewrite (decide_True (P := _ = 1)) by done.
    apply inv_add_job; [|by destruct idem| | |done].
    + destruct idem; [apply inv_idem|]; by apply inv_full.
    + by apply valid_fields_snoc.
    + by rewrite field_app by done.
Qed.

Lemma inv_read c n q A D :
  inv q A D -> inv (q_read c n q) A (D ∪ list_to_set (q_new n q)).
Proof. intros []. split; try done. by apply sok_read. Qed.

Lemma inv_requeue j i q A D :
  inv q A D -> fresh_id (q_last q) i -> inv (q_requeue j i q).1 A D.
Proof.
  intros Hi Hf. unfold q_requeue. case_decide as Hs; [|done].
  destruct (undead_step _ _ _ _ Hi Hs) as (d & Hd & _).
  change (q_rec j q) with (rec_of (q_done q) j).
  pose proof Hd as (_ & -> & H1 & H2). cbn [mbind option_bind].
  rewrite eid_of_str_of_eid by done.
  destruct (dlq_has _ _ (inv_dlq _ _ _ Hi) _ _ Hd) as (row & Hin & Hrow).
  rewrite (fields_at_unique _ _ _ _ (dlq_ids _ _ (inv_dlq _ _ _ Hi)) Hin).
  case_decide as Hne; [done|]. cbn [fst].
  assert (Heven : even_length row = true).
  { eapply valid_even, (dlq_valid _ _ (inv_dlq _ _ _ Hi)), Hin. }
  assert (Hval : valid_fields (strip_dlq row) = true).
  { unfold valid_fields. rewrite bool_decide_false by done. by apply strip_dlq_even. }
  pose proof (inv_add i _ _ _ _ Hi Hf Hval) as Hadd.
  assert (Hs' : q_state j (q_add i (strip_dlq row) q) = Some "DEAD"%string) by done.
  pose proof (inv_undead j "requeued" _ _ _ Hadd Hs' ltac:(by right)) as Hu.
  destruct (undead_step _ _ _ _ Hadd Hs') as (d' & _ & Hun). rewrite Hun in Hu |- *.
  destruct Hu. split; try done.
  - intros j' Hj'. destruct (decide (j' = j)) as [->|Hjj]; [|apply inv_jobs0; set_solver].
    left. exists i, (strip_dlq row). split; [apply elem_of_app; right; by apply list_elem_of_singleton|].
    destruct Hrow as (e & w & fs & reason & error & attempts & n & now & -> & Hvf & Hn).
    rewrite strip_dlq_dead by by apply valid_even.
    rewrite field_strip_dlq by (done || by apply valid_even).
    by apply (names_field _ e), (inv_uuid _ _ _ Hi).
  - apply (inv_uuid _ _ _ Hi).
Qed.

Lemma inv_move m fs i q A D :
  inv q A D -> is_Some (q_delayed q !! m) -> cjson_decode m = Ok fs ->
  fresh_id (q_last q) i -> inv (q_move m fs i q) A D.
Proof.
  intros Hi Hm Hdec Hf. destruct (inv_members _ _ _ Hi m Hm) as (gs & -> & Hgs).
  rewrite cjson_roundtrip in Hdec by by apply valid_ne. injection Hdec as ->.
  pose proof (inv_add i fs _ _ _ Hi Hf Hgs) as Hadd. destruct Hadd. split; try done.
  - intros m Hm'. apply (inv_members _ _ _ Hi). cbn in Hm'.
    by destruct Hm' as [sc [_ Hsc]%lookup_delete_Some]; exists sc.
  - intros j Hj. destruct (inv_jobs0 j Hj) as [?|[(m' & fs' & Hin & Hd & Hfj)|?]];
      [by left| |by right; right].
    destruct (decide (m' = cjson_encode fs)) as [->|Hne].
    + rewrite cjson_roundtrip in Hd by by apply valid_ne. injection Hd as ->.
      by apply live_added.
    + right; left. exists m', fs'. split; [|done]. cbn. by rewrite lookup_delete_ne.
Qed.

Lemma inv_moved l q q' A D :
  moved l q q' -> NoDup l -> (forall m, m ∈ l -> is_Some (q_delayed q !! m)) ->
  inv q A D -> inv q' A D.
Proof.
  induction 1 as [q|m l fs i q q' Hdec Hf Hm IH]; intros Hnd Hin Hi; [done|].
  apply NoDup_cons in Hnd as [Hml Hnd]. apply IH; [done|..].
  - intros m' Hm'. cbn. rewrite lookup_delete_ne by (intros ->; done).
    apply Hin. by right.
  - apply inv_move; try done. apply Hin. by left.
Qed.

Lemma inv_ledger e extra i q A D :
  inv q A D -> fresh_id (last_id (q_effects q)) i -> inv (q_ledger e extra i q).1 A D.
Proof.
  intros Hi Hfi. unfold q_ledger. case_decide as Hm; cbn [fst]; [by apply inv_incr|].
  destruct Hi. split; try done.
  - by apply effects_apply.
  - destruct inv_counters0 as (Hp & Hee & Hdd). unfold counters_ok.
    rewrite stat_incr_eq, !stat_incr_ne by done.
    cbn [q_dead q_results q_effects with_effects q_incr with_stats s_add entries].
    unfold stat in *; cbn in *. rewrite length_app. cbn. split_and!; try done. lia.
Qed.

Lemma inv_keep w m thr maxd e st A D :
  inv st.1 A D -> is_Some (q_pel st.1 !! e.1) -> inv (q_keep w m thr maxd e st).1 A D.
Proof.
  destruct st as [q [slots out]]. cbn [fst]. intros Hi Hp. unfold q_keep.
  destruct (_ && _); cbn [fst]; [|by apply inv_hist].
  apply inv_see, inv_setpel; [done|]. intros e'.
  destruct (decide (e' = e.1)) as [->|Hne].
  - rewrite lookup_insert_eq. split; intros; [done|by eexists].
  - by rewrite lookup_insert_ne.
Qed.

Lemma keep_entries w m thr maxd e st :
  q_entries (q_keep w m thr maxd e st).1 = q_entries st.1 /\
  (forall i, is_Some (q_pel st.1 !! i) -> is_Some (q_pel (q_keep w m thr maxd e st).1 !! i)) /\
  (forall c, c ∈ (q_keep w m thr maxd e st).2.2 -> c ∈ st.2.2 \/ c.1 = e).
Proof.
  destruct st as [q [slots out]]. unfold q_keep. destruct (_ && _); cbn.
  - split; [done|]. split; [|by left]. intros i Hi.
    destruct (decide (i = e.1)) as [->|Hne];
      [rewrite lookup_insert_eq; by eexists|by rewrite lookup_insert_ne].
  - split; [done|]. split; [done|].
    intros c [?| ->%list_elem_of_singleton]%elem_of_app; [by left|right]. by destruct e.
Qed.

Lemma inv_keep_all w m thr maxd l : forall st A D,
  inv st.1 A D -> (forall e, e ∈ l -> is_Some (q_pel st.1 !! e.1)) ->
  let st' := foldl (fun st e => q_keep w m thr maxd e st) st l in
  inv st'.1 A D /\ q_entries st'.1 = q_entries st.1 /\
  (forall c, c ∈ st'.2.2 -> c ∈ st.2.2 \/ c.1 ∈ l).
Proof.
  induction l as [|e l IH]; intros st A D Hi Hl; cbn [foldl]; [by split_and!; [..|left]|].
  destruct (keep_entries w m thr maxd e st) as (He & Hp & Hc).
  destruct (IH (q_keep w m thr maxd e st) A D) as (Hi' & He' & Hc').
  - apply inv_keep; [done|]. apply Hl. by left.
  - intros e' He'. apply Hp, Hl. by right.
  - split; [done|]. split; [congruence|]. intros c [Hin|Hin]%Hc'; [|right; by right].
    apply Hc in Hin as [?| ->]; [by left|right; left].
Qed.

Lemma inv_reclaim G w m cursor n next slots thr maxd claimed q A D :
  inv q A D ->
  autoclaim_ok (q_str G q) (q_group q) (q_now q) m cursor n next claimed [] ->
  inv (q_reclaim w m slots thr maxd claimed q).1 A
      (D ∪ list_to_set (fst <$> (q_reclaim w m slots thr maxd claimed q).2)).
Proof.
  intros Hi (_ & _ & Hcl & _). unfold q_reclaim.
  set (q1 := q_see w (q_setpel (take_over w (q_now q) claimed (q_pel q)) q)).
  assert (Hi1 : inv q1 A D).
  { apply inv_see, inv_setpel; [done|]. intros e. apply take_over_lookup. }
  destruct (inv_keep_all w m thr maxd claimed (q1, (slots, [])) A D Hi1) as (Hi2 & He2 & Hc2).
  { intros [i fs] Hin. destruct (Hcl i fs Hin) as [(le & Hle & _) _]. cbn.
    apply take_over_lookup. by exists le. }
  destruct (foldl _ _ claimed) as [q2 [s2 out]]. cbn [fst snd] in *.
  apply inv_incr_if; [done|]. destruct Hi2. split; try done.
  apply sok_deliver; [done|]. intros e He. rewrite He2.
  apply list_elem_of_fmap in He as (c & -> & Hc).
  apply Hc2 in Hc as [Hc%elem_of_nil|Hc]; [done|].
  destruct (c.1) as [i fs] eqn:Hcf. by destruct (Hcl i fs Hc).
Qed.

(** ** A drained queue *)
Lemma drained_finished q A D j :
  inv q A D -> q_entries q = [] -> q_delayed q = ∅ -> j ∈ A ->
  state_of (q_done q) j = Some "SUCCEEDED"%string \/ state_of (q_done q) j = Some "DEAD"%string.
Proof.
  intros Hi He Hz Hj.
  destruct (inv_jobs _ _ _ Hi j Hj) as [(e & fs & Hin & _)|[(m & fs & Hin & _)|[st Hst]]].
  - rewrite He in Hin. by apply elem_of_nil in Hin.
  - rewrite Hz in Hin. destruct Hin as [? Hin]. by rewrite lookup_empty in Hin.
  - rewrite Hst. destruct (records_state _ _ _ (inv_records _ _ _ Hi) Hst)
      as (r & _ & _ & [[-> _]|[-> _]]); [by left|by right].
Qed.

End Invariants.
