(* ===== verification/Machine.v ===== *)
(** The abstract machine: the operations of Ops.v as a step relation, its
    invariant by induction on runs, and what a run can never undo. System.v shows
    that the real system, scripts run on Redis, refines it. *)
From S2P Require Import Prelude Effects Redis Keys LuaScripts Queue Ops Refine.
From S2P Require Import Fields Streams Logs Invariants.
From stdpp Require Import relations.

#[local] Open Scope Z_scope.

Record astate := AState {
  a_queue : queue;
  a_accepted : gset string;
  a_given : gset entry;
}.

(** A later queue: the clock moved on and some idempotency keys expired. *)
Definition q_later (now : Z) (idem : gmap string string) (q : queue) : queue :=
  Queue now (q_entries q) (q_last q) (q_ld q) (q_pel q) (q_cons q) (q_delayed q)
    (q_dead q) (q_results q) (q_effects q) (q_full q) (q_reclaims q) (q_stats q)
    (q_done q) idem (q_marks q).

Section Machine.
Context `{CJson}.

Inductive astep : astate -> astate -> Prop :=
| a_later q A D now idem :
    idem ⊆ q_idem q ->
    astep (AState q A D) (AState (q_later now idem q) A D)
| a_enqueue q A D k j high low c args i :
    fresh_id (q_last q) i -> even_length args = true ->
    field "job_id" args = Some j -> uuid_like j -> count_kind c ->
    let p := q_enqueue k j high low c args i q in
    astep (AState q A D)
      (AState p.1 (if decide (p.2.1.2 = 1) then A ∪ {[j]} else A) D)
| a_read q A D w n :
    astep (AState q A D) (AState (q_read w n q) A (D ∪ list_to_set (q_new n q)))
| a_commit q A D e fs j res w enq i :
    (e, fs) ∈ D -> field "job_id" fs = Some j -> uuid_like j ->
    fresh_id (last_id (q_results q)) i ->
    astep (AState q A D) (AState (q_commit e j res w enq i q).1 A D)
| a_heartbeat q A D e w :
    astep (AState q A D) (AState (q_heartbeat e w q).1 A D)
| a_retry q A D e fs j w n delay t :
    (e, fs) ∈ D -> field "job_id" fs = Some j ->
    astep (AState q A D) (AState (q_retry e w j n delay t q).1 A D)
| a_dead q A D e fs j w reason error attempts t d :
    (e, fs) ∈ D -> names j e fs -> fresh_id (last_id (q_dead q)) d ->
    astep (AState q A D) (AState (q_dead_letter e w j reason error attempts t d q).1 A D)
| a_requeue q A D j i :
    fresh_id (q_last q) i ->
    astep (AState q A D) (AState (q_requeue j i q).1 A D)
| a_schedule q A D n l q' :
    due_list n q l -> moved l q q' ->
    astep (AState q A D) (AState (incr_if "scheduled" (length l) q') A D)
| a_ledger q A D e extra i :
    fresh_id (last_id (q_effects q)) i ->
    astep (AState q A D) (AState (q_ledger e extra i q).1 A D)
| a_reclaim q A D G w m cursor n next slots thr maxd claimed :
    autoclaim_ok (q_str G q) (q_group q) (q_now q) m cursor n next claimed [] ->
    let p := q_reclaim w m slots thr maxd claimed q in
    astep (AState q A D) (AState p.1 A (D ∪ list_to_set (fst <$> p.2)))
| a_count q A D f n :
    tracked f = false ->
    astep (AState q A D) (AState (q_incr f n q) A D)
| a_prune q A D names :
    (forall n, n ∈ names -> owns_nothing n q) ->
    astep (AState q A D)
      (AState (incr_if "consumers_pruned" (length names) (q_forget names q)) A D).

Definition ainv (s : astate) : Prop := inv (a_queue s) (a_accepted s) (a_given s).

Lemma inv_later now idem q A D : inv q A D -> inv (q_later now idem q) A D.
Proof. intros []. by split. Qed.

Lemma due_list_nodup n q l : due_list n q l -> NoDup l.
Proof.
  intros (ms & Hp & _ & ->).
  assert (H1 : NoDup (ms.*1)).
  { rewrite Hp. apply (NoDup_fmap_fst (filter _ _)).
    - intros x y1 y2 [_ H1]%list_elem_of_filter [_ H2]%list_elem_of_filter.
      apply elem_of_map_to_list in H1, H2. congruence.
    - apply NoDup_filter, NoDup_map_to_list. }
  rewrite <- (take_drop n ms.*1) in H1. by apply NoDup_app in H1 as [H1 _].
Qed.

Lemma astep_inv s s' : astep s s' -> ainv s -> ainv s'.
Proof.
  intros Hs. destruct Hs; unfold ainv; cbn [a_queue a_accepted a_given]; intros Hi.
  - by apply inv_later.
  - by apply inv_enqueue.
  - by apply inv_read.
  - by eapply inv_commit.
  - by apply inv_heartbeat.
  - by eapply inv_retry.
  - by eapply inv_dead_letter.
  - by apply inv_requeue.
  - apply inv_incr_if; [done|].
    eapply inv_moved; [done|by eapply due_list_nodup| |done].
    intros m Hin. destruct (due_list_elem _ _ _ _ H0 Hin) as (sc & ? & _). by eexists.
  - by apply inv_ledger.
  - by eapply inv_reclaim.
  - by apply inv_incr.
  - apply inv_incr_if; [done|]. by apply inv_forget.
Qed.

Lemma asteps_inv s s' : rtc astep s s' -> ainv s -> ainv s'.
Proof. induction 1; [done|]. eauto using astep_inv. Qed.

(** ** What no step undoes: a recorded success. *)
Definition keeps (q q' : queue) : Prop :=
  forall j, q_state j q = Some "SUCCEEDED"%string -> q_done q' !! j = q_done q !! j.

Lemma keeps_refl q q' : q_done q' = q_done q -> keeps q q'.
Proof. by intros Hd j _; rewrite Hd. Qed.

Lemma keeps_trans q1 q2 q3 : keeps q1 q2 -> keeps q2 q3 -> keeps q1 q3.
Proof.
  intros H1 H2 j Hj. rewrite <- (H1 j Hj). apply H2.
  unfold q_state, q_rec in *. by rewrite (H1 j Hj).
Qed.

Lemma keeps_other j dn q q' :
  (forall j', j' <> j -> dn !! j' = q_done q !! j') ->
  q_state j q <> Some "SUCCEEDED"%string -> q_done q' = dn -> keeps q q'.
Proof.
  intros Hj Hne Hd j' Hs. rewrite Hd. apply Hj. by intros ->.
Qed.

Lemma done_timeout t q : q_done (count_timeout t q) = q_done q.
Proof. unfold count_timeout. by case_decide. Qed.
Lemma done_incr_if f n q : q_done (incr_if f n q) = q_done q.
Proof. unfold incr_if. by destruct (_ <? _)%nat. Qed.
Lemma done_moved l q q' : moved l q q' -> q_done q' = q_done q.
Proof. induction 1 as [|m l fs i q q' _ _ _ IH]; [done|]. by rewrite IH. Qed.

Lemma done_keep_all w m thr maxd l : forall st,
  q_done (foldl (fun st e => q_keep w m thr maxd e st) st l).1 = q_done st.1.
Proof.
  induction l as [|e l IH]; intros st; cbn [foldl]; [done|]. rewrite IH.
  destruct st as [q [slots out]]. unfold q_keep. by destruct (_ && _).
Qed.

Lemma done_reclaim w m slots thr maxd claimed q :
  q_done (q_reclaim w m slots thr maxd claimed q).1 = q_done q.
Proof.
  unfold q_reclaim.
  pose proof (done_keep_all w m thr maxd claimed
    (q_see w (q_setpel (take_over w (q_now q) claimed (q_pel q)) q), (slots, []))) as Hd.
  destruct (foldl _ _ claimed) as [q2 [s2 out]]. cbn [fst] in *. by rewrite done_incr_if.
Qed.

Lemma undead_done j q : q_done (undead j q) = delete j (q_done q).
Proof. unfold undead. by destruct (_ ≫= _). Qed.

Lemma commit_keeps e j res w enq i q : keeps q (q_commit e j res w enq i q).1.
Proof.
  unfold q_commit. case_decide as Hs; [by apply keeps_refl|].
  case_decide as Hd; cbn [fst].
  - eapply (keeps_other j); [|done|done]. intros j' Hne. cbn -[undead].
    rewrite lookup_insert_ne by done. rewrite undead_done. by rewrite lookup_delete_ne.
  - eapply (keeps_other j); [|done|done]. intros j' Hne. cbn. by rewrite lookup_insert_ne.
Qed.

Lemma dead_keeps e w j reason error attempts t d q :
  keeps q (q_dead_letter e w j reason error attempts t d q).1.
Proof.
  unfold q_dead_letter. destruct (owns w e q); [|by apply keeps_refl].
  unfold truthy. case_bool_decide as Hs; [by apply keeps_refl|]. cbn [fst].
  eapply (keeps_other j); [| |by rewrite done_timeout].
  - intros j' Hne. cbn. by rewrite lookup_insert_ne.
  - intros He. apply Hs. rewrite He. by eexists.
Qed.

Lemma requeue_keeps j i q : keeps q (q_requeue j i q).1.
Proof.
  unfold q_requeue. case_decide as Hs; [|by apply keeps_refl].
  destruct (_ ≫= _) as [d|]; [|by apply keeps_refl].
  destruct (fields_at d _) as [fs|]; [|by apply keeps_refl].
  case_decide; [by apply keeps_refl|]. cbn [fst].
  eapply (keeps_other j); [| |cbn -[undead]; by rewrite undead_done].
  - intros j' Hne. cbn. by rewrite lookup_delete_ne.
  - rewrite Hs. done.
Qed.

Lemma astep_keeps s s' : astep s s' -> keeps (a_queue s) (a_queue s').
Proof.
  intros Hs. destruct Hs; cbn [a_queue]; try by apply keeps_refl.
  - apply keeps_refl. unfold p, q_enqueue. destruct (k ≫= _); [done|].
    destruct (next_full _ _ _); [by case_decide|by destruct k].
  - apply commit_keeps.
  - apply keeps_refl. unfold q_heartbeat. by destruct (owns w e q).
  - apply keeps_refl. unfold q_retry. destruct (owns w e q); [|done].
    destruct (truthy _); [done|]. destruct (fields_at e _); [|done].
    cbn [fst]. by rewrite done_timeout.
  - apply dead_keeps.
  - apply requeue_keeps.
  - apply keeps_refl. rewrite done_incr_if. by eapply done_moved.
  - apply keeps_refl. unfold q_ledger. by case_decide.
  - apply keeps_refl. apply done_reclaim.
  - apply keeps_refl. by rewrite done_incr_if.
Qed.

Lemma asteps_keeps s s' : rtc astep s s' -> keeps (a_queue s) (a_queue s').
Proof. induction 1; [by apply keeps_refl|]. eauto using keeps_trans, astep_keeps. Qed.

(** An accepted job stays accepted. *)
Lemma astep_accepted s s' : astep s s' -> a_accepted s ⊆ a_accepted s'.
Proof. intros Hs. destruct Hs; cbn; try done. case_decide; set_solver. Qed.
End Machine.
