(* ===== verification/System.v ===== *)
(** The whole queue: any number of producers, workers, schedulers and operators
    running their scripts against one Redis in any order.

    A state is a Redis view with two ghost sets: the jobs whose enqueue was
    accepted, and the (id, fields) pairs ever delivered to a worker. A step is one
    atomic script run by anybody, with the only discipline the Python code keeps:
    a transition is attempted for an entry that was delivered, under the job id
    its fields carry. A worker may hold what it was given forever and act on it at
    any time, any number of times: so every interleaving, stale holder, crash
    (a holder that never acts) and re-send after a lost reply is covered. *)
From S2P Require Import Prelude Effects Redis Keys LuaScripts Queue Ops Refine.
From S2P Require Import Fields Streams Logs Invariants Machine.
From stdpp Require Import relations.

#[local] Open Scope Z_scope.

Record sys := Sys {
  s_view : rview;
  s_accepted : gset string;
  s_given : gset entry;
}.

(** The keys that last: everything but idempotency keys. *)
Definition persistent (K : Keys.t) (v v' : rview) : Prop :=
  forall a, is_idem a = false -> look (render K a) v' = look (render K a) v.

Definition answer {E A B} (r : result E A) (f : A -> B) (b : B) : B :=
  match r with Ok a => f a | Err _ => b end.

Section System.
Context `{CJson}.
Context (K : Keys.t) (G : string).
(** [T = false]: done and ledger keys have no TTL (done_ttl_seconds = 0).
    [T = true]: they have one, and the run is shorter than it. *)
Context (T : bool).

Definition ttl_ok (ttl : Z) : Prop := 0 < ttl -> T = true.

Inductive sstep : sys -> sys -> Prop :=
| step_tick v v' A D :
    keyspace v' = keyspace v -> now_us v <= now_us v' ->
    T = false \/ persistent K v v' ->
    sstep (Sys v A D) (Sys v' A D)
| step_enqueue v v' A D idem j ttl high low c args r :
    even_length args = true -> field "job_id" args = Some j -> uuid_like j ->
    0 < ttl -> count_kind c ->
    exec (enqueue_lua (Keys.stream K) (Keys.delayed K) (Keys.full K) (Keys.stats K)
            (Keys.idem K <$> idem) j ttl high low c args) v r v' ->
    sstep (Sys v A D)
      (Sys v' (answer r (fun x => if decide (x.1.2 = 1) then A ∪ {[j]} else A) A) D)
| step_read v v' A D w n r :
    exec (call (XREADGROUP (Keys.stream K) G w n)) v r v' ->
    sstep (Sys v A D) (Sys v' A (answer r (fun l => D ∪ list_to_set l) D))
| step_commit v v' A D e fs j res ttl w enq r :
    (e, fs) ∈ D -> field "job_id" fs = Some j -> uuid_like j -> ttl_ok ttl ->
    exec (commit_lua (Keys.stream K) (Keys.done K j) (Keys.results K) (Keys.stats K)
            (Keys.dead K) G e j res ttl w enq) v r v' ->
    sstep (Sys v A D) (Sys v' A D)
| step_heartbeat v v' A D e w r :
    exec (heartbeat_lua (Keys.stream K) (Keys.stats K) G e w) v r v' ->
    sstep (Sys v A D) (Sys v' A D)
| step_retry v v' A D e fs j w n delay t r :
    (e, fs) ∈ D -> field "job_id" fs = Some j ->
    exec (retry_lua (Keys.stream K) (Keys.delayed K) (Keys.done K j) (Keys.stats K)
            G e w n delay t) v r v' ->
    sstep (Sys v A D) (Sys v' A D)
| step_dead v v' A D e fs j w reason error attempts t r :
    (e, fs) ∈ D -> names j e fs ->
    exec (dead_lua (Keys.stream K) (Keys.dead K) (Keys.done K j) (Keys.stats K)
            G e w j reason error attempts t) v r v' ->
    sstep (Sys v A D) (Sys v' A D)
| step_requeue v v' A D j r :
    exec (requeue_lua (Keys.dead K) (Keys.stream K) (Keys.done K j) (Keys.stats K) j)
      v r v' ->
    sstep (Sys v A D) (Sys v' A D)
| step_schedule v v' A D n r :
    exec (schedule_lua (Keys.delayed K) (Keys.stream K) (Keys.stats K) n) v r v' ->
    sstep (Sys v A D) (Sys v' A D)
| step_ledger v v' A D e ttl extra r :
    even_length extra = true -> ttl_ok ttl ->
    exec (ledger_lua (Keys.ledger K e) (Keys.effects K) (Keys.stats K) e ttl extra)
      v r v' ->
    sstep (Sys v A D) (Sys v' A D)
| step_reclaim v v' A D w m cursor n slots thr maxd r :
    exec (reclaim_lua (Keys.stream K) (Keys.stats K) (Keys.reclaims K) G w m cursor n
            slots thr maxd) v r v' ->
    sstep (Sys v A D)
      (Sys v' A (answer r (fun x => D ∪ list_to_set (fst <$> x.1.2)) D))
| step_count v v' A D f n r :
    tracked f = false ->
    exec (call (HINCRBY (Keys.stats K) f n)) v r v' ->
    sstep (Sys v A D) (Sys v' A D)
| step_prune v v' A D m w r :
    exec (prune_lua (Keys.stream K) (Keys.stats K) G m w) v r v' ->
    sstep (Sys v A D) (Sys v' A D).

(** The start: the group has been created ([ensure_group]); jobs enqueued before
    that may already be in the stream. Nothing else has happened. *)
Record fresh_queue (q : queue) (A : gset string) : Prop := {
  fq_ids : ids_ok (q_entries q) (q_last q);
  fq_valid : entries_valid (q_entries q);
  fq_unread : forall e fs, (e, fs) ∈ q_entries q -> eid_lt (0, 0) e;
  fq_last : eid_le (0, 0) (q_last q);
  fq_group : q_ld q = (0, 0) /\ q_pel q = ∅ /\ q_cons q = ∅;
  fq_empty : q_delayed q = ∅ /\ q_dead q = empty_stream /\ q_results q = empty_stream /\
             q_effects q = empty_stream /\ q_done q = ∅ /\ q_marks q = ∅;
  fq_counts : forall f, tracked f = true -> q_stats q !! f = None;
  fq_jobs : forall j, j ∈ A -> uuid_like j /\ in_stream j q;
}.

Definition starts (s : sys) : Prop :=
  exists q, rep K G T (s_view s) q /\ fresh_queue q (s_accepted s) /\ s_given s = ∅.

Definition reachable (s : sys) : Prop := exists s0, starts s0 /\ rtc sstep s0 s.

Lemma fresh_inv q A : fresh_queue q A -> inv q A ∅.
Proof.
  intros [Hids Hval Hun Hlast (Hld & Hpel & Hcons) (Hdel & Hdead & Hres & Heff & Hdone & Hm)
          Hst Hj].
  split; rewrite ?Hld, ?Hpel, ?Hdel, ?Hdead, ?Hres, ?Heff, ?Hdone, ?Hm.
  - split; try done.
    + intros e [x Hx]. by rewrite lookup_empty in Hx.
    + intros e fs He. left. by eapply Hun.
  - intros m [x Hx]. by rewrite lookup_empty in Hx.
  - intros j r Hr. by rewrite lookup_empty in Hr.
  - split; cbn; [apply ids_ok_nil|by intros i fs ?%elem_of_nil| |by intros d row ?%elem_of_nil].
    intros j d Hd. rewrite (rec_none _ _ (lookup_empty j)) in Hd. by apply dead_at_empty in Hd.
  - split; cbn; [constructor| |apply ids_ok_nil|by intros e ?%elem_of_nil].
    intros j. rewrite (state_none _ _ (lookup_empty j)). split; [by intros ?%elem_of_nil|done].
  - split; cbn; [constructor| |apply ids_ok_nil].
    intros e. split; [by intros ?%elem_of_nil|by intros ?%elem_of_empty].
  - intros j Hj'. left. by apply Hj.
  - intros j Hj'. by apply Hj.
  - unfold counters_ok, stat. rewrite !Hst by done. by rewrite Hdead, Hres, Heff.
Qed.

(** Time passing: the same queue, later, with fewer idempotency keys. *)
Lemma look_later k v v' :
  keyspace v' = keyspace v -> now_us v <= now_us v' ->
  look k v' = look k v \/ look k v' = None.
Proof.
  intros Hk Hn. unfold look. rewrite Hk.
  destruct (keyspace v !! k) as [[x [t|]]|]; [|by left|by left].
  assert (Hm : now_ms v <= now_ms v') by (apply Z.div_le_mono; lia).
  cbn. destruct (Z.ltb_spec (now_ms v') t), (Z.ltb_spec (now_ms v) t); auto; lia.
Qed.

Lemma look_no_deadline k v v' :
  keyspace v' = keyspace v -> now_us v <= now_us v' -> deadline k v = None ->
  look k v' = look k v.
Proof.
  intros Hk Hn Hd. unfold look, deadline in *. rewrite Hk.
  destruct (keyspace v !! k) as [[x [t|]]|]; [|done|done].
  assert (Hm : now_ms v <= now_ms v') by (apply Z.div_le_mono; lia).
  cbn in *. destruct (Z.ltb_spec (now_ms v) t); [done|].
  destruct (Z.ltb_spec (now_ms v') t); [lia|done].
Qed.

Lemma tick_persistent v v' q :
  rep K G T v q -> keyspace v' = keyspace v -> now_us v <= now_us v' ->
  T = false \/ persistent K v v' -> persistent K v v'.
Proof.
  intros Hr Hk Hn [HT|Hp]; [|done]. intros a Ha. apply look_no_deadline; [done..|].
  by eapply rep_ttl.
Qed.

Lemma deadline_later k v v' :
  keyspace v' = keyspace v -> now_us v <= now_us v' -> deadline k v = None ->
  deadline k v' = None.
Proof.
  intros Hk Hn Hd. unfold deadline in *. rewrite Hk.
  destruct (keyspace v !! k) as [[x [t|]]|]; [|done|done].
  assert (Hm : now_ms v <= now_ms v') by (apply Z.div_le_mono; lia).
  cbn in *. destruct (Z.ltb_spec (now_ms v) t); [done|].
  destruct (Z.ltb_spec (now_ms v') t); [lia|done].
Qed.

(** The idempotency keys still alive. *)
Definition alive_idem (v : rview) (q : queue) : gmap string string :=
  filter (fun ij => is_Some (look (render K (KIdem ij.1)) v)) (q_idem q).

Lemma rep_later v v' q :
  rep K G T v q -> keyspace v' = keyspace v -> now_us v <= now_us v' ->
  persistent K v v' -> rep K G T v' (q_later (now_ms v') (alive_idem v' q) q).
Proof.
  intros [Hn Hv Ht] Hk Hle Hp. split; [done|..].
  - intros a. destruct (is_idem a) eqn:Ha.
    + destruct a; try done. specialize (Hv (KIdem idempotency_key)).
      set (k := render K (KIdem idempotency_key)) in *. cbn in *. unfold alive_idem.
      destruct (look_later k v v' Hk Hle) as [Hs|Hs]; rewrite Hs in *.
      * rewrite map_lookup_filter. destruct (q_idem q !! idempotency_key) as [o|] eqn:Hi;
          cbn; [|done]. fold k. rewrite Hs. destruct (look k v) as [x|]; [|done].
        rewrite option_guard_True by by eexists. done.
      * rewrite map_lookup_filter. destruct (q_idem q !! idempotency_key) as [o|] eqn:Hi;
          cbn; [|done]. fold k. rewrite Hs. by rewrite option_guard_False by (by intros [? ?]).
    + rewrite Hp by done. specialize (Hv a). by destruct a.
  - intros HT a Ha. eapply deadline_later; [done..|]. by apply Ht.
Qed.

(** ** The system refines the abstract machine *)

(** [by_refine lem]: replace an execution of a script by what its refinement
    lemma says. *)
Ltac by_refine lem :=
  lazymatch goal with
  | Hx : runs _ _ _ _ _ |- _ =>
      eapply wp_runs in Hx; [|by apply lem]; revert Hx; cbn beta
  end.

(** [q] is what the Redis keys of [s] mean. *)
Definition related (s : sys) (a : astate) : Prop :=
  rep K G T (s_view s) (a_queue a) /\ s_accepted s = a_accepted a /\
  s_given s = a_given a.

Lemma sstep_sim s s' a :
  sstep s s' -> related s a -> ainv a -> exists a', astep a a' /\ related s' a'.
Proof.
  intros Hs (Hr & HA & HD) Hi. destruct a as [q A0 D0]. unfold ainv in Hi.
  cbn [a_queue a_accepted a_given] in *.
  pose proof (inv_records _ _ _ Hi) as Hrec. pose proof (records_dead_ids _ Hrec).
  pose proof (sok_pel_in _ _ G (inv_stream _ _ _ Hi)) as Hpel.
  pose proof (so_valid _ _ _ _ _ (inv_stream _ _ _ Hi)) as Hval.
  pose proof (inv_members _ _ _ Hi) as Hmem.
  destruct Hs; cbn [s_view s_accepted s_given] in *; subst A0 D0.
  - eexists. split; [apply (a_later _ _ _ (now_ms v') (alive_idem v' q)), map_filter_subseteq|].
    split; [|done]. apply (rep_later v v' q); try done. by eapply tick_persistent.
  - by_refine (enqueue_refines K G T v q). intros (i & Hf & Hr' & ->).
    eexists. split; [by apply (a_enqueue q A D idem j high low c args i)|done].
  - lazymatch goal with Hx : runs _ _ _ _ _ |- _ => revert Hx end.
    intros (x & v1 & Hd & Hx).
    apply (rep_xreadgroup K G T v q _ _ _ _ Hr) in Hd as [-> Hr'].
    destruct Hx as [-> ->]. eexists. split; [by apply (a_read q A D w n)|done].
  - by_refine (commit_refines K G T v q e j res w enq ttl). intros (i & Hf & Hr' & _).
    eexists. split; [by apply (a_commit q A D e fs j res w enq i)|done].
  - by_refine (heartbeat_refines K G T v q). intros [Hr' _].
    eexists. split; [by apply (a_heartbeat q A D e w)|done].
  - by_refine (retry_refines K G T v q). intros [Hr' _].
    eexists. split; [by apply (a_retry q A D e fs j w n delay t)|done].
  - by_refine (dead_refines K G T v q). intros (d & Hf & Hr' & _).
    eexists. split; [by apply (a_dead q A D e fs j w reason error attempts t d)|done].
  - pose proof (dlq_valid _ _ (inv_dlq _ _ _ Hi)) as Hdv.
    assert (Hid : q_state j q = Some "DEAD"%string ->
                  is_Some (q_rec j q !! "dead_entry_id"%string)).
    { intros Hs. destruct (undead_step _ _ _ _ Hi Hs) as (d & (_ & Hd & _) & _). by eexists. }
    by_refine (requeue_refines K G T v q j). intros (i & Hf & Hr' & _).
    eexists. split; [by apply (a_requeue q A D j i)|done].
  - by_refine (schedule_refines K G T v q). intros (l & q' & Hl & Hm & Hr' & _).
    eexists. split; [by apply (a_schedule q A D n l q')|done].
  - by_refine (ledger_refines K G T v q e ttl extra). intros (i & Hf & Hr' & _).
    eexists. split; [by apply (a_ledger q A D e extra i)|done].
  - by_refine (reclaim_refines K G T v q). intros (next & claimed & Hok & Hr' & ->).
    eexists. split; [by apply (a_reclaim q A D G w m cursor n next slots thr maxd claimed)|done].
  - lazymatch goal with Hx : runs _ _ _ _ _ |- _ => revert Hx end.
    intros (x & v1 & Hd & Hx).
    apply (rep_incr K G T v q _ _ _ _ Hr) in Hd as (z & -> & Hr').
    destruct Hx as [-> ->]. eexists. split; [by apply (a_count q A D f n)|done].
  - by_refine (prune_refines K G T v q). intros (names & _ & Hr' & Hn).
    eexists. split; [apply (a_prune q A D names)|done]. intros n Hin. by apply Hn.
Qed.

Lemma ssteps_sim s s' a :
  rtc sstep s s' -> related s a -> ainv a ->
  exists a', rtc astep a a' /\ related s' a' /\ ainv a'.
Proof.
  intros Hs. revert a. induction Hs as [s|s1 s2 s3 Hs _ IH]; intros a Hr Hi.
  - by exists a.
  - destruct (sstep_sim _ _ _ Hs Hr Hi) as (a2 & Ha & Hr2).
    destruct (IH a2 Hr2) as (a3 & Has & ? & ?); [by eapply astep_inv|].
    exists a3. split; [|done]. by eapply rtc_l.
Qed.

Lemma starts_related s :
  starts s -> exists a, related s a /\ ainv a.
Proof.
  intros (q & Hr & Hf & Hg). exists (AState q (s_accepted s) ∅).
  split; [done|]. by apply fresh_inv.
Qed.

Lemma reachable_good s : reachable s -> exists a, related s a /\ ainv a.
Proof.
  intros (s0 & H0 & Hs). destruct (starts_related _ H0) as (a & Hr & Hi).
  destruct (ssteps_sim _ _ _ Hs Hr Hi) as (a' & _ & ? & ?). by exists a'.
Qed.
End System.
