(* ===== verification/RedisRef.v ===== *)
(** A concrete Redis server and a concrete cjson, both executable.

    They meet the assumptions the development makes of the real ones ([RedisServer],
    [CJson]), so those assumptions can be satisfied together, and scripts can be run
    on concrete data by computation. *)
From S2P Require Import Prelude Effects Redis Keys LuaScripts RedisRules Queue Ops.
From S2P Require Import Refine Streams.

#[local] Open Scope Z_scope.

(** ** Choices the documentation leaves open *)
Definition pick_id (v : rview) (last : eid) : eid :=
  if (0 <=? now_ms v) && (last.1 <? now_ms v) then (now_ms v, 0)
  else if (0 <=? last.1) && (0 <=? last.2) then (last.1, last.2 + 1)
  else next_id last.

Lemma pick_id_fresh v last : fresh_id last (pick_id v last).
Proof.
  unfold pick_id. destruct ((0 <=? now_ms v) && (last.1 <? now_ms v)) eqn:H1;
    [|destruct ((0 <=? last.1) && (0 <=? last.2)) eqn:H2].
  - unfold fresh_id, eid_lt. cbn. lia.
  - unfold fresh_id, eid_lt. cbn. lia.
  - apply next_id_fresh.
Qed.

Definition row_le (a b : eid * lease) : Prop := eid_le a.1 b.1.
#[local] Instance row_le_dec a b : Decision (row_le a b).
Proof. unfold row_le. apply _. Defined.

(** The pending list in id order. *)
Definition pending (x : group) : list (eid * lease) :=
  merge_sort row_le (map_to_list (pel x)).

Lemma pending_perm x : Permutation (pending x) (map_to_list (pel x)).
Proof. apply merge_sort_Permutation. Qed.

Lemma pending_elem x i l : (i, l) ∈ pending x <-> pel x !! i = Some l.
Proof. by rewrite pending_perm, elem_of_map_to_list. Qed.

Lemma pending_nodup x : NoDup (pending x).*1.
Proof. rewrite pending_perm. apply NoDup_fst_map_to_list. Qed.

Lemma nodup_fst_filter {A B} (P : A * B -> Prop) `{!forall x, Decision (P x)} l :
  NoDup l.*1 -> NoDup (filter P l).*1.
Proof. intros Hn. eapply sublist_NoDup; [exact Hn|]. apply fmap_sublist, sublist_filter. Qed.

Definition owned_opt (c : option string) (l : lease) : Prop :=
  match c with Some w => owner l = w | None => True end.
#[local] Instance owned_opt_dec c l : Decision (owned_opt c l).
Proof. destruct c; cbn; apply _. Defined.

Definition pending_in (lo hi : bound) (c : option string) (x : group) :
    list (eid * lease) :=
  filter (fun il => above lo il.1 /\ below hi il.1 /\ owned_opt c il.2) (pending x).

(** The XAUTOCLAIM scan: at most [10 * count] rows looked at, [count] claimed. *)
Fixpoint scan (es : list entry) (t m : Z) (rows : list (eid * lease))
    (count attempts : nat) : eid * list entry * list eid :=
  match rows with
  | [] => ((0, 0), [], [])
  | (i, l) :: r =>
      match attempts, count with
      | S a, S c =>
          if t - since_ms l <? m then scan es t m r (S c) a
          else match fields_at i es with
               | Some fs =>
                   let '(next, cl, del) := scan es t m r c a in (next, (i, fs) :: cl, del)
               | None =>
                   let '(next, cl, del) := scan es t m r (S c) a in (next, cl, i :: del)
               end
      | _, _ => (if decide (i = (0, 0)) then (-1, 0) else i, [], [])
      end
  end.

Definition due_order (a b : string * Z) : Prop := a.2 <= b.2.
#[local] Instance due_order_dec a b : Decision (due_order a b).
Proof. unfold due_order. apply _. Defined.

Definition due_members (z : gmap string Z) (mx : Z) : list (string * Z) :=
  merge_sort due_order (filter (fun ms => ms.2 <= mx) (map_to_list z)).

Definition consumer_rows (v : rview) (x : group) : list consumer_info :=
  (fun nt => Consumer nt.1
     (Z.of_nat (length (filter (fun il => owner il.2 = nt.1) (map_to_list (pel x)))))
     (now_ms v - nt.2)) <$> map_to_list (consumers x).

Section Server.
Local Open Scope string_scope.

(** Commands on one type of value, on a stream's group. *)
Definition on {A X} (o : option A) (v : rview) (f : A -> result string X * rview) :
    result string X * rview :=
  match o with Some a => f a | None => (Err "WRONGTYPE", v) end.

Definition ref_handle {X} (c : cmd X) (v : rview) : result string X * rview :=
  match c in cmd X return result string X * rview with
  | HGET k f => on (get_hash k v) v (fun h => (Ok (h !! f), v))
  | HSET k fvs => on (get_hash k v) v (fun h => (Ok tt, modify k (RHash (hset fvs h)) v))
  | HINCRBY k f n => on (get_hash k v) v (fun h =>
      match int_of_str (default "0" (h !! f)) with
      | Some z => (Ok (z + n)%Z, modify k (RHash (<[f := str_of_Z (z + n)%Z]> h)) v)
      | None => (Err "ERR hash value is not an integer", v)
      end)
  | HGETALL k => on (get_hash k v) v (fun h => (Ok h, v))
  | GET k => on (get_str k v) v (fun o => (Ok o, v))
  | SET k s nx ex =>
      if nx && bool_decide (is_Some (look k v)) then (Ok false, v)
      else (Ok true, put k (RStr s) ((fun n => now_ms v + 1000 * n)%Z <$> ex) v)
  | EXISTS k => (Ok (bool_decide (is_Some (look k v))), v)
  | DEL k => (Ok tt, remove k v)
  | EXPIRE k n => (Ok tt,
      match look k v with
      | Some x => put k x (Some (now_ms v + 1000 * n)%Z) v
      | None => v
      end)
  | TIME => (Ok (now_us v `div` 1000000, now_us v `mod` 1000000)%Z, v)
  | XADD k fs => on (get_stream k v) v (fun s =>
      if valid_fields fs then
        let i := pick_id v (last_id s) in (Ok i, modify k (RStream (s_add i fs s)) v)
      else (Err "ERR wrong number of arguments", v))
  | XDEL k i =>
      match look k v with
      | None => (Ok tt, v)
      | Some (RStream s) => (Ok tt, modify k (RStream (s_del i s)) v)
      | Some _ => (Err "WRONGTYPE", v)
      end
  | XLEN k => on (get_stream k v) v (fun s => (Ok (Z.of_nat (length (entries s))), v))
  | XRANGE k lo hi n => on (get_stream k v) v (fun s =>
      (Ok (opt_take n (in_range lo hi (entries s))), v))
  | XREVRANGE k n => on (get_stream k v) v (fun s => (Ok (take n (rev (entries s))), v))
  | XGROUP_CREATE k g => on (get_stream k v) v (fun s =>
      match groups s !! g with
      | Some _ => (Err "BUSYGROUP Consumer Group name already exists", v)
      | None => (Ok tt, modify k (RStream (set_group g (Group (0, 0)%Z ∅ ∅) s)) v)
      end)
  | XREADGROUP k g c n => on (get_group k g v) v (fun '(s, x) =>
      let new := undelivered n s x in
      (Ok new, modify_group k g s
         (seen c (now_ms v) (Group (last_of new (last_delivered x))
            (give c (now_ms v) new (pel x)) (consumers x))) v))
  | XACK k g i =>
      match look k v with
      | None => (Ok tt, v)
      | Some (RStream s) => (Ok tt, modify k (RStream (s_ack g i s)) v)
      | Some _ => (Err "WRONGTYPE", v)
      end
  | XPENDING k g lo hi n c => on (get_group k g v) v (fun '(s, x) =>
      (Ok ((fun '(i, le) => row_of v i le) <$> take n (pending_in lo hi c x)), v))
  | XPENDING_COUNT k g => on (get_group k g v) v (fun '(s, x) =>
      (Ok (Z.of_nat (size (pel x))), v))
  | XCLAIM_JUSTID k g c i => on (get_group k g v) v (fun '(s, x) =>
      (Ok tt, match pel x !! i with
       | Some le => modify_group k g s (seen c (now_ms v)
           (set_pel (claim_row s i (Lease c (now_ms v) (deliveries le)) (pel x)) x)) v
       | None => modify_group k g s (seen c (now_ms v) x) v
       end))
  | XCLAIM_RESTORE k g c i idle n => on (get_group k g v) v (fun '(s, x) =>
      (Ok tt, match pel x !! i with
       | Some le => modify_group k g s (seen c (now_ms v)
           (set_pel (claim_row s i (Lease c (now_ms v - idle)%Z n) (pel x)) x)) v
       | None => modify_group k g s (seen c (now_ms v) x) v
       end))
  | XAUTOCLAIM k g c m start n => on (get_group k g v) v (fun '(s, x) =>
      let '(next, claimed, deleted) :=
        scan (entries s) (now_ms v) m
          (filter (fun il => eid_le start il.1) (pending x)) n (10 * n) in
      (Ok (next, claimed, deleted),
       modify_group k g s (seen c (now_ms v)
         (set_pel (drop_all deleted (take_over c (now_ms v) claimed (pel x))) x)) v))
  | XINFO_CONSUMERS k g => on (get_group k g v) v (fun '(s, x) =>
      (Ok (consumer_rows v x), v))
  | XGROUP_DELCONSUMER k g c => on (get_group k g v) v (fun '(s, x) =>
      (Ok tt, modify_group k g s
         (Group (last_delivered x) (filter (fun il => owner il.2 <> c) (pel x))
            (delete c (consumers x))) v))
  | ZADD k sc m => on (get_zset k v) v (fun z => (Ok tt, modify k (RZset (<[m := sc]> z)) v))
  | ZREM k m => on (get_zset k v) v (fun z =>
      (Ok tt, if decide (delete m z = ∅) then remove k v
              else modify k (RZset (delete m z)) v))
  | ZCARD k => on (get_zset k v) v (fun z => (Ok (Z.of_nat (size z)), v))
  | ZRANGE_DUE k mx n => on (get_zset k v) v (fun z => (Ok (take n (due_members z mx).*1), v))
  end.
End Server.

(** One pass answers as documented. *)
Record scan_spec (es : list entry) (t m : Z) (rows : list (eid * lease)) (count : nat)
    (next : eid) (cl : list entry) (del : list eid) : Prop := {
  sc_nodup : NoDup (cl.*1 ++ del);
  sc_count : (length cl <= count)%nat;
  sc_claimed : forall i fs, (i, fs) ∈ cl ->
    (exists l, (i, l) ∈ rows /\ m <= t - since_ms l) /\ (i, fs) ∈ es;
  sc_deleted : forall i, i ∈ del ->
    (exists l, (i, l) ∈ rows /\ m <= t - since_ms l) /\ (i ∉ es.*1);
  sc_all : forall i l, (i, l) ∈ rows -> m <= t - since_ms l ->
    next = (0, 0) \/ eid_lt i next -> i ∈ cl.*1 \/ i ∈ del;
}.

Lemma scan_from es t m i l r count next cl del :
  scan_spec es t m r count next cl del -> NoDup (i :: r.*1) ->
  (i ∉ cl.*1 ++ del) /\
  (forall j fs, (j, fs) ∈ cl ->
     (exists l', (j, l') ∈ (i, l) :: r /\ m <= t - since_ms l') /\ (j, fs) ∈ es) /\
  (forall j, j ∈ del ->
     (exists l', (j, l') ∈ (i, l) :: r /\ m <= t - since_ms l') /\ (j ∉ es.*1)).
Proof.
  intros [_ _ Hc Hd _] [Hi _]%NoDup_cons. split_and!.
  - intros [Hin|Hin]%elem_of_app; apply Hi, list_elem_of_fmap.
    + apply list_elem_of_fmap in Hin as ([j fs] & -> & Hin).
      destruct (Hc j fs Hin) as [(l' & ? & _) _]. by exists (j, l').
    + destruct (Hd i Hin) as [(l' & ? & _) _]. by exists (i, l').
  - intros j fs Hin. destruct (Hc j fs Hin) as [(l' & ? & ?) ?]. split; [|done].
    exists l'. split; [by right|done].
  - intros j Hin. destruct (Hd j Hin) as [(l' & ? & ?) ?]. split; [|done].
    exists l'. split; [by right|done].
Qed.

Lemma fields_at_none i es : fields_at i es = None -> i ∉ es.*1.
Proof.
  unfold fields_at. intros Hn Hin. apply list_elem_of_fmap in Hin as ([j fs] & -> & Hin).
  destruct (filter _ es) as [|x l] eqn:Hf; [|done].
  assert (H : (j, fs) ∈ @nil entry) by (rewrite <- Hf; by apply list_elem_of_filter).
  by apply elem_of_nil in H.
Qed.

Lemma scan_stop es t m i l r count :
  StronglySorted row_le ((i, l) :: r) ->
  scan_spec es t m ((i, l) :: r) count (if decide (i = (0, 0)) then (-1, 0) else i) [] [].
Proof.
  intros Hs. apply StronglySorted_inv in Hs as [_ Hs]. rewrite Forall_forall in Hs.
  split; cbn; [constructor|lia|by intros ? ? ?%elem_of_nil|by intros ? ?%elem_of_nil|].
  intros j l' Hin _ Hn. exfalso.
  assert (Hle : eid_le i j).
  { apply elem_of_cons in Hin as [[= -> ->]|Hin]; [apply eid_le_refl|]. by apply (Hs _ Hin). }
  revert Hn. case_decide as Hi; [subst i|]; intros [Hn|Hn]; try done.
  - pose proof (eid_le_lt_trans _ _ _ Hle Hn) as H. unfold eid_lt in H. cbn in H. lia.
  - by apply eid_lt_not_le in Hn.
Qed.

Lemma scan_ok es t m rows : forall count attempts next cl del,
  NoDup rows.*1 -> StronglySorted row_le rows ->
  scan es t m rows count attempts = (next, cl, del) ->
  scan_spec es t m rows count next cl del.
Proof.
  induction rows as [|[i l] r IH]; intros count attempts next cl del Hnd Hs Hscan; cbn in *.
  { simplify_eq. split; cbn; [constructor|lia|..]; by intros ? ? ?%elem_of_nil || by intros ? ?%elem_of_nil. }
  destruct attempts as [|a]; [simplify_eq; by apply scan_stop|].
  destruct count as [|c]; [simplify_eq; by apply scan_stop|].
  pose proof Hnd as [_ Hnd']%NoDup_cons. pose proof Hs as [Hs' _]%StronglySorted_inv.
  destruct (Z.ltb_spec (t - since_ms l) m) as [Hyoung|Hold].
  { apply IH in Hscan; [|done..].
    destruct (scan_from _ _ _ i l _ _ _ _ _ Hscan Hnd) as (Hi & Hc & Hd). destruct Hscan.
    split; try done. intros j l' [[= -> ->]|Hin]%elem_of_cons Hj; [lia|]. by apply (sc_all0 j l'). }
  destruct (fields_at i es) as [fs|] eqn:Hat; destruct (scan es t m r _ a) as [[n1 c1] d1] eqn:H1;
    injection Hscan as <- <- <-; apply IH in H1; try done;
    destruct (scan_from _ _ _ i l _ _ _ _ _ H1 Hnd) as (Hi & Hc & Hd); destruct H1.
  - split; [|cbn; lia| |done|].
    + cbn. by constructor.
    + intros j gs [[= -> ->]|Hin]%elem_of_cons; [|by apply Hc].
      split; [|by apply fields_at_elem]. exists l. split; [by left|done].
    + intros j l' [[= -> ->]|Hin]%elem_of_cons Hj Hn; [left; by left|].
      destruct (sc_all0 j l' Hin Hj Hn); [left; by right|by right].
  - split; [|done|done| |].
    + rewrite <- Permutation_middle. by constructor.
    + intros j [->|Hin]%elem_of_cons; [|by apply Hd].
      split; [|by apply fields_at_none]. exists l. split; [by left|done].
    + intros j l' [[= -> ->]|Hin]%elem_of_cons Hj Hn; [right; by left|].
      destruct (sc_all0 j l' Hin Hj Hn); [by left|right; by right].
Qed.

#[local] Instance row_le_trans : Transitive row_le.
Proof. intros a b c. apply eid_le_trans. Qed.
#[local] Instance row_le_total : Total row_le.
Proof.
  intros a b. unfold row_le. destruct (decide (eid_le a.1 b.1)) as [|Hn]; [by left|right].
  left. by apply eid_lt_not_le.
Qed.
#[local] Instance due_trans : Transitive due_order.
Proof. intros a b c. unfold due_order. lia. Qed.
#[local] Instance due_total : Total due_order.
Proof. intros a b. unfold due_order. lia. Qed.

(** The server meets the documented behaviour, command by command. *)
Lemma ref_handle_doc X (c : cmd X) (v : rview) :
  doc c v (fst (ref_handle c v)) (snd (ref_handle c v)).
Proof.
  destruct c; cbn; unfold on.
  all: try (destruct (get_hash _ v); by cbn).
  all: try (destruct (get_zset _ v); by cbn).
  all: try (destruct (get_str _ v); by cbn).
  all: try (destruct (look _ v) as [[]|]; by cbn).
  all: try done.
  all: try (destruct (get_group _ _ v) as [[? ?]|]; cbn; [done|by eauto]).
  - destruct (get_hash _ v) as [h|]; cbn; [|done]. by destruct (int_of_str _).
  - by destruct (nx && _).
  - destruct (get_stream _ v) as [s|]; cbn; [|done]. destruct (valid_fields fs); [|done].
    eexists. split; [apply pick_id_fresh|done].
  - by destruct (get_stream _ v).
  - by destruct (get_stream _ v).
  - by destruct (get_stream _ v).
  - destruct (get_stream _ v) as [s|]; cbn; [|done]. by destruct (groups s !! g).
  - destruct (get_group _ _ v) as [[s x]|]; cbn; [|by eauto]. split; [done|].
    exists (pending_in lo hi c x). split_and!; [| |done].
    + by apply nodup_fst_filter, pending_nodup.
    + intros i le. unfold pending_in. rewrite list_elem_of_filter, pending_elem. cbn. tauto.
  - destruct (get_group _ _ v) as [[s x]|]; cbn; [|by eauto]. by destruct (pel x !! i).
  - destruct (get_group _ _ v) as [[s x]|]; cbn; [|by eauto]. by destruct (pel x !! i).
  - destruct (get_group _ _ v) as [[s x]|]; cbn; [|by eauto].
    destruct (scan _ _ _ _ _ _) as [[next cl] del] eqn:Hscan. cbn.
    exists next, cl, del. split; [|done].
    apply scan_ok in Hscan as [H1 H2 H3 H4 H5];
      [|apply nodup_fst_filter, pending_nodup|apply sorted_filter, StronglySorted_merge_sort; apply _].
    assert (Hrow : forall i, (exists l, (i, l) ∈ filter (fun il => eid_le start il.1) (pending x) /\
        min_idle <= now_ms v - since_ms l) <->
      exists l, pel x !! i = Some l /\ min_idle <= now_ms v - since_ms l /\ eid_le start i).
    { intros i. split; intros (l & Hl & Hm).
      - apply list_elem_of_filter in Hl as [Hs Hl]. apply pending_elem in Hl. by exists l.
      - exists l. rewrite list_elem_of_filter, pending_elem. by destruct Hm. }
    split_and!; [done|done|..].
    + intros i fs Hin. rewrite <- Hrow. by apply H3.
    + intros i Hin. rewrite <- Hrow. by apply H4.
    + intros i Hi Hn. apply Hrow in Hi as (l & Hl & Hm). by apply (H5 i l).
  - destruct (get_group _ _ v) as [[s x]|]; cbn; [|by eauto]. split; [done|].
    exists (consumer_rows v x). unfold consumer_rows.
    assert (Hn : ci_name <$> ((fun nt : string * Z => Consumer nt.1
      (Z.of_nat (length (filter (fun il : eid * lease => owner il.2 = nt.1) (map_to_list (pel x)))))
      (now_ms v - nt.2)) <$> map_to_list (consumers x)) = (map_to_list (consumers x)).*1).
    { rewrite <- list_fmap_compose. done. }
    split; [done|]. rewrite Hn. split_and!.
    + apply NoDup_fst_map_to_list.
    + intros n. rewrite list_elem_of_fmap. split.
      * intros ([n' t] & -> & Hin). apply elem_of_map_to_list in Hin. by eexists.
      * intros [t Ht]. exists (n, t). by rewrite elem_of_map_to_list.
    + intros i Hin. apply list_elem_of_fmap in Hin as ([n t] & -> & Hin).
      apply elem_of_map_to_list in Hin. cbn. rewrite Hin. f_equal. lia.
  - destruct (get_zset _ v) as [z|]; cbn; [|done]. split; [done|].
    exists (due_members z max). split_and!; [apply merge_sort_Permutation| |done].
    apply (StronglySorted_merge_sort due_order).
Qed.

(** The reference server. Its state is its own view. *)
#[export, program] Instance ref_server : RedisServer := {
  db := rview; view := fun v => v; handle := @ref_handle;
}.
Next Obligation. apply ref_handle_doc. Qed.

(** ** A concrete cjson: arrays of strings, quotes and backslashes escaped *)
Fixpoint quote (s : string) : string :=
  match s with
  | EmptyString => String "034" EmptyString
  | String c r =>
      if bool_decide (c = "034"%char \/ c = "092"%char)
      then String "092" (String c (quote r)) else String c (quote r)
  end.

Fixpoint encode_items (l : list string) : string :=
  match l with
  | [] => "]"
  | s :: r => String "034" (quote s) +:+ encode_items r
  end.

(** [unquote s]: the string up to the closing quote, and what follows it. *)
Fixpoint unquote (s : string) : option (string * string) :=
  match s with
  | EmptyString => None
  | String c r =>
      if decide (c = "034"%char) then Some (EmptyString, r)
      else if decide (c = "092"%char) then
        match r with
        | String d r' => '(a, b) ← unquote r'; Some (String d a, b)
        | EmptyString => None
        end
      else '(a, b) ← unquote r; Some (String c a, b)
  end.

Fixpoint decode_items (fuel : nat) (s : string) : option (list string) :=
  match fuel, s with
  | O, _ => None
  | _, EmptyString => None
  | S n, String c r =>
      if decide (c = "034"%char) then
        '(a, b) ← unquote r; l ← decode_items n b; Some (a :: l)
      else Some []
  end.

Lemma unquote_quote s r : unquote (quote s +:+ r) = Some (s, r).
Proof.
  induction s as [|c s IH]; [done|]. cbn [quote]. case_bool_decide as Hc.
  - change (String "092" (String c (quote s)) +:+ r)
      with (String "092" (String c (quote s +:+ r))).
    cbn [unquote]. rewrite decide_False, decide_True by done. by rewrite IH.
  - change (String c (quote s) +:+ r) with (String c (quote s +:+ r)).
    cbn [unquote]. rewrite !decide_False by tauto. by rewrite IH.
Qed.

Lemma decode_encode l : forall fuel, (length l < fuel)%nat ->
  decode_items fuel (encode_items l) = Some l.
Proof.
  induction l as [|s l IH]; intros [|n] Hn; cbn in Hn; try lia; [done|].
  cbn [encode_items].
  change (String "034" (quote s) +:+ encode_items l)
    with (String "034" (quote s +:+ encode_items l)).
  cbn [decode_items]. rewrite decide_True by done.
  rewrite unquote_quote. cbn [mbind option_bind]. by rewrite IH by lia.
Qed.

Lemma encode_items_length l : (length l < String.length (encode_items l))%nat.
Proof.
  induction l as [|s l IH]; [cbn; lia|]. cbn [encode_items length].
  assert (H : forall a b, String.length (a +:+ b) = (String.length a + String.length b)%nat).
  { intros a b. induction a as [|c a IHa]; [done|].
    change (String c a +:+ b) with (String c (a +:+ b)). cbn. by rewrite IHa. }
  rewrite H. cbn. lia.
Qed.

#[export, program] Instance ref_cjson : CJson := {
  cjson_encode l := String "091" (encode_items l);
  cjson_decode s :=
    match s with
    | String _ r =>
        match decode_items (String.length r) r with
        | Some l => Ok l
        | None => Err "cjson"%string
        end
    | EmptyString => Err "cjson"%string
    end;
}.
Next Obligation.
  by rewrite decode_encode by apply encode_items_length.
Qed.
