(* ===== verification/Demo.v ===== *)
(** A concrete run of the system on the reference server: three jobs are enqueued,
    one is committed, one dies, one is still in flight. It is the concrete input at
    which the theorems about reachable states are instantiated. *)
From S2P Require Import Prelude Effects Redis Keys LuaScripts RedisRules Queue Ops.
From S2P Require Import Refine Fields Streams Logs Invariants Machine System.
From S2P Require Import RedisRef.
From stdpp Require Import relations.

#[local] Open Scope Z_scope.
#[local] Open Scope string_scope.

Definition k0 : Keys.t := Keys.mk "q".
Definition g0 : string := "workers".

(** The view an empty server has after [ensure_group], five seconds in. *)
Definition start_view : rview :=
  View {[Keys.stream k0 := (RStream (Stream [] (0, 0) {[g0 := Group (0, 0) ∅ ∅]}), None)]}
    5000000.

(** The same with records that never expire and the clock at [t] microseconds. *)
Definition at_us (t : Z) (v : rview) : rview := View (keyspace v) t.

Lemma run_exec {A} (s : lua A) v r v' : run (@ref_handle) s v = (r, v') -> exec s v r v'.
Proof.
  intros Hrun.
  assert (He : exec s v (run (@ref_handle) s v).1 (run (@ref_handle) s v).2)
    by exact (server_exec (R := ref_server) s v).
  by rewrite Hrun in He.
Qed.

(** Run one script from a state; what it does to the ghost sets is given. *)
Definition do_script {A} (s : lua A) (acc : result string A -> gset string)
    (giv : result string A -> gset entry) (st : sys) : sys :=
  let p := run (@ref_handle) s (s_view st) in Sys p.2 (acc p.1) (giv p.1).

Lemma do_exec {A} (s : lua A) (st : sys) :
  exec s (s_view st) (run (@ref_handle) s (s_view st)).1 (run (@ref_handle) s (s_view st)).2.
Proof. apply run_exec. by destruct (run _ s _). Qed.

Definition job_fields (j : string) : list string :=
  ["job_id"; j; "type"; "send_email"; "payload"; "{}"; "attempt"; "0";
   "idempotency_key"; ""].

Definition do_enqueue (j : string) (st : sys) : sys :=
  do_script
    (enqueue_lua (Keys.stream k0) (Keys.delayed k0) (Keys.full k0) (Keys.stats k0)
       (Keys.idem k0 <$> None) j 86400 100 50 "rejected" (job_fields j))
    (fun r => answer r (fun x => if decide (x.1.2 = 1) then s_accepted st ∪ {[j]}
                                 else s_accepted st) (s_accepted st))
    (fun _ => s_given st) st.

Definition do_read (w : string) (n : nat) (st : sys) : sys :=
  do_script (call (XREADGROUP (Keys.stream k0) g0 w n))
    (fun _ => s_accepted st)
    (fun r => answer r (fun l => s_given st ∪ list_to_set l) (s_given st)) st.

Definition do_commit (e : eid) (j : string) (st : sys) : sys :=
  do_script
    (commit_lua (Keys.stream k0) (Keys.done k0 j) (Keys.results k0) (Keys.stats k0)
       (Keys.dead k0) g0 e j "null" 0 "w1" "5000")
    (fun _ => s_accepted st) (fun _ => s_given st) st.

Definition do_dead (e : eid) (j : string) (st : sys) : sys :=
  do_script
    (dead_lua (Keys.stream k0) (Keys.dead k0) (Keys.done k0 j) (Keys.stats k0)
       g0 e "w1" j "max_attempts" "boom" "5" "0")
    (fun _ => s_accepted st) (fun _ => s_given st) st.

Definition state0 : sys := Sys start_view ∅ ∅.
Definition enqueued1 : sys := do_enqueue "j1" state0.
Definition enqueued2 : sys := do_enqueue "j2" enqueued1.
Definition enqueued3 : sys := do_enqueue "j3" enqueued2.
Definition state1 : sys := do_read "w1" 10 enqueued3.
Definition id_of (n : Z) : eid := (5000, n).
Definition state2 : sys := do_commit (id_of 0) "j1" state1.
Definition state3 : sys := do_dead (id_of 1) "j2" state2.

Example demo_accepted : s_accepted state3 = {["j1"; "j2"; "j3"]}.
Proof. apply (bool_decide_eq_true_1 _). vm_compute. reflexivity. Qed.

(** ** The run is one of the system's *)
Definition queue0 : queue :=
  Queue 5000 [] (0, 0) (0, 0) ∅ ∅ ∅ empty_stream empty_stream empty_stream false ∅ ∅ ∅ ∅ ∅.

Lemma start_other a : a <> KStream -> keyspace start_view !! render k0 a = None.
Proof.
  intros Ha. cbn [keyspace start_view].
  rewrite lookup_singleton_ne; [done|]. change (Keys.stream k0) with (render k0 KStream).
  apply render_ne. congruence.
Qed.

Lemma start_rep : rep k0 g0 false start_view queue0.
Proof.
  split; [done|..].
  - intros a. destruct (decide (a = KStream)) as [->|Hne].
    + change (denotes (look (Keys.stream k0) start_view) (qval g0 queue0 KStream)).
      unfold look. cbn [keyspace start_view]. by rewrite lookup_singleton_eq.
    + unfold look. rewrite start_other by done. by destruct a.
  - intros _ a _. unfold deadline. destruct (decide (a = KStream)) as [->|Hne].
    + change (render k0 KStream) with (Keys.stream k0). cbn [keyspace start_view].
      by rewrite lookup_singleton_eq.
    + by rewrite start_other.
Qed.

Lemma start_fresh : fresh_queue queue0 ∅.
Proof.
  split; try done.
  - apply ids_ok_nil.
  - by intros e fs ?%elem_of_nil.
  - by intros e fs ?%elem_of_nil.
  - apply eid_le_refl.
Qed.

Lemma state0_starts : starts k0 g0 false state0.
Proof. exists queue0. split; [exact start_rep|]. split; [exact start_fresh|done]. Qed.

Lemma enqueue_step j st :
  uuid_like j -> sstep k0 g0 false st (do_enqueue j st).
Proof.
  intros Hu. unfold do_enqueue, do_script. destruct st as [v A D]. cbn [s_view s_accepted s_given].
  eapply step_enqueue; [..|apply (do_exec _ (Sys v A D))]; try done. by left.
Qed.

Lemma read_step w n st : sstep k0 g0 false st (do_read w n st).
Proof.
  unfold do_read, do_script. destruct st as [v A D]. cbn [s_view s_accepted s_given].
  eapply step_read, (do_exec _ (Sys v A D)).
Qed.

Lemma commit_step e fs j st :
  (e, fs) ∈ s_given st -> field "job_id" fs = Some j -> uuid_like j ->
  sstep k0 g0 false st (do_commit e j st).
Proof.
  intros HD Hf Hu. unfold do_commit, do_script. destruct st as [v A D].
  cbn [s_view s_accepted s_given] in *.
  eapply step_commit; [exact HD|exact Hf|exact Hu| |apply (do_exec _ (Sys v A D))].
  unfold ttl_ok. lia.
Qed.

Lemma dead_step e fs j st :
  (e, fs) ∈ s_given st -> field "job_id" fs = Some j ->
  sstep k0 g0 false st (do_dead e j st).
Proof.
  intros HD Hf. unfold do_dead, do_script. destruct st as [v A D].
  cbn [s_view s_accepted s_given] in *.
  eapply step_dead; [exact HD|by left|apply (do_exec _ (Sys v A D))].
Qed.

Ltac uuid := split; [done|intros e He; by apply (f_equal (String.get 0)) in He].

Definition stored (j : string) : list string := job_fields j ++ ["enqueued_at_ms"; "5000"].

Lemma demo_given : s_given state1 = list_to_set
  [(id_of 0, stored "j1"); (id_of 1, stored "j2"); (id_of 2, stored "j3")].
Proof. apply (bool_decide_eq_true_1 _). vm_compute. reflexivity. Qed.

Lemma reachable_step K G T `{CJson} s s' :
  reachable K G T s -> sstep K G T s s' -> reachable K G T s'.
Proof.
  intros (s0 & H0 & Hs) Hst. exists s0. split; [done|]. by eapply rtc_r.
Qed.

Lemma enqueued1_reachable : reachable k0 g0 false enqueued1.
Proof.
  eapply reachable_step; [|apply (enqueue_step "j1" state0); uuid].
  exists state0. split; [exact state0_starts|apply rtc_refl].
Qed.
Lemma enqueued2_reachable : reachable k0 g0 false enqueued2.
Proof.
  eapply reachable_step; [exact enqueued1_reachable|apply (enqueue_step "j2" enqueued1); uuid].
Qed.
Lemma enqueued3_reachable : reachable k0 g0 false enqueued3.
Proof.
  eapply reachable_step; [exact enqueued2_reachable|apply (enqueue_step "j3" enqueued2); uuid].
Qed.
Lemma state1_reachable : reachable k0 g0 false state1.
Proof.
  eapply reachable_step; [exact enqueued3_reachable|exact (read_step "w1" 10 enqueued3)].
Qed.

Lemma state2_step : sstep k0 g0 false state1 state2.
Proof.
  apply (commit_step _ (stored "j1")); [|done|uuid]. rewrite demo_given. set_solver.
Qed.

Lemma commit_given e j st : s_given (do_commit e j st) = s_given st.
Proof. reflexivity. Qed.

Lemma state3_step : sstep k0 g0 false state2 state3.
Proof.
  apply (dead_step _ (stored "j2")); [|done].
  unfold state2. rewrite commit_given, demo_given. set_solver.
Qed.

Lemma state2_reachable : reachable k0 g0 false state2.
Proof. eapply reachable_step; [exact state1_reachable|exact state2_step]. Qed.

Lemma state3_reachable : reachable k0 g0 false state3.
Proof. eapply reachable_step; [exact state2_reachable|exact state3_step]. Qed.

(** The last job finishes too: the queue is drained. *)
Definition state4 : sys := do_commit (id_of 2) "j3" state3.

Lemma dead_given e j st : s_given (do_dead e j st) = s_given st.
Proof. reflexivity. Qed.

Lemma state4_reachable : reachable k0 g0 false state4.
Proof.
  eapply reachable_step; [exact state3_reachable|].
  apply (commit_step _ (stored "j3")); [|done|uuid].
  unfold state3. rewrite dead_given. unfold state2. rewrite commit_given, demo_given. set_solver.
Qed.

(** Decide a closed proposition by computation. *)
Ltac compute_true := apply (bool_decide_eq_true_1 _); vm_compute; reflexivity.

Lemma ex_exec {A} (s : lua A) (v : rview) : exists r v', exec s v r v'.
Proof. exists (run (@ref_handle) s v).1, (run (@ref_handle) s v).2. apply (do_exec s (Sys v ∅ ∅)). Qed.

Lemma state3_given n : n ∈ [0; 1; 2] ->
  (id_of n, stored ("j" +:+ str_of_Z (n + 1))) ∈ s_given state3.
Proof.
  intros Hn. unfold state3. rewrite dead_given. unfold state2. rewrite commit_given, demo_given.
  repeat (apply elem_of_cons in Hn as [->|Hn]; [set_solver|]). by apply elem_of_nil in Hn.
Qed.
