(* ===== verification/Safety.v ===== *)
(** What the queue promises, stated on Redis keys: in every state that any
    interleaving of producers, workers, schedulers, reapers and operators can reach,
    no accepted job is lost, results and effects are recorded exactly once, the
    dead-letter stream holds exactly the DEAD jobs, and no entry is stuck. *)
From S2P Require Import Prelude Effects Redis Keys LuaScripts RedisRules Queue Ops.
From S2P Require Import Refine Fields Streams Logs Invariants Machine System.
From S2P Require Import RedisRef Demo.
From stdpp Require Import relations.

#[local] Open Scope Z_scope.

(** ** What a client reads at a key *)
Definition entries_at (k : string) (v : rview) : list entry :=
  match get_stream k v with Some s => entries s | None => [] end.
Definition hash_at (k : string) (v : rview) : gmap string string :=
  default ∅ (get_hash k v).
Definition zset_at (k : string) (v : rview) : gmap string Z := default ∅ (get_zset k v).
Definition group_at (k g : string) (v : rview) : group :=
  match get_group k g v with Some (_, x) => x | None => Group (0, 0) ∅ ∅ end.
Definition counter (K : Keys.t) (f : string) (v : rview) : Z :=
  default 0 (hash_at (Keys.stats K) v !! f ≫= int_of_str).
Definition job_record (K : Keys.t) (j : string) (v : rview) : gmap string string :=
  hash_at (Keys.done K j) v.
Definition job_state (K : Keys.t) (j : string) (v : rview) : option string :=
  job_record K j v !! "state"%string.
(** The job names in a log: the field [f] of its entries, in order. *)
Definition logged (f : string) (es : list entry) : list string :=
  (fun e => default ""%string (field f e.2)) <$> es.

(** ** The same, on the queue a view represents *)
Section Reading.
Context {K : Keys.t} {G : string} {T : bool} {v : rview} {q : queue}.
Context (Hr : rep K G T v q).

Lemma entries_of a s : qval G q a = AStream s -> entries_at (render K a) v = entries s.
Proof using Hr. intros Ha. unfold entries_at. by rewrite (rep_stream K G T v q a s Hr Ha). Qed.
Lemma hash_of a h : qval G q a = AHash h -> hash_at (render K a) v = h.
Proof using Hr. intros Ha. unfold hash_at. by rewrite (rep_hash K G T v q a h Hr Ha). Qed.

Lemma entries_stream : entries_at (Keys.stream K) v = q_entries q.
Proof using Hr. exact (entries_of KStream _ eq_refl). Qed.
Lemma entries_dead : entries_at (Keys.dead K) v = entries (q_dead q).
Proof using Hr. exact (entries_of KDead _ eq_refl). Qed.
Lemma entries_results : entries_at (Keys.results K) v = entries (q_results q).
Proof using Hr. exact (entries_of KResults _ eq_refl). Qed.
Lemma entries_effects : entries_at (Keys.effects K) v = entries (q_effects q).
Proof using Hr. exact (entries_of KEffects _ eq_refl). Qed.
Lemma zset_delayed : zset_at (Keys.delayed K) v = q_delayed q.
Proof using Hr.
  unfold zset_at. change (Keys.delayed K) with (render K KDelayed).
  by rewrite (rep_zset K G T v q KDelayed _ Hr eq_refl).
Qed.
Lemma record_done j : job_record K j v = rec_of (q_done q) j.
Proof using Hr. exact (hash_of (KDone j) _ eq_refl). Qed.
Lemma state_done j : job_state K j v = state_of (q_done q) j.
Proof using Hr. unfold job_state. by rewrite record_done. Qed.
Lemma group_stream : group_at (Keys.stream K) G v = q_group q.
Proof using Hr. unfold group_at. by rewrite (rep_get_group K G T v q Hr). Qed.
Lemma counter_stat f : counter K f v = stat f q.
Proof using Hr.
  unfold counter. change (Keys.stats K) with (render K KStats).
  rewrite (hash_of KStats _ eq_refl), lookup_fmap. unfold stat. destruct (q_stats q !! f); [|done].
  cbn. by rewrite int_of_str_of_Z.
Qed.
Lemma marker_exists e : is_Some (look (Keys.ledger K e) v) <-> e ∈ q_marks q.
Proof using Hr.
  pose proof (rep_val _ _ _ _ _ Hr (KLedger e)) as Hv. cbn [qval] in Hv.
  change (Keys.ledger K e) with (render K (KLedger e)).
  destruct (decide (e ∈ q_marks q)) as [He|He]; cbn in Hv;
    destruct (look _ v) as [[]|]; simplify_eq; split; try done; by intros [].
Qed.
End Reading.

Section Safety.
Context `{CJson}.
Context (K : Keys.t) (G : string) (T : bool).
Abbreviation reachable := (reachable K G T).

(** Open a reachable state: the queue it represents, and the queue's invariant. *)
Ltac open_state Hs :=
  let a := fresh "a" in let Hr := fresh "Hr" in let Hi := fresh "Hi" in
  destruct (reachable_good _ _ _ _ Hs) as (a & (Hr & HA & HD) & Hi);
  unfold ainv in Hi; rewrite <- HA, <- HD in Hi.

(** C1: no accepted job is ever lost. In every reachable state, a job whose enqueue
    was accepted is in the stream, or waits in the delayed set for a retry, or has
    a terminal record that says SUCCEEDED or DEAD: whatever workers crashed,
    stalled, raced or re-sent. *)
Theorem no_job_lost (s : sys) (j : string) :
  reachable s -> j ∈ s_accepted s ->
  (exists e fs, (e, fs) ∈ entries_at (Keys.stream K) (s_view s) /\
     field "job_id" fs = Some j) \/
  (exists m fs, is_Some (zset_at (Keys.delayed K) (s_view s) !! m) /\
     cjson_decode m = Ok fs /\ field "job_id" fs = Some j) \/
  job_state K j (s_view s) = Some "SUCCEEDED"%string \/
  job_state K j (s_view s) = Some "DEAD"%string.
Proof.
  intros Hs Hj. open_state Hs. rewrite (entries_stream Hr), (zset_delayed Hr), (state_done Hr).
  destruct (inv_jobs _ _ _ Hi j Hj) as [?|[?|[st Hst]]]; [by left|by right; left|].
  right; right. rewrite Hst.
  destruct (records_state _ _ _ (inv_records _ _ _ Hi) Hst) as (r & _ & _ & [[-> _]|[-> _]]);
    [by left|by right].
Qed.

(** C2: results are recorded exactly once. No job appears twice in the results
    log, and a job is in the log exactly when its terminal record says SUCCEEDED. *)
Theorem results_exactly_once (s : sys) :
  reachable s ->
  NoDup (logged "job_id" (entries_at (Keys.results K) (s_view s))) /\
  forall j, j ∈ logged "job_id" (entries_at (Keys.results K) (s_view s)) <->
            job_state K j (s_view s) = Some "SUCCEEDED"%string.
Proof.
  intros Hs. open_state Hs. rewrite (entries_results Hr).
  destruct (inv_results _ _ _ Hi) as [Hn He _ _]. split; [exact Hn|]. intros j.
  rewrite (state_done Hr). apply He.
Qed.

(** C3: effects are applied exactly once. No effect key appears twice in the
    effects log, and an effect is in the log exactly when its ledger marker exists. *)
Theorem effects_exactly_once (s : sys) :
  reachable s ->
  NoDup (effect_of <$> (entries_at (Keys.effects K) (s_view s)).*2) /\
  forall e, e ∈ effect_of <$> (entries_at (Keys.effects K) (s_view s)).*2 <->
            is_Some (look (Keys.ledger K e) (s_view s)).
Proof.
  intros Hs. open_state Hs. rewrite (entries_effects Hr), <- list_fmap_compose.
  destruct (inv_effects _ _ _ Hi) as [Hn He _]. split; [exact Hn|]. intros e.
  rewrite (marker_exists Hr). apply He.
Qed.

(** C4: the dead-letter stream holds exactly the DEAD jobs, one entry each: every
    DEAD record points at an entry of its job, every entry's job is DEAD and points
    back at it, and no job has two entries. *)
Theorem dlq_exact (s : sys) :
  reachable s ->
  (forall j, job_state K j (s_view s) = Some "DEAD"%string -> exists d row,
     job_record K j (s_view s) !! "dead_entry_id"%string = Some (str_of_eid d) /\
     (d, row) ∈ entries_at (Keys.dead K) (s_view s) /\
     field "dlq_job_id" row = Some j) /\
  (forall d row, (d, row) ∈ entries_at (Keys.dead K) (s_view s) -> exists j,
     field "dlq_job_id" row = Some j /\
     job_state K j (s_view s) = Some "DEAD"%string /\
     job_record K j (s_view s) !! "dead_entry_id"%string = Some (str_of_eid d)) /\
  (forall d1 row1 d2 row2 j,
     (d1, row1) ∈ entries_at (Keys.dead K) (s_view s) ->
     (d2, row2) ∈ entries_at (Keys.dead K) (s_view s) ->
     field "dlq_job_id" row1 = Some j -> field "dlq_job_id" row2 = Some j -> d1 = d2).
Proof.
  intros Hs. open_state Hs. rewrite (entries_dead Hr).
  destruct (inv_dlq _ _ _ Hi) as [Hids _ Hhas Honly]. split_and!.
  - intros j. rewrite (state_done Hr), (record_done Hr). intros Hst.
    destruct (records_state _ _ _ (inv_records _ _ _ Hi) Hst)
      as (r & _ & Hrec & [[? _]|[_ [d Hd]]]); [done|].
    rewrite <- Hrec in Hd. destruct (Hhas j d Hd) as (row & Hin & Hrow).
    exists d, row. split; [apply Hd|]. split; [done|]. by apply dead_row_job.
  - intros d row Hin. destruct (Honly d row Hin) as (j & Hd & Hrow). exists j.
    rewrite (state_done Hr), (record_done Hr).
    split; [by apply dead_row_job|]. split; apply Hd.
  - intros d1 row1 d2 row2 j Hin1 Hin2 H1 H2.
    destruct (Honly d1 row1 Hin1) as (j1 & Hd1 & Hrow1).
    destruct (Honly d2 row2 Hin2) as (j2 & Hd2 & Hrow2).
    apply dead_row_job in Hrow1, Hrow2.
    assert (j1 = j2) as -> by congruence. by eapply dead_at_inj.
Qed.

(** C5: no entry is ever stuck. Every stream entry is either above the group's last
    delivered id, so the next read of new entries finds it, or pending, so a reaper
    can reclaim it; and nothing is pending that is not in the stream. *)
Theorem no_entry_stuck (s : sys) :
  reachable s ->
  (forall e fs, (e, fs) ∈ entries_at (Keys.stream K) (s_view s) ->
     eid_lt (last_delivered (group_at (Keys.stream K) G (s_view s))) e \/
     is_Some (pel (group_at (Keys.stream K) G (s_view s)) !! e)) /\
  (forall e, is_Some (pel (group_at (Keys.stream K) G (s_view s)) !! e) ->
     exists fs, (e, fs) ∈ entries_at (Keys.stream K) (s_view s)).
Proof.
  intros Hs. open_state Hs. rewrite (entries_stream Hr), (group_stream Hr). split.
  - apply (so_reach _ _ _ _ _ (inv_stream _ _ _ Hi)).
  - apply (so_pel _ _ _ _ _ (inv_stream _ _ _ Hi)).
Qed.

(** A drained queue has finished everything. When the stream and the delayed
    set are empty, every accepted job is SUCCEEDED or DEAD. *)
Theorem drained_all_finished (s : sys) (j : string) :
  reachable s ->
  entries_at (Keys.stream K) (s_view s) = [] ->
  zset_at (Keys.delayed K) (s_view s) = ∅ ->
  j ∈ s_accepted s ->
  job_state K j (s_view s) = Some "SUCCEEDED"%string \/
  job_state K j (s_view s) = Some "DEAD"%string.
Proof.
  intros Hs He Hz Hj. open_state Hs.
  rewrite (entries_stream Hr) in He. rewrite (zset_delayed Hr) in Hz. rewrite (state_done Hr).
  by apply (drained_finished _ _ _ _ Hi).
Qed.

(** C6: a success is final. Once a job is SUCCEEDED, no later step of anybody
    changes its terminal record: not its state, result, time or worker. *)
Theorem success_is_final (s s' : sys) (j : string) :
  reachable s -> rtc (sstep K G T) s s' ->
  job_state K j (s_view s) = Some "SUCCEEDED"%string ->
  job_record K j (s_view s') = job_record K j (s_view s).
Proof.
  intros Hs Hst Hj. destruct (reachable_good _ _ _ _ Hs) as (a & Hrel & Hi).
  destruct (ssteps_sim _ _ _ _ _ _ Hst Hrel Hi) as (a' & Has & (Hr' & _) & _).
  destruct Hrel as (Hr & _). rewrite (state_done Hr) in Hj.
  rewrite (record_done Hr), (record_done Hr'). unfold rec_of.
  by rewrite (asteps_keeps _ _ Has j Hj).
Qed.

(** C7: the counters agree with the logs: [processed] counts the results log,
    [effects_applied] the effects log, and [dead] less [late_successes] less
    [requeued] the dead-letter stream. *)
Theorem counters_agree (s : sys) :
  reachable s ->
  counter K "processed" (s_view s) =
    Z.of_nat (length (entries_at (Keys.results K) (s_view s))) /\
  counter K "effects_applied" (s_view s) =
    Z.of_nat (length (entries_at (Keys.effects K) (s_view s))) /\
  counter K "dead" (s_view s) - counter K "late_successes" (s_view s) -
      counter K "requeued" (s_view s) =
    Z.of_nat (length (entries_at (Keys.dead K) (s_view s))).
Proof.
  intros Hs. open_state Hs. rewrite !(counter_stat Hr).
  rewrite (entries_results Hr), (entries_effects Hr), (entries_dead Hr).
  apply (inv_counters _ _ _ Hi).
Qed.
End Safety.

(** ** The theorems at the demonstration run *)
Lemma no_job_lost_witness :
  (exists e fs, (e, fs) ∈ entries_at (Keys.stream k0) (s_view state3) /\
     field "job_id" fs = Some "j3"%string) \/
  (exists m fs, is_Some (zset_at (Keys.delayed k0) (s_view state3) !! m) /\
     cjson_decode m = Ok fs /\ field "job_id" fs = Some "j3"%string) \/
  job_state k0 "j3" (s_view state3) = Some "SUCCEEDED"%string \/
  job_state k0 "j3" (s_view state3) = Some "DEAD"%string.
Proof.
  apply (no_job_lost k0 g0 false state3 "j3"); [exact state3_reachable|compute_true].
Defined.

Lemma results_exactly_once_witness :
  NoDup (logged "job_id" (entries_at (Keys.results k0) (s_view state3))) /\
  forall j, j ∈ logged "job_id" (entries_at (Keys.results k0) (s_view state3)) <->
            job_state k0 j (s_view state3) = Some "SUCCEEDED"%string.
Proof. apply (results_exactly_once k0 g0 false state3), state3_reachable. Defined.

Lemma effects_exactly_once_witness :
  NoDup (effect_of <$> (entries_at (Keys.effects k0) (s_view state3)).*2) /\
  forall e, e ∈ effect_of <$> (entries_at (Keys.effects k0) (s_view state3)).*2 <->
            is_Some (look (Keys.ledger k0 e) (s_view state3)).
Proof. apply (effects_exactly_once k0 g0 false state3), state3_reachable. Defined.

Lemma dlq_exact_witness : exists j,
  field "dlq_job_id" (default [] (snd <$> head (entries_at (Keys.dead k0) (s_view state3)))) =
    Some j /\ job_state k0 j (s_view state3) = Some "DEAD"%string.
Proof.
  destruct (dlq_exact k0 g0 false state3 state3_reachable) as (_ & Ho & _).
  destruct (entries_at (Keys.dead k0) (s_view state3)) as [|[d row] l] eqn:He.
  - exfalso. revert He. vm_compute. discriminate.
  - destruct (Ho d row) as (j & Hj & Hs & _); [left|]. exists j. exact (conj Hj Hs).
Defined.

Lemma no_entry_stuck_witness :
  is_Some (pel (group_at (Keys.stream k0) g0 (s_view state3)) !! id_of 2) /\
  exists fs, (id_of 2, fs) ∈ entries_at (Keys.stream k0) (s_view state3).
Proof.
  assert (Hp : is_Some (pel (group_at (Keys.stream k0) g0 (s_view state3)) !! id_of 2))
    by compute_true.
  split; [exact Hp|]. by apply (no_entry_stuck k0 g0 false state3 state3_reachable).
Defined.

Lemma drained_all_finished_witness :
  job_state k0 "j2" (s_view state4) = Some "SUCCEEDED"%string \/
  job_state k0 "j2" (s_view state4) = Some "DEAD"%string.
Proof.
  apply (drained_all_finished k0 g0 false state4); [exact state4_reachable|compute_true..].
Defined.

Lemma success_is_final_witness :
  job_record k0 "j1" (s_view state3) = job_record k0 "j1" (s_view state2).
Proof.
  apply (success_is_final k0 g0 false); [exact state2_reachable| |compute_true].
  apply rtc_once, state3_step.
Defined.

Lemma counters_agree_witness :
  counter k0 "processed" (s_view state3) = 1 /\
  Z.of_nat (length (entries_at (Keys.results k0) (s_view state3))) = 1.
Proof.
  destruct (counters_agree k0 g0 false state3 state3_reachable) as (Hp & _ & _).
  rewrite <- Hp. split; compute_true.
Defined.
