(* ===== verification/Operations.v ===== *)
(** What each script does, on every branch, from any reachable state: admission and
    hysteresis, first-wins commits, refused stale holders, harmless re-sends, the
    dead-letter round trip, conservation by the scheduler, recovery by the reaper. *)
From S2P Require Import Prelude Effects Redis Keys LuaScripts RedisRules Queue Ops.
From S2P Require Import Refine Fields Streams Logs Invariants Machine System.
From S2P Require Import RedisRef Demo Safety.
From stdpp Require Import relations.

#[local] Open Scope Z_scope.

(** Undelivered + in flight + waiting for a retry, as enqueue.lua counts it. *)
Definition depth_at (K : Keys.t) (v : rview) : Z :=
  Z.of_nat (length (entries_at (Keys.stream K) v)) +
  Z.of_nat (size (zset_at (Keys.delayed K) v)).
Definition full_at (K : Keys.t) (v : rview) : bool :=
  bool_decide (is_Some (look (Keys.full K) v)).
Definition idem_at (K : Keys.t) (i : string) (v : rview) : option string :=
  match get_str (Keys.idem K i) v with Some o => o | None => None end.

Section Reading.
Context {K : Keys.t} {G : string} {T : bool} {v : rview} {q : queue}.
Context (Hr : rep K G T v q).

Lemma depth_queue : depth_at K v = q_depth q.
Proof using Hr. unfold depth_at. by rewrite (entries_stream Hr), (zset_delayed Hr). Qed.
Lemma full_queue : full_at K v = q_full q.
Proof using Hr.
  unfold full_at. change (Keys.full K) with (render K KFull).
  rewrite (rep_exists K G T v q KFull _ Hr eq_refl). by destruct (q_full q).
Qed.
Lemma idem_queue i : idem_at K i v = q_idem q !! i.
Proof using Hr.
  unfold idem_at. change (Keys.idem K i) with (render K (KIdem i)).
  by rewrite (rep_str K G T v q (KIdem i) _ Hr eq_refl).
Qed.
End Reading.

Section Operations.
Context `{CJson}.
Context (K : Keys.t) (G : string) (T : bool).
Abbreviation reachable := (reachable K G T).

Abbreviation enqueue idem j ttl high low c args :=
  (enqueue_lua (Keys.stream K) (Keys.delayed K) (Keys.full K) (Keys.stats K)
     (Keys.idem K <$> idem) j ttl high low c args).
Abbreviation commit e j res ttl w enq :=
  (commit_lua (Keys.stream K) (Keys.done K j) (Keys.results K) (Keys.stats K)
     (Keys.dead K) G e j res ttl w enq).
Abbreviation retry e j w n delay t :=
  (retry_lua (Keys.stream K) (Keys.delayed K) (Keys.done K j) (Keys.stats K)
     G e w n delay t).

(** Open a reachable state. *)
Ltac open_state Hs :=
  let a := fresh "a" in let Hr := fresh "Hr" in let Hi := fresh "Hi" in
  destruct (reachable_good _ _ _ _ Hs) as (a & (Hr & HA & HD) & Hi);
  unfold ainv in Hi; rewrite <- HA, <- HD in Hi;
  destruct a as [q A D]; cbn [a_queue a_accepted a_given] in *.

(** Replace an execution by what the script's refinement says. *)
Ltac by_refine Hx lem := eapply wp_runs in Hx; [|by apply lem]; cbn beta in Hx.

(** ** enqueue.lua *)

(** C8: admission. An enqueue whose idempotency key is unknown is refused exactly
    when the queue is full, or at the high watermark, with hysteresis: once full it
    stays full until the depth falls below the low watermark. A refusal adds
    nothing; an admission adds one entry and never takes the depth past the high
    watermark; a known idempotency key answers the original job and changes
    nothing. *)
Theorem enqueue_admission (s : sys) v' idem j ttl high low c args r :
  reachable s -> even_length args = true -> 0 < ttl -> low <= high ->
  exec (enqueue idem j ttl high low c args) (s_view s) r v' ->
  match idem ≫= (fun i => idem_at K i (s_view s)) with
  | Some original => r = Ok (original, 0, -1) /\
      entries_at (Keys.stream K) v' = entries_at (Keys.stream K) (s_view s) /\
      depth_at K v' = depth_at K (s_view s) /\ full_at K v' = full_at K (s_view s)
  | None =>
      let depth := depth_at K (s_view s) in
      let full := if full_at K (s_view s) then low <=? depth else high <=? depth in
      full_at K v' = full /\
      if full then
        r = Ok (""%string, -1, depth) /\ depth_at K v' = depth /\
        entries_at (Keys.stream K) v' = entries_at (Keys.stream K) (s_view s)
      else
        r = Ok (j, 1, depth + 1) /\ depth_at K v' = depth + 1 /\ depth_at K v' <= high /\
        exists i, entries_at (Keys.stream K) v' = entries_at (Keys.stream K) (s_view s) ++
          [(i, args ++ ["enqueued_at_ms"%string; str_of_Z (now_ms (s_view s))])]
  end.
Proof.
  intros Hs He Ht Hlh Hx. open_state Hs.
  by_refine Hx (enqueue_refines K G T (s_view s) q).
  destruct Hx as (i & _ & Hr' & ->). revert Hr'. unfold q_enqueue.
  rewrite (full_queue Hr), (depth_queue Hr), (entries_stream Hr), (rep_now _ _ _ _ _ Hr).
  replace (idem ≫= (fun i => idem_at K i (s_view s)))
    with (idem ≫= (fun k => q_idem q !! k))
    by (destruct idem; [symmetry; apply (idem_queue Hr)|done]).
  destruct (idem ≫= _) as [o|]; cbn [fst snd]; intros Hr'.
  { by rewrite (entries_stream Hr'), (depth_queue Hr'), (full_queue Hr'). }
  cbn zeta. replace (if q_full q then low <=? q_depth q else high <=? q_depth q)
    with (next_full high low q).
  2: { unfold next_full. destruct (q_full q); [|done].
       destruct (Z.ltb_spec (q_depth q) low), (Z.leb_spec low (q_depth q)); try done; lia. }
  revert Hr'. destruct (next_full high low q) eqn:Hn; cbn [fst snd]; intros Hr';
    rewrite (entries_stream Hr'), (depth_queue Hr'), (full_queue Hr').
  - by case_decide.
  - assert (Hd : q_depth q + 1 <= high).
    { unfold next_full in Hn. destruct (q_full q);
        [apply negb_false_iff, Z.ltb_lt in Hn|apply Z.leb_gt in Hn]; lia. }
    assert (Hadd : forall i fs q', q_entries q' = q_entries q -> q_delayed q' = q_delayed q ->
              q_depth (q_add i fs q') = q_depth q + 1).
    { intros i' fs q' H1 H2. unfold q_depth. cbn. rewrite H1, H2, length_app. cbn. lia. }
    split; [by destruct idem|]. split; [done|].
    rewrite Hadd by by destruct idem. split; [done|]. split; [done|].
    exists i. by destruct idem.
Qed.

(** An enqueue is idempotent. If an enqueue with an idempotency key was accepted
    or recognised, sending it again, with any job id and watermarks and however full
    the queue is, answers the same job id as a duplicate and changes nothing. *)
Theorem enqueue_resend (s : sys) v1 v2 i j1 j2 ttl1 ttl2 h1 h2 l1 l2 c1 c2 args1 args2
    id st d r2 :
  reachable s -> even_length args1 = true -> 0 < ttl1 ->
  exec (enqueue (Some i) j1 ttl1 h1 l1 c1 args1) (s_view s) (Ok (id, st, d)) v1 ->
  st <> -1 ->
  exec (enqueue (Some i) j2 ttl2 h2 l2 c2 args2) v1 r2 v2 ->
  r2 = Ok (id, 0, -1) /\ v2 = v1.
Proof.
  intros Hs He Ht Hx Hst Hx2. open_state Hs.
  by_refine Hx (enqueue_refines K G T (s_view s) q).
  destruct Hx as (k & _ & Hr1 & Ho). injection Ho as Ho.
  assert (Hi1 : get_str (Keys.idem K i) v1 = Some (Some id)).
  { change (Keys.idem K i) with (render K (KIdem i)).
    rewrite (rep_str K G T v1 _ (KIdem i) _ Hr1 eq_refl). f_equal.
    revert Ho. unfold q_enqueue. cbn [mbind option_bind].
    destruct (q_idem q !! i) as [o|] eqn:Hio; cbn [fst snd]; [by intros [= -> _ _]|].
    destruct (next_full h1 l1 q); cbn [fst snd]; intros [= -> -> _]; [done|].
    cbn. by rewrite lookup_insert_eq. }
  cbn in Hx2. destruct Hx2 as (x & v & (-> & Hg) & Hx2). rewrite Hi1 in Hg. subst x.
  cbn in Hx2. by destruct Hx2 as [-> ->].
Qed.

(** ** commit.lua *)

Lemma drop_gone e q :
  (forall fs, (e, fs) ∉ q_entries (q_drop e q)) /\ q_pel (q_drop e q) !! e = None.
Proof.
  split; [|apply lookup_delete_eq].
  intros fs [_ Hne]%elem_of_del. by cbn in Hne.
Qed.

(** The record after a success, whatever was there. *)
Lemma success_rec e j res w enq i q :
  let r := rec_of (q_done (record_success e j res w enq i q)) j in
  r !! "state"%string = Some "SUCCEEDED"%string /\ r !! "result"%string = Some res.
Proof.
  cbn. rewrite rec_insert_eq. cbn.
  split; repeat (rewrite lookup_insert_eq || rewrite lookup_insert_ne by done); done.
Qed.

(** C9: what a commit does. It answers DUPLICATE (0) if the job had SUCCEEDED,
    LATE_SUCCESS (2) if it was DEAD, COMMITTED (1) otherwise. Afterwards the job is
    SUCCEEDED and its entry is neither in the stream nor pending; a first success
    records the caller's result and appends one row to the results log; a duplicate
    changes neither the record nor the log; and no DLQ entry of the job is left. *)
Theorem commit_outcome (s : sys) v' e fs j res ttl w enq r :
  reachable s -> (e, fs) ∈ s_given s -> field "job_id" fs = Some j -> uuid_like j ->
  ttl_ok T ttl ->
  exec (commit e j res ttl w enq) (s_view s) r v' ->
  let before := job_state K j (s_view s) in
  r = Ok (if decide (before = Some "SUCCEEDED"%string) then 0
          else if decide (before = Some "DEAD"%string) then 2 else 1) /\
  job_state K j v' = Some "SUCCEEDED"%string /\
  (forall fs', (e, fs') ∉ entries_at (Keys.stream K) v') /\
  pel (group_at (Keys.stream K) G v') !! e = None /\
  (if decide (before = Some "SUCCEEDED"%string) then
     job_record K j v' = job_record K j (s_view s) /\
     entries_at (Keys.results K) v' = entries_at (Keys.results K) (s_view s)
   else
     job_record K j v' !! "result"%string = Some res /\
     exists i, entries_at (Keys.results K) v' =
       entries_at (Keys.results K) (s_view s) ++
         [(i, result_row j w enq (now_ms (s_view s)))]) /\
  (forall d row, (d, row) ∈ entries_at (Keys.dead K) v' ->
     field "dlq_job_id" row <> Some j).
Proof.
  intros Hs HDe Hf Hu Ht Hx before.
  assert (Hs' : reachable (Sys v' (s_accepted s) (s_given s))).
  { eapply reachable_step; [exact Hs|]. destruct s as [v A D].
    apply (step_commit K G T v v' A D e fs j res ttl w enq r); done. }
  assert (Hafter : job_state K j v' = Some "SUCCEEDED"%string ->
    forall d row, (d, row) ∈ entries_at (Keys.dead K) v' ->
    field "dlq_job_id" row <> Some j).
  { intros Hsu d row Hin Hj. destruct (dlq_exact K G T _ Hs') as (_ & Ho & _).
    destruct (Ho d row Hin) as (j' & Hj' & Hd & _). cbn [s_view] in Hd. congruence. }
  clear Hs'. open_state Hs. pose proof (inv_records _ _ _ Hi) as Hrec.
  pose proof (records_dead_ids _ Hrec).
  by_refine Hx (commit_refines K G T (s_view s) q e j res w enq ttl).
  destruct Hx as (i & Hfi & Hr' & ->). subst before. rewrite (state_done Hr).
  change (state_of (q_done q) j) with (q_state j q).
  assert (Hsu : job_state K j v' = Some "SUCCEEDED"%string).
  { rewrite (state_done Hr'). unfold q_commit. case_decide as H1; [exact H1|].
    case_decide as H2; apply success_rec. }
  split; [|split; [exact Hsu|]].
  { unfold q_commit. case_decide; [done|]. by case_decide. }
  rewrite (entries_stream Hr'), (group_stream Hr'), (entries_results Hr'),
    (entries_results Hr), (record_done Hr'), (record_done Hr), (rep_now _ _ _ _ _ Hr).
  specialize (Hafter Hsu). clear Hr' Hsu. split_and!; [| | |exact Hafter];
    unfold q_commit; case_decide as H1; try case_decide as H2; cbn [fst].
  1-3: apply drop_gone.
  1-3: apply drop_gone.
  - done.
  - split; [apply success_rec|]. exists i.
    destruct (undead_step _ _ _ _ Hi H2) as (d & _ & ->). done.
  - split; [apply success_rec|]. by exists i.
Qed.

(** First wins: after any commit of a job, a commit by any other holder of any
    copy of it, with any result, is answered DUPLICATE, drops its own entry, and
    leaves the recorded result and the results log as they were. *)
Theorem commit_first_wins (s : sys) v1 v2 e1 fs1 e2 fs2 j res1 res2 ttl1 ttl2 w1 w2
    enq1 enq2 r1 r2 :
  reachable s -> uuid_like j ->
  (e1, fs1) ∈ s_given s -> field "job_id" fs1 = Some j ->
  (e2, fs2) ∈ s_given s -> field "job_id" fs2 = Some j ->
  ttl_ok T ttl1 -> ttl_ok T ttl2 ->
  exec (commit e1 j res1 ttl1 w1 enq1) (s_view s) r1 v1 ->
  exec (commit e2 j res2 ttl2 w2 enq2) v1 r2 v2 ->
  r2 = Ok 0 /\ (forall fs, (e2, fs) ∉ entries_at (Keys.stream K) v2) /\
  job_record K j v2 = job_record K j v1 /\
  entries_at (Keys.results K) v2 = entries_at (Keys.results K) v1.
Proof.
  intros Hs Hu HD1 Hf1 HD2 Hf2 Ht1 Ht2 Hx1 Hx2.
  destruct (commit_outcome s v1 e1 fs1 j res1 ttl1 w1 enq1 r1) as (_ & Hsu & _); [done..|].
  assert (Hs1 : reachable (Sys v1 (s_accepted s) (s_given s))).
  { eapply reachable_step; [exact Hs|]. destruct s as [v A D].
    by apply (step_commit K G T v v1 A D e1 fs1 j res1 ttl1 w1 enq1 r1). }
  destruct (commit_outcome (Sys v1 (s_accepted s) (s_given s)) v2 e2 fs2 j res2 ttl2 w2
    enq2 r2) as (Hr & _ & He & _ & Hlog & _); [done..|].
  cbn [s_view] in *. rewrite !(decide_True (P := job_state K j v1 = _)) in * by done.
  destruct Hlog as [Hrec Hlog]. by split_and!.
Qed.

(** ** heartbeat.lua, retry.lua, dead.lua *)

Abbreviation heartbeat e w := (heartbeat_lua (Keys.stream K) (Keys.stats K) G e w).
Abbreviation dead e j w reason error attempts t :=
  (dead_lua (Keys.stream K) (Keys.dead K) (Keys.done K j) (Keys.stats K)
     G e w j reason error attempts t).

(** [w] holds the lease of [e]. *)
Definition holds (w : string) (e : eid) (v : rview) : Prop :=
  exists le, pel (group_at (Keys.stream K) G v) !! e = Some le /\ owner le = w.

Lemma holds_owns w e v q :
  rep K G T v q -> holds w e v <-> is_Some (owns w e q).
Proof.
  intros Hr. unfold holds, owns. rewrite (group_stream Hr). cbn [q_group pel].
  split.
  - intros (le & -> & Ho). cbn. rewrite decide_True by done. by eexists.
  - destruct (q_pel q !! e) as [le|]; cbn; [|by intros []].
    case_decide; [|by intros []]. intros _. by exists le.
Qed.

(** An entry that was dropped is neither readable nor held. *)
Lemma gone_after w e q q' v1 :
  rep K G T v1 q' ->
  q_entries q' = q_entries (q_drop e q) -> q_pel q' = q_pel (q_drop e q) ->
  (forall fs', (e, fs') ∉ entries_at (Keys.stream K) v1) /\ ~ holds w e v1.
Proof.
  intros Hr1 He Hp. rewrite (entries_stream Hr1), He. split; [apply drop_gone|].
  rewrite (holds_owns w e _ _ Hr1). unfold owns. rewrite Hp.
  destruct (drop_gone e q) as [_ ->]. by intros [].
Qed.

(** The owner check all three start with. *)
Lemma refused v q e w {A} (f : pending_row -> lua A) (lost : A) r v' :
  rep K G T v q -> ~ holds w e v ->
  exec (p <- call (XPENDING (Keys.stream K) G (BIncl e) (BIncl e) 1 None) ;;
        match owned_by p w with
        | None => call (HINCRBY (Keys.stats K) "lease_lost" 1) ;;; Ret lost
        | Some row => f row
        end)%prog v r v' ->
  r = Ok lost /\ forall k, k <> Keys.stats K -> look k v' = look k v.
Proof.
  intros Hr Hh (x & v1 & Hd & Hx). apply (rep_xpending K G T v q _ _ _ Hr) in Hd as [-> ->].
  cbn beta iota in Hx. rewrite (holds_owns w e v q Hr) in Hh. revert Hx.
  cbn [bind call]. rewrite owned_by_owns. apply eq_None_not_Some in Hh. rewrite Hh.
  cbn [fmap option_fmap option_map bind call].
  intros (x & v2 & Hd & Hx). pose proof Hd as Hd'.
  apply (rep_incr K G T v q _ _ _ _ Hr) in Hd' as (z & -> & _).
  destruct Hx as [-> ->]. split; [done|]. intros k Hk. cbn in Hd.
  destruct (get_hash _ v) as [h|]; [|by destruct Hd].
  destruct (int_of_str _); destruct Hd as [_ ->]; [|done]. by rewrite look_modify_ne.
Qed.

(** C10: a stale holder is harmless. A heartbeat, retry or DLQ move sent by a worker
    that no longer holds the entry's lease (it was reclaimed, committed, retried or
    buried by another, or the request is a re-send) answers LEASE_LOST and touches
    no key but the counters. *)
Theorem stale_holder_harmless (s : sys) e w :
  reachable s -> ~ holds w e (s_view s) ->
  (forall r v', exec (heartbeat e w) (s_view s) r v' ->
     r = Ok "LEASE_LOST"%string /\
     forall k, k <> Keys.stats K -> look k v' = look k (s_view s)) /\
  (forall j n delay t r v', exec (retry e j w n delay t) (s_view s) r v' ->
     r = Ok "LEASE_LOST"%string /\
     forall k, k <> Keys.stats K -> look k v' = look k (s_view s)) /\
  (forall j reason error attempts t r v',
     exec (dead e j w reason error attempts t) (s_view s) r v' ->
     r = Ok "LEASE_LOST"%string /\
     forall k, k <> Keys.stats K -> look k v' = look k (s_view s)).
Proof.
  intros Hs Hh. open_state Hs. split_and!.
  - intros r v' Hx. unfold heartbeat_lua in Hx. by apply (refused _ q _ _ _ _ _ _ Hr Hh) in Hx.
  - intros j n delay t r v' Hx. unfold retry_lua in Hx.
    by apply (refused _ q _ _ _ _ _ _ Hr Hh) in Hx.
  - intros j reason error attempts t r v' Hx. unfold dead_lua in Hx.
    by apply (refused _ q _ _ _ _ _ _ Hr Hh) in Hx.
Qed.

(** C11: what a retry does when its sender holds the lease. If the job is finished
    (another copy of it was), the copy is dropped (TERMINAL). Otherwise exactly the
    job that was enqueued, with only its attempt number changed, waits in the
    delayed set, due after the delay (OK). Either way the entry has left the stream
    and the pending list, so a re-send is refused; it never fails. *)
Theorem retry_outcome (s : sys) v' e fs j w n delay t r :
  reachable s -> (e, fs) ∈ s_given s -> field "job_id" fs = Some j ->
  holds w e (s_view s) ->
  exec (retry e j w n delay t) (s_view s) r v' ->
  (forall fs', (e, fs') ∉ entries_at (Keys.stream K) v') /\
  ~ holds w e v' /\
  (if decide (job_state K j (s_view s) = None) then
     r = Ok "OK"%string /\
     zset_at (Keys.delayed K) v' =
       <[cjson_encode (set_attempt n fs) := now_ms (s_view s) + delay]>
         (zset_at (Keys.delayed K) (s_view s))
   else
     r = Ok "TERMINAL"%string /\
     zset_at (Keys.delayed K) v' = zset_at (Keys.delayed K) (s_view s)).
Proof.
  intros Hs HDe Hf Hh Hx. open_state Hs. apply (holds_owns w e _ q Hr) in Hh as [le Ho].
  destruct (owned_entry _ _ _ _ _ _ (inv_stream _ _ _ Hi) Ho HDe) as [Hin Hat].
  by_refine Hx (retry_refines K G T (s_view s) q).
  revert Hx. unfold q_retry. rewrite Ho, Hat. cbn zeta. unfold truthy.
  rewrite (state_done Hr), (zset_delayed Hr), (rep_now _ _ _ _ _ Hr).
  change (state_of (q_done q) j) with (q_state j q).
  pose proof (fun q' v1 => gone_after w e q q' v1) as Hgone.
  case_bool_decide as Hst; cbn [fst snd]; intros [Hr' ->].
  - destruct (Hgone _ _ Hr') as [? ?]; [done..|]. split_and!; [done..|].
    rewrite decide_False by by apply not_eq_None_Some. by rewrite (zset_delayed Hr').
  - destruct (Hgone _ _ Hr') as [? ?]; [unfold count_timeout; by case_decide..|].
    split_and!; [done..|]. rewrite decide_True by by apply eq_None_not_Some.
    split; [done|]. rewrite (zset_delayed Hr'). unfold count_timeout. by case_decide.
Qed.

(** C12: what a DLQ move does when its sender holds the lease. If the job is
    finished, the copy is dropped (TERMINAL): DEAD never replaces SUCCEEDED. Otherwise
    (OK) the job is DEAD with the reason, and the dead-letter stream gains one entry
    that starts with the job's fields verbatim. The entry has left the stream and
    the pending list. *)
Theorem dead_outcome (s : sys) v' e fs j w reason error attempts t r :
  reachable s -> (e, fs) ∈ s_given s -> names j e fs ->
  holds w e (s_view s) ->
  exec (dead e j w reason error attempts t) (s_view s) r v' ->
  (forall fs', (e, fs') ∉ entries_at (Keys.stream K) v') /\
  ~ holds w e v' /\
  (if decide (job_state K j (s_view s) = None) then
     r = Ok "OK"%string /\ job_state K j v' = Some "DEAD"%string /\
     job_record K j v' !! "reason"%string = Some reason /\
     exists d n, entries_at (Keys.dead K) v' = entries_at (Keys.dead K) (s_view s) ++
       [(d, fs ++ dlq_meta e w j reason error attempts n (now_ms (s_view s)))]
   else
     r = Ok "TERMINAL"%string /\ job_record K j v' = job_record K j (s_view s) /\
     entries_at (Keys.dead K) v' = entries_at (Keys.dead K) (s_view s)).
Proof.
  intros Hs HDe Hn Hh Hx. open_state Hs. apply (holds_owns w e _ q Hr) in Hh as [le Ho].
  destruct (owned_entry _ _ _ _ _ _ (inv_stream _ _ _ Hi) Ho HDe) as [Hin Hat].
  pose proof (so_valid _ _ _ _ _ (inv_stream _ _ _ Hi)) as Hval.
  by_refine Hx (dead_refines K G T (s_view s) q).
  destruct Hx as (d & Hd & Hx). revert Hx.
  unfold q_dead_letter. rewrite Ho, Hat. cbn zeta. unfold truthy.
  rewrite (state_done Hr), (record_done Hr), (entries_dead Hr), (rep_now _ _ _ _ _ Hr).
  change (state_of (q_done q) j) with (q_state j q).
  pose proof (fun q' v1 => gone_after w e q q' v1) as Hgone.
  case_bool_decide as Hst; cbn [fst snd]; intros [Hr' ->].
  - destruct (Hgone _ _ Hr') as [? ?]; [done..|]. split_and!; [done..|].
    rewrite decide_False by by apply not_eq_None_Some.
    by rewrite (entries_dead Hr'), (record_done Hr').
  - destruct (Hgone _ _ Hr') as [? ?]; [unfold count_timeout; by case_decide..|].
    split_and!; [done..|]. rewrite decide_True by by apply eq_None_not_Some.
    split; [done|]. rewrite (state_done Hr'), (record_done Hr'), (entries_dead Hr').
    unfold state_of. rewrite done_timeout. cbn. rewrite rec_insert_eq. cbn.
    split; [|split].
    1-2: repeat (rewrite lookup_insert_eq || rewrite lookup_insert_ne by done); done.
    exists d, (deliveries le). unfold count_timeout. by case_decide.
Qed.

(** ** requeue.lua *)

Abbreviation requeue j :=
  (requeue_lua (Keys.dead K) (Keys.stream K) (Keys.done K j) (Keys.stats K) j).

(** A job that is not DEAD is left alone. *)
Lemma requeue_not_dead j v q' r2 v2 : rep K G T v q' -> q_state j q' <> Some "DEAD"%string ->
  exec (requeue j) v r2 v2 -> r2 = Ok 0 /\ v2 = v.
Proof.
  intros Hr1 Hne (x & v3 & Hd & Hx').
  apply (rep_hget K G T v q' _ _ _ _ Hr1) in Hd as [-> ->]. revert Hx'.
  cbn beta iota. cbn [bind]. fold (q_state j q'). rewrite decide_False by done. done.
Qed.

(** C13: requeue is the inverse of a DLQ move. For a DEAD job whose entry has any
    field besides dlq_* ones, it answers 1: the job has no terminal record any more,
    its DLQ entry is gone, and the stream gains one entry that holds the job's fields
    as they were when it died, in order, with the attempt number 0. Sent again, or
    for a job that is not DEAD, it answers 0 and changes nothing. *)
Theorem requeue_outcome (s : sys) v1 j r :
  reachable s -> exec (requeue j) (s_view s) r v1 ->
  if decide (job_state K j (s_view s) = Some "DEAD"%string) then
    exists e w fs reason error attempts n now d,
      (d, fs ++ dlq_meta e w j reason error attempts n now) ∈
        entries_at (Keys.dead K) (s_view s) /\
      if decide (strip_dlq fs = []) then
        is_ok r = false /\
        entries_at (Keys.stream K) v1 = entries_at (Keys.stream K) (s_view s) /\
        entries_at (Keys.dead K) v1 = entries_at (Keys.dead K) (s_view s)
      else
        r = Ok 1 /\ job_state K j v1 = None /\
        (forall row, (d, row) ∉ entries_at (Keys.dead K) v1) /\
        (exists i, entries_at (Keys.stream K) v1 =
           entries_at (Keys.stream K) (s_view s) ++ [(i, strip_dlq fs)]) /\
        forall r2 v2, exec (requeue j) v1 r2 v2 -> r2 = Ok 0 /\ v2 = v1
  else r = Ok 0 /\ v1 = s_view s.
Proof.
  intros Hs Hx. open_state Hs.
  rewrite (state_done Hr). change (state_of (q_done q) j) with (q_state j q).
  case_decide as Hst; [|by eapply requeue_not_dead].
  destruct (undead_step _ _ _ _ Hi Hst) as (d & Hd & Hun).
  destruct (dlq_has _ _ (inv_dlq _ _ _ Hi) _ _ Hd) as (row & Hin & Hrow).
  pose proof (dlq_ids _ _ (inv_dlq _ _ _ Hi)) as Hids.
  pose proof Hrow as (e & w & fs & reason & error & attempts & n & now & -> & Hv & _).
  exists e, w, fs, reason, error, attempts, n, now, d. rewrite (entries_dead Hr).
  split; [done|].
  pose proof (records_dead_ids _ (inv_records _ _ _ Hi)).
  pose proof (dlq_valid _ _ (inv_dlq _ _ _ Hi)).
  assert (Hid : is_Some (q_rec j q !! "dead_entry_id"%string))
    by (destruct Hd as (_ & Hd & _); by eexists).
  pose proof Hx as Hx0. by_refine Hx (requeue_refines K G T (s_view s) q j).
  destruct Hx as (i & _ & Hr1 & Hret). revert Hr1 Hret.
  unfold q_requeue. rewrite (decide_True (P := q_state j q = _)) by done.
  change (q_rec j q) with (rec_of (q_done q) j).
  pose proof Hd as (_ & -> & Hd1 & Hd2). cbn [mbind option_bind].
  rewrite eid_of_str_of_eid by done.
  rewrite (fields_at_unique _ _ _ _ Hids Hin), strip_dlq_dead by by apply valid_even.
  case_decide as Hne; cbn [fst snd]; intros Hr1 ->.
  - split; [done|]. by rewrite (entries_stream Hr1), (entries_dead Hr1), (entries_stream Hr).
  - assert (Hst1 : q_state j (q_incr "requeued" 1 (undead j (q_add i (strip_dlq fs) q))) = None).
    { change (q_rec j (undead j (q_add i (strip_dlq fs) q)) !! "state"%string = None).
      unfold q_rec. rewrite undead_done. cbn. by rewrite lookup_delete_eq. }
    split; [done|]. rewrite (state_done Hr1), (entries_dead Hr1), (entries_stream Hr1),
      (entries_stream Hr).
    split; [exact Hst1|]. split; [|split].
    + intros row'. unfold undead.
      change (q_rec j (q_add i (strip_dlq fs) q)) with (rec_of (q_done q) j).
      destruct Hd as (_ & -> & _). cbn [mbind option_bind].
      rewrite eid_of_str_of_eid by done. cbn.
      intros [_ Hne']%elem_of_del. by cbn in Hne'.
    + exists i. unfold undead. by destruct (_ ≫= _).
    + intros r2 v2. apply (requeue_not_dead _ _ _ _ _ Hr1). by rewrite Hst1.
Qed.

(** ** schedule.lua *)

Abbreviation schedule n :=
  (schedule_lua (Keys.delayed K) (Keys.stream K) (Keys.stats K) n).

Lemma moved_spec l q q' :
  moved l q q' -> NoDup l -> (forall m, m ∈ l -> is_Some (q_delayed q !! m)) ->
  q_depth q' = q_depth q /\
  (forall m, q_delayed q' !! m = if decide (m ∈ l) then None else q_delayed q !! m) /\
  exists es, q_entries q' = q_entries q ++ es /\
    Forall2 (fun m e => cjson_decode m = Ok e.2) l es.
Proof.
  induction 1 as [q|m l fs i q q' Hdec Hf Hm IH]; intros Hnd Hin.
  - split; [done|]. split; [by intros m; rewrite decide_False by apply not_elem_of_nil|].
    exists []. by rewrite app_nil_r.
  - apply NoDup_cons in Hnd as [Hml Hnd].
    destruct IH as (Hd & Hz & es & He & Hes); [done|..].
    + intros m' Hm'. cbn. rewrite lookup_delete_ne by (intros ->; done).
      apply Hin. by right.
    + split; [|split].
      * rewrite Hd. unfold q_depth. cbn. rewrite length_app. cbn.
        destruct (Hin m) as [sc Hsc]; [by left|].
        rewrite (map_size_delete_Some m (q_delayed q)) by by eexists.
        assert (size (q_delayed q) <> 0)%nat.
        { intros Hz0%map_size_empty_iff. by rewrite Hz0, lookup_empty in Hsc. }
        lia.
      * intros m'. rewrite Hz. cbn. destruct (decide (m' = m)) as [->|Hne].
        -- rewrite decide_False by done. rewrite decide_True by left. apply lookup_delete_eq.
        -- rewrite lookup_delete_ne by done. apply decide_ext.
           rewrite elem_of_cons. split; [by right|by intros [?|?]].
      * exists ((i, fs) :: es). rewrite He. cbn. rewrite <- app_assoc. split; [done|].
        by constructor.
Qed.

(** C14: the scheduler loses and duplicates nothing. One call moves [k] retries, at
    most [n], all of them due: each leaves the delayed set and its job's fields are
    appended to the stream; every other retry stays; the queue's depth
    is unchanged; and if the batch was not full, nothing that is due is left. *)
Theorem schedule_conserves (s : sys) v' n r :
  reachable s -> exec (schedule n) (s_view s) r v' ->
  exists l es,
    r = Ok (Z.of_nat (length l)) /\ (length l <= n)%nat /\ NoDup l /\
    (forall m, m ∈ l -> exists due,
       zset_at (Keys.delayed K) (s_view s) !! m = Some due /\ due <= now_ms (s_view s)) /\
    entries_at (Keys.stream K) v' = entries_at (Keys.stream K) (s_view s) ++ es /\
    Forall2 (fun m e => cjson_decode m = Ok e.2) l es /\
    (forall m, zset_at (Keys.delayed K) v' !! m =
       if decide (m ∈ l) then None else zset_at (Keys.delayed K) (s_view s) !! m) /\
    depth_at K v' = depth_at K (s_view s) /\
    ((length l < n)%nat -> forall m due,
       zset_at (Keys.delayed K) v' !! m = Some due -> now_ms (s_view s) < due).
Proof.
  intros Hs Hx. open_state Hs.
  pose proof (inv_members _ _ _ Hi).
  by_refine Hx (schedule_refines K G T (s_view s) q).
  destruct Hx as (l & q' & Hl & Hm & Hr' & ->).
  assert (Hin : forall m, m ∈ l -> exists sc, q_delayed q !! m = Some sc /\ sc <= q_now q).
  { intros m Hml. by eapply due_list_elem. }
  destruct (moved_spec _ _ _ Hm) as (Hd & Hz & es & He & Hes).
  { by eapply due_list_nodup. }
  { intros m Hml. destruct (Hin m Hml) as (sc & Hsc & _). by eexists. }
  assert (Hsame : q_entries (incr_if "scheduled" (length l) q') = q_entries q' /\
                  q_delayed (incr_if "scheduled" (length l) q') = q_delayed q').
  { unfold incr_if. by destruct (_ <? _)%nat. }
  destruct Hsame as [Hse Hsd]. exists l, es.
  rewrite (entries_stream Hr'), (zset_delayed Hr'), (zset_delayed Hr), (entries_stream Hr),
    (depth_queue Hr), (depth_queue Hr'), (rep_now _ _ _ _ _ Hr).
  unfold q_depth at 1. rewrite Hse, Hsd. fold (q_depth q').
  pose proof Hl as (ms & Hp & _ & Hlms).
  split_and!; try done.
  - rewrite Hlms. apply firstn_le_length.
  - by eapply due_list_nodup.
  - intros Hlt m due Hdue. rewrite Hz in Hdue. case_decide as Hml; [done|].
    destruct (Z.leb_spec due (q_now q)); [|done]. exfalso. apply Hml. rewrite Hlms.
    rewrite take_ge.
    + apply list_elem_of_fmap. exists (m, due). split; [done|]. rewrite Hp.
      apply list_elem_of_filter. split; [done|]. by apply elem_of_map_to_list.
    + rewrite Hlms, length_take in Hlt. lia.
Qed.

(** ** reclaim.lua *)

Abbreviation reclaim w m cursor n slots thr maxd :=
  (reclaim_lua (Keys.stream K) (Keys.stats K) (Keys.reclaims K) G w m cursor n
     slots thr maxd).

Lemma take_over_eq w t claimed : NoDup claimed.*1 -> forall p i,
  take_over w t claimed p !! i =
    if decide (i ∈ claimed.*1)
    then (fun le => Lease w t (deliveries le + 1)) <$> p !! i else p !! i.
Proof.
  unfold take_over. induction claimed as [|e l IH]; intros Hnd p i; cbn [foldl].
  - rewrite decide_False; [done|]. by apply not_elem_of_nil.
  - cbn in Hnd. apply NoDup_cons in Hnd as [He Hnd]. rewrite IH by done. cbn.
    destruct (decide (i = e.1)) as [->|Hne].
    + rewrite (decide_False _ _ He), (decide_True (P := _ ∈ _ :: _)) by left.
      destruct (p !! e.1) as [le|] eqn:Hp; [by rewrite lookup_insert_eq|by rewrite Hp].
    + rewrite (decide_ext (i ∈ e.1 :: l.*1) (i ∈ l.*1))
        by (rewrite elem_of_cons; split; [by intros [?|?]|by right]).
      destruct (p !! e.1); [by rewrite lookup_insert_ne|done].
Qed.

(** Suspects among the entries kept. *)
Definition suspects (thr maxd : Z) (out : list claimed_entry) : list claimed_entry :=
  filter (fun c => is_suspect thr maxd c.2 = true) out.

Definition count_of (q : queue) (e : entry) : Z :=
  from_option deliveries 0 (q_pel q !! e.1).

Lemma keep_one w m thr maxd e q slots out :
  let st' := q_keep w m thr maxd e (q, (slots, out)) in
  let n := count_of q e in
  q_now st'.1 = q_now q /\
  (forall i, i <> e.1 -> q_pel st'.1 !! i = q_pel q !! i) /\
  Z.of_nat (length (suspects thr maxd st'.2.2)) + st'.2.1 =
    Z.of_nat (length (suspects thr maxd out)) + slots /\
  (0 <= slots -> 0 <= st'.2.1) /\
  ((st'.2.2 = out ++ [(e.1, e.2, n)] /\ q_pel st'.1 = q_pel q) \/
   (st'.2.2 = out /\ is_suspect thr maxd n = true /\
    q_pel st'.1 !! e.1 = Some (Lease w (q_now q - m) (n - 1)))).
Proof.
  unfold q_keep. fold (count_of q e).
  destruct (is_suspect thr maxd (count_of q e)) eqn:Hs; cbn [andb];
    [destruct (Z.eqb_spec slots 0) as [->|Hne]|]; cbn [fst snd]; unfold suspects.
  - split; [done|]. split; [by intros i Hi; cbn; rewrite lookup_insert_ne|].
    split; [done|]. split; [done|]. right. cbn. by rewrite lookup_insert_eq.
  - split; [done|]. split; [done|]. split; [|split; [lia|by left]].
    rewrite filter_app, filter_cons_True, filter_nil, length_app by done. cbn. lia.
  - split; [done|]. split; [done|]. split; [|split; [done|by left]].
    rewrite filter_app, filter_cons_False, filter_nil, app_nil_r by (cbn; congruence). done.
Qed.

Lemma keep_all w m thr maxd l : NoDup l.*1 -> forall q slots out,
  let st' := foldl (fun st e => q_keep w m thr maxd e st) (q, (slots, out)) l in
  q_now st'.1 = q_now q /\
  (forall i, i ∉ l.*1 -> q_pel st'.1 !! i = q_pel q !! i) /\
  Z.of_nat (length (suspects thr maxd st'.2.2)) + st'.2.1 =
    Z.of_nat (length (suspects thr maxd out)) + slots /\
  (0 <= slots -> 0 <= st'.2.1) /\
  (forall c, c ∈ st'.2.2 -> c ∈ out \/ exists e, e ∈ l /\ c = (e.1, e.2, count_of q e) /\
     q_pel st'.1 !! e.1 = q_pel q !! e.1) /\
  (forall c, c ∈ out -> c ∈ st'.2.2) /\
  (forall e, e ∈ l -> (e.1, e.2, count_of q e) ∈ st'.2.2 \/
     (is_suspect thr maxd (count_of q e) = true /\
      q_pel st'.1 !! e.1 = Some (Lease w (q_now q - m) (count_of q e - 1)))).
Proof.
  induction l as [|e l IH]; intros Hnd q slots out; cbn [foldl].
  { split_and!; try done; [by left|by intros e ?%elem_of_nil]. }
  cbn in Hnd. apply NoDup_cons in Hnd as [He Hnd].
  destruct (keep_one w m thr maxd e q slots out) as (H1 & H2 & H3 & H4 & H5).
  destruct (q_keep w m thr maxd e (q, (slots, out))) as [q1 [s1 o1]]. cbn [fst snd] in *.
  destruct (IH Hnd q1 s1 o1) as (I1 & I2 & I3 & I4 & I5 & I6 & I7). clear IH.
  set (st' := foldl _ _ l) in *. rewrite H1 in *.
  assert (Hc : forall x, x ∈ l -> x.1 <> e.1 /\ count_of q1 x = count_of q x).
  { intros x Hx. assert (Hne : x.1 <> e.1).
    { intros Heq. apply He. rewrite <- Heq. apply list_elem_of_fmap. by exists x. }
    split; [done|]. unfold count_of. by rewrite H2. }
  assert (Hpe : q_pel st'.1 !! e.1 = q_pel q1 !! e.1) by by apply I2.
  split; [done|]. split; [|split; [lia|split; [auto|]]].
  { intros i [Hi Hl]%not_elem_of_cons. by rewrite I2, H2. }
  split; [|split].
  - intros c Hin. destruct (I5 c Hin) as [Ho|(x & Hx & -> & Hp)].
    + destruct H5 as [[-> Hq]|[-> _]]; [|by left].
      apply elem_of_app in Ho as [?|Ho%list_elem_of_singleton]; [by left|right].
      exists e. split; [by left|]. split; [done|]. by rewrite Hpe, Hq.
    + right. exists x. destruct (Hc x Hx) as [Hne ->]. split; [by right|].
      split; [done|]. by rewrite Hp, H2.
  - intros c Hin. apply I6. destruct H5 as [[-> _]|[-> _]]; [|done].
    apply elem_of_app. by left.
  - intros x [->|Hx]%elem_of_cons.
    + destruct H5 as [[-> _]|(-> & Hs & Hp)]; [left|right].
      * apply I6, elem_of_app. right. by apply list_elem_of_singleton.
      * split; [done|]. by rewrite Hpe.
    + destruct (Hc x Hx) as [_ Hcx]. rewrite <- Hcx. by apply I7.
Qed.

Lemma keep_length w m thr maxd l : forall q slots out,
  (length (foldl (fun st e => q_keep w m thr maxd e st) (q, (slots, out)) l).2.2 <=
   length out + length l)%nat.
Proof.
  induction l as [|e l IH]; intros q slots out; cbn [foldl length]; [cbn; lia|].
  destruct (keep_one w m thr maxd e q slots out) as (_ & _ & _ & _ & Hout).
  destruct (q_keep w m thr maxd e (q, (slots, out))) as [q1 [s1 o1]]. cbn [fst snd] in Hout.
  etransitivity; [apply IH|]. destruct Hout as [[-> _]|[-> _]]; rewrite ?length_app; cbn; lia.
Qed.

(** What the reaper finds of an entry it claimed: before, and after the claim. *)
Definition claimed_row (q q1 : queue) (w : string) (m : Z) (e : entry) : Prop :=
  exists le, q_pel q !! e.1 = Some le /\ m <= q_now q - since_ms le /\ e ∈ q_entries q /\
    count_of q1 e = deliveries le + 1 /\
    q_pel q1 !! e.1 = Some (Lease w (q_now q) (deliveries le + 1)).
Lemma claimed_rows (q q1 : queue) w m (claimed : list entry) :
  (forall i, q_pel q1 !! i = if decide (i ∈ claimed.*1)
     then (fun le => Lease w (q_now q) (deliveries le + 1)) <$> q_pel q !! i
     else q_pel q !! i) ->
  forall e, e ∈ claimed ->
    (exists le, q_pel q !! e.1 = Some le /\ m <= q_now q - since_ms le /\ e ∈ q_entries q) ->
    claimed_row q q1 w m e.
Proof.
  intros Hq1 e He (le & Hle & Hm & Hin). exists le.
  assert (Hp : q_pel q1 !! e.1 = Some (Lease w (q_now q) (deliveries le + 1))).
  { rewrite Hq1, decide_True by (apply list_elem_of_fmap; by exists e). by rewrite Hle. }
  split_and!; try done. unfold count_of. by rewrite Hp.
Qed.

(** C15: the reaper. One pass hands out entries whose lease expired ([m] ms idle) and
    nothing else: each is one the stream holds, comes with its fields and its delivery
    count one higher, and is now leased to the caller from this moment. Among them are
    at most [slots] suspects. Every expired entry the pass covered (all of them, when
    the pass ends at cursor 0-0) is either handed out, or is a suspect there was no
    room for: that one is still pending, still expired, with its count restored. No
    other lease changes, no entry is lost, and nothing is reported deleted. *)
Theorem reclaim_outcome (s : sys) v' w m cursor n slots thr maxd r :
  reachable s -> 0 <= slots ->
  exec (reclaim w m cursor n slots thr maxd) (s_view s) r v' ->
  let leases v := pel (group_at (Keys.stream K) G v) in
  let now := now_ms (s_view s) in
  exists next out, r = Ok (next, out, []) /\
    (length out <= n)%nat /\
    Z.of_nat (length (suspects thr maxd out)) <= slots /\
    (forall e fs c, (e, fs, c) ∈ out -> exists le,
       leases (s_view s) !! e = Some le /\ m <= now - since_ms le /\
       (e, fs) ∈ entries_at (Keys.stream K) (s_view s) /\
       c = deliveries le + 1 /\ leases v' !! e = Some (Lease w now c)) /\
    (forall e le, leases (s_view s) !! e = Some le -> m <= now - since_ms le ->
       eid_le cursor e -> next = (0, 0) \/ eid_lt e next ->
       (exists fs, (e, fs, deliveries le + 1) ∈ out) \/
       (is_suspect thr maxd (deliveries le + 1) = true /\
        leases v' !! e = Some (Lease w (now - m) (deliveries le)))) /\
    (forall e le, leases (s_view s) !! e = Some le -> now - since_ms le < m ->
       leases v' !! e = Some le) /\
    entries_at (Keys.stream K) v' = entries_at (Keys.stream K) (s_view s).
Proof.
  intros Hs Hslots Hx leases now. open_state Hs. subst leases now. cbn beta.
  pose proof (sok_pel_in _ _ G (inv_stream _ _ _ Hi)).
  by_refine Hx (reclaim_refines K G T (s_view s) q).
  destruct Hx as (next & claimed & (Hnd & Hlen & Hcl & _ & Hall) & Hr' & ->).
  exists next. rewrite (group_stream Hr), (group_stream Hr'), (entries_stream Hr),
    (entries_stream Hr'), (rep_now _ _ _ _ _ Hr). cbn [q_group pel].
  rewrite app_nil_r in Hnd. clear Hr'. unfold q_reclaim.
  set (q1 := q_see w (q_setpel (take_over w (q_now q) claimed (q_pel q)) q)).
  assert (Hq1 : forall i, q_pel q1 !! i = if decide (i ∈ claimed.*1)
    then (fun le => Lease w (q_now q) (deliveries le + 1)) <$> q_pel q !! i
    else q_pel q !! i) by (intros i; by apply take_over_eq).
  assert (Hi1 : inv q1 (s_accepted s) (s_given s)).
  { apply inv_see, inv_setpel; [done|]. intros e. apply take_over_lookup. }
  assert (He1 : q_entries q1 = q_entries q) by done.
  assert (Hn1 : q_now q1 = q_now q) by done. clearbody q1.
  pose proof (keep_length w m thr maxd claimed q1 slots []) as Hkl.
  destruct (keep_all w m thr maxd claimed Hnd q1 slots [])
    as (_ & Hother & Hsus & Hpos & Hfrom & _ & Heach).
  pose proof (inv_keep_all w m thr maxd claimed (q1, (slots, [])) (s_accepted s) (s_given s) Hi1) as Hent.
  destruct (foldl _ _ claimed) as [q2 [s2 out]]. cbn [fst snd] in *.
  assert (Hsame : q_pel (incr_if "reclaimed" (length out) q2) = q_pel q2 /\
                  q_entries (incr_if "reclaimed" (length out) q2) = q_entries q2)
    by (unfold incr_if; by destruct (_ <? _)%nat).
  destruct Hsame as [-> ->].
  assert (Hrow : forall e, e ∈ claimed -> claimed_row q q1 w m e).
  { intros [e fs] He. destruct (Hcl e fs He) as [(le & Hle & Hm & _) Hin].
    apply (claimed_rows _ _ _ _ _ Hq1); [done|by exists le]. }
  exists out. split; [done|]. split; [cbn in Hkl; lia|]. split.
  { cbn in Hsus. specialize (Hpos Hslots). lia. }
  split; [|split; [|split]].
  - intros e fs c Hin. destruct (Hfrom _ Hin) as [?%elem_of_nil|([e' fs'] & He' & [= -> -> ->] & Hp)];
      [done|]. destruct (Hrow _ He') as (le & Hle & Hm & Hin' & Hcount & Hp1).
    cbn in *. exists le. split_and!; try done. by rewrite Hp, Hp1, Hcount.
  - intros e le Hle Hm Hcur Hnext.
    destruct (Hall e) as [Hin|Hin%elem_of_nil]; [by exists le|done| |done].
    apply list_elem_of_fmap in Hin as ([e' fs] & -> & Hin). cbn in *.
    destruct (Hrow _ Hin) as (le' & Hle' & _ & _ & Hcount & _). cbn in Hle'.
    rewrite Hle in Hle'. injection Hle' as <-.
    destruct (Heach _ Hin) as [Ho|[Hsu Hp]]; rewrite Hcount in *.
    + left. by exists fs.
    + right. split; [done|]. cbn in Hp. rewrite Hp, Hn1. f_equal. f_equal. lia.
  - intros e le Hle Hyoung.
    assert (He : e ∉ claimed.*1).
    { intros Hin. apply list_elem_of_fmap in Hin as (x & -> & Hin).
      destruct (Hrow _ Hin) as (le' & Hle' & Hm & _). rewrite Hle in Hle'.
      injection Hle' as <-. lia. }
    rewrite Hother by done. by rewrite Hq1, decide_False.
  - destruct Hent as (_ & -> & _); [|done].
    intros e He. destruct (Hrow e He) as (le & _ & _ & _ & _ & Hp). by eexists.
Qed.

(** ** prune_consumers.lua *)

(** Pruning never drops a job. It forgets only consumers other than the caller
    that have been idle long enough and own no pending entry; every lease, every
    entry and every other consumer stays. *)
Theorem prune_keeps_leases (s : sys) v' m w r :
  reachable s ->
  exec (prune_lua (Keys.stream K) (Keys.stats K) G m w) (s_view s) r v' ->
  let grp v := group_at (Keys.stream K) G v in
  exists names, r = Ok names /\
    pel (grp v') = pel (grp (s_view s)) /\
    entries_at (Keys.stream K) v' = entries_at (Keys.stream K) (s_view s) /\
    (forall c, c ∈ names -> c <> w /\
       (forall e le, pel (grp (s_view s)) !! e = Some le -> owner le <> c) /\
       exists t, consumers (grp (s_view s)) !! c = Some t /\ m <= now_ms (s_view s) - t) /\
    (forall c, c ∉ names -> consumers (grp v') !! c = consumers (grp (s_view s)) !! c).
Proof.
  intros Hs Hx grp. subst grp. cbn beta. open_state Hs.
  by_refine Hx (prune_refines K G T (s_view s) q).
  destruct Hx as (names & -> & Hr' & Hn). exists names. split; [done|].
  rewrite (group_stream Hr), (group_stream Hr'), (entries_stream Hr), (entries_stream Hr'),
    (rep_now _ _ _ _ _ Hr). cbn [q_group pel consumers].
  assert (Hsame : forall q', q_pel (incr_if "consumers_pruned" (length names) q') = q_pel q' /\
    q_cons (incr_if "consumers_pruned" (length names) q') = q_cons q' /\
    q_entries (incr_if "consumers_pruned" (length names) q') = q_entries q')
    by (intros q'; unfold incr_if; by destruct (_ <? _)%nat).
  destruct (Hsame (q_forget names q)) as (-> & -> & ->).
  split; [done|]. split; [done|]. split; [exact Hn|].
  intros c Hc. cbn. clear -Hc. revert Hc. generalize (q_cons q).
  induction names as [|x l IH]; intros z Hc; cbn [foldl]; [done|].
  apply not_elem_of_cons in Hc as [Hne Hc]. rewrite IH by done.
  by rewrite lookup_delete_ne.
Qed.
End Operations.

(** ** The theorems at the demonstration run *)
#[local] Open Scope string_scope.

Lemma enqueue_admission_witness : exists r v',
  exec (enqueue_lua (Keys.stream k0) (Keys.delayed k0) (Keys.full k0) (Keys.stats k0)
    (Keys.idem k0 <$> None) "j4" 86400 100 50 "rejected" (job_fields "j4"))
    (s_view state3) r v' /\
  r = Ok ("j4", 1, 2) /\ depth_at k0 v' <= 100.
Proof.
  destruct (ex_exec (enqueue_lua (Keys.stream k0) (Keys.delayed k0) (Keys.full k0)
    (Keys.stats k0) (Keys.idem k0 <$> None) "j4" 86400 100 50 "rejected" (job_fields "j4"))
    (s_view state3)) as (r & v' & Hx). exists r, v'. split; [exact Hx|].
  apply (enqueue_admission k0 g0 false state3 v' None "j4") in Hx;
    [|exact state3_reachable|reflexivity|lia|lia].
  assert (Hf : full_at k0 (s_view state3) = false) by compute_true.
  assert (Hd : depth_at k0 (s_view state3) = 1) by compute_true.
  cbn [mbind option_bind] in Hx. rewrite Hf, Hd in Hx.
  destruct Hx as (_ & Hr & _ & Hle & _). split; [exact Hr|exact Hle].
Defined.

Lemma enqueue_resend_witness : exists v1 v2,
  let send j := enqueue_lua (Keys.stream k0) (Keys.delayed k0) (Keys.full k0)
    (Keys.stats k0) (Keys.idem k0 <$> Some "i1") j 86400 100 50 "rejected" (job_fields j) in
  exec (send "j4") (s_view state3) (Ok ("j4", 1, 2)) v1 /\
  exec (send "j5") v1 (Ok ("j4", 0, -1)) v2 /\ v2 = v1.
Proof.
  set (send j := enqueue_lua (Keys.stream k0) (Keys.delayed k0) (Keys.full k0)
    (Keys.stats k0) (Keys.idem k0 <$> Some "i1") j 86400 100 50 "rejected" (job_fields j)).
  destruct (ex_exec (send "j4") (s_view state3)) as (r1 & v1 & Hx1).
  destruct (ex_exec (send "j5") v1) as (r2 & v2 & Hx2). exists v1, v2. cbn zeta.
  pose proof Hx1 as Hx. apply (enqueue_admission k0 g0 false state3 v1 (Some "i1") "j4") in Hx;
    [|exact state3_reachable|reflexivity|lia|lia].
  assert (Hi : idem_at k0 "i1" (s_view state3) = None) by compute_true.
  assert (Hf : full_at k0 (s_view state3) = false) by compute_true.
  assert (Hd : depth_at k0 (s_view state3) = 1) by compute_true.
  cbn [mbind option_bind] in Hx. rewrite Hi, Hf, Hd in Hx. destruct Hx as (_ & -> & _).
  change (1 + 1) with 2 in Hx1.
  destruct (enqueue_resend k0 g0 false state3 v1 v2 "i1" "j4" "j5" 86400 86400 100 100 50 50
    "rejected" "rejected" (job_fields "j4") (job_fields "j5") "j4" 1 2 r2) as [-> ->];
    [exact state3_reachable|reflexivity|lia|exact Hx1|lia|exact Hx2|].
  split; [exact Hx1|]. split; [exact Hx2|reflexivity].
Defined.

Lemma uuid_j1 : uuid_like "j1". Proof. uuid. Qed.
Lemma uuid_j3 : uuid_like "j3". Proof. uuid. Qed.
Lemma no_ttl : ttl_ok false 0. Proof. unfold ttl_ok. lia. Qed.

Lemma given3 : (id_of 2, stored "j3") ∈ s_given state3.
Proof. apply (state3_given 2). set_solver. Qed.

Lemma commit_outcome_witness : exists r v',
  exec (commit_lua (Keys.stream k0) (Keys.done k0 "j3") (Keys.results k0) (Keys.stats k0)
    (Keys.dead k0) g0 (id_of 2) "j3" "42" 0 "w1" "5000") (s_view state3) r v' /\
  r = Ok 1 /\ job_record k0 "j3" v' !! "result" = Some "42".
Proof.
  destruct (ex_exec (commit_lua (Keys.stream k0) (Keys.done k0 "j3") (Keys.results k0)
    (Keys.stats k0) (Keys.dead k0) g0 (id_of 2) "j3" "42" 0 "w1" "5000") (s_view state3))
    as (r & v' & Hx). exists r, v'. split; [exact Hx|].
  apply (commit_outcome k0 g0 false state3 v' (id_of 2) (stored "j3") "j3") in Hx;
    [|exact state3_reachable|exact given3|reflexivity|exact uuid_j3|exact no_ttl].
  assert (Hs : job_state k0 "j3" (s_view state3) = None) by compute_true.
  cbv zeta in Hx. rewrite Hs in Hx. destruct Hx as (Hr & _ & _ & _ & [Hres _] & _).
  split; [exact Hr|exact Hres].
Defined.

Lemma commit_first_wins_witness : exists r1 v1 r2 v2,
  let by_worker w res := commit_lua (Keys.stream k0) (Keys.done k0 "j3") (Keys.results k0)
    (Keys.stats k0) (Keys.dead k0) g0 (id_of 2) "j3" res 0 w "5000" in
  exec (by_worker "w1" "42") (s_view state3) r1 v1 /\
  exec (by_worker "w2" "43") v1 r2 v2 /\
  r2 = Ok 0 /\ job_record k0 "j3" v2 = job_record k0 "j3" v1.
Proof.
  set (by_worker w res := commit_lua (Keys.stream k0) (Keys.done k0 "j3") (Keys.results k0)
    (Keys.stats k0) (Keys.dead k0) g0 (id_of 2) "j3" res 0 w "5000").
  destruct (ex_exec (by_worker "w1" "42") (s_view state3)) as (r1 & v1 & Hx1).
  destruct (ex_exec (by_worker "w2" "43") v1) as (r2 & v2 & Hx2).
  exists r1, v1, r2, v2. split; [exact Hx1|]. split; [exact Hx2|].
  destruct (commit_first_wins k0 g0 false state3 v1 v2 (id_of 2) (stored "j3") (id_of 2)
    (stored "j3") "j3" "42" "43" 0 0 "w1" "w2" "5000" "5000" r1 r2) as (Hr & _ & Hrec & _);
    [exact state3_reachable|exact uuid_j3|exact given3|reflexivity|exact given3|reflexivity
    |exact no_ttl|exact no_ttl|exact Hx1|exact Hx2|].
  split; [exact Hr|exact Hrec].
Defined.

Lemma w1_holds : holds k0 g0 "w1" (id_of 2) (s_view state3).
Proof.
  assert (Ho : owner <$> pel (group_at (Keys.stream k0) g0 (s_view state3)) !! id_of 2 = Some "w1")
    by compute_true.
  unfold holds. destruct (_ !! _) as [le|]; [|discriminate]. exists le.
  split; [done|]. by injection Ho.
Qed.

Lemma w2_does_not : ~ holds k0 g0 "w2" (id_of 2) (s_view state3).
Proof.
  intros (le & Hle & Ho).
  assert (Hw : owner <$> pel (group_at (Keys.stream k0) g0 (s_view state3)) !! id_of 2 = Some "w1")
    by compute_true.
  rewrite Hle in Hw. cbn in Hw. congruence.
Qed.

Lemma stale_holder_harmless_witness : exists r v',
  exec (heartbeat_lua (Keys.stream k0) (Keys.stats k0) g0 (id_of 2) "w2") (s_view state3) r v' /\
  r = Ok "LEASE_LOST" /\
  look (Keys.stream k0) v' = look (Keys.stream k0) (s_view state3).
Proof.
  destruct (ex_exec (heartbeat_lua (Keys.stream k0) (Keys.stats k0) g0 (id_of 2) "w2")
    (s_view state3)) as (r & v' & Hx). exists r, v'. split; [exact Hx|].
  destruct (stale_holder_harmless k0 g0 false state3 (id_of 2) "w2" state3_reachable
    w2_does_not) as (Hb & _ & _).
  destruct (Hb r v' Hx) as [Hr Hk]. split; [exact Hr|]. apply Hk. discriminate.
Defined.

Lemma retry_outcome_witness : exists r v',
  exec (retry_lua (Keys.stream k0) (Keys.delayed k0) (Keys.done k0 "j3") (Keys.stats k0)
    g0 (id_of 2) "w1" "1" 700 "0") (s_view state3) r v' /\
  r = Ok "OK" /\
  zset_at (Keys.delayed k0) v' !! cjson_encode (set_attempt "1" (stored "j3")) = Some 5700.
Proof.
  destruct (ex_exec (retry_lua (Keys.stream k0) (Keys.delayed k0) (Keys.done k0 "j3")
    (Keys.stats k0) g0 (id_of 2) "w1" "1" 700 "0") (s_view state3)) as (r & v' & Hx).
  exists r, v'. split; [exact Hx|].
  apply (retry_outcome k0 g0 false state3 v' (id_of 2) (stored "j3") "j3") in Hx;
    [|exact state3_reachable|exact given3|reflexivity|exact w1_holds].
  destruct Hx as (_ & _ & Hx).
  assert (Hs : job_state k0 "j3" (s_view state3) = None) by compute_true.
  assert (Hn : now_ms (s_view state3) = 5000) by compute_true.
  rewrite Hs, Hn in Hx. destruct Hx as [Hr Hz]. split; [exact Hr|].
  rewrite Hz. apply lookup_insert_eq.
Defined.

Lemma dead_outcome_witness : exists r v',
  exec (dead_lua (Keys.stream k0) (Keys.dead k0) (Keys.done k0 "j3") (Keys.stats k0)
    g0 (id_of 2) "w1" "j3" "max_attempts" "boom" "5" "0") (s_view state3) r v' /\
  r = Ok "OK" /\ job_state k0 "j3" v' = Some "DEAD".
Proof.
  destruct (ex_exec (dead_lua (Keys.stream k0) (Keys.dead k0) (Keys.done k0 "j3")
    (Keys.stats k0) g0 (id_of 2) "w1" "j3" "max_attempts" "boom" "5" "0") (s_view state3))
    as (r & v' & Hx). exists r, v'. split; [exact Hx|].
  apply (dead_outcome k0 g0 false state3 v' (id_of 2) (stored "j3") "j3") in Hx;
    [|exact state3_reachable|exact given3|left; reflexivity|exact w1_holds].
  destruct Hx as (_ & _ & Hx).
  assert (Hs : job_state k0 "j3" (s_view state3) = None) by compute_true.
  rewrite Hs in Hx. destruct Hx as (Hr & Hd & _). split; [exact Hr|exact Hd].
Defined.

Lemma requeue_outcome_witness : exists r v1 d row,
  exec (requeue_lua (Keys.dead k0) (Keys.stream k0) (Keys.done k0 "j2") (Keys.stats k0) "j2")
    (s_view state3) r v1 /\
  (d, row) ∈ entries_at (Keys.dead k0) (s_view state3).
Proof.
  destruct (ex_exec (requeue_lua (Keys.dead k0) (Keys.stream k0) (Keys.done k0 "j2")
    (Keys.stats k0) "j2") (s_view state3)) as (r & v1 & Hx). pose proof Hx as Hx'.
  apply (requeue_outcome k0 g0 false state3 v1 "j2") in Hx; [|exact state3_reachable].
  assert (Hs : job_state k0 "j2" (s_view state3) = Some "DEAD") by compute_true.
  rewrite decide_True in Hx by exact Hs.
  destruct Hx as (e & w & fs & reason & error & attempts & n & now & d & Hin & _).
  exists r, v1, d, (fs ++ dlq_meta e w "j2" reason error attempts n now)%list.
  split; [exact Hx'|exact Hin].
Defined.

Lemma schedule_conserves_witness : exists r v',
  exec (schedule_lua (Keys.delayed k0) (Keys.stream k0) (Keys.stats k0) 100)
    (s_view state3) r v' /\
  depth_at k0 v' = depth_at k0 (s_view state3).
Proof.
  destruct (ex_exec (schedule_lua (Keys.delayed k0) (Keys.stream k0) (Keys.stats k0) 100)
    (s_view state3)) as (r & v' & Hx). exists r, v'. split; [exact Hx|].
  apply (schedule_conserves k0 g0 false state3 v' 100) in Hx; [|exact state3_reachable].
  destruct Hx as (l & es & _ & _ & _ & _ & _ & _ & _ & Hd & _). exact Hd.
Defined.

Lemma reclaim_outcome_witness : exists next out v',
  exec (reclaim_lua (Keys.stream k0) (Keys.stats k0) (Keys.reclaims k0) g0 "w2" 0 (0, 0) 10
    1 2 3) (s_view state3) (Ok (next, out, [])) v' /\
  (length out <= 10)%nat /\ Z.of_nat (length (suspects 2 3 out)) <= 1.
Proof.
  destruct (ex_exec (reclaim_lua (Keys.stream k0) (Keys.stats k0) (Keys.reclaims k0) g0 "w2"
    0 (0, 0) 10 1 2 3) (s_view state3)) as (r & v' & Hx). pose proof Hx as Hx'.
  apply (reclaim_outcome k0 g0 false state3 v' "w2" 0 (0, 0) 10 1 2 3) in Hx;
    [|exact state3_reachable|lia].
  destruct Hx as (next & out & Hr & Hl & Hs & _). rewrite Hr in Hx'.
  exists next, out, v'. split; [exact Hx'|]. split; [exact Hl|exact Hs].
Defined.

Lemma prune_keeps_leases_witness : exists r v',
  exec (prune_lua (Keys.stream k0) (Keys.stats k0) g0 0 "w9") (s_view state3) r v' /\
  pel (group_at (Keys.stream k0) g0 v') = pel (group_at (Keys.stream k0) g0 (s_view state3)).
Proof.
  destruct (ex_exec (prune_lua (Keys.stream k0) (Keys.stats k0) g0 0 "w9") (s_view state3))
    as (r & v' & Hx). exists r, v'. split; [exact Hx|].
  apply (prune_keeps_leases k0 g0 false state3 v' 0 "w9") in Hx; [|exact state3_reachable].
  destruct Hx as (names & _ & Hp & _). exact Hp.
Defined.
