(* ===== verification/Json.v ===== *)
(** JSON text as the code writes and reads it: [json.dumps(x, separators=(",", ":"))]
    and [json.loads]. A float is kept as its numeral, so the digits of [repr] are not
    modelled, and NaN and the infinities are the numerals Python accepts for them.

    A character is a code point below 256: the escapes of larger ones are outside the
    model, [loads] answers [None] on them as on text that is not JSON. The printer takes
    the text that follows, so nested values need no concatenation. *)
From S2P Require Import Prelude Keys.

#[local] Open Scope Z_scope.

#[local] Set Warnings "-register-all".

Inductive json : Type :=
  | JNull
  | JBool (b : bool)
  | JInt (z : Z)
  | JFloat (numeral : string)
  | JStr (s : string)
  | JArr (l : list json)
  | JObj (l : list (string * json)).

(** Induction over nested values. *)
Fixpoint json_ind' (P : json -> Prop) (Hn : P JNull) (Hb : forall b, P (JBool b))
    (Hi : forall z, P (JInt z)) (Hf : forall t, P (JFloat t)) (Hs : forall s, P (JStr s))
    (Ha : forall l, Forall P l -> P (JArr l))
    (Ho : forall l, Forall (fun kv => P kv.2) l -> P (JObj l)) (j : json) : P j :=
  match j with
  | JNull => Hn
  | JBool b => Hb b
  | JInt z => Hi z
  | JFloat t => Hf t
  | JStr s => Hs s
  | JArr l => Ha l ((fix go l : Forall P l := match l with
      | [] => Forall_nil_2 _
      | x :: r => Forall_cons_2 _ x r (json_ind' P Hn Hb Hi Hf Hs Ha Ho x) (go r)
      end) l)
  | JObj l => Ho l ((fix go l : Forall (fun kv => P kv.2) l := match l with
      | [] => Forall_nil_2 _
      | x :: r => Forall_cons_2 _ x r (json_ind' P Hn Hb Hi Hf Hs Ha Ho x.2) (go r)
      end) l)
  end.

(** ** Printing *)
Definition hex_digit (n : Z) : ascii :=
  if n <? 10 then ascii_of_N (Z.to_N (48 + n)) else ascii_of_N (Z.to_N (87 + n)).

Definition code (c : ascii) : Z := Z.of_N (N_of_ascii c).

(** One character of a string, escaped as [ensure_ascii] does. *)
Definition put_char (c : ascii) (k : string) : string :=
  if bool_decide (c = "034"%char) then String "092" (String "034" k)
  else if bool_decide (c = "092"%char) then String "092" (String "092" k)
  else if bool_decide (c = "010"%char) then String "092" (String "n" k)
  else if bool_decide (c = "013"%char) then String "092" (String "r" k)
  else if bool_decide (c = "009"%char) then String "092" (String "t" k)
  else if bool_decide (c = "012"%char) then String "092" (String "f" k)
  else if bool_decide (c = "008"%char) then String "092" (String "b" k)
  else if (32 <=? code c) && (code c <=? 126) then String c k
  else String "092" (String "u" (String "0" (String "0"
    (String (hex_digit (code c `div` 16)) (String (hex_digit (code c `mod` 16)) k))))).

Fixpoint put_chars (s k : string) : string :=
  match s with
  | EmptyString => k
  | String c r => put_char c (put_chars r k)
  end.

Definition put_string (s k : string) : string :=
  String "034" (put_chars s (String "034" k)).

(** After a comma or a colon: a blank ([json.dumps(x)]), or nothing
    ([json.dumps(x, separators=(",", ":"))]). *)
Definition then_put (spaced : bool) (c : ascii) (k : string) : string :=
  String c (if spaced then String " " k else k).

Fixpoint put_json (spaced : bool) (j : json) (k : string) : string :=
  match j with
  | JNull => ("null" +:+ k)%string
  | JBool true => ("true" +:+ k)%string
  | JBool false => ("false" +:+ k)%string
  | JInt z => (str_of_Z z +:+ k)%string
  | JFloat t => (t +:+ k)%string
  | JStr s => put_string s k
  | JArr [] => String "[" (String "]" k)
  | JArr (x :: l) =>
      String "[" (put_json spaced x
        ((fix items (l : list json) : string :=
            match l with
            | [] => String "]" k
            | y :: r => then_put spaced "," (put_json spaced y (items r))
            end) l))
  | JObj [] => String "{" (String "}" k)
  | JObj ((n, x) :: l) =>
      String "{" (put_string n (then_put spaced ":" (put_json spaced x
        ((fix fields (l : list (string * json)) : string :=
            match l with
            | [] => String "}" k
            | (m, y) :: r =>
                then_put spaced "," (put_string m (then_put spaced ":" (put_json spaced y (fields r))))
            end) l))))
  end.

(** [json.dumps(j, separators=(",", ":"))] and [json.dumps(j)] *)
Definition dumps (j : json) : string := put_json false j EmptyString.
Definition dumps_spaced (j : json) : string := put_json true j EmptyString.

(** The rest of an array and of an object, after its first member. *)
Section Rest.
Context (spaced : bool).
Fixpoint put_items (l : list json) (k : string) : string :=
  match l with
  | [] => String "]" k
  | y :: r => then_put spaced "," (put_json spaced y (put_items r k))
  end.
Fixpoint put_fields (l : list (string * json)) (k : string) : string :=
  match l with
  | [] => String "}" k
  | (m, y) :: r =>
      then_put spaced "," (put_string m (then_put spaced ":" (put_json spaced y (put_fields r k))))
  end.

Lemma put_json_arr x l k :
  put_json spaced (JArr (x :: l)) k = String "[" (put_json spaced x (put_items l k)).
Proof. cbn. do 2 f_equal. induction l as [|y r IH]; [done|]. cbn. by rewrite IH. Qed.

Lemma put_json_obj n x l k :
  put_json spaced (JObj ((n, x) :: l)) k =
    String "{" (put_string n (then_put spaced ":" (put_json spaced x (put_fields l k)))).
Proof.
  cbn. do 3 f_equal. f_equal. induction l as [|[m y] r IH]; [done|]. cbn. by rewrite IH.
Qed.
End Rest.

(** ** Reading *)
Definition is_space (c : ascii) : bool :=
  bool_decide (c ∈ [" "%char; "009"%char; "010"%char; "013"%char]).

Fixpoint skip (s : string) : string :=
  match s with
  | String c r => if is_space c then skip r else s
  | EmptyString => EmptyString
  end.

Definition hex_val (c : ascii) : option Z :=
  let n := code c in
  if (48 <=? n) && (n <=? 57) then Some (n - 48)
  else if (97 <=? n) && (n <=? 102) then Some (n - 87)
  else if (65 <=? n) && (n <=? 70) then Some (n - 55)
  else None.

(** The character after a backslash, and what follows it. *)
Definition get_escape (s : string) : option (ascii * string) :=
  match s with
  | String "034" r => Some ("034"%char, r)
  | String "092" r => Some ("092"%char, r)
  | String "/" r => Some ("/"%char, r)
  | String "n" r => Some ("010"%char, r)
  | String "r" r => Some ("013"%char, r)
  | String "t" r => Some ("009"%char, r)
  | String "f" r => Some ("012"%char, r)
  | String "b" r => Some ("008"%char, r)
  | String "u" (String "0" (String "0" (String a (String b r)))) =>
      x ← hex_val a; y ← hex_val b; Some (ascii_of_N (Z.to_N (16 * x + y)), r)
  | _ => None
  end.

(** A string after its opening quote. *)
Fixpoint get_chars (fuel : nat) (s : string) : option (string * string) :=
  match fuel, s with
  | S n, String c r =>
      if bool_decide (c = "034"%char) then Some (EmptyString, r)
      else if bool_decide (c = "092"%char) then
        '(d, r') ← get_escape r; '(t, k) ← get_chars n r'; Some (String d t, k)
      else if code c <? 32 then None
      else '(t, k) ← get_chars n r; Some (String c t, k)
  | _, _ => None
  end.

(** The digits at the front, as a value, and what follows. *)
Fixpoint get_digits (s : string) (acc : Z) : Z * string :=
  match s with
  | String c r =>
      match digit_val c with
      | Some d => get_digits r (10 * acc + d)
      | None => (acc, s)
      end
  | EmptyString => (acc, s)
  end.

(** A natural number: no leading zero. *)
Definition get_nat (s : string) : option (Z * string) :=
  match s with
  | String "0" r => Some (0, r)
  | String c r => d ← digit_val c; Some (get_digits r d)
  | EmptyString => None
  end.

(** What may not follow an integer: a fraction or an exponent makes it a float. *)
Definition float_follows (s : string) : bool :=
  match s with
  | String c _ => bool_decide (c ∈ ["."%char; "e"%char; "E"%char])
  | EmptyString => false
  end.

Definition get_int (s : string) : option (Z * string) :=
  '(z, r) ← match s with
            | String "-" r => '(z, k) ← get_nat r; Some (- z, k)
            | _ => get_nat s
            end;
  if float_follows r then None else Some (z, r).

Fixpoint drop_prefix (p s : string) : option string :=
  match p, s with
  | EmptyString, _ => Some s
  | String a p', String b s' => if bool_decide (a = b) then drop_prefix p' s' else None
  | _, EmptyString => None
  end.

(** The pieces of a float's numeral: each answers what it consumed and the rest. *)
Fixpoint span_digits (s : string) : string * string :=
  match s with
  | String c r =>
      match digit_val c with
      | Some _ => let '(a, b) := span_digits r in (String c a, b)
      | None => (EmptyString, s)
      end
  | EmptyString => (EmptyString, s)
  end.

Definition get_sign (s : string) : string * string :=
  match s with String "-" r => ("-"%string, r) | _ => (EmptyString, s) end.

Definition get_whole (s : string) : option (string * string) :=
  match s with
  | String "0" r => Some ("0"%string, r)
  | _ => let '(a, r) := span_digits s in
         match a with EmptyString => None | _ => Some (a, r) end
  end.

(** [(\.\d+)?] *)
Definition get_frac (s : string) : string * string :=
  match s with
  | String "." r => let '(a, r') := span_digits r in
      match a with EmptyString => (EmptyString, s) | _ => (String "." a, r') end
  | _ => (EmptyString, s)
  end.

(** [([eE][-+]?\d+)?] *)
Definition get_exp_sign (s : string) : string * string :=
  match s with
  | String "-" r => ("-"%string, r)
  | String "+" r => ("+"%string, r)
  | _ => (EmptyString, s)
  end.

Definition get_exp (s : string) : string * string :=
  match s with
  | String c r =>
      if bool_decide (c ∈ ["e"%char; "E"%char]) then
        let '(sg, r1) := get_exp_sign r in
        let '(a, r2) := span_digits r1 in
        match a with EmptyString => (EmptyString, s) | _ => (String c (sg +:+ a)%string, r2) end
      else (EmptyString, s)
  | EmptyString => (EmptyString, s)
  end.

Definition get_numeral (s : string) : option (string * string) :=
  let '(sg, r0) := get_sign s in
  '(i, r1) ← get_whole r0;
  let '(f, r2) := get_frac r1 in
  let '(e, r3) := get_exp r2 in
  match (f +:+ e)%string with
  | EmptyString => None
  | _ => Some ((sg +:+ i +:+ f +:+ e)%string, r3)
  end.

Definition get_float (s : string) : option (string * string) :=
  match drop_prefix "NaN" s, drop_prefix "Infinity" s, drop_prefix "-Infinity" s with
  | Some k, _, _ => Some ("NaN"%string, k)
  | _, Some k, _ => Some ("Infinity"%string, k)
  | _, _, Some k => Some ("-Infinity"%string, k)
  | _, _, _ => get_numeral s
  end.

Definition get_number (s : string) : option (json * string) :=
  match get_float s with
  | Some (t, k) => Some (JFloat t, k)
  | None => '(z, k) ← get_int s; Some (JInt z, k)
  end.

(** [d[k] = v]: a repeated key keeps its place and takes the new value. *)
Fixpoint dict_set (k : string) (v : json) (d : list (string * json)) :
    list (string * json) :=
  match d with
  | [] => [(k, v)]
  | (k', v') :: r => if bool_decide (k = k') then (k, v) :: r else (k', v') :: dict_set k v r
  end.

Fixpoint get_json (fuel : nat) (s : string) : option (json * string) :=
  match fuel with
  | O => None
  | S n =>
      match skip s with
      | String "034" r => '(t, k) ← get_chars (S (String.length r)) r; Some (JStr t, k)
      | String "[" r =>
          match skip r with
          | String "]" k => Some (JArr [], k)
          | r' => '(x, k) ← get_json n r'; '(l, k') ← get_items n k; Some (JArr (x :: l), k')
          end
      | String "{" r =>
          match skip r with
          | String "}" k => Some (JObj [], k)
          | r' => '(d, k) ← get_field n r' []; Some (JObj d, k)
          end
      | String "n" r => k ← drop_prefix "ull" r; Some (JNull, k)
      | String "t" r => k ← drop_prefix "rue" r; Some (JBool true, k)
      | String "f" r => k ← drop_prefix "alse" r; Some (JBool false, k)
      | r => get_number r
      end
  end
with get_items (fuel : nat) (s : string) : option (list json * string) :=
  match fuel with
  | O => None
  | S n =>
      match skip s with
      | String "]" k => Some ([], k)
      | String "," r => '(x, k) ← get_json n r; '(l, k') ← get_items n k; Some (x :: l, k')
      | _ => None
      end
  end
with get_field (fuel : nat) (s : string) (d : list (string * json)) :
    option (list (string * json) * string) :=
  match fuel with
  | O => None
  | S n =>
      match skip s with
      | String "034" r =>
          '(m, k) ← get_chars (S (String.length r)) r;
          match skip k with
          | String ":" k1 =>
              '(x, k2) ← get_json n k1;
              match skip k2 with
              | String "}" k3 => Some (dict_set m x d, k3)
              | String "," k3 => get_field n k3 (dict_set m x d)
              | _ => None
              end
          | _ => None
          end
      | _ => None
      end
  end.

(** The whole text is one value. *)
Definition loads (s : string) : option json :=
  '(j, k) ← get_json (S (String.length s)) s;
  match skip k with EmptyString => Some j | _ => None end.


(** ** Reading back what was printed *)

(** A numeral [loads] reads as a float. *)
Definition is_numeral (t : string) : bool :=
  bool_decide (get_float t = Some (t, EmptyString)).

(** What an integer may be followed by. *)
Definition int_ends (k : string) : bool :=
  match k with
  | EmptyString => true
  | String c _ => bool_decide (c ∈ [","%char; "]"%char; "}"%char])
  end.

Lemma get_digits_app s : forall acc z k,
  digits s acc = Some z -> int_ends k = true -> get_digits (s +:+ k) acc = (z, k).
Proof.
  induction s as [|c s IH]; intros acc z k Hd Hk.
  - cbn in Hd. injection Hd as ->. change ("" +:+ k)%string with k.
    destruct k as [|c r]; [done|]. cbn in Hk. apply bool_decide_eq_true_1 in Hk.
    cbn. repeat (apply elem_of_cons in Hk as [->|Hk]; [done|]). by apply elem_of_nil in Hk.
  - change (String c s +:+ k)%string with (String c (s +:+ k)%string). cbn in Hd |- *.
    destruct (digit_val c); [|done]. by apply IH.
Qed.

(** The decimal text of a positive number starts with a digit other than 0. *)
Lemma pretty_go_head (x : N) : forall s, (0 < x)%N ->
  exists c r, pretty_N_go x s = String c r /\ c <> "0"%char.
Proof.
  induction x as [x IH] using (well_founded_induction N.lt_wf_0); intros s Hx.
  rewrite pretty_N_go_step by done.
  destruct (decide (x `div` 10 = 0)%N) as [Hz|Hnz].
  - rewrite Hz, pretty_N_go_0. eexists _, _. split; [done|].
    apply N.div_small_iff in Hz; [|done]. rewrite N.mod_small by done.
    assert (Hc : (x = 1 \/ x = 2 \/ x = 3 \/ x = 4 \/ x = 5 \/ x = 6 \/ x = 7 \/
      x = 8 \/ x = 9)%N) by lia.
    by repeat (destruct Hc as [->|Hc]; [done|]); subst.
  - apply IH; [apply N.div_lt; lia|by apply N.neq_0_lt_0].
Qed.

Lemma get_nat_pretty (x : N) k :
  int_ends k = true -> get_nat (pretty x +:+ k)%string = Some (Z.of_N x, k).
Proof.
  intros Hk. destruct (decide (x = 0)%N) as [->|Hx]; [done|].
  pose proof (digits_pretty_N x) as Hd.
  assert (Hh : exists c r, pretty x = String c r /\ c <> "0"%char).
  { unfold pretty, pretty_N. rewrite decide_False by done. apply pretty_go_head. lia. }
  destruct Hh as (c & r & Heq & Hc). rewrite Heq in *.
  change (String c r +:+ k)%string with (String c (r +:+ k)%string).
  assert (Hg : get_nat (String c (r +:+ k)%string) =
    (d ← digit_val c; Some (get_digits (r +:+ k)%string d))).
  { destruct c as [[] [] [] [] [] [] [] []]; done. }
  rewrite Hg. cbn in Hd. destruct (digit_val c) as [d|]; [|done].
  cbn [mbind option_bind]. f_equal. apply get_digits_app; [|done].
  by destruct d as [|d|d].
Qed.

Lemma int_ends_float k : int_ends k = true -> float_follows k = false.
Proof.
  destruct k as [|c r]; [done|]. cbn. intros H%bool_decide_eq_true_1.
  repeat (apply elem_of_cons in H as [->|H]; [done|]). by apply elem_of_nil in H.
Qed.

Lemma get_int_print z k : int_ends k = true -> get_int (str_of_Z z +:+ k)%string = Some (z, k).
Proof.
  intros Hk. pose proof (int_ends_float k Hk) as Hf. unfold str_of_Z, pretty, pretty_Z.
  destruct z as [|p|p].
  - change ("0" +:+ k)%string with (String "0" k). cbn. by rewrite Hf.
  - change (pretty p) with (pretty (N.pos p)).
    destruct (pretty_N_cons (N.pos p)) as (c & r & Heq & [d Hd]).
    pose proof (get_nat_pretty (N.pos p) k Hk) as Hn. rewrite Heq in *.
    change (String c r +:+ k)%string with (String c (r +:+ k)%string) in *.
    assert (Hm : get_int (String c (r +:+ k)%string) =
      '(z, r0) ← get_nat (String c (r +:+ k)%string);
      if float_follows r0 then None else Some (z, r0)).
    { clear Hn Heq. by destruct c as [[] [] [] [] [] [] [] []]. }
    rewrite Hm, Hn. cbn [mbind option_bind]. by rewrite Hf.
  - change (("-" +:+ pretty p) +:+ k)%string with (String "-" (pretty (N.pos p) +:+ k)%string).
    unfold get_int. rewrite get_nat_pretty by done. cbn [mbind option_bind]. by rewrite Hf.
Qed.

(** Floats: reading a piece is not affected by what follows the value. *)
Definition more (k : string) (p : string * string) : string * string := (p.1, (p.2 +:+ k)%string).

Ltac ends_cases k Hk :=
  destruct k as [|? ?]; [done|]; cbn in Hk; apply bool_decide_eq_true_1 in Hk;
  repeat (apply elem_of_cons in Hk as [->|Hk]; [done|]); by apply elem_of_nil in Hk.

Lemma drop_prefix_more p s k : int_ends k = true ->
  no_char "," p && no_char "]" p && no_char "}" p = true ->
  drop_prefix p (s +:+ k)%string = (fun r => (r +:+ k)%string) <$> drop_prefix p s.
Proof.
  intros Hk. revert s. induction p as [|a p IH]; intros s Hp; [done|].
  destruct s as [|b s].
  - change ("" +:+ k)%string with k. cbn in Hp.
    destruct k as [|c k]; [done|]. cbn in Hk. apply bool_decide_eq_true_1 in Hk.
    apply andb_prop in Hp as [Hp Hp3]. apply andb_prop in Hp as [Hp1 Hp2].
    apply andb_prop in Hp1 as [Hp1 _]. apply andb_prop in Hp2 as [Hp2 _].
    apply andb_prop in Hp3 as [Hp3 _].
    cbn. rewrite bool_decide_false; [done|]. intros ->.
    repeat (apply elem_of_cons in Hk as [->|Hk]; [done|]). by apply elem_of_nil in Hk.
  - change (String b s +:+ k)%string with (String b (s +:+ k)%string). cbn.
    case_bool_decide; [|done]. apply IH. cbn in Hp.
    apply andb_prop in Hp as [Hp Hp3]. apply andb_prop in Hp as [Hp1 Hp2].
    apply andb_prop in Hp1 as [_ ->]. apply andb_prop in Hp2 as [_ ->].
    by apply andb_prop in Hp3 as [_ ->].
Qed.

Lemma span_more s k : int_ends k = true -> span_digits (s +:+ k)%string = more k (span_digits s).
Proof.
  intros Hk. induction s as [|c s IH].
  - change ("" +:+ k)%string with k. ends_cases k Hk.
  - change (String c s +:+ k)%string with (String c (s +:+ k)%string). cbn.
    destruct (digit_val c); [|done]. rewrite IH. by destruct (span_digits s).
Qed.

Lemma sign_more s k : int_ends k = true -> get_sign (s +:+ k)%string = more k (get_sign s).
Proof.
  intros Hk. destruct s as [|c s]; [change ("" +:+ k)%string with k; ends_cases k Hk|].
  by destruct c as [[] [] [] [] [] [] [] []].
Qed.

Lemma whole_more s k : int_ends k = true ->
  get_whole (s +:+ k)%string = more k <$> get_whole s.
Proof.
  intros Hk. destruct s as [|c s]; [change ("" +:+ k)%string with k; ends_cases k Hk|].
  pose proof (span_more (String c s) k Hk) as Hs.
  change (String c s +:+ k)%string with (String c (s +:+ k)%string) in *.
  destruct (decide (c = "0"%char)) as [->|Hc]; [done|].
  assert (Hw : forall r, get_whole (String c r) =
    let '(a, r') := span_digits (String c r) in
    match a with EmptyString => None | _ => Some (a, r') end).
  { intros r. clear Hs. by destruct c as [[] [] [] [] [] [] [] []]. }
  rewrite !Hw, Hs. destruct (span_digits (String c s)) as [[|] r]; done.
Qed.

Lemma frac_more s k : int_ends k = true -> get_frac (s +:+ k)%string = more k (get_frac s).
Proof.
  intros Hk. destruct s as [|c s]; [change ("" +:+ k)%string with k; ends_cases k Hk|].
  change (String c s +:+ k)%string with (String c (s +:+ k)%string).
  destruct (decide (c = "."%char)) as [->|Hc].
  - cbn. rewrite span_more by done. destruct (span_digits s) as [[|] r]; done.
  - by destruct c as [[] [] [] [] [] [] [] []].
Qed.

Lemma exp_sign_more s k :
  int_ends k = true -> get_exp_sign (s +:+ k)%string = more k (get_exp_sign s).
Proof.
  intros Hk. destruct s as [|c s]; [change ("" +:+ k)%string with k; ends_cases k Hk|].
  by destruct c as [[] [] [] [] [] [] [] []].
Qed.

Lemma exp_more s k : int_ends k = true -> get_exp (s +:+ k)%string = more k (get_exp s).
Proof.
  intros Hk. destruct s as [|c s].
  { change ("" +:+ k)%string with k. ends_cases k Hk. }
  change (String c s +:+ k)%string with (String c (s +:+ k)%string). cbn [get_exp].
  case_bool_decide; [|done].
  rewrite exp_sign_more by done. destruct (get_exp_sign s) as [sg r]. cbn [more fst snd].
  rewrite span_more by done. by destruct (span_digits r) as [[|] r'].
Qed.

Lemma numeral_more s k : int_ends k = true ->
  get_numeral (s +:+ k)%string = more k <$> get_numeral s.
Proof.
  intros Hk. unfold get_numeral. rewrite sign_more by done.
  destruct (get_sign s) as [sg r0]. cbn [more fst snd]. rewrite whole_more by done.
  destruct (get_whole r0) as [[i r1]|]; [|done]. cbn [more fst snd fmap option_fmap option_map mbind option_bind].
  rewrite frac_more by done. destruct (get_frac r1) as [f r2]. cbn [more fst snd].
  rewrite exp_more by done. destruct (get_exp r2) as [e r3]. cbn [more fst snd].
  by destruct (f +:+ e)%string.
Qed.

Lemma float_more s k : int_ends k = true ->
  get_float (s +:+ k)%string = more k <$> get_float s.
Proof.
  intros Hk. unfold get_float.
  rewrite !drop_prefix_more, numeral_more by done.
  destruct (drop_prefix "NaN" s); [done|]. destruct (drop_prefix "Infinity" s); [done|].
  by destruct (drop_prefix "-Infinity" s).
Qed.

Lemma get_float_print t k : is_numeral t = true -> int_ends k = true ->
  get_float (t +:+ k)%string = Some (t, k).
Proof.
  intros Ht%bool_decide_eq_true_1 Hk. by rewrite float_more, Ht by done.
Qed.

(** An integer's text is no float. *)
Lemma span_all s : forall acc z, digits s acc = Some z -> span_digits s = (s, EmptyString).
Proof.
  induction s as [|c s IH]; intros acc z Hd; [done|]. cbn in Hd |- *.
  destruct (digit_val c); [|done]. by rewrite (IH _ _ Hd).
Qed.

Lemma numeral_nat c s : is_Some (digit_val c) -> digits (String c s) 0 <> None ->
  get_float (String c s) = None /\ get_float (String "-" (String c s)) = None.
Proof.
  intros Hc Hd. destruct (digits (String c s) 0) as [z|] eqn:Hz; [|done].
  pose proof (span_all _ _ _ Hz) as Hs.
  assert (Hw : exists i r, get_whole (String c s) = Some (i, r) /\ get_frac r = (EmptyString, r) /\
    get_exp r = (EmptyString, r)).
  { destruct (decide (c = "0"%char)) as [->|Hne].
    - eexists _, s. split; [done|]. cbn in Hz. destruct s as [|d s]; [done|].
      cbn in Hz. destruct (digit_val d) eqn:Hdd; [|done].
      split; [by destruct d as [[] [] [] [] [] [] [] []]|]. cbn.
      rewrite bool_decide_false; [done|]. intros Hin. clear -Hin Hdd.
      repeat (apply elem_of_cons in Hin as [->|Hin]; [done|]). by apply elem_of_nil in Hin.
    - exists (String c s), EmptyString. split; [|done].
      assert (Hw : get_whole (String c s) = let '(a, r) := span_digits (String c s) in
        match a with EmptyString => None | _ => Some (a, r) end).
      { clear Hs Hz. by destruct c as [[] [] [] [] [] [] [] []]. }
      by rewrite Hw, Hs. }
  destruct Hw as (i & r & Hw & Hf & He).
  assert (Hn : get_numeral (String c s) = None /\ get_numeral (String "-" (String c s)) = None).
  { unfold get_numeral. split.
    - assert (Hg : get_sign (String c s) = (EmptyString, String c s)).
      { destruct Hc as [? Hc]. clear -Hc. by destruct c as [[] [] [] [] [] [] [] []]. }
      rewrite Hg, Hw. cbn. by rewrite Hf, He.
    - change (get_sign (String "-" (String c s))) with ("-"%string, String c s). cbv iota.
      rewrite Hw. cbn. by rewrite Hf, He. }
  destruct Hn as [Hn1 Hn2]. unfold get_float. rewrite Hn1, Hn2. clear -Hc.
  destruct Hc as [? Hc]. by destruct c as [[] [] [] [] [] [] [] []].
Qed.

Lemma int_not_float z : get_float (str_of_Z z) = None.
Proof.
  unfold str_of_Z, pretty, pretty_Z. destruct z as [|p|p]; [done|..].
  - change (pretty p) with (pretty (N.pos p)).
    pose proof (digits_pretty_N (N.pos p)) as Hd.
    destruct (pretty_N_cons (N.pos p)) as (c & r & Heq & Hc). rewrite Heq in *.
    apply numeral_nat; [done|]. by rewrite Hd.
  - change ("-" +:+ pretty p)%string with (String "-" (pretty (N.pos p))).
    pose proof (digits_pretty_N (N.pos p)) as Hd.
    destruct (pretty_N_cons (N.pos p)) as (c & r & Heq & Hc). rewrite Heq in *.
    apply numeral_nat; [done|]. by rewrite Hd.
Qed.

Lemma get_number_int z k : int_ends k = true ->
  get_number (str_of_Z z +:+ k)%string = Some (JInt z, k).
Proof.
  intros Hk. unfold get_number. rewrite float_more, int_not_float by done.
  cbn [fmap option_fmap option_map]. by rewrite get_int_print.
Qed.

Lemma get_number_float t k : is_numeral t = true -> int_ends k = true ->
  get_number (t +:+ k)%string = Some (JFloat t, k).
Proof. intros Ht Hk. unfold get_number. by rewrite get_float_print. Qed.

(** Characters. *)
Lemma get_put_char c fuel s :
  get_chars (S fuel) (put_char c s) = '(t, k) ← get_chars fuel s; Some (String c t, k).
Proof. destruct c as [[] [] [] [] [] [] [] []]; reflexivity. Qed.

Lemma put_char_length c s : (String.length s < String.length (put_char c s))%nat.
Proof.
  unfold put_char. repeat case_bool_decide; try (cbn; lia).
  destruct (_ && _); cbn; lia.
Qed.

Lemma put_chars_length s k : (String.length k + String.length s <= String.length (put_chars s k))%nat.
Proof.
  induction s as [|c s IH]; cbn; [lia|].
  pose proof (put_char_length c (put_chars s k)). lia.
Qed.

Lemma get_put_chars s k : forall fuel, (String.length s < fuel)%nat ->
  get_chars fuel (put_chars s (String "034" k)) = Some (s, k).
Proof.
  induction s as [|c s IH]; intros [|n] Hn; try (cbn in Hn; lia).
  - done.
  - cbn [put_chars]. rewrite get_put_char, IH by (cbn in Hn; lia). done.
Qed.

(** Values whose objects have no repeated key, what a Python dict can hold, and whose
    floats are numerals. *)
Fixpoint unique_keys (j : json) : bool :=
  match j with
  | JArr l => forallb unique_keys l
  | JObj l => bool_decide (NoDup l.*1) && forallb (fun kv => unique_keys kv.2) l
  | JFloat t => is_numeral t
  | _ => true
  end.

(** A bound on the nesting and length of a value: enough fuel to read it back. *)
Fixpoint size_of (j : json) : nat :=
  match j with
  | JArr l => foldr (fun x n => S (Nat.max (size_of x) n)) 1%nat l
  | JObj l => S (foldr (fun kv n => S (Nat.max (size_of kv.2) n)) 0%nat l)
  | _ => 1%nat
  end.

Lemma dict_set_new m x d : m ∉ d.*1 -> dict_set m x d = d ++ [(m, x)].
Proof.
  induction d as [|[m' x'] d IH]; cbn; [done|]. intros [Hne Hin]%not_elem_of_cons.
  rewrite bool_decide_false by done. by rewrite IH.
Qed.

(** *** Both ways of printing *)
Section Back.
Context (g : bool).
Definition gap (k : string) : string := if g then String " " k else k.
Lemma get_json_gap n k : get_json n (gap k) = get_json n k.
Proof. unfold gap. by destruct g, n. Qed.
Lemma get_field_gap n k d : get_field n (gap k) d = get_field n k d.
Proof. unfold gap. by destruct g, n. Qed.
Lemma then_put_length c k : (S (String.length k) <= String.length (then_put g c k))%nat.
Proof. unfold then_put. destruct g; cbn; lia. Qed.
(** What a value's text starts with: not a blank, not a closing bracket. *)
Definition value_head (c : ascii) : bool :=
  negb (is_space c) && negb (bool_decide (c = "]"%char)).

Lemma digit_head c : is_Some (digit_val c) -> value_head c = true.
Proof. intros [d Hd]. by destruct c as [[] [] [] [] [] [] [] []]. Qed.

Lemma numeral_head t k : is_numeral t = true ->
  exists c r, (t +:+ k)%string = String c r /\ value_head c = true.
Proof.
  intros Ht%bool_decide_eq_true_1. destruct t as [|c t]; [done|].
  exists c, (t +:+ k)%string. split; [done|].
  by destruct c as [[] [] [] [] [] [] [] []].
Qed.

Lemma put_json_head j k : unique_keys j = true ->
  exists c r, put_json g j k = String c r /\ value_head c = true.
Proof.
  destruct j as [|[]|z|t|s|[|x l]|[|[n x] l]]; intros Hu; try (by eexists _, _);
    [|by apply numeral_head].
  cbn [put_json]. unfold str_of_Z, pretty, pretty_Z. destruct z as [|p|p].
  - by eexists _, _.
  - change (pretty p) with (pretty (N.pos p)).
    destruct (pretty_N_cons (N.pos p)) as (c & r & -> & Hd).
    exists c, (r +:+ k)%string. split; [done|by apply digit_head].
  - by eexists _, _.
Qed.

Lemma skip_head c r : value_head c = true -> skip (String c r) = String c r.
Proof. unfold value_head. cbn. by destruct (is_space c). Qed.

Lemma get_json_int n z k : int_ends k = true ->
  get_json (S n) (str_of_Z z +:+ k)%string = Some (JInt z, k).
Proof.
  intros Hk. pose proof (get_number_int z k Hk) as Hg.
  assert (Hb : exists c r, (str_of_Z z +:+ k)%string = String c r /\
    (is_Some (digit_val c) \/ c = "-"%char)).
  { unfold str_of_Z, pretty, pretty_Z. destruct z as [|p|p].
    - by eexists _, _; split; [|left].
    - change (pretty p) with (pretty (N.pos p)).
      destruct (pretty_N_cons (N.pos p)) as (c & r & -> & Hd).
      exists c, (r +:+ k)%string. split; [done|by left].
    - by eexists _, _; split; [|right]. }
  destruct Hb as (c & r & Heq & Hc). rewrite Heq in *.
  assert (Hj : get_json (S n) (String c r) = get_number (String c r)).
  { clear Hg Heq. destruct Hc as [[d Hd]| ->]; [|done].
    by destruct c as [[] [] [] [] [] [] [] []]. }
  by rewrite Hj, Hg.
Qed.

Lemma get_json_float n t k : is_numeral t = true -> int_ends k = true ->
  get_json (S n) (t +:+ k)%string = Some (JFloat t, k).
Proof.
  intros Ht Hk. pose proof (get_number_float t k Ht Hk) as Hg.
  assert (Hj : get_json (S n) (t +:+ k)%string = get_number (t +:+ k)%string); [|by rewrite Hj].
  clear Hg. apply bool_decide_eq_true_1 in Ht. destruct t as [|c t]; [done|].
  change (String c t +:+ k)%string with (String c (t +:+ k)%string).
  by destruct c as [[] [] [] [] [] [] [] []].
Qed.

Lemma get_json_str n s k : get_json (S n) (put_string s k) = Some (JStr s, k).
Proof.
  change (get_json (S n) (put_string s k)) with
    ('(t, k0) ← get_chars (S (String.length (put_chars s (String "034" k))))
                 (put_chars s (String "034" k)); Some (JStr t, k0)).
  rewrite get_put_chars; [done|].
  pose proof (put_chars_length s (String "034" k)). lia.
Qed.

(** The statement proved by induction on values. *)
Definition reads_back (j : json) : Prop :=
  unique_keys j = true -> forall fuel k,
  (size_of j <= fuel)%nat -> int_ends k = true -> get_json fuel (put_json g j k) = Some (j, k).

Definition items_size (l : list json) : nat :=
  foldr (fun x n => S (Nat.max (size_of x) n)) 1%nat l.
Definition fields_size (l : list (string * json)) : nat :=
  foldr (fun kv n => S (Nat.max (size_of kv.2) n)) 0%nat l.

Lemma put_items_ends l k : int_ends (put_items g l k) = true.
Proof. by destruct l. Qed.
Lemma put_fields_ends l k : int_ends (put_fields g l k) = true.
Proof. by destruct l as [|[m y] l]. Qed.

Lemma items_size_pos l : (1 <= items_size l)%nat.
Proof. destruct l; cbn; lia. Qed.

Lemma size_of_pos j : (1 <= size_of j)%nat.
Proof. destruct j as [| | | | |l|l]; cbn; try lia. apply items_size_pos. Qed.

Lemma get_items_print l : Forall reads_back l -> forallb unique_keys l = true ->
  forall fuel k, (items_size l <= fuel)%nat ->
  get_items fuel (put_items g l k) = Some (l, k).
Proof.
  induction 1 as [|y r Hy _ IH]; intros Hu [|n] k Hn; cbn in Hn; try lia; [done|].
  cbn in Hu. apply andb_prop in Hu as [Hu1 Hu2].
  change (get_items (S n) (put_items g (y :: r) k)) with
    ('(x, k1) ← get_json n (gap (put_json g y (put_items g r k)));
     '(l0, k2) ← get_items n k1; Some (x :: l0, k2)).
  rewrite get_json_gap, (Hy Hu1) by (apply put_items_ends || (unfold items_size in *; lia)).
  cbn [mbind option_bind]. rewrite IH by (done || (unfold items_size in *; lia)). done.
Qed.

Lemma get_field_step n m y k d :
  get_field (S n) (put_string m (then_put g ":" (put_json g y k))) d =
    '(x, k2) ← get_json n (put_json g y k);
    match skip k2 with
    | String "}" k3 => Some (dict_set m x d, k3)
    | String "," k3 => get_field n k3 (dict_set m x d)
    | _ => None
    end.
Proof.
  change (get_field (S n) (put_string m (then_put g ":" (put_json g y k))) d) with
    ('(m0, k0) ← get_chars (S (String.length (put_chars m (String "034" (then_put g ":" (put_json g y k))))))
       (put_chars m (String "034" (then_put g ":" (put_json g y k))));
     match skip k0 with
     | String ":" k1 =>
         '(x, k2) ← get_json n k1;
         match skip k2 with
         | String "}" k3 => Some (dict_set m0 x d, k3)
         | String "," k3 => get_field n k3 (dict_set m0 x d)
         | _ => None
         end
     | _ => None
     end).
  rewrite get_put_chars; [by rewrite <- (get_json_gap n (put_json g y k))|].
  pose proof (put_chars_length m (String "034" (then_put g ":" (put_json g y k)))). lia.
Qed.

Lemma get_fields_print l : forall m y d fuel k,
  reads_back y -> Forall (fun kv => reads_back kv.2) l ->
  unique_keys y = true -> forallb (fun kv => unique_keys kv.2) l = true ->
  NoDup (d.*1 ++ m :: l.*1) ->
  (fields_size ((m, y) :: l) <= fuel)%nat ->
  get_field fuel (put_string m (then_put g ":" (put_json g y (put_fields g l k)))) d =
    Some (d ++ (m, y) :: l, k).
Proof.
  induction l as [|[m' y'] l IH]; intros m y d [|n] k Hy Hl Hu Hul Hnd Hn;
    try (cbn in Hn; lia); rewrite get_field_step;
    (rewrite (Hy Hu) by (apply put_fields_ends || (cbn in *; lia)));
    cbn [mbind option_bind];
    (assert (Hm : m ∉ d.*1) by (intros Hin; apply NoDup_app in Hnd as (_ & Hd & _);
       apply (Hd m Hin); left)).
  - cbn. by rewrite dict_set_new.
  - change (skip (put_fields g ((m', y') :: l) k)) with (put_fields g ((m', y') :: l) k).
    cbn [put_fields]. rewrite dict_set_new by done. cbv iota beta delta [then_put].
    change (get_field n (gap (put_string m' (then_put g ":" (put_json g y' (put_fields g l k)))))
      (d ++ [(m, y)]) = Some (d ++ (m, y) :: (m', y') :: l, k)). rewrite get_field_gap.
    apply Forall_cons in Hl as [Hy' Hl]. cbn in Hul. apply andb_prop in Hul as [Hu' Hul].
    rewrite IH; [by rewrite <- app_assoc|done..| |cbn in *; lia].
    rewrite fmap_app, <- app_assoc. exact Hnd.
Qed.

Lemma get_json_print j : reads_back j.
Proof.
  induction j as [|b|z|t|s|l IH|l IH] using json_ind'; intros Hu [|n] k Hn Hk;
    try (match type of Hn with (size_of ?j <= _)%nat => pose proof (size_of_pos j); lia end).
  - done.
  - by destruct b.
  - by apply get_json_int.
  - by apply get_json_float.
  - apply get_json_str.
  - destruct l as [|x l]; [done|]. rewrite put_json_arr.
    apply Forall_cons in IH as [Hx Hl]. cbn in Hu. apply andb_prop in Hu as [Hu1 Hu2].
    destruct (put_json_head x (put_items g l k) Hu1) as (c & r & Heq & Hc).
    assert (Hj : get_json (S n) (String "[" (put_json g x (put_items g l k))) =
      ('(x0, k1) ← get_json n (put_json g x (put_items g l k));
       '(l0, k2) ← get_items n k1; Some (JArr (x0 :: l0), k2))).
    { rewrite Heq. cbn [get_json]. change (skip (String "[" (String c r)))
        with (String "[" (String c r)). cbv iota. rewrite skip_head by done.
      clear Heq Hx. by destruct c as [[] [] [] [] [] [] [] []]. }
    rewrite Hj, (Hx Hu1) by (apply put_items_ends || (cbn in *; lia)).
    cbn [mbind option_bind]. rewrite get_items_print by (done || (cbn in *; unfold items_size; lia)).
    done.
  - destruct l as [|[m x] l]; [done|]. rewrite put_json_obj.
    apply Forall_cons in IH as [Hx Hl]. cbn in Hu. apply andb_prop in Hu as [Hnd Hu].
    apply andb_prop in Hu as [Hu1 Hu2]. apply bool_decide_eq_true_1 in Hnd.
    change (get_json (S n) (String "{" (put_string m (then_put g ":" (put_json g x (put_fields g l k))))))
      with ('(d, k1) ← get_field n (put_string m (then_put g ":" (put_json g x (put_fields g l k)))) [];
            Some (JObj d, k1)).
    rewrite get_fields_print; [done|done..|]. cbn in *. unfold fields_size. lia.
Qed.

(** The text is long enough to be its own fuel. *)
Definition fits (j : json) : Prop :=
  unique_keys j = true -> forall k, (size_of j + String.length k <= String.length (put_json g j k))%nat.

Lemma put_string_length s k :
  (String.length k + 2 <= String.length (put_string s k))%nat.
Proof.
  unfold put_string. cbn [String.length].
  pose proof (put_chars_length s (String "034" k)) as H. cbn [String.length] in H. lia.
Qed.

Lemma put_items_size l k : Forall fits l -> forallb unique_keys l = true ->
  (items_size l + String.length k <= String.length (put_items g l k))%nat.
Proof.
  induction 1 as [|y r Hy _ IH]; [done|]. intros [Hu1 Hu2]%andb_prop.
  cbn [put_items String.length items_size foldr]. specialize (Hy Hu1 (put_items g r k)).
  specialize (IH Hu2). pose proof (then_put_length "," (put_json g y (put_items g r k))).
  unfold items_size in IH. lia.
Qed.

Lemma put_fields_size l k : Forall (fun kv => fits kv.2) l ->
  forallb (fun kv => unique_keys kv.2) l = true ->
  (fields_size l + String.length k < String.length (put_fields g l k))%nat.
Proof.
  induction 1 as [|[m y] r Hy _ IH]; [cbn; lia|]. intros [Hu1 Hu2]%andb_prop.
  cbn [put_fields String.length fields_size foldr snd] in *.
  specialize (Hy Hu1 (put_fields g r k)). specialize (IH Hu2).
  set (rest := put_json g y (put_fields g r k)) in *.
  pose proof (put_string_length m (then_put g ":" rest)).
  pose proof (then_put_length ":" rest).
  pose proof (then_put_length "," (put_string m (then_put g ":" rest))).
  unfold fields_size in IH. lia.
Qed.

Lemma str_of_Z_nonempty z : (1 <= String.length (str_of_Z z))%nat.
Proof.
  unfold str_of_Z, pretty, pretty_Z. destruct z as [|p|p]; [cbn; lia| |apply le_n_S, Nat.le_0_l].
  change (pretty p) with (pretty (N.pos p)).
  destruct (pretty_N_cons (N.pos p)) as (c & r & -> & _). cbn. lia.
Qed.

Lemma string_app_length (s k : string) :
  String.length (s +:+ k)%string = (String.length s + String.length k)%nat.
Proof. induction s as [|c s IH]; [done|]. exact (f_equal S IH). Qed.

Lemma put_json_size j : fits j.
Proof.
  induction j as [|b|z|t|s|l IH|l IH] using json_ind'; intros Hu k.
  - cbn [put_json size_of]. rewrite string_app_length. cbn. lia.
  - destruct b; cbn [put_json size_of]; rewrite string_app_length; cbn; lia.
  - cbn [put_json size_of]. rewrite string_app_length. pose proof (str_of_Z_nonempty z). lia.
  - cbn [put_json size_of]. rewrite string_app_length.
    apply bool_decide_eq_true_1 in Hu. destruct t; [done|]. cbn. lia.
  - cbn [put_json size_of]. pose proof (put_string_length s k). lia.
  - destruct l as [|x l]; [cbn; lia|]. rewrite put_json_arr.
    apply Forall_cons in IH as [Hx Hl]. apply andb_prop in Hu as [Hu1 Hu2].
    specialize (Hx Hu1 (put_items g l k)). apply (put_items_size l k) in Hl; [|done].
    change (size_of (JArr (x :: l))) with (S (Nat.max (size_of x) (items_size l))).
    cbn [String.length]. lia.
  - destruct l as [|[m x] l]; [cbn; lia|]. rewrite put_json_obj.
    apply Forall_cons in IH as [Hx Hl]. apply andb_prop in Hu as [_ Hu].
    apply andb_prop in Hu as [Hu1 Hu2].
    specialize (Hx Hu1 (put_fields g l k)). apply (put_fields_size l k) in Hl; [|done].
    pose proof (put_string_length m (then_put g ":" (put_json g x (put_fields g l k)))).
    pose proof (then_put_length ":" (put_json g x (put_fields g l k))).
    change (size_of (JObj ((m, x) :: l))) with (S (S (Nat.max (size_of x) (fields_size l)))).
    cbn [String.length snd] in *. lia.
Qed.

End Back.

Lemma loads_printed g j : unique_keys j = true -> loads (put_json g j EmptyString) = Some j.
Proof.
  intros Hu. unfold loads.
  pose proof (put_json_size g j Hu EmptyString) as Hs. cbn in Hs.
  rewrite get_json_print by (done || lia). done.
Qed.
Lemma loads_dumps_eq j : unique_keys j = true -> loads (dumps j) = Some j.
Proof. apply loads_printed. Qed.
Lemma loads_dumps_spaced j : unique_keys j = true -> loads (dumps_spaced j) = Some j.
Proof. apply loads_printed. Qed.
