(* ===== verification/Py.v ===== *)
(** The Python side: exceptions as values, and a coroutine as a program over the
    event loop's effects.

    A coroutine is a [prog] over [pyev]: it calls a Lua script or a Redis command
    (each one atomic request), reads the clock, sleeps, waits, draws random numbers,
    logs, reads and changes the object it belongs to ([ESelf]: no other coroutine runs
    in between, as between two awaits), awaits what another task leaves there ([EAwait]),
    runs a plain function in a pool ([ECompute]), starts tasks, and may end the process
    ([EExit]: nothing after it runs; what a specification lets it answer does not matter,
    and ours answer a cancellation). Scripts are called the way
    the code calls them, by name with KEYS and ARGV lists; [lua_of] is the script
    reading its slots. [pipe] is a non-transactional pipeline. *)
From S2P Require Import Prelude Effects Redis LuaScripts.

#[local] Open Scope Z_scope.
#[local] Open Scope prog_scope.

(** ** Exceptions the code raises, catches or tells apart *)
Inductive exn : Type :=
  | KeyError (key : string)
  | ValueError (message : string)
  | TypeError (message : string)
  | AssertionError
  | ZeroDivisionError
  | IndexError
  | StopIteration
  | RuntimeError (message : string)
  | CalledProcessError (code : Z) (stderr : string)   (* subprocess's *)
  | BadParameter (message : string)       (* typer's *)
  | Exit (code : Z)                       (* typer's *)
  | JSONDecodeError                       (* a ValueError *)
  | ValidationError (field : string)      (* pydantic's; a ValueError *)
  | QueueFull (depth : Z) (accepted : list (option string))
  | RedisConnectionError (message : string)
  | RedisTimeoutError (message : string)
  | ResponseError (message : string)      (* any other RedisError *)
  | HandlerTimeout (timeout : Q) (kind : string)
  | BrokenProcessPool
  | HandlerError (type message : string)  (* what a handler raises *)
  | CancelledError.                       (* not an Exception *)

#[export] Instance Q_eq_dec' : EqDecision Q.
Proof. solve_decision. Defined.
#[export] Instance exn_eq_dec : EqDecision exn.
Proof. solve_decision. Defined.

Definition is_exception (e : exn) : bool :=
  match e with CancelledError => false | _ => true end.
Definition is_value_error (e : exn) : bool :=
  match e with ValueError _ | JSONDecodeError | ValidationError _ => true | _ => false end.
Definition is_redis_down (e : exn) : bool :=
  match e with RedisConnectionError _ | RedisTimeoutError _ => true | _ => false end.
Definition is_redis_error (e : exn) : bool :=
  match e with ResponseError _ => true | _ => is_redis_down e end.

(** ** Script calls *)
Inductive sname : Type :=
  | S_enqueue | S_commit | S_heartbeat | S_retry | S_dead | S_requeue | S_schedule
  | S_ledger | S_reclaim | S_prune.

#[export] Instance sname_eq_dec : EqDecision sname.
Proof. solve_decision. Defined.

(** What a script returns. *)
Definition reply (n : sname) : Type :=
  match n with
  | S_enqueue => string * Z * Z
  | S_commit | S_requeue | S_schedule | S_ledger => Z
  | S_heartbeat | S_retry | S_dead => string
  | S_reclaim => eid * list claimed_entry * list eid
  | S_prune => list string
  end.

(** An argument: text, or an entry id, which the code only ever passes on. *)
Inductive arg : Type := Str (s : string) | Id (i : eid).

#[export] Instance arg_eq_dec : EqDecision arg.
Proof. solve_decision. Defined.

Definition text_of (a : arg) : string :=
  match a with Str s => s | Id i => str_of_eid i end.

(** [tonumber] on an argument the script computes with. *)
Definition tonumber (s : string) : lua Z :=
  match int_of_str s with
  | Some z => Ret z
  | None => Raise "attempt to perform arithmetic on a nil value"%string
  end.

Definition bad_call {A} : lua A :=
  Raise "Lua redis lib command arguments must be strings or integers"%string.

Definition idem_key (l : list string) : option string := head l.

(** The script, its KEYS and ARGV slots read in the script's order. *)
Definition lua_of `{CJson} (n : sname) (keys : list string) (args : list arg) : lua (reply n) :=
  match n as n return lua (reply n) with
  | S_enqueue =>
      match keys, args with
      | k1 :: k2 :: k3 :: k4 :: idem, Str j :: Str ttl :: Str high :: Str low :: Str c :: fs =>
          t <- tonumber ttl ;; h <- tonumber high ;; l <- tonumber low ;;
          enqueue_lua k1 k2 k3 k4 (idem_key idem) j t h l c (text_of <$> fs)
      | _, _ => bad_call
      end
  | S_commit =>
      match keys, args with
      | [k1; k2; k3; k4; k5], [Str g; Id e; Str j; Str res; Str ttl; Str w; Str enq] =>
          t <- tonumber ttl ;; commit_lua k1 k2 k3 k4 k5 g e j res t w enq
      | _, _ => bad_call
      end
  | S_heartbeat =>
      match keys, args with
      | [k1; k2], [Str g; Id e; Str w] => heartbeat_lua k1 k2 g e w
      | _, _ => bad_call
      end
  | S_retry =>
      match keys, args with
      | [k1; k2; k3; k4], [Str g; Id e; Str w; Str n; Str delay; Str t] =>
          d <- tonumber delay ;; retry_lua k1 k2 k3 k4 g e w n d t
      | _, _ => bad_call
      end
  | S_dead =>
      match keys, args with
      | [k1; k2; k3; k4], [Str g; Id e; Str w; Str j; Str reason; Str error; Str n; Str t] =>
          dead_lua k1 k2 k3 k4 g e w j reason error n t
      | _, _ => bad_call
      end
  | S_requeue =>
      match keys, args with
      | [k1; k2; k3; k4], [Str j] => requeue_lua k1 k2 k3 k4 j
      | _, _ => bad_call
      end
  | S_schedule =>
      match keys, args with
      | [k1; k2; k3], [Str n] =>
          l <- tonumber n ;; schedule_lua k1 k2 k3 (Z.to_nat l)
      | _, _ => bad_call
      end
  | S_ledger =>
      match keys, args with
      | [k1; k2; k3], Str e :: Str ttl :: extra =>
          t <- tonumber ttl ;; ledger_lua k1 k2 k3 e t (text_of <$> extra)
      | _, _ => bad_call
      end
  | S_reclaim =>
      match keys, args with
      | [k1; k2; k3], [Str g; Str w; Str m; Id cursor; Str n; Str slots; Str thr; Str maxd] =>
          m' <- tonumber m ;; n' <- tonumber n ;; s' <- tonumber slots ;;
          t' <- tonumber thr ;; d' <- tonumber maxd ;;
          reclaim_lua k1 k2 k3 g w m' cursor (Z.to_nat n') s' t' d'
      | _, _ => bad_call
      end
  | S_prune =>
      match keys, args with
      | [k1; k2], [Str g; Str m; Str w] =>
          m' <- tonumber m ;; prune_lua k1 k2 g m' w
      | _, _ => bad_call
      end
  end.

(** ** Effects of a coroutine of an object with state [S] that starts tasks [T] *)
Inductive level : Type := DEBUG | INFO | WARNING | ERROR.

Inductive pyev (S T : Type) : Type -> Type :=
  | EScript (n : sname) (keys : list string) (args : list arg) : pyev S T (reply n)
  | ECmd {A} (c : cmd A) : pyev S T A
  | ETime : pyev S T Q                          (* loop.time(), time.monotonic() *)
  | ESleep (seconds : Q) : pyev S T unit
  | EWait (timeout : option Q) : pyev S T unit  (* wait for something to finish *)
  | EUniform (a b : Q) : pyev S T Q             (* random.uniform *)
  | EUuid : pyev S T string                     (* str(uuid7()) *)
  | ELog (l : level) (message : string) : pyev S T unit
  | ESelf {A} (f : S -> A * S) : pyev S T A     (* read and change the object *)
  | EAwait {A} (f : S -> option (result exn A)) : pyev S T A   (* await a future *)
  | ECompute {A} (pool : nat) (f : unit -> result exn A) : pyev S T A
      (* run_in_executor(pool, f) *)
  | ESpawn (t : T) : pyev S T unit              (* create_task *)
  | EExit (code : Z) : pyev S T Empty_set.      (* os._exit *)
Arguments EScript {S T} n keys args.
Arguments ECmd {S T A} c.
Arguments ETime {S T}.
Arguments ESleep {S T} seconds.
Arguments EWait {S T} timeout.
Arguments EUniform {S T} a b.
Arguments EUuid {S T}.
Arguments ELog {S T} l message.
Arguments ESelf {S T A} f.
Arguments EAwait {S T A} f.
Arguments ECompute {S T A} pool f.
Arguments ESpawn {S T} t.
Arguments EExit {S T} code.

Abbreviation py S T := (prog (pyev S T) exn).

Section Py.
Context {S T : Type}.

Definition script (n : sname) (keys : list string) (args : list arg) : py S T (reply n) :=
  call (EScript n keys args).
Definition redis {A} (c : cmd A) : py S T A := call (ECmd c).
Definition now : py S T Q := call ETime.
Definition sleep (d : Q) : py S T unit := call (ESleep d).
Definition uniform (a b : Q) : py S T Q := call (EUniform a b).
Definition log_line (l : level) (m : string) : py S T unit := call (ELog l m).
Definition self : py S T S := call (ESelf (fun s => (s, s))).
Definition update (f : S -> S) : py S T unit := call (ESelf (fun s => (tt, f s))).
Definition wait (d : option Q) : py S T unit := call (EWait d).
Definition await {A} (f : S -> option (result exn A)) : py S T A := call (EAwait f).
Definition spawn (t : T) : py S T unit := call (ESpawn t).
Definition lift {A} (r : result exn A) : py S T A :=
  match r with Ok a => Ret a | Err e => Raise e end.

(** [try: p except <handled> as e: h e] *)
Definition except {A} (handled : exn -> bool) (p : py S T A) (h : exn -> py S T A) : py S T A :=
  try_catch p (fun e => if handled e then h e else Raise e).

(** The outcome of [p] as a value: nothing escapes. *)
Definition settle {A} (p : py S T A) : py S T (result exn A) :=
  try_catch (x <- p ;; Ret (Ok x)) (fun e => Ret (Err e)).

(** [try: p finally: f] *)
Definition finally {A} (p : py S T A) (f : py S T unit) : py S T A :=
  r <- settle p ;; f ;;; lift r.

(** A loop that runs its body until it gives an answer, at most [n] times. *)
Fixpoint loop {St A} (n : nat) (body : St -> py S T (St + A)) (s : St) : py S T (St + A) :=
  match n with
  | O => Ret (inl s)
  | Datatypes.S m =>
      r <- body s ;;
      match r with inl s' => loop m body s' | inr a => Ret (inr a) end
  end.

(** All of a pipeline's requests are sent; the first error is raised at the end. *)
Fixpoint first_err {A} (l : list (result exn A)) : result exn (list A) :=
  match l with
  | [] => Ok []
  | Ok a :: r => match first_err r with Ok l' => Ok (a :: l') | Err e => Err e end
  | Err e :: _ => Err e
  end.
Fixpoint settle_all {A} (l : list (py S T A)) : py S T (list (result exn A)) :=
  match l with
  | [] => Ret []
  | p :: r => x <- settle p ;; xs <- settle_all r ;; Ret (x :: xs)
  end.
Definition pipe {A} (l : list (py S T A)) : py S T (list A) :=
  rs <- settle_all l ;; lift (first_err rs).

(** [for x in l: acc.append(f(x))] *)
Fixpoint map_py {A B} (f : A -> py S T B) (l : list A) : py S T (list B) :=
  match l with
  | [] => Ret []
  | x :: r => y <- f x ;; ys <- map_py f r ;; Ret (y :: ys)
  end.
End Py.

(** ** What a coroutine ever does *)
(** [only P p]: whatever the answers, every effect of [p] is one of [P]. *)
Section Only.
Context {S T : Type} (P : forall X, pyev S T X -> Prop).

Fixpoint only {A : Type} (p : py S T A) : Prop :=
  match p with
  | Ret _ | Raise _ => True
  | Vis c k => P _ c /\ forall r, only (k r)
  end.

Lemma only_bind {A B : Type} (p : py S T A) (f : A -> py S T B) :
  only p -> (forall a, only (f a)) -> only (bind p f).
Proof.
  intros Hp Hf. induction p as [a|e|X c k IH]; cbn in *; [done|done|].
  destruct Hp as [Hc Hk]. split; [done|]. intros r. by apply IH.
Qed.

Lemma only_try {A : Type} (p : py S T A) (f : exn -> py S T A) :
  only p -> (forall e, only (f e)) -> only (try_catch p f).
Proof.
  intros Hp Hf. induction p as [a|e|X c k IH]; cbn in *; [done|done|].
  destruct Hp as [Hc Hk]. split; [done|]. intros r. by apply IH.
Qed.

Lemma only_except {A : Type} c (p : py S T A) (f : exn -> py S T A) :
  only p -> (forall e, only (f e)) -> only (except c p f).
Proof. intros Hp Hf. apply only_try; [done|]. intros e. by destruct (c e). Qed.

Lemma only_settle {A : Type} (p : py S T A) : only p -> only (settle p).
Proof. intros Hp. apply only_try; [|done]. by apply only_bind. Qed.

Lemma only_lift {A : Type} (r : result exn A) : only (lift r).
Proof. by destruct r. Qed.

Lemma only_finally {A : Type} (p : py S T A) f : only p -> only f -> only (finally p f).
Proof.
  intros Hp Hf. apply only_bind; [by apply only_settle|]. intros r.
  apply only_bind; [done|]. intros _. apply only_lift.
Qed.

Lemma only_call {X : Type} (c : pyev S T X) : P _ c -> only (call c).
Proof. intros Hc. split; [done|]. by intros []. Qed.

Lemma only_loop {St A : Type} n (body : St -> py S T (St + A)) : forall s,
  (forall s, only (body s)) -> only (loop n body s).
Proof.
  induction n as [|n IH]; intros s Hb; [done|]. cbn [loop].
  apply only_bind; [done|]. intros [s'|a]; [by apply IH|done].
Qed.

Lemma only_for_each {A St : Type} l (f : A -> St -> py S T St) : forall s,
  (forall x s, only (f x s)) -> only (for_each l f s).
Proof.
  induction l as [|x l IH]; intros s Hf; [done|]. cbn [for_each].
  apply only_bind; [done|]. intros s'. by apply IH.
Qed.

Lemma only_map {A B : Type} (f : A -> py S T B) l :
  (forall x, only (f x)) -> only (map_py f l).
Proof.
  intros Hf. induction l as [|x l IH]; [done|]. cbn [map_py].
  apply only_bind; [done|]. intros y. by apply only_bind.
Qed.
End Only.

(** Through the shape of a coroutine; [leaf] does the single effects. *)
Ltac only_step leaf :=
  lazymatch goal with
  | |- only _ (Ret _) => exact I
  | |- only _ (Raise _) => exact I
  | |- only _ (bind _ _) => apply only_bind; [|intros ?]
  | |- only _ (except _ _ _) => apply only_except; [|intros ?]
  | |- only _ (settle _) => apply only_settle
  | |- only _ (finally _ _) => apply only_finally
  | |- only _ (try_catch _ _) => apply only_try; [|intros ?]
  | |- only _ (lift _) => apply only_lift
  | |- only _ (loop _ _ _) => apply only_loop; intros ?
  | |- only _ (for_each _ _ _) => apply only_for_each; intros ? ?
  | |- only _ (map_py _ _) => apply only_map; intros ?
  | |- only _ (match ?x with _ => _ end) => destruct x
  | |- only _ _ => first [ apply only_call; leaf | apply only_bind; [|intros ?] ]
  end.

(** ** Texts *)
(** [x[:n]] *)
Definition cut (n : nat) (s : string) : string := String.substring 0 n s.
(** [int(x)] on a float: towards zero. *)
Definition int_of_Q (q : Q) : Z := Z.quot (Qnum q) (Zpos (Qden q)).
Definition str (z : Z) : arg := Str (str_of_Z z).

(** Python's comparison of floats. *)
Definition Qlt_bool (a b : Q) : bool := negb (Qle_bool b a).

Lemma Qlt_bool_iff a b : Qlt_bool a b = true <-> (a < b)%Q.
Proof.
  unfold Qlt_bool. rewrite negb_true_iff. split.
  - intros H. apply Qnot_le_lt. intros Hle. apply Qle_bool_iff in Hle. congruence.
  - intros H. destruct (Qle_bool b a) eqn:Hb; [|done].
    apply Qle_bool_iff in Hb. by apply Qle_not_lt in Hb.
Qed.

Lemma Qlt_bool_false a b : Qlt_bool a b = false <-> (b <= a)%Q.
Proof. unfold Qlt_bool. rewrite negb_false_iff. apply Qle_bool_iff. Qed.

(** ** Reading argument text back *)
Lemma tonumber_str `{CJson} z {A} (f : Z -> lua A) :
  (x <- tonumber (str_of_Z z) ;; f x) = f z.
Proof. unfold tonumber. by rewrite int_of_str_of_Z. Qed.

Lemma text_of_str (l : list string) : text_of <$> (Str <$> l) = l.
Proof. induction l as [|s l IH]; [done|]. cbn. by rewrite IH. Qed.

(** ** Execution: the bind laws *)
Section Laws.
Context {C : Type -> Type} {E : Type}.

Lemma run_call {X W} (h : forall X, C X -> W -> result E X * W) (c : C X) w :
  run h (call c) w = h X c w.
Proof. cbn. by destruct (h X c w) as [[x|e] w']. Qed.

Lemma run_try_catch {A W} (h : forall X, C X -> W -> result E X * W) (p : prog C E A) f w :
  run h (try_catch p f) w =
    match run h p w with
    | (Ok a, w') => (Ok a, w')
    | (Err e, w') => run h (f e) w'
    end.
Proof.
  revert w. induction p as [a|e|X c k IH]; intros w; cbn; [done|by destruct (run h (f e) w)|].
  destruct (h X c w) as [r w']. apply IH.
Qed.
End Laws.

(** ** Weakest preconditions of the loop, of [for], of [try] *)
Section WpRules.
Context {S T V : Type}.
Context (spec : forall X, pyev S T X -> V -> result exn X -> V -> Prop).

Lemma wp_loop {St A} (I : St -> V -> Prop) (body : St -> py S T (St + A))
    (Q : result exn (St + A) -> V -> Prop) n : forall s v,
  I s v ->
  (forall s v, I s v -> wp spec (body s) v (fun r v' =>
     match r with Ok (inl s') => I s' v' | Ok (inr a) => Q (Ok (inr a)) v'
                | Err e => Q (Err e) v' end)) ->
  (forall s v, I s v -> Q (Ok (inl s)) v) ->
  wp spec (loop n body s) v Q.
Proof.
  induction n as [|n IH]; intros s v Hi Hb Hs; [by apply Hs|].
  cbn [loop]. apply wp_bind. eapply wp_mono; [by apply Hb|].
  intros [[s'|a]|e] v' Hq; [by apply IH|done|done].
Qed.

Lemma wp_try {A} (p : py S T A) h v Q :
  wp spec p v (fun r v' => match r with Ok a => Q (Ok a) v' | Err e => wp spec (h e) v' Q end) ->
  wp spec (try_catch p h) v Q.
Proof. revert v. induction p as [a|e|X c k IH]; intros v; cbn; eauto. Qed.

Lemma wp_lift {A} (r : result exn A) v (Q : result exn A -> V -> Prop) :
  Q r v -> wp spec (lift r) v Q.
Proof. by destruct r. Qed.

Lemma wp_event {X} (c : pyev S T X) v (Q : result exn X -> V -> Prop) :
  (forall r v', spec X c v r v' -> Q r v') -> wp spec (call c) v Q.
Proof. intros H [x|e] v' Hs; cbn; by apply H. Qed.

Lemma wp_settle {A} (p : py S T A) v Q :
  wp spec p v (fun r v' => Q (Ok r) v') -> wp spec (settle p) v Q.
Proof.
  intros H. unfold settle. apply wp_try, wp_bind. eapply wp_mono; [exact H|].
  by intros [a|e] v' Hq.
Qed.

Lemma wp_map {A B} (f : A -> py S T B) (I : list B -> V -> Prop)
    (Q : result exn (list B) -> V -> Prop) l : forall done v,
  I done v ->
  (forall x ys v, x ∈ l -> I ys v ->
     wp spec (f x) v (fun r v' => match r with Ok y => I (ys ++ [y]) v'
                                | Err e => Q (Err e) v' end)) ->
  wp spec (map_py f l) v (fun r v' => match r with Ok ys => I (done ++ ys) v'
                                    | Err e => Q (Err e) v' end).
Proof.
  induction l as [|x l IH]; intros acc v Hi Hf; cbn [map_py].
  - apply wp_ret. by rewrite app_nil_r.
  - apply wp_bind. eapply wp_mono; [apply Hf; [left|exact Hi]|].
    intros [y|e] v1 H1; [|done]. apply wp_bind. eapply wp_mono.
    + apply (IH (acc ++ [y]) v1 H1). intros x' ys v2 Hx. apply Hf. by right.
    + intros [ys|e] v2 H2; [|done]. apply wp_ret. by rewrite <- app_assoc in H2.
Qed.
End WpRules.
