(* ===== verification/Models.v ===== *)
(** The job schema and its stream encoding (src/ftq/models.py).

    A stream entry is read by redis-py as a dictionary; here it stays the flat
    name, value list it is in Redis and [fields["x"]] is [field "x"] (the last value
    of a repeated name wins, as in the dictionary). *)
From S2P Require Import Prelude Effects Redis LuaScripts.
From S2P Require Import Keys.
From S2P Require Import Json.
From S2P Require Import Ops.
From S2P Require Import Refine.
From S2P Require Import Fields.
From S2P Require Import Py.

#[local] Open Scope Z_scope.

(** ** [int(s)] on a string: blanks around, a sign, digits with single underscores *)
Definition is_blank (c : ascii) : bool :=
  let n := code c in
  ((9 <=? n) && (n <=? 13)) || ((28 <=? n) && (n <=? 32)) || (n =? 133) || (n =? 160).

Fixpoint strip_left (s : string) : string :=
  match s with
  | String c r => if is_blank c then strip_left r else s
  | EmptyString => EmptyString
  end.

Fixpoint all_blank (s : string) : bool :=
  match s with String c r => is_blank c && all_blank r | EmptyString => true end.

(** The digits, each underscore between two of them, then only blanks. *)
Fixpoint py_digits (s : string) (acc : Z) : option Z :=
  match s with
  | EmptyString => Some acc
  | String c r =>
      match digit_val c with
      | Some d => py_digits r (10 * acc + d)
      | None =>
          match r with
          | String c' r' =>
              match digit_val c' with
              | Some d => if bool_decide (c = "_"%char) then py_digits r' (10 * acc + d)
                          else None
              | None => if all_blank s then Some acc else None
              end
          | EmptyString => if all_blank s then Some acc else None
          end
      end
  end.

Definition py_nat (s : string) : option Z :=
  match s with
  | String c r => d ← digit_val c; py_digits r d
  | EmptyString => None
  end.

Definition py_int (s : string) : option Z :=
  match strip_left s with
  | String "-" r => Z.opp <$> py_nat r
  | String "+" r => py_nat r
  | r => py_nat r
  end.

(** ** The model *)
Record Job := mk_Job {
  job_id : string;
  type : string;
  payload : list (string * json);
  attempt : Z;
  idempotency_key : string;
  enqueued_at_ms : Z;
}.

(** [Job(...)]: the two constraints pydantic checks beyond the field types. *)
Definition new_job (job_id type : string) (payload : json) (attempt : Z)
    (idempotency_key : string) (enqueued_at_ms : Z) : result exn Job :=
  match payload with
  | JObj d =>
      if 0 <=? attempt
      then Ok (mk_Job job_id type d attempt idempotency_key enqueued_at_ms)
      else Err (ValidationError "attempt")
  | _ => Err (ValidationError "payload")
  end.

Definition to_fields (j : Job) : list string :=
  ["job_id"; job_id j; "type"; type j; "payload"; dumps (JObj (payload j));
   "attempt"; str_of_Z (attempt j); "idempotency_key"; idempotency_key j]%string.

(** [fields[name]] *)
Definition need (name : string) (fs : list string) : result exn string :=
  match field name fs with Some x => Ok x | None => Err (KeyError name) end.
(** [int(x)] *)
Definition to_int (x : string) : result exn Z :=
  match py_int x with
  | Some z => Ok z
  | None => Err (ValueError "invalid literal for int() with base 10")
  end.
Definition json_loads (x : string) : result exn json :=
  match loads x with Some j => Ok j | None => Err JSONDecodeError end.

Definition from_fields (fs : list string) : result exn Job :=
  i <-! need "job_id" fs ;;
  t <-! need "type" fs ;;
  p0 <-! need "payload" fs ;;
  p <-! json_loads p0 ;;
  a0 <-! need "attempt" fs ;;
  a <-! to_int a0 ;;
  let k := default ""%string (field "idempotency_key" fs) in
  e <-! to_int (default "0"%string (field "enqueued_at_ms" fs)) ;;
  new_job i t p a k e.

(** ** Reading back *)
Lemma strip_left_digit c s : is_Some (digit_val c) -> strip_left (String c s) = String c s.
Proof. intros [d Hd]. by destruct c as [[] [] [] [] [] [] [] []]. Qed.

Lemma py_digits_plain s : forall acc z, digits s acc = Some z -> py_digits s acc = Some z.
Proof.
  induction s as [|c s IH]; intros acc z Hd; cbn in *; [done|].
  destruct (digit_val c); [|done]. by apply IH.
Qed.

Lemma py_nat_pretty (x : N) : py_nat (pretty x) = Some (Z.of_N x).
Proof.
  pose proof (digits_pretty_N x) as Hd.
  destruct (pretty_N_cons x) as (c & s & Heq & _). rewrite Heq in *. cbn in *.
  destruct (digit_val c) as [d|]; [|done]. cbn. apply py_digits_plain.
  by destruct d.
Qed.

Lemma py_int_nat (x : N) : py_int (pretty x) = Some (Z.of_N x).
Proof.
  pose proof (py_nat_pretty x) as Hn.
  destruct (pretty_N_cons x) as (c & s & Heq & Hc). rewrite Heq in *.
  unfold py_int. rewrite strip_left_digit by done.
  destruct Hc as [d Hc]. by destruct c as [[] [] [] [] [] [] [] []].
Qed.

(** [int(str(z)) == z] *)
Lemma py_int_of_Z (z : Z) : py_int (str_of_Z z) = Some z.
Proof.
  unfold str_of_Z, pretty, pretty_Z. destruct z as [|p|p]; [done|..].
  - change (pretty p) with (pretty (N.pos p)). apply py_int_nat.
  - change (py_int ("-" +:+ pretty p)) with (Z.opp <$> py_nat (pretty (N.pos p))).
    by rewrite py_nat_pretty.
Qed.

Lemma to_int_of_Z z : to_int (str_of_Z z) = Ok z.
Proof. unfold to_int. by rewrite py_int_of_Z. Qed.

(** A parsed job names the entry it came from. *)
Lemma from_fields_id fs j : from_fields fs = Ok j -> field "job_id" fs = Some (job_id j).
Proof.
  unfold from_fields, need. destruct (field "job_id" fs) as [i|]; [|done].
  destruct (field "type" fs) as [t|]; [|done].
  destruct (field "payload" fs) as [p0|]; [|done]. cbn.
  destruct (json_loads p0) as [p|]; [|done].
  destruct (field "attempt" fs) as [a0|]; [|done]. cbn.
  destruct (to_int a0) as [a|]; [|done]. cbn.
  destruct (to_int _) as [e|]; [|done]. cbn. unfold new_job.
  destruct p; try done. destruct (0 <=? a); [|done]. by intros [= <-].
Qed.

Lemma from_fields_attempt fs j : from_fields fs = Ok j -> 0 <= attempt j.
Proof.
  unfold from_fields.
  destruct (need "job_id" fs) as [i|]; [|done]. destruct (need "type" fs) as [t|]; [|done].
  destruct (need "payload" fs) as [p0|]; [|done]. cbn.
  destruct (json_loads p0) as [p|]; [|done].
  destruct (need "attempt" fs) as [a0|]; [|done]. cbn.
  destruct (to_int a0) as [a|]; [|done]. cbn.
  destruct (to_int _) as [e|]; [|done]. cbn. unfold new_job.
  destruct p; try done. destruct (Z.leb_spec 0 a); [|done]. by intros [= <-].
Qed.

(** The job after a stay in the stream, stamped at [ms], with attempt number [n]. *)
Definition stamped (n ms : Z) (j : Job) : Job :=
  mk_Job (job_id j) (type j) (payload j) n (idempotency_key j) ms.

(** The fields the stream holds for a job: what enqueue.lua adds, with the attempt
    number that retry.lua or requeue.lua may have rewritten. *)
Definition stream_fields (n ms : Z) (j : Job) : list string :=
  to_fields (stamped n ms j) ++ ["enqueued_at_ms"%string; str_of_Z ms].

Lemma from_stream_fields (j : Job) (n ms : Z) :
  unique_keys (JObj (payload j)) = true -> 0 <= n ->
  from_fields (stream_fields n ms j) = Ok (stamped n ms j).
Proof.
  intros Hu Hn.
  assert (Hf : from_fields (stream_fields n ms j) =
    (p <-! json_loads (dumps (JObj (payload j))) ;; a <-! to_int (str_of_Z n) ;;
     e <-! to_int (str_of_Z ms) ;;
     new_job (job_id j) (type j) p a (idempotency_key j) e)) by reflexivity.
  rewrite Hf. unfold json_loads. rewrite loads_dumps_eq by done. cbn -[to_int].
  rewrite !to_int_of_Z. cbn. unfold new_job.
  by rewrite (proj2 (Z.leb_le _ _)) by done.
Qed.

(** C21: a worker parses exactly the job the producer built: the fields that enqueue.lua
    stores (the job's own plus the enqueue stamp) read back as that job with the stamp,
    and so do the fields that retry.lua parks for the next attempt and those that
    requeue.lua restores from a dead-letter entry. *)
Theorem job_roundtrip (j : Job) (n ms next : Z) (e : eid) (w id reason error attempts : string)
    (deliveries at_ms : Z) :
  unique_keys (JObj (payload j)) = true -> 0 <= n -> 0 <= next ->
  from_fields (to_fields (stamped n ms j) ++ ["enqueued_at_ms"%string; str_of_Z ms]) =
    Ok (stamped n ms j) /\
  from_fields (set_attempt (str_of_Z next) (stream_fields n ms j)) = Ok (stamped next ms j) /\
  from_fields (strip_dlq (stream_fields n ms j ++
     dlq_meta e w id reason error attempts deliveries at_ms)) = Ok (stamped 0 ms j).
Proof.
  intros Hu Hn Hx.
  assert (Hgo : forall n, 0 <= n -> from_fields (stream_fields n ms j) = Ok (stamped n ms j)).
  { intros n' Hn'. by apply from_stream_fields. }
  split; [by apply Hgo|]. split; [by apply (Hgo next)|].
  rewrite strip_dlq_dead by done. by apply (Hgo 0).
Qed.

Lemma job_roundtrip_witness :
  from_fields (set_attempt "3" (stream_fields 2 5000
    (mk_Job "j1" "send_email" [("to"%string, JStr "a@b"); ("n"%string, JInt (-7))] 0 "" 0))) =
  Ok (mk_Job "j1" "send_email" [("to"%string, JStr "a@b"); ("n"%string, JInt (-7))] 3 "" 5000).
Proof.
  destruct (job_roundtrip
    (mk_Job "j1" "send_email" [("to"%string, JStr "a@b"); ("n"%string, JInt (-7))] 0 "" 0)
    2 5000 3 (1, 0) "w" "j1" "max_attempts" "boom" "5" 1 9000) as (_ & H & _);
    [reflexivity|lia|lia|exact H].
Defined.

(** C22: JSON round trip. What [json.dumps] prints for a value of dictionaries without
    repeated keys, lists, strings, integers, numerals, booleans and null, [json.loads]
    reads back as that value: nothing is escaped wrongly and no text is left over. So it is
    for the compact form and for the one with blanks after commas and colons. *)
Theorem json_roundtrip (j : json) : unique_keys j = true ->
  loads (dumps j) = Some j /\ loads (dumps_spaced j) = Some j.
Proof. split; [by apply loads_dumps_eq|by apply loads_dumps_spaced]. Qed.

Lemma json_roundtrip_witness :
  loads (dumps (JObj [("a"%string, JArr [JInt (-12); JFloat "1.5e3"; JNull]);
                      (String "034" "b", JStr (String "010" "x"))])) =
  Some (JObj [("a"%string, JArr [JInt (-12); JFloat "1.5e3"; JNull]);
              (String "034" "b", JStr (String "010" "x"))]).
Proof. apply json_roundtrip. vm_compute. reflexivity. Defined.
