(* ===== verification/Config.v ===== *)
(** Settings (src/ftq/config.py): every knob, the constraints a configuration must
    meet, and the bounds derived from it.

    Floats are exact rationals. [make] is the constructor: the field constraints in
    declaration order, then [_check]. The texts of error messages are shortened to a
    fixed part. *)
From S2P Require Import Prelude Effects Redis LuaScripts Keys Json.
From S2P Require Import Py.
From Stdlib Require Import Lqa.

#[local] Open Scope string_scope.
#[local] Open Scope list_scope.
#[local] Open Scope Z_scope.

Definition _TTL_MARGIN : Z := 10.
Definition _WORKER_LOOP_CONNECTIONS : Z := 2.
Definition _MIN_POOL_CONNECTIONS : Z := 100.

(** [^[A-Za-z0-9_.-]{1,64}$], as [re.match] reads it: [$] also matches before a
    newline that ends the text. *)
Definition name_char (c : ascii) : bool :=
  let n := code c in
  ((65 <=? n) && (n <=? 90)) || ((97 <=? n) && (n <=? 122)) || ((48 <=? n) && (n <=? 57)) ||
  (n =? 95) || (n =? 46) || (n =? 45).

Fixpoint name_chars (s : string) : bool :=
  match s with
  | EmptyString => true
  | String c r => name_char c && name_chars r
  end.

Definition name_text (s : string) : bool :=
  name_chars s && (1 <=? String.length s)%nat && (String.length s <=? 64)%nat.

Fixpoint chop_newline (s : string) : string :=
  match s with
  | EmptyString => EmptyString
  | String c EmptyString => if bool_decide (c = "010"%char) then EmptyString else s
  | String c r => String c (chop_newline r)
  end.

Definition _QUEUE_NAME (s : string) : bool := name_text s || name_text (chop_newline s).

Inductive mode : Type := reject | block.
#[export] Instance mode_eq_dec : EqDecision mode.
Proof. solve_decision. Defined.
Inductive log_fmt : Type := fmt_json | fmt_text.

Module Settings.
Record t := mk {
  redis_url : string;
  socket_timeout : Q;
  socket_connect_timeout : Q;
  health_check_interval : Q;
  retry_attempts : Z;
  retry_backoff_base : Q;
  retry_backoff_cap : Q;
  queue : string;
  group : string;
  concurrency : Z;
  block_ms : Z;
  shutdown_grace : Q;
  process_pool_size : Z;
  job_timeout : Q;
  visibility_timeout : Q;
  heartbeat_interval : Q;
  reap_interval : Q;
  max_attempts : Z;
  max_deliveries : Z;
  suspect_deliveries : Z;
  job_backoff_base : Q;
  job_backoff_cap : Q;
  scheduler_interval : Q;
  scheduler_batch : Z;
  consumer_prune_idle : Q;
  consumer_prune_interval : Q;
  backpressure_mode : mode;
  high_watermark : Z;
  low_watermark : Z;
  block_timeout : Q;
  block_poll_interval : Q;
  log_level : level;
  log_format : log_fmt;
  done_ttl_seconds : Z;
  idempotency_ttl_seconds : Z;
}.

(** The default of every field. *)
Definition defaults : t :=
  mk "redis://localhost:6379/0" 5 2 10 3 (5 # 100) 1 "default" "workers"
     10 1000 30 2 300 30 10 5 5 10 3 1 300 (1 # 2) 500 3600 60
     reject 100000 80000 30 (5 # 100) INFO fmt_json (7 * 24 * 3600) (24 * 3600).

Definition lifetime_bound (s : t) (timeout : Q) : Q :=
  let per_delivery := (timeout + visibility_timeout s)%Q in
  let per_attempt := (inject_Z (max_deliveries s) * per_delivery + job_backoff_cap s)%Q in
  (inject_Z (max_attempts s) * per_attempt)%Q.

Definition suspect_threshold (s : t) : Z := Z.min (suspect_deliveries s) (max_deliveries s).

Definition redis_max_connections (s : t) : Z :=
  let per_jobs := 2 * concurrency s in
  Z.max _MIN_POOL_CONNECTIONS (per_jobs + _WORKER_LOOP_CONNECTIONS).

Definition job_lifetime_bound (s : t) : Q := lifetime_bound s (job_timeout s).

Definition check_ttl_covers (s : t) (timeout : Q) : result exn unit :=
  let bound := lifetime_bound s timeout in
  if negb (done_ttl_seconds s =? 0) &&
     Qlt_bool (inject_Z (done_ttl_seconds s)) (inject_Z _TTL_MARGIN * bound)
  then Err (ValueError "done_ttl_seconds must be 0 or at least 10x the redelivery bound")
  else Ok tt.

(** One [if ...: raise ValueError(...)]. *)
Definition refuse_if (b : bool) (m : string) (k : result exn unit) : result exn unit :=
  if b then Err (ValueError m) else k.

Definition _check (s : t) : result exn unit :=
  refuse_if (negb (_QUEUE_NAME (queue s))) "queue must match ^[A-Za-z0-9_.-]{1,64}$" (
  refuse_if (Qle_bool (socket_timeout s) (inject_Z (block_ms s) / 1000))
    "block_ms must be below socket_timeout or idle polls time out" (
  refuse_if (Qlt_bool (retry_backoff_cap s) (retry_backoff_base s))
    "retry_backoff_base must not exceed retry_backoff_cap" (
  refuse_if (Qlt_bool (job_backoff_cap s) (job_backoff_base s))
    "job_backoff_base must not exceed job_backoff_cap" (
  refuse_if (Qlt_bool (visibility_timeout s) (3 * heartbeat_interval s))
    "heartbeat_interval must be at most a third of visibility_timeout" (
  refuse_if (Qle_bool (consumer_prune_idle s * 1000) (inject_Z (block_ms s)))
    "consumer_prune_idle must exceed block_ms" (
  refuse_if (high_watermark s <=? low_watermark s)
    "low_watermark must be below high_watermark" (
  check_ttl_covers s (job_timeout s)))))))).

(** The field constraints: gt, ge. *)
Definition pos (f : t -> Q) (n : string) (s : t) : bool * string := (Qlt_bool 0 (f s), n).
Definition nonneg (f : t -> Q) (n : string) (s : t) : bool * string := (Qle_bool 0 (f s), n).
Definition ge (z : Z) (f : t -> Z) (n : string) (s : t) : bool * string := (z <=? f s, n).

Definition fields (s : t) : list (bool * string) :=
  [pos socket_timeout "socket_timeout" s;
   pos socket_connect_timeout "socket_connect_timeout" s;
   nonneg health_check_interval "health_check_interval" s;
   ge 0 retry_attempts "retry_attempts" s;
   pos retry_backoff_base "retry_backoff_base" s;
   pos retry_backoff_cap "retry_backoff_cap" s;
   ge 1 concurrency "concurrency" s;
   ge 1 block_ms "block_ms" s;
   nonneg shutdown_grace "shutdown_grace" s;
   ge 1 process_pool_size "process_pool_size" s;
   pos job_timeout "job_timeout" s;
   pos visibility_timeout "visibility_timeout" s;
   pos heartbeat_interval "heartbeat_interval" s;
   pos reap_interval "reap_interval" s;
   ge 1 max_attempts "max_attempts" s;
   ge 1 max_deliveries "max_deliveries" s;
   ge 2 suspect_deliveries "suspect_deliveries" s;
   pos job_backoff_base "job_backoff_base" s;
   pos job_backoff_cap "job_backoff_cap" s;
   pos scheduler_interval "scheduler_interval" s;
   ge 1 scheduler_batch "scheduler_batch" s;
   pos consumer_prune_idle "consumer_prune_idle" s;
   pos consumer_prune_interval "consumer_prune_interval" s;
   ge 1 high_watermark "high_watermark" s;
   ge 0 low_watermark "low_watermark" s;
   nonneg block_timeout "block_timeout" s;
   pos block_poll_interval "block_poll_interval" s;
   ge 0 done_ttl_seconds "done_ttl_seconds" s;
   ge 1 idempotency_ttl_seconds "idempotency_ttl_seconds" s].

Fixpoint first_bad (l : list (bool * string)) : option string :=
  match l with
  | [] => None
  | (true, _) :: r => first_bad r
  | (false, n) :: _ => Some n
  end.

(** [Settings(...)] *)
Definition make (s : t) : result exn t :=
  match first_bad (fields s) with
  | Some n => Err (ValidationError n)
  | None => match _check s with Ok _ => Ok s | Err e => Err e end
  end.
End Settings.

(** ** What an accepted configuration guarantees *)
Lemma first_bad_none l : Settings.first_bad l = None -> Forall (fun x => x.1 = true) l.
Proof.
  induction l as [|[b n] l IH]; [constructor|]. cbn. destruct b; [|done].
  intros H. constructor; [done|by apply IH].
Qed.

Record accepted (s : Settings.t) : Prop := {
  acc_positive : Forall (fun x => x.1 = true) (Settings.fields s);
  acc_queue : _QUEUE_NAME (Settings.queue s) = true;
  acc_block : (inject_Z (Settings.block_ms s) / 1000 < Settings.socket_timeout s)%Q;
  acc_retry : (Settings.retry_backoff_base s <= Settings.retry_backoff_cap s)%Q;
  acc_job : (Settings.job_backoff_base s <= Settings.job_backoff_cap s)%Q;
  acc_beat : (3 * Settings.heartbeat_interval s <= Settings.visibility_timeout s)%Q;
  acc_prune : (inject_Z (Settings.block_ms s) < Settings.consumer_prune_idle s * 1000)%Q;
  acc_water : Settings.low_watermark s < Settings.high_watermark s;
  acc_ttl : Settings.done_ttl_seconds s = 0 \/
    (10 * Settings.job_lifetime_bound s <= inject_Z (Settings.done_ttl_seconds s))%Q;
}.

Lemma ttl_covers s timeout :
  Settings.check_ttl_covers s timeout = Ok tt <->
  Settings.done_ttl_seconds s = 0 \/
  (10 * Settings.lifetime_bound s timeout <= inject_Z (Settings.done_ttl_seconds s))%Q.
Proof.
  unfold Settings.check_ttl_covers, _TTL_MARGIN.
  destruct (Z.eqb_spec (Settings.done_ttl_seconds s) 0) as [Hz|Hz]; cbn [negb andb].
  - split; [by left|done].
  - destruct (Qlt_bool _ _) eqn:Hq.
    + apply Qlt_bool_iff in Hq. split; [done|]. intros [H|H]; [done|].
      exfalso. by apply Qlt_not_le in Hq.
    + apply Qlt_bool_false in Hq. split; [by right|done].
Qed.

Lemma refuse_ok b m k : Settings.refuse_if b m k = Ok tt <-> b = false /\ k = Ok tt.
Proof. destruct b; cbn; [by split; [|intros []]|by split; [|intros []]]. Qed.

Lemma make_accepted s s' : Settings.make s = Ok s' <-> s' = s /\ accepted s.
Proof.
  unfold Settings.make. destruct (Settings.first_bad _) eqn:Hb.
  { split; [done|]. intros [_ [Hp]]. exfalso. revert Hb. clear -Hp.
    induction Hp as [|[b m] l H _ IH]; [done|]. cbn in *. by subst. }
  apply first_bad_none in Hb. destruct (Settings._check s) as [[]|e] eqn:Hc.
  - split; [intros [= <-]|by intros [-> _]]. split; [done|].
    unfold Settings._check in Hc. rewrite !refuse_ok, ttl_covers in Hc.
    destruct Hc as (H1 & H2 & H3 & H4 & H5 & H6 & H7 & H8).
    split; try done; rewrite ?negb_false_iff in H1; try done.
    + apply Qnot_le_lt. intros Hl. apply Qle_bool_iff in Hl. congruence.
    + by apply Qlt_bool_false.
    + by apply Qlt_bool_false.
    + by apply Qlt_bool_false.
    + apply Qnot_le_lt. intros Hl. apply Qle_bool_iff in Hl. congruence.
    + by apply Z.leb_gt.
  - split; [done|]. intros [_ []]. exfalso. revert Hc.
    assert (Hok : Settings._check s = Ok tt); [|by rewrite Hok].
    unfold Settings._check. rewrite !refuse_ok, ttl_covers.
    repeat split; try done.
    + by rewrite acc_queue0.
    + destruct (Qle_bool _ _) eqn:Hl; [|done]. apply Qle_bool_iff in Hl.
      by apply Qle_not_lt in Hl.
    + by apply Qlt_bool_false.
    + by apply Qlt_bool_false.
    + by apply Qlt_bool_false.
    + destruct (Qle_bool (_ * _) _) eqn:Hl; [|done]. apply Qle_bool_iff in Hl.
      by apply Qle_not_lt in Hl.
    + by apply Z.leb_gt.
Qed.

(** ** How long copies of a job can keep being delivered *)

(** A job's history: for each attempt, how long each of its deliveries lasted and the
    retry delay after it. *)
Abbreviation history := (list (list Q * Q)).
Definition Qsum (l : list Q) : Q := foldr Qplus 0%Q l.
Definition lifetime (h : history) : Q := Qsum ((fun a => (Qsum a.1 + a.2)%Q) <$> h).

(** What the configuration limits: attempts, deliveries of one entry, the length of one
    delivery (its run times out, or its worker dies and the lease runs out), delays. *)
Definition within (s : Settings.t) (timeout : Q) (h : history) : Prop :=
  Z.of_nat (length h) <= Settings.max_attempts s /\
  Forall (fun a =>
    Z.of_nat (length a.1) <= Settings.max_deliveries s /\
    Forall (fun d => (d <= timeout + Settings.visibility_timeout s)%Q) a.1 /\
    (a.2 <= Settings.job_backoff_cap s)%Q) h.

Lemma Qsum_bound l b : Forall (fun d => (d <= b)%Q) l ->
  (Qsum l <= inject_Z (Z.of_nat (length l)) * b)%Q.
Proof.
  induction 1 as [|d l Hd _ IH].
  { change (0 <= 0 * b)%Q. lra. }
  cbn [Qsum foldr length].
  rewrite Nat2Z.inj_succ. unfold Z.succ. rewrite inject_Z_plus.
  change (foldr Qplus 0 l)%Q with (Qsum l). change (inject_Z 1) with 1%Q. lra.
Qed.

Lemma inject_le_mult n m b : n <= m -> (0 <= b)%Q -> (inject_Z n * b <= inject_Z m * b)%Q.
Proof. intros Hnm Hb. apply Qmult_le_compat_r; [by rewrite <- Zle_Qle|done]. Qed.

Lemma lifetime_bounded s timeout h :
  within s timeout h -> (0 <= timeout)%Q -> (0 <= Settings.visibility_timeout s)%Q ->
  (0 <= Settings.job_backoff_cap s)%Q -> 0 <= Settings.max_deliveries s ->
  (lifetime h <= Settings.lifetime_bound s timeout)%Q.
Proof.
  intros [Hn Hh] Ht Hv Hc Hd. unfold lifetime, Settings.lifetime_bound.
  set (per := (timeout + Settings.visibility_timeout s)%Q).
  assert (Hper : (0 <= per)%Q) by (unfold per; lra).
  assert (H0 : (0 <= inject_Z (Settings.max_deliveries s) * per)%Q).
  { apply Qmult_le_0_compat; [by rewrite <- (Zle_Qle 0)|done]. }
  set (att := (inject_Z (Settings.max_deliveries s) * per + Settings.job_backoff_cap s)%Q).
  assert (Hall : Forall (fun d => (d <= att)%Q) ((fun a => (Qsum a.1 + a.2)%Q) <$> h)).
  { apply Forall_fmap. eapply Forall_impl; [exact Hh|]. intros [ds w] (Hl & Hds & Hw).
    cbn [fst snd] in *. apply Qsum_bound in Hds.
    pose proof (inject_le_mult _ _ per Hl Hper). change (Qsum ds + w <= att)%Q.
    unfold att. fold per in Hds. lra. }
  apply Qsum_bound in Hall. rewrite length_fmap in Hall.
  eapply Qle_trans; [exact Hall|]. apply inject_le_mult; [done|]. unfold att. lra.
Qed.

Ltac open_fields H :=
  let Hp := fresh in
  pose proof (acc_positive _ H) as Hp; unfold Settings.fields in Hp;
  repeat (apply Forall_cons in Hp as [? Hp]); clear Hp;
  unfold Settings.pos, Settings.nonneg, Settings.ge in *; cbn [fst] in *;
  repeat match goal with
  | H : Qlt_bool _ _ = true |- _ => apply Qlt_bool_iff in H
  | H : Qle_bool _ _ = true |- _ => apply Qle_bool_iff in H
  | H : (_ <=? _) = true |- _ => apply Z.leb_le in H
  end.





(** ** Queue names *)
Lemma name_chars_brace s : name_chars s = true -> no_char "}" s = true.
Proof.
  induction s as [|c s IH]; [done|]. cbn [name_chars no_char]. intros [Hc Hs]%andb_prop.
  rewrite IH by done. by destruct c as [[] [] [] [] [] [] [] []].
Qed.

Lemma chop_brace s : no_char "}" (chop_newline s) = true -> no_char "}" s = true.
Proof.
  induction s as [|c s IH]; [done|]. destruct s as [|d s].
  - cbn. case_bool_decide; [by subst|done].
  - change (chop_newline (String c (String d s))) with (String c (chop_newline (String d s))).
    cbn [no_char]. intros [-> Hs]%andb_prop. by apply IH.
Qed.

Lemma queue_name_brace s : _QUEUE_NAME s = true -> no_char "}" s = true.
Proof.
  unfold _QUEUE_NAME, name_text. intros [H|H]%orb_prop.
  - apply andb_prop in H as [H _]. apply andb_prop in H as [H _]. by apply name_chars_brace.
  - apply andb_prop in H as [H _]. apply andb_prop in H as [H _].
    by apply chop_brace, name_chars_brace.
Qed.

(** C25: queues are isolated. Two accepted configurations with different queue names
    never share a Redis key, whatever jobs, idempotency keys and effects they name; and
    inside one queue, keys of different kinds or of different jobs never coincide. *)
Theorem queues_isolated (s1 s2 s1' s2' : Settings.t) (a b : qkey) :
  Settings.make s1 = Ok s1' -> Settings.make s2 = Ok s2' ->
  render (Keys.mk (Settings.queue s1')) a = render (Keys.mk (Settings.queue s2')) b ->
  Settings.queue s1' = Settings.queue s2' /\ a = b.
Proof.
  intros [-> H1]%make_accepted [-> H2]%make_accepted He.
  apply keys_disjoint in He as [Hq ->];
    [|apply queue_name_brace, acc_queue; done..].
  by injection Hq as ->.
Qed.

Lemma queues_isolated_witness :
  Settings.queue Settings.defaults = Settings.queue Settings.defaults /\ KDone "a" = KDone "a".
Proof.
  apply (queues_isolated Settings.defaults Settings.defaults Settings.defaults
           Settings.defaults (KDone "a") (KDone "a")); vm_compute; reflexivity.
Defined.

(** The pattern is anchored with [$], so a name followed by a newline is accepted. *)
Lemma queue_name_newline : _QUEUE_NAME ("jobs" +:+ String "010" EmptyString) = true.
Proof. reflexivity. Qed.
