(* ===== verification/Transitions.v ===== *)
(** The state changes a worker makes (src/ftq/transitions.py, scheduler.py, ledger.py):
    each method is one script call with its KEYS and ARGV, and a decoding of the reply. *)
From S2P Require Import Prelude Effects Redis Keys LuaScripts Json.
From S2P Require Import Py Models Config.

#[local] Open Scope string_scope.
#[local] Open Scope list_scope.
#[local] Open Scope Z_scope.
#[local] Open Scope prog_scope.

Inductive Outcome : Type := OK | LEASE_LOST | TERMINAL.
Inductive Commit : Type := DUPLICATE | COMMITTED | LATE_SUCCESS.
Inductive DeadReason : Type := MAX_ATTEMPTS | MAX_DELIVERIES | MALFORMED | UNKNOWN_TYPE.

#[export] Instance Outcome_eq_dec : EqDecision Outcome.
Proof. solve_decision. Defined.
#[export] Instance Commit_eq_dec : EqDecision Commit.
Proof. solve_decision. Defined.
#[export] Instance DeadReason_eq_dec : EqDecision DeadReason.
Proof. solve_decision. Defined.

(** [Outcome(x)] and [Commit(int(x))] *)
Definition outcome_of (x : string) : result exn Outcome :=
  if decide (x = "OK") then Ok OK
  else if decide (x = "LEASE_LOST") then Ok LEASE_LOST
  else if decide (x = "TERMINAL") then Ok TERMINAL
  else Err (ValueError "not a valid Outcome").
Definition commit_of (x : Z) : result exn Commit :=
  if x =? 0 then Ok DUPLICATE
  else if x =? 1 then Ok COMMITTED
  else if x =? 2 then Ok LATE_SUCCESS
  else Err (ValueError "not a valid Commit").

Definition reason_value (r : DeadReason) : string :=
  match r with
  | MAX_ATTEMPTS => "max_attempts"
  | MAX_DELIVERIES => "max_deliveries"
  | MALFORMED => "malformed"
  | UNKNOWN_TYPE => "unknown_type"
  end.

Definition flag (b : bool) : arg := Str (if b then "1" else "0").

(** ** transitions.py *)
Module Transitions.
Section Methods.
Context {S T : Type} (settings : Settings.t) (worker_id : string).

Definition keys : Keys.t := Keys.mk (Settings.queue settings).
Definition group_arg : arg := Str (Settings.group settings).

Definition commit (entry_id : eid) (job : Job) (result_json : string) : py S T Commit :=
  outcome <- script S_commit
    [Keys.stream keys; Keys.done keys (job_id job); Keys.results keys; Keys.stats keys;
     Keys.dead keys]
    [group_arg; Id entry_id; Str (job_id job); Str result_json;
     str (Settings.done_ttl_seconds settings); Str worker_id; str (enqueued_at_ms job)] ;;
  lift (commit_of outcome).

Definition heartbeat (entry_id : eid) : py S T Outcome :=
  outcome <- script S_heartbeat
    [Keys.stream keys; Keys.stats keys] [group_arg; Id entry_id; Str worker_id] ;;
  lift (outcome_of outcome).

Definition retry (entry_id : eid) (job : Job) (delay_s : Q) (timed_out : bool) :
    py S T Outcome :=
  outcome <- script S_retry
    [Keys.stream keys; Keys.delayed keys; Keys.done keys (job_id job); Keys.stats keys]
    [group_arg; Id entry_id; Str worker_id; str (attempt job + 1);
     str (int_of_Q (delay_s * 1000)); flag timed_out] ;;
  lift (outcome_of outcome).

Definition dead (entry_id : eid) (job_id : string) (reason : DeadReason) (error : string)
    (attempts : Z) (timed_out : bool) : py S T Outcome :=
  outcome <- script S_dead
    [Keys.stream keys; Keys.dead keys; Keys.done keys job_id; Keys.stats keys]
    [group_arg; Id entry_id; Str worker_id; Str job_id; Str (reason_value reason);
     Str error; str attempts; flag timed_out] ;;
  lift (outcome_of outcome).
End Methods.
End Transitions.

(** ** scheduler.py *)
Module Scheduler.
Section Methods.
Context {S T : Type} (settings : Settings.t).

Definition move_due : py S T Z :=
  let k := Keys.mk (Settings.queue settings) in
  script S_schedule [Keys.delayed k; Keys.stream k; Keys.stats k]
    [str (Settings.scheduler_batch settings)].
End Methods.
End Scheduler.

(** ** ledger.py *)
Module EffectLedger.
Record t := mk { keys : Keys.t; ttl_seconds : Z }.

Section Methods.
Context {S T : Type} (self : t).

(** [for name, value in fields.items(): args += [name, value]] *)
Fixpoint flat (fields : list (string * string)) : list string :=
  match fields with
  | [] => []
  | (name, value) :: r => name :: value :: flat r
  end.

Definition apply (effect_key : string) (fields : list (string * string)) : py S T bool :=
  applied <- script S_ledger
    [Keys.ledger (keys self) effect_key; Keys.effects (keys self); Keys.stats (keys self)]
    ([Str effect_key; str (ttl_seconds self)] ++ (Str <$> flat fields)) ;;
  Ret (applied =? 1).
End Methods.
End EffectLedger.

Lemma flat_even fields : even_length (EffectLedger.flat fields) = true.
Proof. by induction fields as [|[n x] r IH]. Qed.

(** ** The calls reach the scripts with their arguments in place *)
Section Wiring.
Context `{CJson}.
Context (settings : Settings.t) (w : string).
Abbreviation K := (Keys.mk (Settings.queue settings)).
Abbreviation G := (Settings.group settings).

(** [sends p s f]: the method [p] is the call of script [s] with the reply read by [f]. *)
Definition sends {S T A} {n : sname} (p : py S T A) (s : lua (reply n))
    (f : reply n -> result exn A) : Prop :=
  exists keys args, p = bind (script n keys args) (fun x => lift (f x)) /\
    lua_of n keys args = s.

Lemma commit_sends {S T} e j res :
  @sends S T _ S_commit (Transitions.commit settings w e j res)
    (commit_lua (Keys.stream K) (Keys.done K (job_id j)) (Keys.results K) (Keys.stats K)
       (Keys.dead K) G e (job_id j) res (Settings.done_ttl_seconds settings) w
       (str_of_Z (enqueued_at_ms j))) commit_of.
Proof. eexists _, _. split; [done|]. cbn [lua_of]. apply tonumber_str. Qed.

Lemma heartbeat_sends {S T} e :
  @sends S T _ S_heartbeat (Transitions.heartbeat settings w e)
    (heartbeat_lua (Keys.stream K) (Keys.stats K) G e w) outcome_of.
Proof. eexists _, _. by split. Qed.

Lemma retry_sends {S T} e j d t :
  @sends S T _ S_retry (Transitions.retry settings w e j d t)
    (retry_lua (Keys.stream K) (Keys.delayed K) (Keys.done K (job_id j)) (Keys.stats K)
       G e w (str_of_Z (attempt j + 1)) (int_of_Q (d * 1000)) (text_of (flag t))) outcome_of.
Proof. eexists _, _. split; [done|]. cbn [lua_of flag]. apply tonumber_str. Qed.

Lemma dead_sends {S T} e j reason error n t :
  @sends S T _ S_dead (Transitions.dead settings w e j reason error n t)
    (dead_lua (Keys.stream K) (Keys.dead K) (Keys.done K j) (Keys.stats K) G e w j
       (reason_value reason) error (str_of_Z n) (text_of (flag t))) outcome_of.
Proof. eexists _, _. by split. Qed.

Lemma move_due_calls :
  lua_of S_schedule [Keys.delayed K; Keys.stream K; Keys.stats K]
    [str (Settings.scheduler_batch settings)] =
  schedule_lua (Keys.delayed K) (Keys.stream K) (Keys.stats K)
    (Z.to_nat (Settings.scheduler_batch settings)).
Proof. cbn [lua_of str]. apply tonumber_str. Qed.

Lemma apply_calls self e fields :
  lua_of S_ledger
    [Keys.ledger (EffectLedger.keys self) e; Keys.effects (EffectLedger.keys self);
     Keys.stats (EffectLedger.keys self)]
    ([Str e; str (EffectLedger.ttl_seconds self)] ++ (Str <$> EffectLedger.flat fields)) =
  ledger_lua (Keys.ledger (EffectLedger.keys self) e) (Keys.effects (EffectLedger.keys self))
    (Keys.stats (EffectLedger.keys self)) e (EffectLedger.ttl_seconds self)
    (EffectLedger.flat fields).
Proof. cbn [lua_of str app]. rewrite tonumber_str. by rewrite text_of_str. Qed.
End Wiring.
