(* ===== verification/Registry.v ===== *)
(** The handler registry (src/ftq/registry.py) and the retry delays
    (src/ftq/backoff.py).

    A handler is a parameter of a deployment: an async one is a coroutine, a sync one a
    plain function. [fn] also carries the two names the registry and the worker look
    at, where the function was defined. *)
From S2P Require Import Prelude Effects Redis Keys LuaScripts Json.
From S2P Require Import Py Models Config Transitions.
From Stdlib Require Import Lqa.

#[local] Open Scope string_scope.
#[local] Open Scope list_scope.
#[local] Open Scope Z_scope.
#[local] Open Scope prog_scope.

(** ** registry.py *)
Record JobContext := mk_JobContext {
  ctx_job : Job;
  ctx_ledger : EffectLedger.t;
  ctx_worker_id : string;
}.

Inductive Pool : Type := thread | process.
#[export] Instance Pool_eq_dec : EqDecision Pool.
Proof. solve_decision. Defined.

Section Registry.
Context {S T : Type}.

Record AsyncHandler := mk_async { async_fn : JobContext -> py S T json }.
Record SyncHandler := mk_sync {
  sync_fn : Job -> result exn json; qualname : string; module : string }.

Inductive HandlerSpec : Type :=
  | AsyncSpec (fn : AsyncHandler) (heartbeat : bool) (timeout : option Q)
  | SyncSpec (fn : SyncHandler) (pool : Pool) (heartbeat : bool) (timeout : option Q).

Definition spec_heartbeat (s : HandlerSpec) : bool :=
  match s with AsyncSpec _ h _ | SyncSpec _ _ h _ => h end.
Definition spec_timeout (s : HandlerSpec) : option Q :=
  match s with AsyncSpec _ _ t | SyncSpec _ _ _ t => t end.

#[local] Abbreviation Registry := (gmap string HandlerSpec).

Definition _check_timeout (timeout : option Q) : result exn unit :=
  match timeout with
  | Some t => if negb (Qlt_bool 0 t) then Err (ValueError "timeout must be positive") else Ok tt
  | None => Ok tt
  end.

Definition _add (r : Registry) (job_type : string) (spec : HandlerSpec) : result exn Registry :=
  match r !! job_type with
  | Some _ => Err (ValueError ("handler is already registered: " +:+ job_type))
  | None => Ok (<[job_type := spec]> r)
  end.

Fixpoint contains (c : ascii) (s : string) : bool :=
  match s with
  | EmptyString => false
  | String d r => bool_decide (c = d) || contains c r
  end.

Definition register (r : Registry) (job_type : string) (heartbeat : bool)
    (timeout : option Q) (fn : AsyncHandler) : result exn Registry :=
  match _check_timeout timeout with
  | Err e => Err e
  | Ok _ => _add r job_type (AsyncSpec fn heartbeat timeout)
  end.

Definition register_sync (r : Registry) (job_type : string) (pool : Pool)
    (heartbeat : bool) (timeout : option Q) (fn : SyncHandler) : result exn Registry :=
  match _check_timeout timeout with
  | Err e => Err e
  | Ok _ =>
      if bool_decide (pool = process) && contains "<" (qualname fn)
      then Err (ValueError "process-pool handler must be a module-level function")
      else _add r job_type (SyncSpec fn pool heartbeat timeout)
  end.

Definition get (r : Registry) (job_type : string) : option HandlerSpec := r !! job_type.

Definition types (r : Registry) : list string := merge_sort String.le (map_to_list r).*1.

Definition specs (r : Registry) : list (string * HandlerSpec) := map_to_list r.

(** A registry built by registrations alone. *)
Inductive registered : Registry -> Prop :=
  | reg_empty : registered ∅
  | reg_async r r' t h o fn : registered r -> register r t h o fn = Ok r' -> registered r'
  | reg_sync r r' t p h o fn : registered r -> register_sync r t p h o fn = Ok r' ->
      registered r'.

(** What a registry guarantees to the worker: positive timeouts, and process handlers
    that a child can import by name. *)
Definition spec_ok (s : HandlerSpec) : Prop :=
  (forall t, spec_timeout s = Some t -> (0 < t)%Q) /\
  (forall fn h o, s = SyncSpec fn process h o -> contains "<" (qualname fn) = false).

Lemma add_ok r r' t s : _add r t s = Ok r' -> r !! t = None /\ r' = <[t := s]> r.
Proof. unfold _add. destruct (r !! t); [done|]. by intros [= <-]. Qed.

Lemma check_timeout_ok o : _check_timeout o = Ok tt -> forall t, o = Some t -> (0 < t)%Q.
Proof.
  intros Hc t ->. cbn in Hc. destruct (Qlt_bool 0 t) eqn:Hl; [|done]. by apply Qlt_bool_iff.
Qed.

Lemma registered_specs r : registered r -> forall t s, r !! t = Some s -> spec_ok s.
Proof.
  induction 1 as [|r r' t h o fn Hr IH He|r r' t p h o fn Hr IH He]; intros t' s Hl.
  - by rewrite lookup_empty in Hl.
  - unfold register in He. destruct (_check_timeout o) as [[]|] eqn:Hc; [|done].
    apply add_ok in He as [_ ->]. apply lookup_insert_Some in Hl as [[_ <-]|[_ Hl]]; [|eauto].
    split; [|done]. by apply check_timeout_ok.
  - unfold register_sync in He. destruct (_check_timeout o) as [[]|] eqn:Hc; [|done].
    destruct (bool_decide (p = process) && contains "<" (qualname fn)) eqn:Hb; [done|].
    apply add_ok in He as [_ ->]. apply lookup_insert_Some in Hl as [[_ <-]|[_ Hl]]; [|eauto].
    split; [by apply check_timeout_ok|]. intros fn' h' o' [= -> -> -> ->].
    by rewrite bool_decide_true in Hb.
Qed.
End Registry.
Arguments HandlerSpec S T : clear implicits.
Arguments AsyncHandler S T : clear implicits.

Abbreviation Registry S T := (gmap string (HandlerSpec S T)).

(** Registration. Whatever sequence of registrations built a registry, every handler
    in it has a positive timeout if it has one of its own, and every process-pool handler
    is importable by name; registering a type keeps every earlier handler, makes the new
    one the answer of [get], adds exactly that type to [types], and a type can be
    registered only once. *)
Theorem registry_sound {S T} (r r' : Registry S T) (t : string) (h : bool) (o : option Q) fn :
  registered r -> register r t h o fn = Ok r' ->
  (forall t' s, get r' t' = Some s -> spec_ok s) /\
  get r t = None /\ get r' t = Some (AsyncSpec fn h o) /\
  (forall t', t' <> t -> get r' t' = get r t') /\
  Permutation (types r') (t :: types r) /\
  (forall h' o' fn', is_ok (register r' t h' o' fn') = false).
Proof.
  intros Hr He. split; [apply registered_specs; by eapply reg_async|].
  unfold register in He. destruct (_check_timeout o) as [[]|]; [|done].
  apply add_ok in He as [Hn ->]. split; [done|].
  split; [by unfold get; rewrite lookup_insert_eq|].
  split; [by intros t' Hne; unfold get; rewrite lookup_insert_ne|]. split.
  - unfold types. rewrite !merge_sort_Permutation, map_to_list_insert by done. done.
  - intros h' o' fn'. unfold register. destruct (_check_timeout o'); [|done].
    unfold _add. by rewrite lookup_insert_eq.
Qed.

Definition handler0 : AsyncHandler unit unit := mk_async (fun _ => Ret JNull).

Lemma registry_sound_witness : exists r1 : Registry unit unit,
  register ∅ "a" true None handler0 = Ok r1 /\ Permutation (types r1) ["a"].
Proof.
  exists {["a" := AsyncSpec handler0 true None]}. split; [reflexivity|].
  destruct (registry_sound (S := unit) (T := unit) ∅ {["a" := AsyncSpec handler0 true None]}
    "a" true None handler0) as (_ & _ & _ & _ & Ht & _); [apply reg_empty|reflexivity|].
  exact Ht.
Defined.

(** ** backoff.py *)
Definition _MAX_EXPONENT : Z := 62.

Definition backoff_bound (attempt : Z) (base cap : Q) : result exn Q :=
  if attempt <? 0 then Err (ValueError "attempt must be >= 0")
  else Ok (Qmin cap (base * inject_Z (2 ^ Z.min attempt _MAX_EXPONENT))%Q).

Definition full_jitter_delay {S T} (attempt : Z) (base cap : Q) : py S T Q :=
  b <- lift (backoff_bound attempt base cap) ;; uniform 0 b.

Lemma pow2_mono a b : 0 <= a <= b ->
  (inject_Z (2 ^ Z.min a _MAX_EXPONENT) <= inject_Z (2 ^ Z.min b _MAX_EXPONENT))%Q.
Proof. intros H. rewrite <- Zle_Qle. apply Z.pow_le_mono_r; lia. Qed.

(** What [random.uniform(a, b)] promises for [a <= b]. *)
Definition uniform_ok (a b x : Q) : Prop := (a <= b)%Q -> (a <= x <= b)%Q.

(** Retry delays. For every attempt number the delay bound exists, is positive, never
    exceeds the cap, never shrinks from one attempt to the next, is exactly
    [base * 2^attempt] while that is under the cap, and is the cap from the attempt
    where it is reached; a drawn delay lies between zero and the bound; a negative
    attempt number is refused. *)
Theorem backoff_sound (attempt next : Z) (base cap x : Q) :
  (0 < base)%Q -> (base <= cap)%Q -> 0 <= attempt <= next ->
  exists b b', backoff_bound attempt base cap = Ok b /\ backoff_bound next base cap = Ok b' /\
    (0 < b)%Q /\ (b <= b')%Q /\ (b' <= cap)%Q /\
    (attempt <= 62 -> (base * inject_Z (2 ^ attempt) <= cap)%Q ->
       (b == base * inject_Z (2 ^ attempt))%Q) /\
    ((cap <= base * inject_Z (2 ^ Z.min attempt 62))%Q -> (b == cap)%Q) /\
    (uniform_ok 0 b x -> (0 <= x <= cap)%Q) /\
    is_ok (backoff_bound (-1 - attempt) base cap) = false.
Proof.
  intros Hb Hc Ha. unfold backoff_bound.
  rewrite !(proj2 (Z.ltb_ge _ _)), (proj2 (Z.ltb_lt (-1 - attempt) 0)) by lia.
  eexists _, _. split; [done|]. split; [done|].
  assert (Hp : (0 < inject_Z (2 ^ Z.min attempt _MAX_EXPONENT))%Q).
  { change 0%Q with (inject_Z 0). rewrite <- Zlt_Qlt. apply Z.pow_pos_nonneg; [lia|].
    unfold _MAX_EXPONENT. lia. }
  pose proof (pow2_mono _ _ Ha) as Hm. unfold _MAX_EXPONENT in *.
  set (p := inject_Z (2 ^ Z.min attempt 62)) in *.
  set (p' := inject_Z (2 ^ Z.min next 62)) in *.
  assert (Hq : (0 < base * p)%Q) by (by apply Qmult_lt_0_compat).
  assert (Hbp : (base * p <= base * p')%Q).
  { rewrite !(Qmult_comm base). apply Qmult_le_compat_r; [done|lra]. }
  assert (Hpos : (0 < Qmin cap (base * p))%Q).
  { apply Q.min_glb_lt; [lra|done]. }
  assert (Hcap : (Qmin cap (base * p) <= cap)%Q) by apply Q.le_min_l.
  split; [done|]. split; [by apply Q.min_le_compat_l|]. split; [apply Q.le_min_l|].
  split; [|split; [|split; [|done]]].
  - intros H62 Hle. rewrite Q.min_r; unfold p; by rewrite Z.min_l.
  - intros Hle. by apply Q.min_l.
  - intros Hx. destruct Hx as [Hx1 Hx2]; [lra|]. lra.
Qed.

Lemma backoff_sound_witness : exists b b',
  backoff_bound 3 1 300 = Ok b /\ backoff_bound 9 1 300 = Ok b' /\ (b <= b')%Q /\ (b' <= 300)%Q.
Proof.
  destruct (backoff_sound 3 9 1 300 0) as (b & b' & H1 & H2 & _ & H3 & H4 & _);
    [reflexivity|discriminate|lia|].
  exists b, b'. done.
Defined.
