(* ===== verification/Handlers.v ===== *)
(** The built-in handlers (src/ftq/handlers/): what each does to a job, and the registry
    they are put in.

    Payload numbers are read with [int()] and [float()] on the values JSON can hold; a
    float is an exact rational. SHA-256 and the text Python prints for a float, a list
    or a dictionary are the language's: parameters. *)
From S2P Require Import Prelude Effects Redis Keys LuaScripts Json Fields.
From S2P Require Import Py Models Config Transitions Registry.

#[local] Open Scope string_scope.
#[local] Open Scope list_scope.
#[local] Open Scope Z_scope.
#[local] Open Scope prog_scope.

(** ** Reading payload values *)

(** [payload.get(name, default)] *)
Fixpoint get_item (name : string) (d : list (string * json)) (default : json) : json :=
  match d with
  | [] => default
  | (n, v) :: r => if decide (n = name) then v else get_item name r default
  end.

(** The value of a numeral: digits, a fraction, an exponent. *)
Fixpoint frac_value (s : string) : option (Z * Z) :=       (* numerator, power of ten *)
  match s with
  | EmptyString => Some (0, 1)
  | String c r =>
      d ← digit_val c; '(n, p) ← frac_value r; Some (d * p + n, 10 * p)
  end.

Definition pow10 (e : Z) : Q :=
  if 0 <=? e then inject_Z (10 ^ e) else (1 / inject_Z (10 ^ (- e)))%Q.

Definition Q_of_numeral (s : string) : option Q :=
  let '(sg, r0) := get_sign s in
  '(i, r1) ← get_whole r0;
  let '(f, r2) := get_frac r1 in
  let '(e, r3) := get_exp r2 in
  w ← digits i 0;
  '(n, p) ← frac_value (match f with String _ f' => f' | EmptyString => f end);
  x ← (match e with
       | EmptyString => Some 0
       | String _ (String "+" e') => int_of_str e'
       | String _ e' => int_of_str e'
       end);
  match r3 with
  | EmptyString =>
      let m := (inject_Z w + inject_Z n / inject_Z p)%Q in
      let v := (m * pow10 x)%Q in
      Some (if decide (sg = "-") then (- v)%Q else v)
  | _ => None
  end.

(** [int(x)] *)
Definition int_of_json (j : json) : result exn Z :=
  match j with
  | JInt z => Ok z
  | JBool b => Ok (Z.b2z b)
  | JFloat t => match Q_of_numeral t with
                | Some q => Ok (int_of_Q q)
                | None => Err (ValueError "cannot convert float to integer")
                end
  | JStr s => to_int s
  | JNull | JArr _ | JObj _ => Err (TypeError "int() argument must be a string or a real number")
  end.

(** [float(x)], on texts that are numerals. *)
Definition float_of_json (j : json) : result exn Q :=
  match j with
  | JInt z => Ok (inject_Z z)
  | JBool b => Ok (inject_Z (Z.b2z b))
  | JFloat t | JStr t =>
      match Q_of_numeral t with
      | Some q => Ok q
      | None => match to_int t with
                | Ok z => Ok (inject_Z z)
                | Err _ => Err (ValueError "could not convert string to float")
                end
      end
  | JNull | JArr _ | JObj _ => Err (TypeError "float() argument must be a string or a real number")
  end.

Definition HANG_TIMEOUT : Q := 2.

(** [InjectedFailure] *)
Definition InjectedFailure (message : string) : exn := HandlerError "InjectedFailure" message.

Section Handlers.
Context {S T : Type}.
Context (sha256 : string -> string) (hex : string -> string) (repr : json -> string).
Abbreviation co := (py S T).

Definition item (ctx : JobContext) (name : string) (default : json) : json :=
  get_item name (payload (ctx_job ctx)) default.
Definition own_key (prefix : string) (ctx : JobContext) : string :=
  prefix +:+ job_id (ctx_job ctx).
Definition apply_own (prefix : string) (ctx : JobContext) (fields : list (string * string)) :
    co bool := EffectLedger.apply (ctx_ledger ctx) (own_key prefix ctx) fields.

(** [str(x)] *)
Definition str_of_json (j : json) : string :=
  match j with
  | JStr s => s
  | JInt z => str_of_Z z
  | JBool true => "True"
  | JBool false => "False"
  | JNull => "None"
  | _ => repr j
  end.

(** *** send_email.py *)
Definition send_email (ctx : JobContext) : co json :=
  let to := str_of_json (item ctx "to" (JStr "user@example.com")) in
  latency_ms <- lift (int_of_json (item ctx "latency_ms" (JInt 0))) ;;
  (if 0 <? latency_ms then sleep (inject_Z latency_ms / 1000)%Q else Ret tt) ;;;
  sent <- apply_own "send_email:" ctx [("to", to)] ;;
  Ret (JObj [("to", JStr to); ("sent_now", JBool sent)]).

(** *** cpu_task.py *)
Definition cpu_task (job : Job) : result exn json :=
  rounds <-! int_of_json (get_item "rounds" (payload job) (JInt 1000)) ;;
  let digest := Nat.iter (Z.to_nat rounds) sha256 (job_id job) in
  Ok (JObj [("rounds", JInt rounds); ("digest", JStr (hex digest))]).

(** *** faults.py *)
Definition flaky (ctx : JobContext) : co json :=
  fail_times <- lift (int_of_json (item ctx "fail_times" (JInt 1))) ;;
  if attempt (ctx_job ctx) <? fail_times then
    Raise (InjectedFailure ("flaky: attempt " +:+ str_of_Z (attempt (ctx_job ctx)) +:+
                            " < fail_times " +:+ str_of_Z fail_times))
  else
    applied <- apply_own "flaky:" ctx [] ;;
    Ret (JObj [("attempt", JInt (attempt (ctx_job ctx))); ("applied_now", JBool applied)]).

Definition poison (ctx : JobContext) : co json :=
  Raise (InjectedFailure "poison: this job always fails").

Definition crashy (ctx : JobContext) : co json :=
  code <- lift (int_of_json (item ctx "exit_code" (JInt 70))) ;;
  x <- call (EExit code) ;;
  match x : Empty_set with end.

Definition slow (ctx : JobContext) : co json :=
  seconds <- lift (float_of_json (item ctx "seconds" (JFloat "1.0"))) ;;
  sleep seconds ;;;
  applied <- apply_own "slow:" ctx [] ;;
  Ret (JObj [("applied_now", JBool applied)]).

Definition _hangs (job : Job) : result exn bool :=
  n <-! int_of_json (get_item "hang_attempts" (payload job) (JInt 1)) ;;
  Ok (attempt job <? n).

Definition _hang_seconds (job : Job) : result exn Q :=
  float_of_json (get_item "hang_seconds" (payload job) (JFloat "30.0")).

Definition hang (ctx : JobContext) : co json :=
  hangs <- lift (_hangs (ctx_job ctx)) ;;
  (if hangs : bool then d <- lift (_hang_seconds (ctx_job ctx)) ;; sleep d else Ret tt) ;;;
  applied <- apply_own "hang:" ctx [] ;;
  Ret (JObj [("attempt", JInt (attempt (ctx_job ctx))); ("applied_now", JBool applied)]).

(** The two blocking ones: how long [time.sleep] keeps the thread or child is not seen. *)
Definition hang_blocking (job : Job) : result exn json :=
  hangs <-! _hangs job ;;
  _ <-! (if hangs : bool then d <-! _hang_seconds job ;; Ok tt else Ok tt) ;;
  Ok (JObj [("attempt", JInt (attempt job))]).
Definition hang_thread (job : Job) : result exn json := hang_blocking job.
Definition hang_process (job : Job) : result exn json := hang_blocking job.

(** *** handlers/__init__.py *)
Definition in_module (module name : string) (fn : Job -> result exn json) : SyncHandler :=
  mk_sync fn name ("ftq.handlers." +:+ module).

Definition registry : result exn (Registry S T) :=
  r <-! register ∅ "send_email" true None (mk_async send_email) ;;
  r <-! register_sync r "cpu_task" process true None (in_module "cpu_task" "cpu_task" cpu_task) ;;
  r <-! register r "flaky" true None (mk_async flaky) ;;
  r <-! register r "poison" true None (mk_async poison) ;;
  r <-! register r "crashy" true None (mk_async crashy) ;;
  r <-! register r "slow" false None (mk_async slow) ;;
  r <-! register r "hang" true (Some HANG_TIMEOUT) (mk_async hang) ;;
  r <-! register_sync r "hang_thread" thread true (Some HANG_TIMEOUT)
          (in_module "faults" "hang_thread" hang_thread) ;;
  register_sync r "hang_process" process true (Some HANG_TIMEOUT)
    (in_module "faults" "hang_process" hang_process).

(** What the registrations leave. *)
Definition listed : list (string * HandlerSpec S T) :=
  [("hang_process", SyncSpec (in_module "faults" "hang_process" hang_process) process true
                      (Some HANG_TIMEOUT));
   ("hang_thread", SyncSpec (in_module "faults" "hang_thread" hang_thread) thread true
                     (Some HANG_TIMEOUT));
   ("hang", AsyncSpec (mk_async hang) true (Some HANG_TIMEOUT));
   ("slow", AsyncSpec (mk_async slow) false None);
   ("crashy", AsyncSpec (mk_async crashy) true None);
   ("poison", AsyncSpec (mk_async poison) true None);
   ("flaky", AsyncSpec (mk_async flaky) true None);
   ("cpu_task", SyncSpec (in_module "cpu_task" "cpu_task" cpu_task) process true None);
   ("send_email", AsyncSpec (mk_async send_email) true None)].

Lemma registry_listed : registry = Ok (list_to_map listed).
Proof. reflexivity. Qed.

Lemma registry_registered r : registry = Ok r -> registered r.
Proof.
  intros [= <-].
  apply (reg_sync (list_to_map (drop 1 listed)) _ "hang_process" process true (Some HANG_TIMEOUT)
    (in_module "faults" "hang_process" hang_process)); [|reflexivity].
  apply (reg_sync (list_to_map (drop 2 listed)) _ "hang_thread" thread true (Some HANG_TIMEOUT)
    (in_module "faults" "hang_thread" hang_thread)); [|reflexivity].
  apply (reg_async (list_to_map (drop 3 listed)) _ "hang" true (Some HANG_TIMEOUT)
    (mk_async hang)); [|reflexivity].
  apply (reg_async (list_to_map (drop 4 listed)) _ "slow" false None (mk_async slow)); [|reflexivity].
  apply (reg_async (list_to_map (drop 5 listed)) _ "crashy" true None (mk_async crashy)); [|reflexivity].
  apply (reg_async (list_to_map (drop 6 listed)) _ "poison" true None (mk_async poison)); [|reflexivity].
  apply (reg_async (list_to_map (drop 7 listed)) _ "flaky" true None (mk_async flaky)); [|reflexivity].
  apply (reg_sync (list_to_map (drop 8 listed)) _ "cpu_task" process true None
    (in_module "cpu_task" "cpu_task" cpu_task)); [|reflexivity].
  apply (reg_async ∅ _ "send_email" true None (mk_async send_email)); [apply reg_empty|reflexivity].
Qed.

Lemma registry_get r t s : registry = Ok r -> get r t = Some s -> (t, s) ∈ listed.
Proof.
  rewrite registry_listed. intros Hr Hg. assert (r = list_to_map listed) as -> by congruence.
  apply elem_of_list_to_map_2. exact Hg.
Qed.

(** Every async handler of the registry is one of these. *)
Definition is_async (fn : JobContext -> co json) : Prop :=
  fn = send_email \/ fn = flaky \/ fn = poison \/ fn = crashy \/ fn = slow \/ fn = hang.

Lemma registry_async r t fn h o :
  registry = Ok r -> get r t = Some (AsyncSpec fn h o) -> is_async (async_fn fn).
Proof.
  intros Hr Hg. apply (registry_get r) in Hg; [|done]. unfold is_async.
  unfold listed in Hg. rewrite !elem_of_cons in Hg.
  repeat (destruct Hg as [Hg|Hg]; [simplify_eq; cbn; tauto|]).
  by apply elem_of_nil in Hg.
Qed.
End Handlers.
