(* ===== verification/Reaper.v ===== *)
(** The reaper's calls (src/ftq/reaper.py) and the dead-letter queue's operations
    (src/ftq/dlq.py).

    The reaper's cursor is part of the state of the worker that owns it: [HasCursor] is
    all the reaper asks of that state. *)
From S2P Require Import Prelude Effects Redis Keys LuaScripts Json.
From S2P Require Import Fields Py Models Config Transitions.

#[local] Open Scope string_scope.
#[local] Open Scope list_scope.
#[local] Open Scope Z_scope.
#[local] Open Scope prog_scope.

(** ** reaper.py *)
Class HasCursor (S : Type) := {
  cursor : S -> eid;
  set_cursor : eid -> S -> S;
  cursor_set : forall i s, cursor (set_cursor i s) = i;
}.

#[export] Instance cursor_alone : HasCursor eid.
Proof. by exists (fun s => s) (fun i _ => i). Defined.

Record Claimed := mk_Claimed {
  entry_id : eid;
  claimed_fields : list string;
  claim_count : Z;                     (* [deliveries] in the source *)
}.

Definition is_suspect (c : Claimed) (settings : Settings.t) : bool :=
  (Settings.suspect_threshold settings <=? claim_count c) &&
  (claim_count c <=? Settings.max_deliveries settings).

(** [dict(zip(flat[::2], flat[1::2], strict=True))]: the dictionary stays flat. *)
Definition _pairs (flat : list string) : result exn (list string) :=
  if even_length flat then Ok flat
  else Err (ValueError "zip() argument 2 is shorter than argument 1").

(** The list of claimed entries of a reply. *)
Fixpoint claimed_of (l : list claimed_entry) : result exn (list Claimed) :=
  match l with
  | [] => Ok []
  | (i, flat, n) :: r =>
      fs <-! _pairs flat ;; cs <-! claimed_of r ;; Ok (mk_Claimed i fs n :: cs)
  end.

Module Reaper.
Section Methods.
Context {S T : Type} `{HasCursor S} (settings : Settings.t) (worker_id : string).

Definition keys : Keys.t := Keys.mk (Settings.queue settings).

Definition reclaim (count suspect_slots : Z) : py S T (list Claimed * bool) :=
  start <- call (ESelf (fun s => (cursor s, s))) ;;
  reply <- script S_reclaim
    [Keys.stream keys; Keys.stats keys; Keys.reclaims keys]
    [Str (Settings.group settings); Str worker_id;
     str (int_of_Q (Settings.visibility_timeout settings * 1000));
     Id start; str count; str suspect_slots; str (Settings.suspect_threshold settings);
     str (Settings.max_deliveries settings)] ;;
  let '(next, claimed, deleted) := reply in
  update (set_cursor next) ;;;
  (if bool_decide (deleted = []) then Ret tt
   else log_line ERROR ("reaper found pending entries with no stream data: " +:+
                        str_of_Z (Z.of_nat (length deleted)))) ;;;
  cs <- lift (claimed_of claimed) ;;
  Ret (cs, negb (bool_decide (next = (0, 0)))).

Definition prune_consumers : py S T (list string) :=
  script S_prune [Keys.stream keys; Keys.stats keys]
    [Str (Settings.group settings);
     str (int_of_Q (Settings.consumer_prune_idle settings * 1000)); Str worker_id].
End Methods.
End Reaper.

(** ** dlq.py *)
Definition _PAGE : nat := 100.

Record DeadJob := mk_DeadJob {
  dlq_entry_id : eid;
  dead_job_id : string;
  dead_type : string;
  dead_reason : string;
  dead_error : string;
  dead_attempts : Z;
  dead_deliveries : Z;
  dead_at_ms : Z;
}.

Definition from_entry (e : eid) (fs : list string) : result exn DeadJob :=
  j <-! need "dlq_job_id" fs ;;
  let t := default "" (field "type" fs) in
  r <-! need "dlq_reason" fs ;;
  x <-! need "dlq_error" fs ;;
  a0 <-! need "dlq_attempts" fs ;;
  a <-! to_int a0 ;;
  d0 <-! need "dlq_deliveries" fs ;;
  d <-! to_int d0 ;;
  t0 <-! need "dlq_dead_at_ms" fs ;;
  ms <-! to_int t0 ;;
  Ok (mk_DeadJob e j t r x a d ms).

(** [[f(x) for x in l]] with [f] raising. *)
Fixpoint collect {A B} (f : A -> result exn B) (l : list A) : result exn (list B) :=
  match l with
  | [] => Ok []
  | x :: r => y <-! f x ;; ys <-! collect f r ;; Ok (y :: ys)
  end.

Section Dlq.
Context {S T : Type} (keys : Keys.t).

Definition list_dead (limit : nat) : py S T (list DeadJob) :=
  reply <- redis (XRANGE (Keys.dead keys) BMin BMax (Some limit)) ;;
  lift (collect (fun e => from_entry e.1 e.2) reply).

Definition requeue (job_id : string) : py S T bool :=
  requeued <- script S_requeue
    [Keys.dead keys; Keys.stream keys; Keys.done keys job_id; Keys.stats keys]
    [Str job_id] ;;
  Ret (requeued =? 1).

(** One page of the sweep: [start], the last id of the page before, and the total. *)
Definition requeue_page (end_ : eid) (st : bound * Z) : py S T ((bound * Z) + Z) :=
  let '(start, total) := st in
  page <- redis (XRANGE (Keys.dead keys) start (BIncl end_) (Some _PAGE)) ;;
  match last page with
  | None => Ret (inr total)
  | Some l =>
      total <- for_each page (fun e total =>
          j <- lift (need "dlq_job_id" e.2) ;;
          ok <- requeue j ;;
          Ret (total + Z.b2z ok)) total ;;
      Ret (inl (BExcl l.1, total))
  end.

(** [inl]: still going after [fuel] pages. *)
Definition requeue_all (fuel : nat) : py S T ((bound * Z) + Z) :=
  last <- redis (XREVRANGE (Keys.dead keys) 1) ;;
  match last with
  | [] => Ret (inr 0)
  | e :: _ => loop fuel (requeue_page e.1) (BMin, 0)
  end.
End Dlq.
