(* ===== verification/Client.v ===== *)
(** The producer (src/ftq/client.py): [enqueue] and [enqueue_many], with backpressure.

    The coroutine's object state is the producer's counters. The poll loop of block mode
    takes fuel; [inl] is the answer "still polling". *)
From S2P Require Import Prelude Effects Redis Keys LuaScripts Json.
From S2P Require Import Py Models Config Transitions Registry.
From Stdlib Require Import Lqa.

#[local] Open Scope string_scope.
#[local] Open Scope list_scope.
#[local] Open Scope Z_scope.
#[local] Open Scope prog_scope.

Definition _ADDED : Z := 1.
Definition _FULL : Z := -1.

Record NewJob := mk_NewJob {
  new_type : string;
  new_payload : list (string * json);
  new_key : option string;             (* [idempotency_key] in the source *)
}.

Record ProducerCounters := mk_counters {
  accepted : Z;
  duplicates : Z;
  rejected : Z;
  blocked : Z;
  blocked_seconds : Q;
}.

Definition count_accepted (c : ProducerCounters) : ProducerCounters :=
  mk_counters (accepted c + 1) (duplicates c) (rejected c) (blocked c) (blocked_seconds c).
Definition count_duplicate (c : ProducerCounters) : ProducerCounters :=
  mk_counters (accepted c) (duplicates c + 1) (rejected c) (blocked c) (blocked_seconds c).
Definition count_rejected (n : Z) (c : ProducerCounters) : ProducerCounters :=
  mk_counters (accepted c) (duplicates c) (rejected c + n) (blocked c) (blocked_seconds c).
Definition count_blocked (n : Z) (c : ProducerCounters) : ProducerCounters :=
  mk_counters (accepted c) (duplicates c) (rejected c) (blocked c + n) (blocked_seconds c).
Definition count_blocked_for (t : Q) (c : ProducerCounters) : ProducerCounters :=
  mk_counters (accepted c) (duplicates c) (rejected c) (blocked c) (blocked_seconds c + t).

(** KEYS and ARGV of one job's call. *)
Abbreviation enq_call := (list string * list arg)%type.

(** What the loop of [enqueue_many] carries. *)
Record enq_state := mk_enq {
  pending : list (nat * enq_call);     (* the dictionary, in insertion order *)
  answers : list (option string);      (* [accepted] in the source *)
  waited : bool;
}.

Module Client.
Section Methods.
Context {T : Type} (settings : Settings.t).
Abbreviation co := (py ProducerCounters T).

Definition keys : Keys.t := Keys.mk (Settings.queue settings).

Definition _args (new : NewJob) : co enq_call :=
  id <- call EUuid ;;
  let idem := default "" (new_key new) in
  job <- lift (new_job id (new_type new) (JObj (new_payload new)) 0 idem 0) ;;
  let ks := [Keys.stream keys; Keys.delayed keys; Keys.full keys; Keys.stats keys] ++
            (if decide (idem = "") then [] else [Keys.idem keys idem]) in
  Ret (ks, [Str (job_id job); str (Settings.idempotency_ttl_seconds settings);
            str (Settings.high_watermark settings); str (Settings.low_watermark settings)] ++
           (Str <$> to_fields job)).

Definition argv (count_as : string) (args : list arg) : list arg :=
  take 4 args ++ [Str count_as] ++ drop 4 args.

Definition _send (calls : list enq_call) (count_as : string) : co (list (string * Z * Z)) :=
  let one c := script S_enqueue c.1 (argv count_as c.2) in
  match calls with
  | [c] => r <- one c ;; Ret [r]
  | _ => pipe (one <$> calls)
  end.

(** The [for] over the replies: what stays pending, the answers, the last depth seen. *)
Fixpoint settle_replies (ps : list (nat * enq_call)) (rs : list (string * Z * Z))
    (kept : list (nat * enq_call)) (acc : list (option string)) (depth : Z) :
    co (list (nat * enq_call) * list (option string) * Z) :=
  match ps, rs with
  | p :: ps', (id, status, d) :: rs' =>
      if status =? _FULL then settle_replies ps' rs' (kept ++ [p]) acc d
      else
        update (if status =? _ADDED then count_accepted else count_duplicate) ;;;
        settle_replies ps' rs' kept (<[p.1 := Some id]> acc) depth
  | [], [] => Ret (kept, acc, depth)
  | _, _ => Raise (ValueError "zip() argument 2 is shorter than argument 1")
  end.

Definition is_block : bool := bool_decide (Settings.backpressure_mode settings = block).

(** One turn of the loop. *)
Definition poll (started : Q) (st : enq_state) : co (enq_state + list string) :=
  let count_as := if waited st then "none" else if is_block then "blocked" else "rejected" in
  replies <- _send (pending st).*2 count_as ;;
  settled <- settle_replies (pending st) replies [] (answers st) 0 ;;
  let '(rest, acc, depth) := settled in
  if bool_decide (rest = []) then
    (if waited st then
       t <- now ;; update (count_blocked_for (t - started))
     else Ret tt) ;;;
    Ret (inr (omap (fun x => x) acc))
  else
    let n := Z.of_nat (length rest) in
    (if negb (waited st) && is_block then update (count_blocked n) else Ret tt) ;;;
    let deadline := (started + Settings.block_timeout settings)%Q in
    late <- (if negb is_block then Ret true
             else t <- now ;; Ret (Qle_bool deadline t)) ;;
    if (late : bool) then
      update (count_rejected n) ;;;
      (if is_block then
         t <- now ;; update (count_blocked_for (t - started)) ;;;
         redis (HINCRBY (Keys.stats keys) "rejected" n) ;;; Ret tt
       else Ret tt) ;;;
      Raise (QueueFull depth acc)
    else
      u <- uniform (1 # 2) (3 # 2) ;;
      let pause := (Settings.block_poll_interval settings * u)%Q in
      t <- now ;;
      sleep (Qmin pause (Qmax 0 (deadline - t))) ;;;
      Ret (inl (mk_enq rest acc true)).

Definition enqueue_many (fuel : nat) (jobs : list NewJob) : co (enq_state + list string) :=
  match jobs with
  | [] => Ret (inr [])
  | _ =>
      calls <- map_py _args jobs ;;
      started <- now ;;
      loop fuel (poll started)
        (mk_enq (zip (seq 0 (length jobs)) calls) (replicate (length jobs) None) false)
  end.

(** [[job_id] = await ...]: the answer is unpacked as exactly one id. *)
Definition enqueue (fuel : nat) (job_type : string) (payload : list (string * json))
    (key : option string) : co (option string) :=
  r <- enqueue_many fuel [mk_NewJob job_type payload key] ;;
  match r with
  | inl _ => Ret None
  | inr [job_id] => Ret (Some job_id)
  | inr _ => Raise (ValueError "too many values to unpack (expected 1)")
  end.
End Methods.
End Client.

(** ** What a producer may conclude from the answers *)

(** Every admission call sent and answered, with its answer. *)
Abbreviation enq_log := (list (list arg * (string * Z * Z))).

Definition status_of (x : list arg * (string * Z * Z)) : Z := x.2.1.2.
Definition admitted (l : enq_log) : enq_log := filter (fun x => status_of x <> _FULL) l.
Definition added (l : enq_log) : enq_log := filter (fun x => status_of x = _ADDED) l.
Definition nfull (e : exn) : Prop := match e with QueueFull _ _ => False | _ => True end.

Section Accounting.
Context {T : Type} (settings : Settings.t).

(** Any world at all: a call may be answered anything or fail; the log remembers the
    answers and the counters are the object's. *)
Definition acct X (e : pyev ProducerCounters T X) (v : enq_log * ProducerCounters) :
    result exn X -> enq_log * ProducerCounters -> Prop :=
  match e in pyev _ _ X return result exn X -> _ -> Prop with
  | EScript n keys args =>
      match n return result exn (reply n) -> _ -> Prop with
      | S_enqueue => fun r v' =>
          (exists x, r = Ok x /\ v' = (v.1 ++ [(args, x)], v.2)) \/
          (exists m, r = Err m /\ nfull m /\ v' = v)
      | _ => fun r v' => v' = v
      end
  | ESelf f => fun r v' => r = Ok (f v.2).1 /\ v' = (v.1, (f v.2).2)
  | _ => fun r v' => (forall m, r = Err m -> nfull m) /\ v' = v
  end.

Abbreviation awp := (wp acct).

Definition somes (l : list (option string)) : nat := length (omap (fun x => x) l).

(** The pending calls are the unanswered ones. *)
Definition pend_ok (calls : list enq_call) (ps : list (nat * enq_call))
    (acc : list (option string)) : Prop :=
  NoDup ps.*1 /\
  forall p, p ∈ ps -> calls !! p.1 = Some p.2 /\ acc !! p.1 = Some None.

(** Every answered id is what the server answered to that job's own call. *)
Definition answered (calls : list enq_call) (log : enq_log) (acc : list (option string)) : Prop :=
  forall i id, acc !! i = Some (Some id) ->
  exists c ca x, calls !! i = Some c /\ (Client.argv ca c.2, x) ∈ admitted log /\ x.1.1 = id.

Lemma somes_insert (l : list (option string)) i id :
  l !! i = Some None -> somes (<[i := Some id]> l) = S (somes l).
Proof.
  revert i. induction l as [|o l IH]; intros [|i] Hl; cbn in Hl |- *; try done.
  - by simplify_eq.
  - unfold somes in *. cbn. destruct o; cbn; by rewrite IH.
Qed.

Lemma settle_wp calls ca (log0 : enq_log) ps : forall rs kept acc d log c,
  length ps = length rs ->
  pend_ok calls (kept ++ ps) acc -> answered calls log acc ->
  zip (Client.argv ca <$> (ps.*2).*2) rs ⊆ log ->
  awp (Client.settle_replies (T := T) ps rs kept acc d) (log, c) (fun r v' =>
    exists kept' acc' d' c', r = Ok (kept', acc', d') /\ v' = (log, c') /\
      pend_ok calls kept' acc' /\ answered calls log acc' /\
      length acc' = length acc /\
      (somes acc' + length kept' = somes acc + length kept + length ps)%nat /\
      accepted c' = accepted c +
        Z.of_nat (length (filter (fun x : string * Z * Z => x.1.2 = _ADDED) rs)) /\
      accepted c' + duplicates c' = accepted c + duplicates c +
        Z.of_nat (length (filter (fun x : string * Z * Z => x.1.2 <> _FULL) rs)) /\
      (length kept' + length (filter (fun x : string * Z * Z => x.1.2 <> _FULL) rs) =
         length kept + length ps)%nat /\
      rejected c' = rejected c /\ blocked c' = blocked c).
Proof.
  induction ps as [|[i call] ps IH]; intros [|[[id status] dp] rs] kept acc d log c Hlen Hp Ha Hsub;
    try done; cbn [Client.settle_replies].
  - apply wp_ret. exists kept, acc, d, c. rewrite app_nil_r in Hp. cbn.
    split_and!; try done; lia.
  - cbn in Hlen. destruct (Z.eqb_spec status _FULL) as [Hst|Hst].
    + eapply wp_mono; [apply (IH rs (kept ++ [(i, call)]) acc dp log c)|].
      * lia.
      * by rewrite <- app_assoc.
      * done.
      * intros x Hx. apply Hsub. right. exact Hx.
      * intros r v' (kept' & acc' & d' & c' & -> & -> & H1 & H2 & H3 & H4 & H5 & H6 & H7 & H8).
        exists kept', acc', d', c'. rewrite !length_app in *. cbn [length] in *.
        rewrite !filter_cons. cbn [fst snd]. rewrite decide_False by (subst; done).
        rewrite (decide_False (P := status <> _FULL)) by tauto.
        split_and!; try done; lia.
    + destruct Hp as [Hnd Hp]. destruct (Hp (i, call)) as [Hc Hi]; [set_solver|]. cbn in Hc, Hi.
      rewrite fmap_app in Hnd. cbn in Hnd. apply NoDup_app in Hnd as (Hn1 & Hn2 & Hn3).
      apply NoDup_cons in Hn3 as [Hn3 Hn4].
      apply wp_bind, wp_event. intros r v' Hspec. cbn in Hspec. destruct Hspec as [-> ->].
      cbn [fst snd].
      set (c1 := (if status =? _ADDED then count_accepted else count_duplicate) c).
      eapply wp_mono; [apply (IH rs kept (<[i := Some id]> acc) d log c1)|].
      * lia.
      * split.
        { rewrite fmap_app. apply NoDup_app. split; [done|]. split; [|done].
          intros x Hx. specialize (Hn2 x Hx). set_solver. }
        intros p Hin. destruct (Hp p) as [H1 H2]; [set_solver|]. split; [done|].
        assert (Hne : i <> p.1); [|by rewrite list_lookup_insert_ne].
        intros ->. apply elem_of_app in Hin as [Hin|Hin].
        -- apply (Hn2 p.1); [by apply list_elem_of_fmap_2|left].
        -- apply Hn3. by apply list_elem_of_fmap_2.
      * intros k id' Hk. apply list_lookup_insert_Some in Hk as [(-> & [= <-] & _)|[_ Hk]].
        -- exists call, ca, (id, status, dp). split; [done|]. split; [|done].
           apply list_elem_of_filter. split; [done|]. apply Hsub. left.
        -- by apply Ha.
      * intros x Hx. apply Hsub. right. exact Hx.
      * intros r v' (kept' & acc' & d' & c' & -> & -> & H1 & H2 & H3 & H4 & H5 & H6 & H7 & H8 & H9).
        exists kept', acc', d', c'. rewrite length_insert in H3.
        rewrite somes_insert in H4 by done. rewrite !filter_cons. cbn [fst snd length].
        rewrite (decide_True (P := status <> _FULL)) by done. cbn [length].
        assert (Hacc : accepted c1 = accepted c + (if decide (status = _ADDED) then 1 else 0) /\
          accepted c1 + duplicates c1 = accepted c + duplicates c + 1 /\
          rejected c1 = rejected c /\ blocked c1 = blocked c).
        { unfold c1. destruct (Z.eqb_spec status _ADDED), (decide (status = _ADDED)); try done;
            cbn; lia. }
        destruct Hacc as (Hc1 & Hc2 & Hc3 & Hc4).
        destruct (decide (status = _ADDED)); cbn [length]; split_and!; try done; lia.
Qed.

Lemma send_one_wp (c : enq_call) ca log cn :
  awp (script S_enqueue c.1 (Client.argv ca c.2)) (log, cn) (fun r v' =>
    match r with
    | Ok x => v' = (log ++ [(Client.argv ca c.2, x)], cn)
    | Err m => nfull m /\ v' = (log, cn)
    end).
Proof.
  apply wp_event. intros r v' [(x & -> & ->)|(m & -> & Hm & ->)]; [done|by split].
Qed.

(** The answers that arrived, when all did; some of them, when one call failed. *)
Definition sent (ca : string) (calls : list enq_call) (log : enq_log) (cn : ProducerCounters)
    (r : result exn (list (string * Z * Z))) (v' : enq_log * ProducerCounters) : Prop :=
  exists extra, v' = (log ++ extra, cn) /\ (length extra <= length calls)%nat /\
    match r with
    | Ok rs => length rs = length calls /\ extra = zip (Client.argv ca <$> calls.*2) rs
    | Err m => nfull m
    end.

Lemma settle_all_wp ca calls : forall log cn,
  awp (settle_all ((fun c => script (S := ProducerCounters) (T := T) S_enqueue c.1
         (Client.argv ca c.2)) <$> calls)) (log, cn)
    (fun r v' => exists rs, r = Ok rs /\ sent ca calls log cn (first_err rs) v').
Proof.
  induction calls as [|c calls IH]; intros log cn.
  - apply wp_ret. exists []. split; [done|]. exists []. by rewrite app_nil_r.
  - change ((?f <$> c :: calls)) with (f c :: (f <$> calls)). cbn [settle_all].
    apply wp_bind, wp_settle. eapply wp_mono; [apply send_one_wp|].
    intros r v' Hr. apply wp_bind.
    assert (Hv : exists e1, v' = (log ++ e1, cn) /\ (length e1 <= 1)%nat /\
      match r with Ok x => e1 = [(Client.argv ca c.2, x)] | Err m => nfull m end).
    { destruct r as [x|m]; [by eexists|]. destruct Hr as [Hm ->]. exists [].
      rewrite app_nil_r. split; [done|]. split; [cbn; lia|done]. }
    destruct Hv as (e1 & -> & Hl1 & H1). eapply wp_mono; [apply IH|].
    intros r' v' (rs & -> & extra & -> & Hl & Hm). apply wp_ret. eexists. split; [done|].
    exists (e1 ++ extra). rewrite app_assoc, length_app. split; [done|]. cbn [length].
    split; [lia|]. destruct r as [x|m]; [|exact H1]. cbn [first_err].
    destruct (first_err rs) as [l|m]; [|exact Hm]. destruct Hm as [Hm1 Hm2].
    subst. cbn. by rewrite Hm1.
Qed.

Lemma send_wp ca calls log cn :
  awp (Client._send (T := T) calls ca) (log, cn) (sent ca calls log cn).
Proof.
  assert (Hpipe : awp (pipe ((fun c => script S_enqueue c.1 (Client.argv ca c.2)) <$> calls))
    (log, cn) (sent ca calls log cn)).
  { apply wp_bind. eapply wp_mono; [apply settle_all_wp|].
    intros r v' (rs & -> & Hs). by apply wp_lift. }
  destruct calls as [|c [|c' calls]]; [exact Hpipe| |exact Hpipe].
  cbn [Client._send]. apply wp_bind. eapply wp_mono; [apply send_one_wp|].
  intros [x|m] v' Hv.
  - apply wp_ret. subst. eexists. split; [done|]. split; [cbn; lia|done].
  - destruct Hv as [Hm ->]. exists []. rewrite app_nil_r. split; [done|]. split; [cbn; lia|done].
Qed.

(** The state of the loop, at its head. *)
Definition round (calls : list enq_call) (c0 : ProducerCounters) (st : enq_state)
    (v : enq_log * ProducerCounters) : Prop :=
  pend_ok calls (pending st) (answers st) /\ answered calls v.1 (answers st) /\
  length (answers st) = length calls /\
  (somes (answers st) + length (pending st) = length calls)%nat /\
  accepted v.2 = accepted c0 + Z.of_nat (length (added v.1)) /\
  accepted v.2 + duplicates v.2 =
    accepted c0 + duplicates c0 + Z.of_nat (length (admitted v.1)) /\
  (length (pending st) + length (admitted v.1) = length calls)%nat /\
  rejected v.2 = rejected c0.

Lemma zip_added (args : list (list arg)) (rs : list (string * Z * Z)) :
  length args = length rs ->
  length (added (zip args rs)) =
    length (filter (fun x : string * Z * Z => x.1.2 = _ADDED) rs) /\
  length (admitted (zip args rs)) =
    length (filter (fun x : string * Z * Z => x.1.2 <> _FULL) rs).
Proof.
  revert rs. induction args as [|a args IH]; intros [|r rs] Hl; try done.
  destruct (IH rs) as [H1 H2]; [cbn in Hl; lia|]. unfold added, admitted in *.
  change (zip (a :: args) (r :: rs)) with ((a, r) :: zip args rs).
  rewrite !filter_cons. change (status_of (a, r)) with (r.1.2).
  split; case_decide; cbn [length]; lia.
Qed.

Lemma answered_mono calls log extra acc :
  answered calls log acc -> answered calls (log ++ extra) acc.
Proof.
  intros Ha i id Hi. destruct (Ha i id Hi) as (c & ca & x & H1 & H2 & H3).
  exists c, ca, x. split; [done|]. split; [|done]. unfold admitted in *.
  rewrite filter_app. apply elem_of_app. by left.
Qed.

(** What [enqueue_many] answers, in terms of the log and the counters. *)
Definition accounted (calls : list enq_call) (c0 : ProducerCounters)
    (r : result exn (enq_state + list string)) (v' : enq_log * ProducerCounters) : Prop :=
  (length (admitted v'.1) <= length calls)%nat /\
  match r with
  | Ok (inr ids) =>
      length ids = length calls /\ length (admitted v'.1) = length calls /\
      answered calls v'.1 (Some <$> ids) /\
      accepted v'.2 = accepted c0 + Z.of_nat (length (added v'.1)) /\
      accepted v'.2 + duplicates v'.2 =
        accepted c0 + duplicates c0 + Z.of_nat (length calls) /\
      rejected v'.2 = rejected c0
  | Err (QueueFull _ acc) =>
      length acc = length calls /\ (somes acc < length calls)%nat /\
      length (admitted v'.1) = somes acc /\ answered calls v'.1 acc /\
      accepted v'.2 = accepted c0 + Z.of_nat (length (added v'.1)) /\
      rejected v'.2 = rejected c0 + Z.of_nat (length calls - somes acc)
  | _ => True
  end.

Lemma all_somes (l : list (option string)) :
  length l = somes l -> l = Some <$> omap (fun x => x) l.
Proof.
  assert (Hle : forall l : list (option string), (somes l <= length l)%nat).
  { clear. induction l as [|[x|] l IH]; cbn; unfold somes in *; cbn; lia. }
  induction l as [|[x|] l IH]; intros Hl; [done|..].
  - cbn. rewrite <- IH; [done|]. unfold somes in *. cbn in Hl. lia.
  - specialize (Hle l). unfold somes in *. cbn in Hl, Hle. lia.
Qed.

(** A round that leaves jobs refused: raise, or wait and go on. *)
Lemma refused_wp calls c0 started (w : bool) kept acc d log' c' :
  (forall w' c'', accepted c'' = accepted c' -> duplicates c'' = duplicates c' ->
     rejected c'' = rejected c' -> round calls c0 (mk_enq kept acc w') (log', c'')) ->
  kept <> [] -> (0 < length kept)%nat ->
  awp (let n := Z.of_nat (length kept) in
    (if negb w && Client.is_block settings then update (count_blocked n) else Ret tt) ;;;
    let deadline := (started + Settings.block_timeout settings)%Q in
    late <- (if negb (Client.is_block settings) then Ret true
             else t <- now ;; Ret (Qle_bool deadline t)) ;;
    if (late : bool) then
      update (count_rejected n) ;;;
      (if Client.is_block settings then
         t <- now ;; update (count_blocked_for (t - started)) ;;;
         redis (HINCRBY (Keys.stats (Client.keys settings)) "rejected" n) ;;; Ret tt
       else Ret tt) ;;;
      Raise (QueueFull d acc)
    else
      u <- uniform (1 # 2) (3 # 2) ;;
      let pause := (Settings.block_poll_interval settings * u)%Q in
      t <- now ;;
      sleep (T := T) (Qmin pause (Qmax 0 (deadline - t))) ;;;
      Ret (inl (mk_enq kept acc true))) (log', c')
    (fun r v' =>
    match r with
    | Ok (inl st') => round calls c0 st' v'
    | Ok (inr a) => accounted calls c0 (Ok (inr a)) v'
    | Err e => accounted calls c0 (Err e) v'
    end).
Proof.
  intros Hround Hne Hpos. cbn zeta.
  assert (Hbad : forall m c'', nfull m -> accounted calls c0 (Err m) (log', c'')).
  { intros m c'' Hm. destruct (Hround w c') as (_ & _ & _ & _ & _ & _ & R & _); try done.
    cbn [pending fst] in R. split; [cbn [fst]; lia|by destruct m]. }
  assert (Hfull : forall c'', accepted c'' = accepted c' ->
    rejected c'' = rejected c' + Z.of_nat (length kept) ->
    accounted calls c0 (Err (QueueFull d acc)) (log', c'')).
  { intros c'' E1 E2. destruct (Hround w c') as (_ & R1 & R2 & R3 & R4 & _ & R6 & R7); try done.
    cbn [pending answers fst snd] in *. split; [cbn [fst]; lia|]. cbn [fst snd].
    split_and!; try done; lia. }
  apply wp_bind. eapply (wp_mono _ _ _ (fun r v => exists c'', r = Ok tt /\ v = (log', c'') /\
    accepted c'' = accepted c' /\ duplicates c'' = duplicates c' /\ rejected c'' = rejected c')).
  { destruct (_ && _); [|apply wp_ret; by exists c'].
    apply wp_event. intros r v' [-> ->]. eexists. by split_and!. }
  intros r v' (c'' & -> & -> & E1 & E2 & E3). apply wp_bind.
  eapply (wp_mono _ _ _ (fun r v => v = (log', c'') /\ forall m, r = Err m -> nfull m)).
  { destruct (negb _); [by apply wp_ret|]. apply wp_bind, wp_event.
    intros r v' [Hm ->]. destruct r as [t|m]; [by apply wp_ret|].
    split; [done|]. intros m' [= <-]. by apply Hm. }
  intros r v' [-> Hm]. destruct r as [[]|m]; [| |by apply Hbad, Hm].
  - apply wp_bind, wp_event. intros r v' [-> ->]. apply wp_bind. cbn [fst snd].
    set (c3 := count_rejected _ c'').
    destruct (Client.is_block settings); [|apply wp_ret; apply Hfull; cbn; lia].
    apply wp_bind, wp_event. intros r v' [Hm1 ->]. destruct r as [t|m]; [|by apply Hbad, Hm1].
    apply wp_bind, wp_event. intros r v' [-> ->]. apply wp_bind, wp_event.
    intros r v' [Hm2 ->]. destruct r as [z|m]; [|by apply Hbad, Hm2].
    apply wp_ret. apply Hfull; cbn; lia.
  - apply wp_bind, wp_event. intros r v' [Hm1 ->]. destruct r as [u|m]; [|by apply Hbad, Hm1].
    apply wp_bind, wp_event. intros r v' [Hm2 ->]. destruct r as [t|m]; [|by apply Hbad, Hm2].
    apply wp_bind, wp_event. intros r v' [Hm3 ->]. destruct r as [x|m]; [|by apply Hbad, Hm3].
    apply wp_ret. by apply Hround.
Qed.

Lemma poll_wp calls c0 started st v :
  round calls c0 st v ->
  awp (Client.poll (T := T) settings started st) v (fun r v' =>
    match r with
    | Ok (inl st') => round calls c0 st' v'
    | Ok (inr a) => accounted calls c0 (Ok (inr a)) v'
    | Err e => accounted calls c0 (Err e) v'
    end).
Proof.
  intros Hr. destruct v as [log c]. destruct st as [ps acc w]. unfold Client.poll.
  cbn [pending answers waited]. set (ca := if w then _ else _).
  apply wp_bind. eapply wp_mono; [apply send_wp|]. intros r v' (extra & -> & Hle & Hx).
  destruct Hr as (Hp & Ha & Hn & Hs & Hc1 & Hc2 & Hl & Hrj). cbn [pending answers fst snd] in *.
  rewrite length_fmap in Hle.
  assert (Hadm : (length (admitted extra) <= length extra)%nat).
  { unfold admitted. apply length_filter. }
  destruct r as [rs|m].
  2: { split; [|by destruct m]. cbn [fst]. unfold admitted in *.
       rewrite filter_app, length_app. lia. }
  destruct Hx as [Hlen ->]. rewrite length_fmap in Hlen.
  apply wp_bind. eapply wp_mono; [apply (settle_wp calls ca (log)); [lia|done| |]|].
  - by apply answered_mono.
  - intros x Hx. apply elem_of_app. by right.
  - intros r v' (kept & acc' & d & c' & -> & -> & H1 & H2 & H3 & H4 & H5 & H6 & H7 & H8 & H9).
    set (log' := log ++ _). destruct (zip_added (Client.argv ca <$> (ps.*2).*2) rs) as [Hz1 Hz2].
    { rewrite !length_fmap. lia. }
    assert (Hround : forall w' c'', accepted c'' = accepted c' -> duplicates c'' = duplicates c' ->
      rejected c'' = rejected c' -> round calls c0 (mk_enq kept acc' w') (log', c'')).
    { intros w' c'' E1 E2 E3. unfold round, log', added, admitted in *.
      cbn [pending answers fst snd length] in *. rewrite !filter_app, !length_app.
      rewrite E1, E2, E3. split_and!; try done; lia. }
    cbn zeta. cbv iota. case_bool_decide as Hk.
    + assert (Hok : forall c'', accepted c'' = accepted c' -> duplicates c'' = duplicates c' ->
        rejected c'' = rejected c' ->
        accounted calls c0 (Ok (inr (omap (fun x => x) acc'))) (log', c'')).
      { intros c'' E1 E2 E3. destruct (Hround true c'' E1 E2 E3) as (_ & R1 & R2 & R3 & R4 & R5 & R6 & R7).
        subst kept. cbn [pending answers fst snd length] in *.
        split; [cbn [fst]; lia|]. rewrite <- all_somes by lia. unfold somes in R3.
        cbn [fst snd]. split_and!; try done; lia. }
      destruct w.
      * do 2 apply wp_bind. apply wp_event. intros r v' [Hm ->].
        destruct r as [t|m]; [|split; [cbn [fst]|by specialize (Hm m eq_refl); destruct m]].
        -- apply wp_event. intros r v' [-> ->]. apply wp_ret. by apply Hok.
        -- by apply (Hok c').
      * apply wp_bind, wp_ret, wp_ret. by apply Hok.
    + eapply wp_mono; [apply (refused_wp calls c0 started w kept acc' d log' c');
        [exact Hround|done|]|done].
      destruct kept; [done|cbn; lia].
Qed.

(** The call [_args] builds for a job under the id [u]. *)
Definition call_for (u : string) (new : NewJob) : enq_call :=
  let k := Client.keys settings in
  let idem := default "" (new_key new) in
  ([Keys.stream k; Keys.delayed k; Keys.full k; Keys.stats k] ++
     (if decide (idem = "") then [] else [Keys.idem k idem]),
   [Str u; str (Settings.idempotency_ttl_seconds settings);
    str (Settings.high_watermark settings); str (Settings.low_watermark settings)] ++
     (Str <$> to_fields (mk_Job u (new_type new) (new_payload new) 0 idem 0))).

Definition call_of (new : NewJob) (c : enq_call) : Prop := exists u, c = call_for u new.

Lemma args_wp new v :
  awp (Client._args (T := T) settings new) v (fun r v' => v' = v /\
    match r with Ok c => call_of new c | Err m => nfull m end).
Proof.
  apply wp_bind, wp_event. intros r v' [Hm ->]. destruct r as [u|m]; [|split; [done|by apply Hm]].
  cbn. split; [done|]. by exists u.
Qed.

Lemma map_args_wp jobs v :
  awp (map_py (Client._args (T := T) settings) jobs) v (fun r v' => v' = v /\
    match r with Ok cs => Forall2 call_of jobs cs | Err m => nfull m end).
Proof.
  induction jobs as [|new jobs IH]; cbn [map_py]; [by apply wp_ret|].
  apply wp_bind. eapply wp_mono; [apply args_wp|]. intros r v' [-> Hr].
  destruct r as [c|m]; [|by split]. apply wp_bind. eapply wp_mono; [exact IH|].
  intros r v' [-> Hr']. destruct r as [cs|m]; [|by split]. apply wp_ret. split; [done|].
  by constructor.
Qed.

Lemma first_round calls c0 :
  round calls c0
    (mk_enq (zip (seq 0 (length calls)) calls) (replicate (length calls) None) false) ([], c0).
Proof.
  assert (Hlen : length (zip (seq 0 (length calls)) calls) = length calls).
  { rewrite length_zip_with, length_seq. lia. }
  unfold round. cbn [pending answers fst snd]. rewrite Hlen, length_replicate.
  split_and!; try done; try (cbn; lia).
  - split.
    + rewrite fst_zip by by rewrite length_seq. apply NoDup_ListNoDup, seq_NoDup.
    + intros [i c] Hin. apply list_elem_of_lookup in Hin as [k Hk].
      apply lookup_zip_with_Some in Hk as (i' & c' & [= -> ->] & Hi & Hc).
      apply lookup_seq in Hi as [-> Hi]. cbn. split; [done|].
      apply lookup_replicate. split; [done|]. by apply lookup_lt_Some in Hc.
  - intros i id Hi. apply lookup_replicate in Hi as [? _]. done.
  - unfold somes. assert (Hs : omap (fun x : option string => x) (replicate (length calls) None) = []).
    { clear. induction (length calls) as [|n IH]; [done|exact IH]. }
    rewrite Hs. cbn. lia.
Qed.

Lemma enqueue_many_wp fuel jobs c0 :
  awp (Client.enqueue_many (T := T) settings fuel jobs) ([], c0) (fun r v' =>
    exists calls, Forall2 call_of jobs calls /\ accounted calls c0 r v').
Proof.
  assert (Hbad : forall m, nfull m -> exists calls, Forall2 call_of jobs calls /\
    accounted calls c0 (Err m) ([], c0)).
  { intros m Hm. exists (call_for "" <$> jobs). split.
    - apply Forall2_fmap_r, Forall_Forall2_diag, Forall_true. intros x. by exists "".
    - split; [cbn; lia|by destruct m]. }
  destruct jobs as [|new jobs].
  { apply wp_ret. exists []. split; [done|]. split; [done|]. split_and!; try done; cbn; lia. }
  unfold Client.enqueue_many. set (js := new :: jobs) in *.
  apply wp_bind. eapply wp_mono; [apply map_args_wp|]. intros r v' [-> Hr].
  destruct r as [calls|m]; [|by apply Hbad].
  apply wp_bind, wp_event. intros r v' [Hm ->]. destruct r as [t|m]; [|by apply Hbad, Hm].
  rewrite (Forall2_length _ _ _ Hr).
  eapply wp_mono; [|intros r v' H; exists calls; split; [exact Hr|exact H]].
  eapply (wp_loop _ (round calls c0)).
  - apply first_round.
  - intros st v Hv. eapply wp_mono; [by apply poll_wp|]. by intros [[st'|a]|e] v1 H1.
  - intros st v (_ & _ & _ & _ & _ & _ & Hl & _). split; [lia|done].
Qed.
End Accounting.

(** The log only grows, and what is sent does not depend on it. *)
Lemma acct_shift {T X} (e : pyev ProducerCounters T X) l0 l c r v' :
  acct X e (l0 ++ l, c) r v' ->
  exists l', v'.1 = l0 ++ l' /\ acct X e (l, c) r (l', v'.2).
Proof.
  destruct e as [n ? ?| | | | | | | | | | | |]; cbn;
    try (intros [Hm ->]; exists l; by split).
  - destruct n; cbn; try (intros ->; by exists l).
    intros [(x & -> & ->)|(m & -> & Hm & ->)]; cbn.
    + exists (l ++ [(args, x)]). split; [by rewrite <- app_assoc|]. left. by exists x.
    + exists l. split; [done|]. right. by exists m.
Qed.

Lemma wp_shift {T A} (p : py ProducerCounters T A) Q l0 : forall l c,
  wp acct p (l, c) Q ->
  wp acct p (l0 ++ l, c) (fun r v' => exists l', v'.1 = l0 ++ l' /\ Q r (l', v'.2)).
Proof.
  induction p as [a|m|X e k IH]; intros l c Hp; cbn in Hp |- *; [by exists l..|].
  intros r [l1 c1] Hs. apply acct_shift in Hs as (l' & Hl & Hs). cbn in Hl. subst l1.
  apply IH. by apply Hp.
Qed.

(** C20: a producer's books. Whatever the server answers and whenever calls fail or time
    out: when [enqueue_many] returns, its ids are one per job, in order, each the answer
    to that job's own call, and exactly one call per job was admitted; when it raises
    QueueFull, [accepted] says for each job whether its call was admitted, at least one
    was not, and each refused job counts once as rejected; the client's counters agree
    with the answers; and in every case at most one admission per job was answered: an
    admitted job is not sent again. *)
Theorem enqueue_many_accounting {T} (settings : Settings.t) (fuel : nat)
    (jobs : list NewJob) (c0 : ProducerCounters)
    (r : result exn (enq_state + list string)) (v' : enq_log * ProducerCounters) :
  runs acct (Client.enqueue_many (T := T) settings fuel jobs) ([], c0) r v' ->
  exists calls, Forall2 (call_of settings) jobs calls /\ accounted calls c0 r v'.
Proof. intros H. eapply wp_runs in H; [|apply enqueue_many_wp]. exact H. Qed.

(** A world that gives the listed answers in turn, for the witness. *)
Definition scripted X (e : pyev ProducerCounters unit X)
    (w : list (string * Z * Z) * (enq_log * ProducerCounters)) :
    result exn X * (list (string * Z * Z) * (enq_log * ProducerCounters)) :=
  match e in pyev _ _ X return result exn X * _ with
  | EScript n keys args =>
      match n return result exn (reply n) * _ with
      | S_enqueue =>
          match w.1 with
          | x :: l => (Ok x, (l, (w.2.1 ++ [(args, x)], w.2.2)))
          | [] => (Err (RedisConnectionError ""), w)
          end
      | _ => (Err (ResponseError "ERR unknown"), w)
      end
  | ESelf f => (Ok (f w.2.2).1, (w.1, (w.2.1, (f w.2.2).2)))
  | ETime => (Ok 0%Q, w)
  | EUniform a b => (Ok a, w)
  | EUuid => (Ok "u", w)
  | ESleep _ | EWait _ | ELog _ _ | ESpawn _ => (Ok tt, w)
  | ECmd _ | EAwait _ | ECompute _ _ | EExit _ => (Err (ResponseError "ERR unknown"), w)
  end.

Lemma scripted_ok X (e : pyev ProducerCounters unit X) w :
  acct X e w.2 (scripted X e w).1 (scripted X e w).2.2.
Proof.
  destruct e; cbn; try (by split; [intros m Hm; simplify_eq|]).
  - destruct n; cbn; try done. destruct w as [[|x l] v]; cbn; [right|left]; by eexists.
  - by destruct w as [? [? ?]].
Qed.

Definition two_jobs : list NewJob := [mk_NewJob "a" [] None; mk_NewJob "b" [] (Some "k")].
Definition zero : ProducerCounters := mk_counters 0 0 0 0 0.
Definition demo_run :=
  run scripted (Client.enqueue_many Settings.defaults 5 two_jobs)
    ([("u1", 1, 7); ("", -1, 100000)], ([], zero)).

Lemma enqueue_many_accounting_witness :
  demo_run.1 = Err (QueueFull 100000 [Some "u1"; None]) /\
  exists calls, Forall2 (call_of Settings.defaults) two_jobs calls /\
    accounted calls zero demo_run.1 demo_run.2.2.
Proof.
  split; [vm_compute; reflexivity|].
  apply (enqueue_many_accounting (T := unit) Settings.defaults 5 two_jobs zero).
  exact (runs_run acct snd scripted scripted_ok _ ([("u1", 1, 7); ("", -1, 100000)], ([], zero))).
Defined.

(** ** Block mode gives up in time *)
Section Timed.
Context {T : Type} (settings : Settings.t).

(** A world with a clock: it never runs backwards, and a sleep lasts at least as long as
    asked. Calls take any time and answer anything. *)
Definition timed X (e : pyev ProducerCounters T X) (v : Q) : result exn X -> Q -> Prop :=
  match e in pyev _ _ X return result exn X -> Q -> Prop with
  | ETime => fun r v' => r = Ok v' /\ (v <= v')%Q
  | ESleep d => fun r v' => (v <= v')%Q /\ (v + d <= v')%Q
  | EUniform a b => fun r v' => (v <= v')%Q /\ exists x, r = Ok x /\ uniform_ok a b x
  | _ => fun r v' => (v <= v')%Q
  end.

Abbreviation twp := (wp timed).

Lemma timed_le X (e : pyev ProducerCounters T X) v r v' : timed X e v r v' -> (v <= v')%Q.
Proof. by destruct e; cbn; try done; intros []. Qed.

Lemma timed_elapses {A} (p : py ProducerCounters T A) v : twp p v (fun _ v' => (v <= v')%Q).
Proof.
  revert v. induction p as [a|e|X c k IH]; intros v; cbn; [apply Qle_refl|apply Qle_refl|].
  intros x v1 Hs%timed_le. eapply wp_mono; [apply IH|]. intros r v' Hv. cbn in Hv. lra.
Qed.

Definition deadline (started : Q) : Q := (started + Settings.block_timeout settings)%Q.
Definition half : Q := (Settings.block_poll_interval settings * (1 # 2))%Q.

(** One more poll: the deadline was not reached, and either it is now or at least half a
    poll interval has passed. *)
Lemma poll_timed started st v : (0 <= half)%Q ->
  twp (Client.poll (T := T) settings started st) v (fun r v' => forall st', r = Ok (inl st') ->
    (v < deadline started)%Q /\ (deadline started <= v' \/ v + half <= v')%Q).
Proof.
  intros Hh. unfold Client.poll.
  apply wp_bind. eapply wp_mono; [apply timed_elapses|]. intros [rs|m] v1 H1; [|done].
  apply wp_bind. eapply wp_mono; [apply timed_elapses|]. intros [[[kept acc] d]|m] v2 H2; [|done].
  cbv iota zeta. case_bool_decide.
  { apply wp_bind. eapply wp_mono; [apply timed_elapses|]. by intros [?|m] v3 H3; cbn. }
  apply wp_bind. eapply wp_mono; [apply timed_elapses|]. intros [[]|m] v3 H3; [|done].
  apply wp_bind. destruct (Client.is_block settings); cbn [negb].
  - apply wp_bind, wp_event. intros r v4 [-> H4]. apply wp_ret.
    destruct (Qle_bool _ v4) eqn:Hd.
    { apply wp_bind. eapply wp_mono; [apply timed_elapses|]. intros [[]|m] v5 H5; [|done].
      apply wp_bind. eapply wp_mono; [apply timed_elapses|]. by intros [[]|m] v6 H6; cbn. }
    assert (Hlt : (v4 < deadline started)%Q).
    { apply Qnot_le_lt. intros Hle. apply Qle_bool_iff in Hle. unfold deadline in Hle. congruence. }
    apply wp_bind, wp_event. intros r v5 [H5 (u & -> & Hu)].
    destruct Hu as [Hu1 Hu2]; [done|].
    apply wp_bind, wp_event. intros r v6 [-> H6].
    apply wp_bind, wp_event. intros r v7 [H7 H8]. destruct r as [[]|m]; [|done].
    apply wp_ret. intros st' _. fold (deadline started) in H8. split; [lra|].
    assert (Hp : (half <= Settings.block_poll_interval settings * u)%Q).
    { unfold half in *. rewrite !(Qmult_comm (Settings.block_poll_interval settings)).
      apply Qmult_le_compat_r; [done|].
      assert (0 <= Settings.block_poll_interval settings * (1 # 2))%Q by done. lra. }
    destruct (Q.min_spec (Settings.block_poll_interval settings * u)
      (Qmax 0 (deadline started - v6))) as [[_ Hm]|[_ Hm]]; rewrite Hm in H8; [right; lra|left].
    destruct (Q.max_spec 0 (deadline started - v6)) as [[_ Hx]|[Hx1 Hx]]; rewrite Hx in H8; lra.
  - apply wp_ret. apply wp_bind. eapply wp_mono; [apply timed_elapses|].
    intros [[]|m] v5 H5; [|done].
    apply wp_bind. eapply wp_mono; [apply timed_elapses|]. by intros [[]|m] v6 H6; cbn.
Qed.

Lemma polls_end started n : forall st v, (0 <= half)%Q ->
  (deadline started - v <= inject_Z (Z.of_nat n) * half)%Q ->
  twp (loop (S n) (Client.poll (T := T) settings started) st) v
    (fun r _ => forall st', r <> Ok (inl st')).
Proof.
  induction n as [|n IH]; intros st v Hh Hd; cbn [loop]; apply wp_bind;
    (eapply wp_mono; [by apply poll_timed|]); intros [[st1|a]|m] v1 H1; try done.
  - destruct (H1 st1 eq_refl) as [Hlt _]. change (inject_Z (Z.of_nat 0)) with 0%Q in Hd. lra.
  - destruct (H1 st1 eq_refl) as [Hlt Hor]. apply IH; [done|].
    rewrite Nat2Z.inj_succ in Hd. unfold Z.succ in Hd. rewrite inject_Z_plus in Hd.
    change (inject_Z 1) with 1%Q in Hd.
    assert (H0 : (0 <= inject_Z (Z.of_nat n) * half)%Q).
    { apply Qmult_le_0_compat; [|done]. change 0%Q with (inject_Z 0). rewrite <- Zle_Qle. lia. }
    destruct Hor; lra.
Qed.
End Timed.

(** A blocked producer is never stuck. In an accepted configuration, on any clock
    that does not run backwards and however the server answers, [enqueue_many] has
    returned or raised after at most [2 * block_timeout / block_poll_interval + 1]
    polls: fuel [n + 1] with [n * interval / 2 >= block_timeout] is always enough. *)
Theorem enqueue_many_terminates {T} (s settings : Settings.t) (n : nat) (jobs : list NewJob)
    (v v' : Q) (r : result exn (enq_state + list string)) :
  Settings.make s = Ok settings ->
  (Settings.block_timeout settings <=
     inject_Z (Z.of_nat n) * (Settings.block_poll_interval settings * (1 # 2)))%Q ->
  runs timed (Client.enqueue_many (T := T) settings (S n) jobs) v r v' ->
  forall st, r <> Ok (inl st).
Proof.
  intros [-> Ha]%make_accepted Hn. open_fields Ha.
  assert (Hh : (0 <= half s)%Q) by (unfold half; lra).
  apply (wp_runs timed _ _ _ _ (fun r _ => forall st, r <> Ok (inl st))).
  assert (Hb : (0 <= Settings.block_timeout s)%Q) by done. clear -Hh Hn Hb.
  destruct jobs as [|new jobs]; [by apply wp_ret|]. unfold Client.enqueue_many.
  apply wp_bind. eapply wp_mono; [apply timed_elapses|]. intros [calls|m] v1 H1; [|done].
  apply wp_bind, wp_event. intros x v2 [-> H2]. apply polls_end; [done|].
  unfold deadline, half in *. lra.
Qed.

(** A world whose queue is always full and whose clock runs a second per reading. *)
Definition always_full X (e : pyev ProducerCounters unit X) (v : Q) : result exn X * Q :=
  match e in pyev _ _ X return result exn X * Q with
  | EScript n _ _ =>
      match n return result exn (reply n) * Q with
      | S_enqueue => (Ok ("", -1, 9), v)
      | _ => (Err (ResponseError "ERR unknown"), v)
      end
  | ESelf f => (Ok (f zero).1, v)
  | ETime => (Ok (v + 1)%Q, (v + 1)%Q)
  | ESleep d => (Ok tt, (v + Qmax 0 d)%Q)
  | EUniform a b => (Ok (Qmin a b), v)
  | EUuid => (Ok "u", v)
  | EWait _ | ELog _ _ | ESpawn _ => (Ok tt, v)
  | ECmd _ | EAwait _ | ECompute _ _ | EExit _ => (Err (ResponseError "ERR unknown"), v)
  end.

Lemma always_full_ok X (e : pyev ProducerCounters unit X) v :
  timed X e v (always_full X e v).1 (always_full X e v).2.
Proof.
  destruct e; cbn; try apply Qle_refl.
  - destruct n; cbn; apply Qle_refl.
  - split; [done|lra].
  - pose proof (Q.le_max_l 0 seconds). pose proof (Q.le_max_r 0 seconds). split; lra.
  - split; [apply Qle_refl|]. eexists. split; [done|]. intros Hab.
    destruct (Q.min_spec a b) as [[_ Hm]|[Hba Hm]]; rewrite Hm; split; lra.
Qed.

Definition blocking : Settings.t :=
  let s := Settings.defaults in
  Settings.mk (Settings.redis_url s) 5 2 10 3 (5 # 100) 1 "q" "workers" 10 1000 30 2 300 30 10 5
    5 10 3 1 300 (1 # 2) 500 3600 60 block 10 5 2 1 INFO fmt_json 0 60.

Lemma enqueue_many_terminates_witness :
  is_ok (run always_full (Client.enqueue_many blocking 5 two_jobs) 0%Q).1 = false /\
  forall st, (run always_full (Client.enqueue_many blocking 5 two_jobs) 0%Q).1 <> Ok (inl st).
Proof.
  split; [vm_compute; reflexivity|].
  apply (enqueue_many_terminates (T := unit) blocking blocking 4 two_jobs 0
    (run always_full (Client.enqueue_many blocking 5 two_jobs) 0%Q).2).
  - vm_compute. reflexivity.
  - vm_compute. discriminate.
  - exact (runs_run timed (fun v => v) always_full always_full_ok _ 0%Q).
Defined.
