(* ===== verification/World.v ===== *)
(** The world a Python coroutine runs in: the queue's Redis, shared with any number of
    other producers, workers, schedulers, reapers and operators, behind a network that
    may lose replies.

    [world] is the specification of every effect. A request runs atomically at some
    point while it is awaited, with any steps of the others ([sstep]) before and after;
    it may have been re-sent, so it may run more than once; its reply may be lost (the
    coroutine sees a connection error) or the coroutine may be cancelled while it waits,
    whether or not the request ran. [alone] is the same without others and failures. *)
From S2P Require Import Prelude Effects Redis Keys LuaScripts Queue Ops Refine.
From S2P Require Import Fields Streams Logs Invariants Machine System.
From S2P Require Import Py Registry.
From stdpp Require Import relations.

#[local] Open Scope Z_scope.
#[local] Open Scope prog_scope.

(** A reply as Python sees it: an error reply is a ResponseError. *)
Definition of_reply {A : Type} (x : result string A) : result exn A :=
  match x with Ok a => Ok a | Err m => Err (ResponseError m) end.

Definition interrupted (e : exn) : Prop := is_redis_down e = true \/ e = CancelledError.

(** The ghost effects of a call: the job an enqueue accepted, the entries handed out. *)
Definition accepted_by (n : sname) (args : list arg) : result string (reply n) -> gset string :=
  match n return result string (reply n) -> gset string with
  | S_enqueue => fun r =>
      match r, args with
      | Ok x, Str j :: _ => if decide (x.1.2 = 1) then {[j]} else ∅
      | _, _ => ∅
      end
  | _ => fun _ => ∅
  end.

Definition given_by (n : sname) : result string (reply n) -> gset entry :=
  match n return result string (reply n) -> gset entry with
  | S_reclaim => fun r => answer r (fun x => list_to_set (fst <$> x.1.2)) ∅
  | _ => fun _ => ∅
  end.

Definition given_cmd {A : Type} (c : cmd A) : result string A -> gset entry :=
  match c in cmd A return result string A -> gset entry with
  | XREADGROUP _ _ _ _ => fun r => answer r list_to_set ∅
  | _ => fun _ => ∅
  end.

Section World.
Context `{CJson}.
Context (K : Keys.t) (G : string) (T : bool).
Context {S Tk : Type}.

Definition does_script (n : sname) (keys : list string) (args : list arg)
    (s : sys) (x : result string (reply n)) (s' : sys) : Prop :=
  exists v', exec (lua_of n keys args) (s_view s) x v' /\
    s' = Sys v' (s_accepted s ∪ accepted_by n args x) (s_given s ∪ given_by n x).

Definition does_cmd {A : Type} (c : cmd A) (s : sys) (x : result string A) (s' : sys) : Prop :=
  exists v', exec (call c) (s_view s) x v' /\
    s' = Sys v' (s_accepted s) (s_given s ∪ given_cmd c x).

(** The others' steps, and earlier copies of the same request. *)
Definition busy {A : Type} (does : sys -> result string A -> sys -> Prop) (s s' : sys) : Prop :=
  rtc (fun a b => sstep K G T a b \/ exists x, does a x b) s s'.

Definition served {A : Type} (does : sys -> result string A -> sys -> Prop)
    (s : sys) (r : result exn A) (s' : sys) : Prop :=
  (exists s1 s2 x, busy does s s1 /\ does s1 x s2 /\ rtc (sstep K G T) s2 s' /\
     r = of_reply x) \/
  (exists e, interrupted e /\ r = Err e /\ busy does s s').

Definition world X (e : pyev S Tk X) (s : sys) : result exn X -> sys -> Prop :=
  match e in pyev _ _ X return result exn X -> sys -> Prop with
  | EScript n keys args => served (does_script n keys args) s
  | ECmd c => served (does_cmd c) s
  | ETime => fun r s' => (exists t, r = Ok t) /\ rtc (sstep K G T) s s'
  | ESleep _ | EWait _ => fun r s' =>
      (r = Ok tt \/ r = Err CancelledError) /\ rtc (sstep K G T) s s'
  | EUniform a b => fun r s' => (exists x, r = Ok x /\ uniform_ok a b x) /\ s' = s
  | EUuid => fun r s' => (exists j, r = Ok j /\ uuid_like j) /\ s' = s
  | ELog _ _ => fun r s' => r = Ok tt /\ s' = s
  | ESelf f => fun r s' => (exists o, r = Ok (f o).1) /\ s' = s
  | EAwait f => fun r s' =>
      ((exists o, f o = Some r) \/ r = Err CancelledError) /\ rtc (sstep K G T) s s'
  | ECompute _ f => fun r s' =>
      (r = f tt \/ r = Err BrokenProcessPool \/ r = Err CancelledError) /\
      rtc (sstep K G T) s s'
  | ESpawn _ => fun r s' => r = Ok tt /\ s' = s
  | EExit _ => fun r s' => r = Err CancelledError /\ s' = s
  end.

(** Nobody else, no failures: what a call does to the keys is all that happens. *)
Definition alone X (e : pyev S Tk X) (v : rview) : result exn X -> rview -> Prop :=
  match e in pyev _ _ X return result exn X -> rview -> Prop with
  | EScript n keys args => fun r v' =>
      exists x, exec (lua_of n keys args) v x v' /\ r = of_reply x
  | ECmd c => fun r v' => exists x, exec (call c) v x v' /\ r = of_reply x
  | ETime => fun r v' => (exists t, r = Ok t) /\ v' = v
  | ESleep _ | EWait _ | ELog _ _ | ESpawn _ => fun r v' => r = Ok tt /\ v' = v
  | EUniform a b => fun r v' => (exists x, r = Ok x /\ uniform_ok a b x) /\ v' = v
  | EUuid => fun r v' => (exists j, r = Ok j /\ uuid_like j) /\ v' = v
  | ESelf f => fun r v' => (exists o, r = Ok (f o).1) /\ v' = v
  | EAwait f => fun r v' => ((exists o, f o = Some r) \/ r = Err CancelledError) /\ v' = v
  | ECompute _ f => fun r v' => r = f tt /\ v' = v
  | EExit _ => fun r v' => r = Err CancelledError /\ v' = v
  end.

(** [visits p s s']: [s'] is met somewhere along a run of [p] from [s]: at its end, or
    where the process that ran it was killed. *)
Fixpoint visits {A : Type} (p : py S Tk A) (s s' : sys) : Prop :=
  s' = s \/
  match p with
  | Vis c k => exists x s1, world _ c s x s1 /\ visits (k x) s1 s'
  | _ => False
  end.

(** [spawns p s t s']: along a run of [p] from [s], task [t] is started in [s']. *)
Fixpoint spawns {A : Type} (p : py S Tk A) (s : sys) (t : Tk) (s' : sys) : Prop :=
  match p with
  | Vis c k =>
      (match c with ESpawn t' => t' = t /\ s' = s | _ => False end) \/
      exists x s1, world _ c s x s1 /\ spawns (k x) s1 t s'
  | _ => False
  end.

Lemma runs_visits {A : Type} (p : py S Tk A) s r s' : runs world p s r s' -> visits p s s'.
Proof.
  revert s. induction p as [a|e|X c k IH]; intros s Hr; cbn in *; [by left; destruct Hr..|].
  destruct Hr as (x & s1 & Hw & Hr). right. eauto.
Qed.

(** A run alone is a run in the world. *)
Lemma alone_world X (e : pyev S Tk X) (s : sys) r v' :
  alone X e (s_view s) r v' -> exists s', world X e s r s' /\ s_view s' = v'.
Proof.
  intros Ha. destruct e; cbn in *;
    try (destruct Ha as [Ha ->]; exists s; split; [split; auto using rtc_refl|done]; fail).
  - destruct Ha as (x & Hx & ->).
    exists (Sys v' (s_accepted s ∪ accepted_by n args x) (s_given s ∪ given_by n x)).
    split; [|done]. left. exists s, (Sys v' (s_accepted s ∪ accepted_by n args x)
      (s_given s ∪ given_by n x)), x. split_and!; [apply rtc_refl|by exists v'|apply rtc_refl|done].
  - destruct Ha as (x & Hx & ->). exists (Sys v' (s_accepted s) (s_given s ∪ given_cmd c x)).
    split; [|done]. left. exists s, (Sys v' (s_accepted s) (s_given s ∪ given_cmd c x)), x.
    split_and!; [apply rtc_refl|by exists v'|apply rtc_refl|done].
Qed.

Lemma alone_runs {A : Type} (p : py S Tk A) : forall s r v',
  runs alone p (s_view s) r v' -> exists s', runs world p s r s' /\ s_view s' = v'.
Proof.
  induction p as [a|e|X c k IH]; intros s r v' Hr; cbn in *; [by destruct Hr; eauto..|].
  destruct Hr as (x & v1 & Ha & Hr). apply alone_world in Ha as (s1 & Hw & <-).
  destruct (IH x s1 r v' Hr) as (s' & Hs & <-). eauto 10.
Qed.

(** ** Legal coroutines *)

(** What a job id in a delivered entry looks like. *)
Definition named (D : gset entry) : Prop :=
  forall e fs j, (e, fs) ∈ D -> field "job_id" fs = Some j -> uuid_like j.

(** What may be assumed of the states met. *)
Context (ok : sys -> Prop).

(** A call that is one of the system's steps whenever its sender has been given the
    entries [D]. *)
Definition legal_call {A : Type} (D : gset entry) (does : sys -> result string A -> sys -> Prop) : Prop :=
  forall s x s', ok s -> D ⊆ s_given s -> does s x s' -> sstep K G T s s'.

Context (task_ok : gset entry -> Tk -> Prop).

Definition permitted {X : Type} (D : gset entry) (e : pyev S Tk X) : Prop :=
  match e with
  | EScript n keys args => legal_call D (does_script n keys args)
  | ECmd c => legal_call D (does_cmd c)
  | ESpawn t => task_ok D t
  | _ => True
  end.

(** The entries a reply brings, and what else is known of an answer. *)
Definition brought {X : Type} (e : pyev S Tk X) : result exn X -> gset entry :=
  match e in pyev _ _ X return result exn X -> gset entry with
  | EScript n _ _ => fun r => match r with Ok a => given_by n (Ok a) | Err _ => ∅ end
  | ECmd c => fun r => match r with Ok a => given_cmd c (Ok a) | Err _ => ∅ end
  | _ => fun _ => ∅
  end.
Definition fits {X : Type} (e : pyev S Tk X) : result exn X -> Prop :=
  match e in pyev _ _ X return result exn X -> Prop with
  | EUuid => fun r => exists j, r = Ok j /\ uuid_like j
  | _ => fun _ => True
  end.

(** [legal D p Q]: given [D], every call of [p] is permitted, and [p] ends in [Q] of its
    outcome and of the entries it has been given by then. *)
Fixpoint legal {A : Type} (D : gset entry) (p : py S Tk A)
    (Q : result exn A -> gset entry -> Prop) : Prop :=
  match p with
  | Ret a => Q (Ok a) D
  | Raise e => Q (Err e) D
  | Vis c k => permitted D c /\
      forall r D', D ⊆ D' -> brought c r ⊆ D' -> named D' -> fits c r -> legal D' (k r) Q
  end.

Lemma legal_mono {A : Type} (p : py S Tk A) (Q Q' : result exn A -> gset entry -> Prop) : forall D,
  legal D p Q -> (forall r D', D ⊆ D' -> Q r D' -> Q' r D') -> legal D p Q'.
Proof.
  induction p as [a|e|X c k IH]; intros D Hl HQ; cbn in *; [by apply HQ|by apply HQ|].
  destruct Hl as [Hp Hk]. split; [done|]. intros r D' Hs Hb Hn Hf.
  eapply IH; [by apply Hk|]. intros r' D'' Hs'. apply HQ. set_solver.
Qed.

Lemma legal_bind {A B : Type} (p : py S Tk A) (f : A -> py S Tk B) Q : forall D,
  legal D p (fun r D' => match r with Ok a => legal D' (f a) Q | Err e => Q (Err e) D' end) ->
  legal D (bind p f) Q.
Proof.
  induction p as [a|e|X c k IH]; intros D Hl; cbn in *; [done|done|].
  destruct Hl as [Hp Hk]. split; [done|]. intros r D' Hs Hb Hn Hf. by apply IH, Hk.
Qed.

Lemma legal_try {A : Type} (p : py S Tk A) h Q : forall D,
  legal D p (fun r D' => match r with Ok a => Q (Ok a) D' | Err e => legal D' (h e) Q end) ->
  legal D (try_catch p h) Q.
Proof.
  induction p as [a|e|X c k IH]; intros D Hl; cbn in *; [done|done|].
  destruct Hl as [Hp Hk]. split; [done|]. intros r D' Hs Hb Hn Hf. by apply IH, Hk.
Qed.

Lemma legal_call_event {X : Type} (c : pyev S Tk X) D Q :
  permitted D c ->
  (forall r D', D ⊆ D' -> brought c r ⊆ D' -> named D' -> fits c r -> Q r D') ->
  legal D (call c) Q.
Proof.
  intros Hp HQ. split; [done|]. intros [x|e] D' Hs Hb Hn Hf; cbn; by apply HQ.
Qed.

Lemma legal_loop {St A : Type} (I : St -> gset entry -> Prop) (body : St -> py S Tk (St + A))
    (Q : result exn (St + A) -> gset entry -> Prop) n : forall s D,
  I s D ->
  (forall s D, I s D -> legal D (body s) (fun r D' =>
     match r with Ok (inl s') => I s' D' | Ok (inr a) => Q (Ok (inr a)) D'
                | Err e => Q (Err e) D' end)) ->
  (forall s D, I s D -> Q (Ok (inl s)) D) ->
  legal D (loop n body s) Q.
Proof.
  induction n as [|n IH]; intros s D Hi Hb Hs; [by apply Hs|].
  cbn [loop]. apply legal_bind. eapply legal_mono; [by apply Hb|].
  intros [[s'|a]|e] D' Hsub Hq; [by apply IH|done|done].
Qed.

(** ** Legal coroutines take only steps of the system *)
Context (ok_step : forall s s', ok s -> sstep K G T s s' -> ok s').
Context (ok_named : forall s, ok s -> named (s_given s)).

Lemma ok_steps s s' : ok s -> rtc (sstep K G T) s s' -> ok s'.
Proof using ok_step. intros Hok Hs. induction Hs as [s|s1 s2 s3 Hs _ IH]; eauto. Qed.

Lemma step_grows s s' : sstep K G T s s' -> s_given s ⊆ s_given s'.
Proof using Type.
  intros Hs. destruct Hs; cbn; try done; destruct r; cbn; try done; apply union_subseteq_l.
Qed.

Lemma steps_grow s s' : rtc (sstep K G T) s s' -> s_given s ⊆ s_given s'.
Proof using Type.
  induction 1 as [|a b c Hs _ IH]; [done|]. etrans; [by apply step_grows|exact IH].
Qed.

Lemma busy_steps {A : Type} (D : gset entry) (does : sys -> result string A -> sys -> Prop) s s' :
  legal_call D does -> ok s -> D ⊆ s_given s -> busy does s s' -> rtc (sstep K G T) s s'.
Proof using ok_step.
  intros Hl Hok HD Hb. induction Hb as [s|s s1 s2 Hs _ IH]; [done|].
  assert (Hs' : sstep K G T s s1) by (destruct Hs as [|[x Hx]]; [done|by eapply Hl]).
  eapply rtc_l; [done|]. apply IH; [by eapply ok_step|].
  pose proof (step_grows _ _ Hs') as Hg. by etrans.
Qed.

Lemma served_steps {A : Type} (D : gset entry) (does : sys -> result string A -> sys -> Prop)
    (given : result string A -> gset entry) (s : sys) (r : result exn A) (s' : sys) :
  legal_call D does -> (forall a x b, does a x b -> given x ⊆ s_given b) ->
  ok s -> D ⊆ s_given s -> served does s r s' ->
  rtc (sstep K G T) s s' /\
  match r with Ok a => given (Ok a) ⊆ s_given s' | Err _ => True end.
Proof using ok_step.
  intros Hl Hg Hok HD [(s1 & s2 & x & Hb & Hx & Hs & ->)|(e & _ & -> & Hb)].
  - pose proof (busy_steps D does s s1 Hl Hok HD Hb) as H1.
    assert (Hst : sstep K G T s1 s2).
    { eapply Hl; [by eapply ok_steps| |done]. etrans; [done|by apply steps_grow]. }
    split; [etrans; [done|]; by eapply rtc_l|].
    destruct x as [a|m]; [|done]. cbn. etrans; [by eapply Hg|by apply steps_grow].
  - by split; [eapply busy_steps|].
Qed.

Lemma world_steps {X : Type} (D : gset entry) (e : pyev S Tk X) s r s' :
  permitted D e -> ok s -> D ⊆ s_given s -> world X e s r s' ->
  rtc (sstep K G T) s s' /\ brought e r ⊆ s_given s' /\ fits e r.
Proof using ok_step.
  intros Hp Hok HD Hw. destruct e; cbn in Hp, Hw |- *;
    try (destruct Hw as [Hr Hs]; subst; split_and!; done).
  - eapply (served_steps D _ (given_by n)) in Hw as [H1 H2]; [|done| |done..].
    + split; [done|]. by destruct r.
    + intros a x b (v' & _ & ->). cbn. apply union_subseteq_r.
  - eapply (served_steps D _ (given_cmd c)) in Hw as [H1 H2]; [|done| |done..].
    + split; [done|]. by destruct r.
    + intros a x b (v' & _ & ->). cbn. apply union_subseteq_r.
Qed.

(** Whatever the others do and whatever the network loses, every state met along a run of
    a legal coroutine is reached by steps of the system. *)
Lemma legal_visits {A : Type} (p : py S Tk A) (Q : result exn A -> gset entry -> Prop) :
  forall D s s', legal D p Q -> ok s -> D ⊆ s_given s ->
  visits p s s' -> rtc (sstep K G T) s s'.
Proof using ok_step ok_named.
  induction p as [a|e|X c k IH]; intros D s s' Hl Hok HD [->|Hv]; cbn in *; try done.
  destruct Hv as (x & s1 & Hw & Hr). destruct Hl as [Hp Hk].
  destruct (world_steps D c s x s1 Hp Hok HD Hw) as (Hs & Hb & Hf).
  pose proof (steps_grow _ _ Hs) as Hgr. pose proof (ok_steps _ _ Hok Hs) as Hok1.
  etrans; [exact Hs|]. eapply (IH x (s_given s1)); [|done..].
  apply Hk; [by etrans|done|by apply ok_named|done].
Qed.

(** And every task it starts may be started. *)
Lemma legal_spawns {A : Type} (p : py S Tk A) (Q : result exn A -> gset entry -> Prop) t :
  forall D s s', legal D p Q -> ok s -> D ⊆ s_given s ->
  spawns p s t s' -> exists D', D' ⊆ s_given s' /\ task_ok D' t.
Proof using ok_step ok_named.
  induction p as [a|e|X c k IH]; intros D s s' Hl Hok HD Hv; cbn in *; [done..|].
  destruct Hl as [Hp Hk]. destruct Hv as [Hv|(x & s1 & Hw & Hr)].
  - destruct c; try done. destruct Hv as [-> ->]. by exists D.
  - destruct (world_steps D c s x s1 Hp Hok HD Hw) as (Hs & Hb & Hf).
    pose proof (steps_grow _ _ Hs) as Hgr. pose proof (ok_steps _ _ Hok Hs) as Hok1.
    eapply (IH x (s_given s1)); [|done..].
    apply Hk; [by etrans|done|by apply ok_named|done].
Qed.
End World.

(** ** Reasoning about a coroutine that is alone *)
Section Alone.
Context `{CJson} {S Tk : Type}.

Lemma exec_call {A : Type} (c : cmd A) v x v' : exec (call c) v x v' -> doc c v x v'.
Proof.
  intros (y & v1 & Hd & Hy). destruct y as [a|m]; cbn in Hy; destruct Hy as [-> ->]; exact Hd.
Qed.

Lemma alone_cmd {A : Type} (c : cmd A) v (Q : result exn A -> rview -> Prop) :
  (forall x v', doc c v x v' -> Q (of_reply x) v') -> wp (@alone _ S Tk) (redis c) v Q.
Proof. intros HQ. apply wp_event. intros r v' (x & Hx & ->). by apply HQ, exec_call. Qed.

Lemma alone_script n keys args v (Q : result exn (reply n) -> rview -> Prop) :
  (forall x v', exec (lua_of n keys args) v x v' -> Q (of_reply x) v') ->
  wp (@alone _ S Tk) (script n keys args) v Q.
Proof. intros HQ. apply wp_event. intros r v' (x & Hx & ->). by apply HQ. Qed.
End Alone.
