(* ===== verification/Names.v ===== *)
(** Every entry the queue holds or ever handed out carries a proper job id, if it
    carries one: what a worker may assume when it takes a job's name from an entry. *)
From S2P Require Import Prelude Effects Redis Keys LuaScripts Queue Ops Refine.
From S2P Require Import Fields Streams Logs Invariants Machine System World.
From stdpp Require Import relations.

#[local] Open Scope Z_scope.

Definition fields_named (fs : list string) : Prop :=
  forall j, field "job_id" fs = Some j -> uuid_like j.

Section Names.
Context `{CJson}.

Record names_ok (q : queue) (D : gset entry) : Prop := {
  nm_entries : forall e fs, (e, fs) ∈ q_entries q -> fields_named fs;
  nm_delayed : forall m fs, is_Some (q_delayed q !! m) -> cjson_decode m = Ok fs ->
    fields_named fs;
  nm_dead : forall d fs, (d, fs) ∈ entries (q_dead q) -> fields_named fs;
  nm_given : named D;
}.

(** A queue that holds no more than another, apart from one new entry. *)
Lemma names_less q q' D :
  names_ok q D ->
  (forall x, x ∈ q_entries q' -> x ∈ q_entries q) ->
  (forall m, is_Some (q_delayed q' !! m) -> is_Some (q_delayed q !! m)) ->
  (forall x, x ∈ entries (q_dead q') -> x ∈ entries (q_dead q)) ->
  names_ok q' D.
Proof.
  intros [He Hd Hx HD] H1 H2 H3. split; [|intros m fs Hm; apply Hd; auto| |done].
  - intros e fs Hin. eapply He; eauto.
  - intros e fs Hin. eapply Hx; eauto.
Qed.

Lemma names_same q q' D :
  names_ok q D -> q_entries q' = q_entries q -> q_delayed q' = q_delayed q ->
  q_dead q' = q_dead q -> names_ok q' D.
Proof. intros Hn H1 H2 H3. eapply names_less; [done|by rewrite ?H1, ?H2, ?H3..]. Qed.

Lemma names_incr f n q D : names_ok q D -> names_ok (q_incr f n q) D.
Proof. intros Hn. by apply (names_same q). Qed.

Lemma names_add i fs q D : names_ok q D -> fields_named fs -> names_ok (q_add i fs q) D.
Proof.
  intros [He Hd Hx HD] Hf. split; try done. cbn.
  intros e fs' [Hin|Hin]%elem_of_app; [by eapply He|].
  apply list_elem_of_singleton in Hin. by injection Hin as -> ->.
Qed.

Lemma names_drop e q D : names_ok q D -> names_ok (q_drop e q) D.
Proof.
  intros Hn. eapply names_less; [done| |done..]. cbn. intros x Hx.
  by apply list_elem_of_filter in Hx as [_ Hx].
Qed.

Lemma names_grow q D D' : names_ok q D -> (forall x, x ∈ D' -> x ∈ q_entries q) ->
  names_ok q (D ∪ D').
Proof.
  intros [He Hd Hx HD] Hs. split; try done.
  intros e fs j [Hin|Hin]%elem_of_union; [by eapply HD|]. by eapply He, Hs.
Qed.

Lemma named_app fs extra :
  even_length fs = true -> field "job_id" extra = None -> fields_named fs ->
  fields_named (fs ++ extra).
Proof. intros He Hx Hf j. rewrite field_app by done. rewrite Hx. apply Hf. Qed.

Lemma named_strip fs : even_length fs = true -> fields_named fs -> fields_named (strip_dlq fs).
Proof. intros He Hf j. rewrite field_strip_dlq by done. apply Hf. Qed.

Lemma names_undead j q D : names_ok q D -> names_ok (undead j q) D.
Proof.
  intros Hn. unfold undead. destruct (_ ≫= _) as [d|]; [|by apply (names_same q)].
  eapply names_less; [done|done|done|]. cbn. intros x Hx.
  by apply list_elem_of_filter in Hx as [_ Hx].
Qed.

Lemma names_timeout t q D : names_ok q D -> names_ok (count_timeout t q) D.
Proof. intros Hn. unfold count_timeout. case_decide; [by apply (names_same q)|done]. Qed.

Lemma names_incr_if f n q D : names_ok q D -> names_ok (incr_if f n q) D.
Proof. intros Hn. unfold incr_if. destruct (_ <? _)%nat; [by apply (names_same q)|done]. Qed.

Lemma names_enqueue k j high low c args i q D :
  even_length args = true -> field "job_id" args = Some j -> uuid_like j ->
  names_ok q D -> names_ok (q_enqueue k j high low c args i q).1 D.
Proof.
  intros He Hf Hu Hn. unfold q_enqueue. destruct (k ≫= _); [done|].
  destruct (next_full high low q); cbn [fst]; [case_decide; by apply (names_same q)|].
  apply names_add; [destruct k; by apply (names_same q)|].
  apply named_app; [done|done|]. intros j' Hj'. by simplify_eq.
Qed.

Lemma names_commit e j res w enq i q D : names_ok q D -> names_ok (q_commit e j res w enq i q).1 D.
Proof.
  intros Hn. unfold q_commit. case_decide; cbn [fst].
  { by apply names_incr, names_drop. }
  assert (Hs : forall q, names_ok q D -> names_ok (record_success e j res w enq i q) D).
  { intros q0 Hq0. unfold record_success. apply names_incr, names_drop.
    by eapply (names_same q0). }
  case_decide; cbn [fst]; [|by apply Hs]. apply Hs.
  by apply names_incr, names_undead.
Qed.

Lemma names_retry e w j n delay t q D :
  entries_valid (q_entries q) -> names_ok q D -> names_ok (q_retry e w j n delay t q).1 D.
Proof.
  intros Hv Hn. unfold q_retry. destruct (owns w e q) as [le|]; [|by apply (names_same q)].
  destruct (truthy _); [by apply names_incr, names_drop|].
  destruct (fields_at e (q_entries q)) as [fs|] eqn:Hf; [|done]. cbn [fst].
  apply names_timeout, names_incr, names_drop.
  assert (Hin : exists e', (e', fs) ∈ q_entries q).
  { unfold fields_at in Hf. destruct (filter _ _) as [|[e' fs'] l] eqn:Hl; [done|].
    cbn in Hf. injection Hf as ->. exists e'.
    assert (Hx : (e', fs) ∈ filter (fun x : eid * list string => x.1 = e) (q_entries q))
      by (rewrite Hl; left).
    by apply list_elem_of_filter in Hx as [_ Hx]. }
  destruct Hin as [e' Hin]. destruct Hn as [He Hd Hx HD]. split; [done| |done..].
  cbn. intros m fs' Hm Hdec.
  destruct (decide (m = cjson_encode (set_attempt n fs))) as [->|Hne].
  - assert (Hval : valid_fields fs = true) by by eapply Hv.
    rewrite cjson_roundtrip in Hdec.
    + injection Hdec as <-. intros j'. rewrite field_set_attempt by done. by eapply He.
    + pose proof (set_attempt_valid n fs Hval) as Hs. by intros Hnil; rewrite Hnil in Hs.
  - rewrite lookup_insert_ne in Hm by done. by apply (Hd m).
Qed.

Lemma names_dead e w j reason error attempts t d q D :
  entries_valid (q_entries q) -> names_ok q D ->
  names_ok (q_dead_letter e w j reason error attempts t d q).1 D.
Proof.
  intros Hv Hn. unfold q_dead_letter. destruct (owns w e q) as [le|]; [|by apply (names_same q)].
  destruct (truthy _); [by apply names_incr, names_drop|].
  cbn [fst]. apply names_timeout, names_incr, names_drop.
  destruct Hn as [He Hd Hx HD]. split; [done|done| |done]. cbn.
  intros d' fs' [Hin|Hin]%elem_of_app; [by eapply Hx|].
  apply list_elem_of_singleton in Hin. injection Hin as -> ->.
  destruct (fields_at e (q_entries q)) as [fs|] eqn:Hf; [|by intros j' Hj'].
  unfold fields_at in Hf. destruct (filter _ _) as [|[e' fs'] l] eqn:Hl; [done|].
  cbn in Hf. injection Hf as ->.
  assert (Hin : (e', fs) ∈ filter (fun x : eid * list string => x.1 = e) (q_entries q))
    by (rewrite Hl; left).
  apply list_elem_of_filter in Hin as [_ Hin]. cbn [default].
  apply named_app; [|done|by eapply He]. by eapply valid_even, Hv.
Qed.

Lemma names_requeue j i q D :
  entries_valid (entries (q_dead q)) -> names_ok q D -> names_ok (q_requeue j i q).1 D.
Proof.
  intros Hv Hn. unfold q_requeue. case_decide; [|done].
  destruct (_ ≫= _) as [d|]; [|done].
  destruct (fields_at d _) as [fs|] eqn:Hf; [|done]. case_decide; [done|]. cbn [fst].
  apply names_incr, names_undead, names_add; [done|].
  unfold fields_at in Hf. destruct (filter _ _) as [|[e' fs'] l] eqn:Hl; [done|].
  cbn in Hf. injection Hf as ->.
  assert (Hin : (e', fs) ∈ filter (fun x : eid * list string => x.1 = d) (entries (q_dead q)))
    by (rewrite Hl; left).
  apply list_elem_of_filter in Hin as [_ Hin].
  apply named_strip; [by eapply valid_even, Hv|]. by eapply nm_dead.
Qed.

Lemma names_moved l q q' D : moved l q q' -> NoDup l ->
  (forall m, m ∈ l -> is_Some (q_delayed q !! m)) -> names_ok q D -> names_ok q' D.
Proof.
  induction 1 as [|m l fs i q q' Hdec Hf _ IH]; intros Hnd Hl Hn; [done|].
  apply NoDup_cons in Hnd as [Hm Hnd]. apply IH; [done|..].
  - intros m' Hin. cbn. rewrite lookup_delete_ne by (intros ->; done). apply Hl. by right.
  - apply names_add; [|eapply nm_delayed; [exact Hn|apply Hl; left|done]].
    eapply names_less; [done|done| |done]. cbn. intros m' [x Hx].
    apply lookup_delete_Some in Hx as [_ Hx]. by eexists.
Qed.

Lemma names_reclaim w m slots thr maxd claimed q D :
  names_ok q D -> names_ok (q_reclaim w m slots thr maxd claimed q).1 D.
Proof.
  intros Hn. unfold q_reclaim.
  set (q1 := q_see w _). assert (H1 : names_ok q1 D) by (by apply (names_same q)).
  assert (Hfold : forall l st, names_ok st.1 D ->
    names_ok (foldl (fun st e => q_keep w m thr maxd e st) st l).1 D).
  { induction l as [|e l IH]; intros st Hst; [done|]. cbn [foldl]. apply IH.
    destruct st as [q0 [s0 o0]]. unfold q_keep. destruct (_ && _); cbn [fst] in *;
      by apply (names_same q0). }
  specialize (Hfold claimed (q1, (slots, [])) H1).
  destruct (foldl _ _ claimed) as [q2 [s2 out]]. cbn [fst] in *. by apply names_incr_if.
Qed.

Lemma keep_elems w m thr maxd l : forall st x,
  x ∈ fst <$> (foldl (fun st e => q_keep w m thr maxd e st) st l).2.2 ->
  x ∈ fst <$> st.2.2 \/ x ∈ l.
Proof.
  induction l as [|e l IH]; intros [q0 [s0 o0]] x Hx; [by left|].
  cbn [foldl] in Hx. apply IH in Hx as [Hx|Hx]; [|right; by right].
  unfold q_keep in Hx. destruct (_ && _); cbn [fst snd] in *; [by left|].
  rewrite fmap_app in Hx. apply elem_of_app in Hx as [Hx|Hx]; [by left|right].
  cbn in Hx. apply list_elem_of_singleton in Hx as ->. destruct e. left.
Qed.

Lemma astep_names s s' : astep s s' -> ainv s -> names_ok (a_queue s) (a_given s) ->
  names_ok (a_queue s') (a_given s').
Proof.
  intros Hs Hi Hn. unfold ainv in Hi.
  destruct Hs; cbn [a_queue a_accepted a_given] in *.
  - by apply (names_same q).
  - by apply names_enqueue.
  - apply (names_same q); try done.
    apply names_grow; [done|]. intros x Hx. rewrite elem_of_list_to_set in Hx.
      by apply q_new_elem in Hx as [Hx _].
  - by apply names_commit.
  - unfold q_heartbeat. destruct (owns w e q); by apply (names_same q).
  - apply names_retry; [|done]. apply (inv_stream _ _ _ Hi).
  - apply names_dead; [|done]. apply (inv_stream _ _ _ Hi).
  - apply names_requeue; [|done]. apply (inv_dlq _ _ _ Hi).
  - apply names_incr_if. eapply names_moved; [done|by eapply due_list_nodup| |done].
    intros m Hin. destruct (due_list_elem _ _ _ _ H0 Hin) as (sc & ? & _). by eexists.
  - unfold q_ledger. case_decide; by apply (names_same q).
  - assert (Hn' : names_ok q (D ∪ list_to_set (fst <$> p.2))).
    { apply names_grow; [done|]. intros x Hx. rewrite elem_of_list_to_set in Hx.
      unfold p, q_reclaim in Hx.
      destruct (foldl _ _ claimed) as [q2 [s2 out]] eqn:Hf. cbn [snd] in Hx.
      pose proof (keep_elems w m thr maxd claimed
        (q_see w (q_setpel (take_over w (q_now q) claimed (q_pel q)) q), (slots, [])) x) as Hk.
      rewrite Hf in Hk. destruct (Hk Hx) as [Hx'|Hx']; [by apply elem_of_nil in Hx'|].
      destruct H0 as (_ & _ & Hc & _). destruct x as [i fs]. by apply Hc in Hx' as [_ Hx']. }
    by apply names_reclaim.
  - by apply names_incr.
  - apply names_incr_if. by apply (names_same q).
Qed.
End Names.

Section NamesOfRuns.
Context `{CJson}.
Context (K : Keys.t) (G : string) (T : bool).

(** A start whose entries, if any, carry proper job ids. *)
Definition starts_named (s : sys) : Prop :=
  exists q, rep K G T (s_view s) q /\ fresh_queue q (s_accepted s) /\ s_given s = ∅ /\
    forall e fs, (e, fs) ∈ q_entries q -> fields_named fs.

(** Reachable from such a start. *)
Definition good (s : sys) : Prop :=
  exists s0, starts_named s0 /\ rtc (sstep K G T) s0 s.

Lemma good_reachable s : good s -> reachable K G T s.
Proof.
  intros (s0 & (q & Hr & Hf & Hg & _) & Hs). exists s0. split; [|done]. by exists q.
Qed.

Lemma good_steps s s' : good s -> rtc (sstep K G T) s s' -> good s'.
Proof. intros (s0 & H0 & Hs) Hs'. exists s0. split; [done|]. by etrans. Qed.

Lemma good_names s : good s -> exists a, related K G T s a /\ ainv a /\
  names_ok (a_queue a) (a_given a).
Proof.
  intros (s0 & (q & Hr & Hf & Hg & Hq) & Hs).
  assert (H0 : exists a, related K G T s0 a /\ ainv a /\ names_ok (a_queue a) (a_given a)).
  { exists (AState q (s_accepted s0) ∅). split; [done|]. split; [by apply fresh_inv|].
    destruct (fq_empty _ _ Hf) as (Hd & Hdead & _). split; cbn; [done| | |done].
    - intros m fs [x Hm]. rewrite Hd in Hm. by rewrite lookup_empty in Hm.
    - intros d fs Hin. rewrite Hdead in Hin. by apply elem_of_nil in Hin. }
  clear -Hs H0. induction Hs as [s|s1 s2 s3 Hs _ IH]; [done|].
  destruct H0 as (a & Hr & Hi & Hn). apply IH.
  destruct (sstep_sim _ _ _ _ _ _ Hs Hr Hi) as (a' & Ha & Hr'). exists a'.
  split; [done|]. split; [by eapply astep_inv|by eapply astep_names].
Qed.

Lemma good_named s : good s -> named (s_given s).
Proof. intros (a & (_ & _ & ->) & _ & Hn)%good_names. apply Hn. Qed.
End NamesOfRuns.
