(* ===== verification/Metrics.v ===== *)
(** Queue counters and the queue's current shape (src/ftq/metrics.py). *)
From S2P Require Import Prelude Effects Redis Keys LuaScripts RedisRules Queue Ops.
From S2P Require Import Refine Fields Streams Logs Invariants Machine System.
From S2P Require Import RedisRef Demo Safety Operations.
From S2P Require Import Json Py Models Config World.
From stdpp Require Import relations.
From Stdlib Require Import Lqa.

#[local] Open Scope string_scope.
#[local] Open Scope list_scope.
#[local] Open Scope Z_scope.
#[local] Open Scope prog_scope.

Definition COUNTERS : list string :=
  ["processed"; "duplicates_suppressed"; "effects_applied"; "effects_suppressed";
   "retried"; "scheduled"; "dead"; "late_successes"; "requeued"; "reclaimed";
   "heartbeats"; "lease_lost"; "consumers_pruned"; "timeouts"; "rejected"; "blocked"].

(** [{name: int(raw.get(name, 0)) for name in COUNTERS}] *)
Fixpoint counts (names : list string) (raw : gmap string string) :
    result exn (list (string * Z)) :=
  match names with
  | [] => Ok []
  | n :: r =>
      z <-! (match raw !! n with Some x => to_int x | None => Ok 0 end) ;;
      zs <-! counts r raw ;;
      Ok ((n, z) :: zs)
  end.

Record Snapshot := mk_Snapshot {
  snap_queue : string;
  snap_depth : Z;
  snap_in_flight : Z;
  snap_undelivered : Z;
  snap_delayed : Z;
  snap_dlq : Z;
  snap_consumers : Z;
  snap_full : bool;
  snap_watermarks : Z * Z;             (* high, low *)
  snap_counters : list (string * Z);
}.

Section Metrics.
Context {S T : Type}.

Definition read_counters (keys : Keys.t) : py S T (list (string * Z)) :=
  raw <- redis (HGETALL (Keys.stats keys)) ;; lift (counts COUNTERS raw).

(** The five reads are one pipeline: all are sent, then the first error is raised. *)
Definition snapshot (settings : Settings.t) : py S T Snapshot :=
  let keys := Keys.mk (Settings.queue settings) in
  a <- settle (redis (XLEN (Keys.stream keys))) ;;
  b <- settle (redis (ZCARD (Keys.delayed keys))) ;;
  c <- settle (redis (XLEN (Keys.dead keys))) ;;
  d <- settle (redis (EXISTS (Keys.full keys))) ;;
  e <- settle (redis (HGETALL (Keys.stats keys))) ;;
  stream_len <- lift a ;; delayed <- lift b ;; dead <- lift c ;; full_flag <- lift d ;;
  raw <- lift e ;;
  shape <- except (fun e => match e with ResponseError _ => true | _ => false end)
    (in_flight <- redis (XPENDING_COUNT (Keys.stream keys) (Settings.group settings)) ;;
     group_info <- redis (XINFO_CONSUMERS (Keys.stream keys) (Settings.group settings)) ;;
     Ret (in_flight, Z.of_nat (length group_info)))
    (fun _ => Ret (0, 0)) ;;
  let depth := stream_len + delayed in
  counters <- lift (counts COUNTERS raw) ;;
  Ret (mk_Snapshot (Settings.queue settings) depth shape.1 (stream_len - shape.1) delayed
         dead shape.2 (full_flag && (Settings.low_watermark settings <=? depth))
         (Settings.high_watermark settings, Settings.low_watermark settings) counters).
End Metrics.

(** ** A snapshot of a queue nobody is changing *)
Definition not_pending (p : gmap eid lease) (e : entry) : Prop := p !! e.1 = None.
#[export] Instance not_pending_dec p e : Decision (not_pending p e).
Proof. unfold not_pending. apply _. Defined.

Lemma size_pending (p : gmap eid lease) (es : list entry) :
  NoDup es.*1 -> (forall e, is_Some (p !! e) -> exists fs, (e, fs) ∈ es) ->
  (size p + length (filter (not_pending p) es) = length es)%nat.
Proof.
  intros Hnd Hp.
  assert (Hs : size p = length (filter (fun e => ~ not_pending p e) es)).
  { rewrite <- (length_fmap fst), <- (length_map_to_list p), <- (length_fmap fst (map_to_list p)).
    apply Permutation_length, NoDup_Permutation.
    - apply NoDup_fst_map_to_list.
    - revert Hnd. clear. induction es as [|e es IH]; [done|]. cbn [fmap list_fmap].
      intros [Hn Hnd]%NoDup_cons. rewrite filter_cons. case_decide; [|by apply IH].
      cbn. apply NoDup_cons. split; [|by apply IH]. intros Hin. apply Hn.
      apply list_elem_of_fmap in Hin as (x & -> & Hx).
      apply list_elem_of_filter in Hx as [_ Hx]. by apply list_elem_of_fmap_2.
    - intros i. rewrite !list_elem_of_fmap. split.
      + intros ([i' l] & -> & Hl). apply elem_of_map_to_list in Hl.
        destruct (Hp i') as [fs Hfs]; [by eexists|]. exists (i', fs). split; [done|].
        apply list_elem_of_filter. split; [|done]. unfold not_pending. cbn. congruence.
      + intros (x & -> & Hx). apply list_elem_of_filter in Hx as [Hx _].
        unfold not_pending in Hx. destruct (p !! x.1) as [l|] eqn:Hl; [|done].
        exists (x.1, l). split; [done|]. by apply elem_of_map_to_list. }
  rewrite Hs, Nat.add_comm. apply (length_filter_split (not_pending p)).
Qed.

Lemma ids_nodup (es : list entry) last : ids_ok es last -> NoDup es.*1.
Proof.
  intros [Hs _ _]. induction Hs as [|e es Hs IH Hf]; [constructor|]. cbn.
  apply NoDup_cons. split; [|done]. intros Hin.
  apply list_elem_of_fmap in Hin as (x & Hx & Hin). rewrite Forall_forall in Hf.
  apply (eid_lt_irrefl e.1). rewrite Hx at 2. by apply Hf.
Qed.

Lemma Qmin_between a b : (a <= b)%Q -> (a <= Qmin a b <= b)%Q.
Proof. intros Hab. destruct (Q.min_spec a b) as [[_ ->]|[Hba ->]]; split; lra. Qed.

Lemma counts_ok names (h : gmap string Z) :
  counts names (str_of_Z <$> h) = Ok ((fun n => (n, default 0 (h !! n))) <$> names).
Proof.
  induction names as [|n names IH]; [done|]. cbn [counts]. rewrite lookup_fmap.
  destruct (h !! n) as [z|] eqn:Hz; cbn; [rewrite to_int_of_Z; cbn|];
    rewrite IH; cbn; by rewrite Hz.
Qed.

Section Exact.
Context `{CJson} {S Tk : Type}.
Context (settings : Settings.t) (T : bool).
Abbreviation K := (Keys.mk (Settings.queue settings)).
Abbreviation G := (Settings.group settings).

(** A command read alone, with its answer in terms of the queue. *)
Lemma read_alone {A : Type} (c : cmd A) v x (Q : result exn (result exn A) -> rview -> Prop) :
  (forall r v', doc c v r v' -> r = Ok x /\ v' = v) -> Q (Ok (Ok x)) v ->
  wp (@alone _ S Tk) (settle (redis c)) v Q.
Proof.
  intros Hd HQ. apply wp_settle, alone_cmd. intros r v' Hr.
  by destruct (Hd r v' Hr) as [-> ->].
Qed.

(** What a snapshot should say of the keys. *)
Record truthful (v : rview) (snap : Snapshot) : Prop := {
  tr_depth : snap_depth snap = depth_at K v;
  tr_in_flight : snap_in_flight snap =
    Z.of_nat (size (pel (group_at (Keys.stream K) G v)));
  tr_undelivered : snap_undelivered snap = Z.of_nat (length
    (filter (not_pending (pel (group_at (Keys.stream K) G v)))
       (entries_at (Keys.stream K) v)));
  tr_delayed : snap_delayed snap = Z.of_nat (size (zset_at (Keys.delayed K) v));
  tr_dlq : snap_dlq snap = Z.of_nat (length (entries_at (Keys.dead K) v));
  tr_consumers : snap_consumers snap =
    Z.of_nat (size (consumers (group_at (Keys.stream K) G v)));
  tr_full : snap_full snap =
    full_at K v && (Settings.low_watermark settings <=? depth_at K v);
  tr_counters : snap_counters snap = (fun n => (n, counter K n v)) <$> COUNTERS;
}.

Lemma consumers_counted (l : list consumer_info) (m : gmap string Z) :
  NoDup (ci_name <$> l) -> (forall n, n ∈ ci_name <$> l <-> is_Some (m !! n)) ->
  length l = size m.
Proof.
  intros Hnd Hl.
  rewrite <- (length_fmap ci_name l), <- (length_map_to_list m), <- (length_fmap fst (map_to_list _)).
  apply Permutation_length, NoDup_Permutation; [done|apply NoDup_fst_map_to_list|].
  intros n. rewrite Hl, list_elem_of_fmap. split.
  - intros [t Ht]. exists (n, t). split; [done|]. by apply elem_of_map_to_list.
  - intros ([n' t] & -> & Ht). apply elem_of_map_to_list in Ht. by eexists.
Qed.

Lemma snapshot_wp (v : rview) q A D :
  rep K G T v q -> inv q A D ->
  wp (@alone _ S Tk) (snapshot settings) v (fun r v' =>
    v' = v /\ exists snap, r = Ok snap /\ truthful v snap).
Proof.
  intros Hr Hi. unfold snapshot.
  apply wp_bind, (read_alone _ _ (Z.of_nat (length (q_entries q)))).
  { intros x v1. by apply (rep_xlen K G T). }
  apply wp_bind, (read_alone _ _ (Z.of_nat (size (q_delayed q)))).
  { intros x v1. by apply (rep_zcard K G T). }
  apply wp_bind, (read_alone _ _ (Z.of_nat (length (entries (q_dead q))))).
  { intros x v1 [-> Hd]. change (Keys.dead K) with (render K KDead) in Hd.
    by rewrite (rep_stream K G T _ q KDead _ Hr eq_refl) in Hd. }
  apply wp_bind, (read_alone _ _ (q_full q)).
  { intros x v1. by apply (rep_exists_full K G T). }
  apply wp_bind, (read_alone (A := gmap string string) _ _ (fmap (M := gmap string) str_of_Z (q_stats q))).
  { intros x v1 [-> Hd]. change (Keys.stats K) with (render K KStats) in Hd.
    by rewrite (rep_hash K G T _ q KStats _ Hr eq_refl) in Hd. }
  cbn [lift bind]. apply wp_bind, wp_try, wp_bind, alone_cmd. intros x v1 [-> Hd].
  rewrite (rep_get_group K G T _ q Hr) in Hd. cbn [pel] in Hd. subst x. cbn [of_reply].
  apply wp_bind, alone_cmd. intros x v1 Hd.
  apply (rep_xinfo K G T _ q) in Hd as (-> & l & -> & Hnd & Hl & _); [|done].
  cbn [of_reply]. apply wp_ret. cbn [fst snd].
  rewrite counts_ok. cbn [lift bind]. apply wp_ret. split; [done|]. eexists. split; [done|].
  pose proof (inv_stream _ _ _ Hi) as Hst.
  pose proof (size_pending (q_pel q) (q_entries q)
    (ids_nodup _ _ (so_ids _ _ _ _ _ Hst)) (so_pel _ _ _ _ _ Hst)).
  split; cbn [snap_depth snap_in_flight snap_undelivered snap_delayed snap_dlq snap_consumers
              snap_full snap_counters];
    rewrite ?(entries_stream Hr), ?(group_stream Hr), ?(zset_delayed Hr), ?(entries_dead Hr),
      ?(depth_queue Hr), ?(full_queue Hr); cbn [pel consumers q_group]; try done; try lia.
  - by rewrite (consumers_counted l (q_cons q)).
  - apply list_fmap_ext. intros i n _. by rewrite (counter_stat Hr).
Qed.
End Exact.

(** C26: a snapshot tells the truth. Taken while nobody changes the queue, it succeeds,
    changes nothing, and reports the depth that enqueue compares with the watermarks,
    the entries in flight and those nobody holds (never negative), the retries waiting,
    the dead-letter entries, the consumers, and every counter; [full] is the flag, as
    long as the depth has not fallen below the low watermark. *)
Theorem snapshot_exact `{CJson} {S Tk} (settings : Settings.t) (T : bool) (s : sys)
    (r : result exn Snapshot) (v' : rview) :
  reachable (Keys.mk (Settings.queue settings)) (Settings.group settings) T s ->
  runs (@alone _ S Tk) (snapshot settings) (s_view s) r v' ->
  v' = s_view s /\ exists snap, r = Ok snap /\ truthful settings (s_view s) snap.
Proof.
  intros Hs. destruct (reachable_good _ _ _ _ Hs) as ([q A D] & (Hr & _) & Hi).
  apply (wp_runs (@alone _ S Tk) _ _ _ _ (fun r v' =>
    v' = s_view s /\ exists snap, r = Ok snap /\ truthful settings (s_view s) snap)).
  by apply (snapshot_wp settings T (s_view s) q A D).
Qed.

(** The reference server, for a coroutine alone: any effect but a request is answered
    without a wait. *)
Definition ref_alone {S Tk} (o : S) X (e : pyev S Tk X) (v : rview) : result exn X * rview :=
  match e in pyev _ _ X return result exn X * rview with
  | EScript n keys args => let p := run (@ref_handle) (lua_of n keys args) v in (of_reply p.1, p.2)
  | ECmd c => let p := run (@ref_handle) (call c) v in (of_reply p.1, p.2)
  | ETime => (Ok 0%Q, v)
  | ESleep _ | EWait _ | ELog _ _ | ESpawn _ => (Ok tt, v)
  | EUniform a b => (Ok (Qmin a b), v)
  | EUuid => (Ok "u", v)
  | ESelf f => (Ok (f o).1, v)
  | EAwait f => (default (Err CancelledError) (f o), v)
  | ECompute _ f => (f tt, v)
  | EExit _ => (Err CancelledError, v)
  end.

Lemma ref_alone_ok {S Tk} (o : S) X (e : pyev S Tk X) v :
  alone X e v (ref_alone o X e v).1 (ref_alone o X e v).2.
Proof.
  destruct e; cbn -[ref_handle run]; try done.
  - eexists. split; [|done]. apply run_exec. by destruct (run _ _ v).
  - eexists. split; [|done]. apply (run_exec (call c)). by destruct (run _ (call c) v).
  - split; [by eexists|done].
  - split; [|done]. eexists. split; [done|]. intros Hab. by apply Qmin_between.
  - split; [|done]. exists "u". split; [done|]. uuid.
  - split; [by eexists|done].
  - split; [|done]. destruct (f o) eqn:Hf; [left; by exists o|by right].
Qed.

(** The settings of the demonstration queue, with small watermarks. *)
Definition demo_settings : Settings.t :=
  let s := Settings.defaults in
  Settings.mk (Settings.redis_url s) 5 2 10 3 (5 # 100) 1 "q" "workers" 10 1000 30 2 300 30 10 5
    5 10 3 1 300 (1 # 2) 500 3600 60 reject 2 1 2 1 INFO fmt_json 0 60.

Definition demo_snapshot (v : rview) : result exn Snapshot :=
  (run (ref_alone (S := unit) (Tk := unit) tt) (snapshot demo_settings) v).1.

Lemma snapshot_exact_witness : exists snap,
  demo_snapshot (s_view state3) = Ok snap /\ truthful demo_settings (s_view state3) snap.
Proof.
  exact (proj2 (snapshot_exact (S := unit) (Tk := unit) demo_settings false state3
    (demo_snapshot (s_view state3)) (run (ref_alone (S := unit) (Tk := unit) tt) (snapshot demo_settings) (s_view state3)).2
    state3_reachable
    (runs_run alone (fun v => v) (ref_alone tt) (ref_alone_ok tt) (snapshot demo_settings)
       (s_view state3)))).
Defined.

(** The [full] of a snapshot is the flag, and the flag is set only by the first refused
    enqueue: with two jobs waiting and a high watermark of two, the snapshot says the
    queue is not full, and the next enqueue is refused because it is. *)
Lemma snapshot_full_lags :
  (exists snap, demo_snapshot (s_view enqueued2) = Ok snap /\ snap_full snap = false) /\
  (run (@ref_handle) (enqueue_lua (Keys.stream k0) (Keys.delayed k0) (Keys.full k0)
     (Keys.stats k0) None "j9" 60 2 1 "rejected" (job_fields "j9")) (s_view enqueued2)).1 =
    Ok ("", -1, 2).
Proof.
  split; [|vm_compute; reflexivity]. eexists. split; [vm_compute; reflexivity|reflexivity].
Qed.
