(* ===== verification/Worker.v ===== *)
(** The worker (src/ftq/worker.py): one process on one event loop.

    [wstate] is the Worker object; its coroutines are programs over it and tasks are
    named by numbers. A [_Run] is a row of [w_runs]. The pools themselves are the
    language's: a process pool is a number, [ECompute] runs a function in it. Loops take
    fuel, one unit per iteration; [inl] is the answer "still looping". *)
From S2P Require Import Prelude Effects Redis Keys LuaScripts Json Fields.
From S2P Require Import Py Models Config Transitions Registry Reaper.

#[local] Open Scope string_scope.
#[local] Open Scope list_scope.
#[local] Open Scope Z_scope.
#[local] Open Scope prog_scope.

Definition _FETCH_ERROR_PAUSE_S : Q := 1.
Definition _MAX_ERROR_CHARS : nat := 2000.
Definition _POOL_START_TIMEOUT_S : Q := 120.

(** [_REDIS_DOWN] *)
Definition _REDIS_DOWN : exn -> bool := is_redis_down.

(** ** The object *)
Inductive kind : Type := k_async | k_thread | k_process.
#[export] Instance kind_eq_dec : EqDecision kind.
Proof. solve_decision. Defined.

(** [_Run]. [r_done]: the run's outcome, once it has one. *)
Record _Run := mk_Run {
  r_kind : kind;
  r_done : option (result exn json);
  r_pool : option nat;
  r_started : option Q;
}.

Record wstate := mk_wstate {
  w_stop : bool;
  w_in_flight : gset nat;
  w_suspects : gset nat;
  w_next_reap : Q;
  w_cursor : eid;
  w_orphans : gset nat;                          (* runs that were given up *)
  w_runs : gmap nat _Run;
  w_fresh : nat;                                 (* the next task, run or pool number *)
  w_cancelled : gset nat;                        (* tasks asked to stop *)
  w_process_slots : Z;
  w_process_pool : option nat;
  w_pool_ready : gmap nat (result exn unit);     (* pool -> how its start-up ended *)
  w_reset_pools : gset nat;
}.

#[export] Instance wstate_cursor : HasCursor wstate.
Proof.
  exists w_cursor (fun i s => mk_wstate (w_stop s) (w_in_flight s) (w_suspects s)
    (w_next_reap s) i (w_orphans s) (w_runs s) (w_fresh s) (w_cancelled s)
    (w_process_slots s) (w_process_pool s) (w_pool_ready s) (w_reset_pools s)).
  done.
Defined.

Definition set_in_flight x s := mk_wstate (w_stop s) x (w_suspects s) (w_next_reap s)
  (w_cursor s) (w_orphans s) (w_runs s) (w_fresh s) (w_cancelled s) (w_process_slots s)
  (w_process_pool s) (w_pool_ready s) (w_reset_pools s).
Definition set_suspects x s := mk_wstate (w_stop s) (w_in_flight s) x (w_next_reap s)
  (w_cursor s) (w_orphans s) (w_runs s) (w_fresh s) (w_cancelled s) (w_process_slots s)
  (w_process_pool s) (w_pool_ready s) (w_reset_pools s).
Definition set_next_reap x s := mk_wstate (w_stop s) (w_in_flight s) (w_suspects s) x
  (w_cursor s) (w_orphans s) (w_runs s) (w_fresh s) (w_cancelled s) (w_process_slots s)
  (w_process_pool s) (w_pool_ready s) (w_reset_pools s).
Definition set_orphans x s := mk_wstate (w_stop s) (w_in_flight s) (w_suspects s)
  (w_next_reap s) (w_cursor s) x (w_runs s) (w_fresh s) (w_cancelled s) (w_process_slots s)
  (w_process_pool s) (w_pool_ready s) (w_reset_pools s).
Definition set_runs x s := mk_wstate (w_stop s) (w_in_flight s) (w_suspects s)
  (w_next_reap s) (w_cursor s) (w_orphans s) x (w_fresh s) (w_cancelled s)
  (w_process_slots s) (w_process_pool s) (w_pool_ready s) (w_reset_pools s).
Definition set_fresh x s := mk_wstate (w_stop s) (w_in_flight s) (w_suspects s)
  (w_next_reap s) (w_cursor s) (w_orphans s) (w_runs s) x (w_cancelled s)
  (w_process_slots s) (w_process_pool s) (w_pool_ready s) (w_reset_pools s).
Definition set_cancelled x s := mk_wstate (w_stop s) (w_in_flight s) (w_suspects s)
  (w_next_reap s) (w_cursor s) (w_orphans s) (w_runs s) (w_fresh s) x
  (w_process_slots s) (w_process_pool s) (w_pool_ready s) (w_reset_pools s).
Definition set_process_slots x s := mk_wstate (w_stop s) (w_in_flight s) (w_suspects s)
  (w_next_reap s) (w_cursor s) (w_orphans s) (w_runs s) (w_fresh s) (w_cancelled s) x
  (w_process_pool s) (w_pool_ready s) (w_reset_pools s).
Definition set_process_pool x s := mk_wstate (w_stop s) (w_in_flight s) (w_suspects s)
  (w_next_reap s) (w_cursor s) (w_orphans s) (w_runs s) (w_fresh s) (w_cancelled s)
  (w_process_slots s) x (w_pool_ready s) (w_reset_pools s).
Definition set_pool_ready x s := mk_wstate (w_stop s) (w_in_flight s) (w_suspects s)
  (w_next_reap s) (w_cursor s) (w_orphans s) (w_runs s) (w_fresh s) (w_cancelled s)
  (w_process_slots s) (w_process_pool s) x (w_reset_pools s).
Definition set_reset_pools x s := mk_wstate (w_stop s) (w_in_flight s) (w_suspects s)
  (w_next_reap s) (w_cursor s) (w_orphans s) (w_runs s) (w_fresh s) (w_cancelled s)
  (w_process_slots s) (w_process_pool s) (w_pool_ready s) x.
Definition set_stop x s := mk_wstate x (w_in_flight s) (w_suspects s) (w_next_reap s)
  (w_cursor s) (w_orphans s) (w_runs s) (w_fresh s) (w_cancelled s) (w_process_slots s)
  (w_process_pool s) (w_pool_ready s) (w_reset_pools s).

(** The tasks a worker starts. *)
Inductive task : Type :=
  | TProcess (id : nat) (entry_id : eid) (fields : list string) (deliveries : Z)
  | THeartbeat (id : nat) (entry_id : eid) (job : Job)
  | TRun (run : nat) (job : Job)
  | TWarmUp (pool : nat)
  | TMaintenance (id : nat).

Abbreviation co := (py wstate task).

Definition fresh : co nat := call (ESelf (fun s => (w_fresh s, set_fresh (S (w_fresh s)) s))).

(** A row of [w_runs]. *)
Definition run_row (id : nat) (s : wstate) : _Run :=
  default (mk_Run k_async None None None) (w_runs s !! id).
Definition change_run (id : nat) (f : _Run -> _Run) (s : wstate) : wstate :=
  set_runs (<[id := f (run_row id s)]> (w_runs s)) s.
Definition start_clock (id : nat) : co unit :=
  t <- now ;;
  update (change_run id (fun r => mk_Run (r_kind r) (r_done r) (r_pool r) (Some t))).
Definition stop_clock (id : nat) : co unit :=
  update (change_run id (fun r => mk_Run (r_kind r) (r_done r) (r_pool r) None)).
Definition finish_run (id : nat) (x : result exn json) : co unit :=
  update (change_run id (fun r => mk_Run (r_kind r) (Some x) (r_pool r) (r_started r))).
Definition enter_pool (id pool : nat) : co unit :=
  update (change_run id (fun r => mk_Run (r_kind r) (r_done r) (Some pool) (r_started r))).

(** [task.cancel()] *)
Definition cancel (id : nat) : co unit :=
  update (fun s => set_cancelled ({[id]} ∪ w_cancelled s) s).

Definition run_kind (spec : HandlerSpec wstate task) : kind :=
  match spec with
  | AsyncSpec _ _ _ => k_async
  | SyncSpec _ thread _ _ => k_thread
  | SyncSpec _ process _ _ => k_process
  end.

Definition kind_name (k : kind) : string :=
  match k with k_async => "async" | k_thread => "thread" | k_process => "process" end.

(** The type names of [_error_text]. *)
Definition exn_name (e : exn) : string :=
  match e with
  | KeyError _ => "KeyError"
  | ValueError _ => "ValueError"
  | TypeError _ => "TypeError"
  | AssertionError => "AssertionError"
  | ZeroDivisionError => "ZeroDivisionError"
  | IndexError => "IndexError"
  | StopIteration => "StopIteration"
  | RuntimeError _ => "RuntimeError"
  | CalledProcessError _ _ => "CalledProcessError"
  | BadParameter _ => "BadParameter"
  | Exit _ => "Exit"
  | JSONDecodeError => "JSONDecodeError"
  | ValidationError _ => "ValidationError"
  | QueueFull _ _ => "QueueFull"
  | RedisConnectionError _ => "ConnectionError"
  | RedisTimeoutError _ => "TimeoutError"
  | ResponseError _ => "ResponseError"
  | HandlerTimeout _ _ => "HandlerTimeout"
  | BrokenProcessPool => "BrokenProcessPool"
  | HandlerError t _ => t
  | CancelledError => "CancelledError"
  end.

(** Handler threads that timed out or were abandoned and are still running. *)
Definition threads_still_running (s : wstate) : Z :=
  Z.of_nat (size (filter (fun id =>
    r_kind (run_row id s) = k_thread /\ r_done (run_row id s) = None) (w_orphans s))).

Section Worker.
Context (settings : Settings.t) (registry : Registry wstate task) (worker_id : string).
(** [str(exc)]: the message texts of library exceptions. *)
Context (exn_str : exn -> string) (child_pid : nat -> nat -> nat -> Z).

Definition keys : Keys.t := Keys.mk (Settings.queue settings).
Definition ledger : EffectLedger.t :=
  EffectLedger.mk keys (Settings.done_ttl_seconds settings).

Definition _error_text (e : exn) : string :=
  cut _MAX_ERROR_CHARS (exn_name e +:+ ": " +:+ exn_str e).

(** [__init__]: each handler type's own timeout needs the TTL margin too. *)
Fixpoint check_specs (l : list (string * HandlerSpec wstate task)) : result exn unit :=
  match l with
  | [] => Ok tt
  | (_, spec) :: r =>
      match spec_timeout spec with
      | Some t => _ <-! Settings.check_ttl_covers settings t ;; check_specs r
      | None => check_specs r
      end
  end.

Definition new_worker : result exn wstate :=
  _ <-! check_specs (specs registry) ;;
  Ok (mk_wstate false ∅ ∅ 0 (0, 0) ∅ ∅ 0 ∅ (Settings.process_pool_size settings) None ∅ ∅).

Definition request_stop : co unit :=
  stopped <- call (ESelf (fun s => (w_stop s, s))) ;;
  (if stopped : bool then Ret tt else log_line INFO "stop requested, draining in-flight jobs") ;;;
  update (set_stop true).

(** ** Pools *)
Definition _reset_process_pool (pool : nat) : co unit :=
  update (fun s => set_reset_pools ({[pool]} ∪ w_reset_pools s)
    (if decide (w_process_pool s = Some pool) then set_process_pool None s else s)) ;;;
  log_line INFO "process pool reset".

Definition _ready_processes : co nat :=
  p <- call (ESelf (fun s => (w_process_pool s, s))) ;;
  (match p with
   | None =>
       pool <- fresh ;;
       update (set_process_pool (Some pool)) ;;; spawn (TWarmUp pool)
   | Some _ => Ret tt
   end) ;;;
  p <- call (ESelf (fun s => (w_process_pool s, s))) ;;
  match p with
  | None => Raise AssertionError
  | Some pool => await (fun s => w_pool_ready s !! pool) ;;; Ret pool
  end.

(** One round of [_warm_up]: every child not busy starting answers with its pid. The
    pids are the operating system's: [child_pid pool round k]. *)
Definition warm_round (started : Q) (pool : nat)
    (st : nat * gset Z) : co ((nat * gset Z) + unit) :=
  let '(round, ready) := st in
  let size := Z.to_nat (Settings.process_pool_size settings) in
  if (size <=? base.size ready)%nat then log_line INFO "process pool ready" ;;; Ret (inr tt)
  else
    t <- now ;;
    if Qlt_bool _POOL_START_TIMEOUT_S (t - started) then Raise BrokenProcessPool
    else
      pids <- map_py (fun k => call (ECompute pool (fun _ => Ok (child_pid pool round k))))
                (seq 0 size) ;;
      Ret (inl (S round, ready ∪ list_to_set pids)).

Definition _warm_up (fuel pool : nat) :
    co ((nat * gset Z) + unit) :=
  started <- now ;; loop fuel (warm_round started pool) (O, ∅).

(** One turn of [_run_in_process]. *)
Definition run_once (spec : SyncHandler) (job : Job) (run : nat) (_ : unit) :
    co (unit + json) :=
  stop_clock run ;;;
  pool <- _ready_processes ;;
  enter_pool run pool ;;;
  start_clock run ;;;
  except (fun e => bool_decide (e = BrokenProcessPool))
    (x <- call (ECompute pool (fun _ => sync_fn spec job)) ;; Ret (inr x))
    (fun e =>
       reset <- call (ESelf (fun s => (bool_decide (pool ∈ w_reset_pools s), s))) ;;
       if (reset : bool) then
         log_line INFO "process pool was reset; restarting job" ;;; Ret (inl tt)
       else
         update (fun s => if decide (w_process_pool s = Some pool)
                          then set_process_pool None s else s) ;;;
         Raise e).

Definition _run_in_process (fuel : nat) (spec : SyncHandler) (job : Job) (run : nat) :
    co (unit + json) := loop fuel (run_once spec job run) tt.

(** ** One handler run *)
Definition _start (spec : HandlerSpec wstate task) (job : Job) : co nat :=
  run <- fresh ;;
  t <- now ;;
  let k := run_kind spec in
  update (change_run run (fun _ => mk_Run k None None
    (if decide (k = k_process) then None else Some t))) ;;;
  spawn (TRun run job) ;;;
  Ret run.

Definition _stop_run (run : nat) (abandoning : bool) : co unit :=
  cancel run ;;;
  row <- call (ESelf (fun s => (run_row run s, s))) ;;
  if decide (r_kind row = k_process) then
    match r_pool row with
    | Some pool => if abandoning then Ret tt else _reset_process_pool pool
    | None => Ret tt
    end
  else
    match r_done row with
    | Some _ => Ret tt
    | None => update (fun s => set_orphans ({[run]} ∪ w_orphans s) s)
    end.

(** One turn of the wait: [inr]: the run is done or its time is up. *)
Definition wait_once (timeout : Q) (run : nat) (_ : unit) : co (unit + unit) :=
  row <- call (ESelf (fun s => (run_row run s, s))) ;;
  match r_done row with
  | Some _ => Ret (inr tt)
  | None =>
      match r_started row with
      | None => wait None ;;; Ret (inl tt)
      | Some t0 =>
          t <- now ;;
          let remaining := (t0 + timeout - t)%Q in
          if Qle_bool remaining 0 then Ret (inr tt)
          else wait (Some remaining) ;;; Ret (inl tt)
      end
  end.

Definition acquire_slot : co unit :=
  await (fun s => if 0 <? w_process_slots s then Some (Ok tt) else None) ;;;
  update (fun s => set_process_slots (w_process_slots s - 1) s).
Definition release_slot : co unit :=
  update (fun s => set_process_slots (w_process_slots s + 1) s).

Definition run_timeout (spec : HandlerSpec wstate task) : Q :=
  default (Settings.job_timeout settings) (spec_timeout spec).

Definition watch_run (fuel : nat) (spec : HandlerSpec wstate task) (job : Job) :
    co (unit + result exn json) :=
  let timeout := run_timeout spec in
  run <- _start spec job ;;
  ended <- except (fun e => bool_decide (e = CancelledError))
    (loop fuel (wait_once timeout run) tt)
    (fun e => _stop_run run true ;;; Raise e) ;;
  match ended with
  | inl _ => Ret (inl tt)
  | inr _ =>
      row <- call (ESelf (fun s => (run_row run s, s))) ;;
      match r_done row with
      | Some x => Ret (inr x)
      | None =>
          _stop_run run false ;;;
          Raise (HandlerTimeout timeout (kind_name (run_kind spec)))
      end
  end.

(** [inl]: still waiting after [fuel] wake-ups. *)
Definition _run_handler (fuel : nat) (spec : HandlerSpec wstate task) (job : Job) :
    co (unit + string) :=
  r <- (if decide (run_kind spec = k_process)
        then acquire_slot ;;; finally (watch_run fuel spec job) release_slot
        else watch_run fuel spec job) ;;
  match r with
  | inl _ => Ret (inl tt)
  | inr x => y <- lift x ;; Ret (inr (dumps y))
  end.

(** ** One job *)
Definition _to_dlq (entry_id : eid) (job_id : string) (reason : DeadReason)
    (error : string) (attempts : Z) (timed_out : bool) : co unit :=
  r <- except is_redis_error
    (o <- Transitions.dead settings worker_id entry_id job_id reason error attempts timed_out ;;
     Ret (Some o))
    (fun _ => log_line WARNING "could not move job to the DLQ; left in the PEL" ;;; Ret None) ;;
  match r with
  | None => Ret tt
  | Some OK => log_line WARNING ("job -> DLQ (" +:+ reason_value reason +:+ ")")
  | Some _ => log_line INFO "DLQ move refused or dropped"
  end.

Definition is_timeout (e : exn) : bool :=
  match e with HandlerTimeout _ _ => true | _ => false end.

Definition _fail (entry_id : eid) (job : Job) (exc : exn) : co unit :=
  let error := _error_text exc in
  let timed_out := is_timeout exc in
  let attempts := attempt job + 1 in
  (if timed_out then log_line WARNING error else Ret tt) ;;;
  if Settings.max_attempts settings <=? attempts then
    _to_dlq entry_id (job_id job) MAX_ATTEMPTS error attempts timed_out
  else
    delay <- full_jitter_delay (attempt job) (Settings.job_backoff_base settings)
               (Settings.job_backoff_cap settings) ;;
    r <- except is_redis_error
      (o <- Transitions.retry settings worker_id entry_id job delay timed_out ;; Ret (Some o))
      (fun _ => log_line WARNING "could not schedule retry; left in the PEL" ;;; Ret None) ;;
    match r with
    | None => Ret tt
    | Some LEASE_LOST =>
        log_line WARNING "job failed after its lease was lost; no retry scheduled"
    | Some _ => log_line DEBUG "attempt failed; retry scheduled or dropped"
    end.

(** The commit of a result and the three ways it can go. *)
Definition _finish (entry_id : eid) (job : Job) (result_json : string) : co unit :=
  r <- except is_redis_error
    (o <- Transitions.commit settings worker_id entry_id job result_json ;; Ret (Some o))
    (fun e =>
       (if _REDIS_DOWN e then log_line WARNING "commit failed; left for redelivery"
        else log_line ERROR "commit errored; left in the PEL") ;;; Ret None) ;;
  match r with
  | None => Ret tt
  | Some o =>
      (if decide (o = LATE_SUCCESS)
       then log_line WARNING "job succeeded after it was moved to the DLQ; now SUCCEEDED"
       else Ret tt) ;;;
      log_line DEBUG "job finished"
  end.

(** Run the handler with its heartbeat beside it; the heartbeat is stopped either way. *)
Definition attempt_run (fuel : nat) (entry_id : eid) (spec : HandlerSpec wstate task)
    (job : Job) : co (result exn (unit + string)) :=
  hb <- (if spec_heartbeat spec
         then id <- fresh ;; spawn (THeartbeat id entry_id job) ;;; Ret (Some id)
         else Ret None) ;;
  finally
    (except is_exception (x <- _run_handler fuel spec job ;; Ret (Ok x))
       (fun e => Ret (Err e)))
    (match hb with Some id => cancel id ;;; wait None | None => Ret tt end).

(** What stands in for an absent or empty job id. *)
Definition name_of (entry_id : eid) (fields : list string) : string :=
  match field "job_id" fields with
  | Some j => if decide (j = "") then "entry:" +:+ str_of_eid entry_id else j
  | None => "entry:" +:+ str_of_eid entry_id
  end.

Definition is_malformed (e : exn) : bool :=
  match e with KeyError _ => true | _ => is_value_error e end.

Definition _process (fuel : nat) (entry_id : eid) (fields : list string) (deliveries : Z) :
    co unit :=
  match from_fields fields with
  | Err e =>
      if is_malformed e
      then _to_dlq entry_id (name_of entry_id fields) MALFORMED (_error_text e) 0 false
      else Raise e
  | Ok job =>
      if Settings.max_deliveries settings <? deliveries then
        _to_dlq entry_id (job_id job) MAX_DELIVERIES
          ("delivered " +:+ str_of_Z deliveries +:+ " times (max_deliveries=" +:+
           str_of_Z (Settings.max_deliveries settings) +:+ ")") (attempt job + 1) false
      else
        match get registry (type job) with
        | None =>
            _to_dlq entry_id (job_id job) UNKNOWN_TYPE
              ("no handler registered for type '" +:+ type job +:+ "'") (attempt job) false
        | Some spec =>
            log_line DEBUG "running job" ;;;
            r <- attempt_run fuel entry_id spec job ;;
            match r with
            | Err failure => _fail entry_id job failure
            | Ok (inr result_json) => _finish entry_id job result_json
            | Ok (inl _) => Ret tt                     (* still running: out of fuel *)
            end
        end
  end.

(** One beat: [inr]: the lease is lost. *)
Definition beat (entry_id : eid) (_ : unit) : co (unit + unit) :=
  sleep (Settings.heartbeat_interval settings) ;;;
  r <- except is_redis_error
    (o <- Transitions.heartbeat settings worker_id entry_id ;; Ret (Some o))
    (fun _ => log_line WARNING "heartbeat failed" ;;; Ret None) ;;
  match r with
  | Some LEASE_LOST =>
      log_line WARNING "lost the lease (reclaimed by another worker)" ;;; Ret (inr tt)
  | _ => Ret (inl tt)
  end.

Definition _heartbeat_loop (fuel : nat) (entry_id : eid) : co (unit + unit) :=
  loop fuel (beat entry_id) tt.

(** ** Fetching *)
Definition _spawn (entry_id : eid) (fields : list string) (deliveries : Z) : co nat :=
  id <- fresh ;;
  spawn (TProcess id entry_id fields deliveries) ;;;
  update (fun s => set_in_flight ({[id]} ∪ w_in_flight s) s) ;;;
  Ret id.

Definition start_claimed (c : Claimed) : co unit :=
  log_line DEBUG "reclaimed entry" ;;;
  id <- _spawn (Reaper.entry_id c) (claimed_fields c) (claim_count c) ;;
  if is_suspect c settings
  then update (fun s => set_suspects ({[id]} ∪ w_suspects s) s) else Ret tt.

Definition _reap (free : Z) : co Z :=
  slots <- call (ESelf (fun s => (if bool_decide (w_suspects s = ∅) then 1 else 0, s))) ;;
  r <- except _REDIS_DOWN
    (x <- Reaper.reclaim settings worker_id free slots ;; Ret (Some x))
    (fun _ => log_line WARNING "reclaim failed" ;;; Ret None) ;;
  match r with
  | None =>
      t <- now ;; update (set_next_reap (t + Settings.reap_interval settings)) ;;; Ret 0
  | Some (claimed, more) =>
      t <- now ;;
      update (set_next_reap (t + (if more : bool then 0 else Settings.reap_interval settings))) ;;;
      for_each claimed (fun c _ => start_claimed c) tt ;;;
      Ret (Z.of_nat (length claimed))
  end.

Definition _fetch (count : Z) : co (list (eid * list string)) :=
  redis (XREADGROUP (Keys.stream keys) (Settings.group settings) worker_id (Z.to_nat count)).

(** One turn of the fetch loop: [inr]: a stop was requested. *)
Definition fetch_once (_ : unit) : co (unit + unit) :=
  s <- self ;;
  if w_stop s then Ret (inr tt)
  else
    let free := Settings.concurrency settings - Z.of_nat (size (w_in_flight s)) -
                Z.of_nat (size (w_orphans s)) in
    if free <=? 0 then wait None ;;; Ret (inl tt)
    else
      t <- now ;;
      s <- self ;;
      n <- (if Qle_bool (w_next_reap s) t then _reap free else Ret 0) ;;
      if free - n =? 0 then Ret (inl tt)
      else
        r <- except _REDIS_DOWN (x <- _fetch (free - n) ;; Ret (Some x))
          (fun _ => log_line WARNING "fetch failed; retrying" ;;;
                    wait (Some _FETCH_ERROR_PAUSE_S) ;;; Ret None) ;;
        match r with
        | None => Ret (inl tt)
        | Some entries =>
            for_each entries (fun e _ => _spawn e.1 e.2 1 ;;; Ret tt) tt ;;;
            Ret (inl tt)
        end.

Definition _fetch_loop (fuel : nat) : co (unit + unit) := loop fuel fetch_once tt.

(** ** Maintenance *)
Definition maintain_once (next_prune : Q) : co (Q + unit) :=
  st <- try_catch
    (moved <- Scheduler.move_due settings ;;
     t <- now ;;
     if Qle_bool next_prune t then
       t' <- now ;;
       pruned <- settle (Reaper.prune_consumers settings worker_id) ;;
       match pruned with
       | Ok names =>
           (if bool_decide (names = []) then Ret tt else log_line INFO "pruned idle consumers") ;;;
           Ret (moved, t' + Settings.consumer_prune_interval settings)%Q
       | Err e =>
           if is_exception e then
             log_line WARNING "maintenance pass failed" ;;;
             Ret (moved, t' + Settings.consumer_prune_interval settings)%Q
           else Raise e
       end
     else Ret (moved, next_prune))
    (fun e => if is_exception e
              then log_line WARNING "maintenance pass failed" ;;; Ret (0, next_prune)
              else Raise e) ;;
  (if st.1 <? Settings.scheduler_batch settings
   then sleep (Settings.scheduler_interval settings) else Ret tt) ;;;
  Ret (inl st.2).

Definition _maintenance_loop (fuel : nat) : co (Q + unit) :=
  t <- now ;; loop fuel maintain_once t.

(** ** Lifecycle *)
Fixpoint has_infix (p s : string) : bool :=
  String.prefix p s || match s with String _ r => has_infix p r | EmptyString => false end.

Definition ensure_group : co unit :=
  except (fun e => match e with ResponseError m => has_infix "BUSYGROUP" m | _ => false end)
    (redis (XGROUP_CREATE (Keys.stream keys) (Settings.group settings)))
    (fun _ => Ret tt).

(** [inr b]: [_connect] returned [b]. *)
Definition connect_once (_ : unit) : co (unit + bool) :=
  stopped <- call (ESelf (fun s => (w_stop s, s))) ;;
  if stopped : bool then Ret (inr false)
  else
    except _REDIS_DOWN (ensure_group ;;; Ret (inr true))
      (fun _ => log_line WARNING "Redis unreachable at startup; retrying" ;;;
                wait (Some _FETCH_ERROR_PAUSE_S) ;;; Ret (inl tt)).

Definition _connect (fuel : nat) : co (unit + bool) := loop fuel connect_once tt.

Definition cancel_all (l : list nat) : co unit := for_each l (fun id _ => cancel id) tt.

Definition _drain : co bool :=
  s <- self ;;
  if decide (w_in_flight s = ∅) then Ret false
  else
    wait (Some (Settings.shutdown_grace settings)) ;;;
    s' <- self ;;
    let pending := elements (w_in_flight s ∩ w_in_flight s') in
    if decide (pending = []) then Ret false
    else
      log_line WARNING "grace period over, abandoning in-flight jobs to be reclaimed" ;;;
      cancel_all pending ;;; wait None ;;; Ret true.

(** What is waited for: the threads, unless one of them may never end, and the pool's
    children (terminated first if anything was abandoned). *)
Definition _shutdown_pools (abandoned : bool) : co unit :=
  s <- self ;;
  let stuck := abandoned || (0 <? threads_still_running s) in
  (if stuck then Ret tt else wait None) ;;;
  match w_process_pool s with
  | Some _ => wait None
  | None => Ret tt
  end.

(** [run]: [inl] when a loop ran out of fuel. *)
Definition run_worker (fuel : nat) : co (unit + unit) :=
  c <- _connect fuel ;;
  match c with
  | inl _ => Ret (inl tt)
  | inr false => log_line INFO "stopped before Redis was reachable" ;;; Ret (inr tt)
  | inr true =>
      log_line INFO "started" ;;;
      m <- fresh ;;
      spawn (TMaintenance m) ;;;
      r <- settle (_fetch_loop fuel) ;;
      cancel m ;;; wait None ;;;
      abandoned <- settle _drain ;;
      _shutdown_pools (match abandoned with Ok b => b | Err _ => false end) ;;;
      lift abandoned ;;;
      x <- lift r ;;
      match x with
      | inl _ => Ret (inl tt)
      | inr _ => log_line INFO "stopped" ;;; Ret (inr tt)
      end
  end.

(** ** What a task runs *)

(** The end of a task: its done callbacks. *)
Definition retire (id : nat) : co unit :=
  update (fun s => set_suspects (w_suspects s ∖ {[id]}) (set_in_flight (w_in_flight s ∖ {[id]}) s)).

Definition run_body (fuel : nat) (spec : HandlerSpec wstate task) (run : nat) (job : Job) :
    co (unit + json) :=
  match spec with
  | AsyncSpec fn _ _ =>
      x <- async_fn fn (mk_JobContext job ledger worker_id) ;; Ret (inr x)
  | SyncSpec fn thread _ _ => x <- call (ECompute 0 (fun _ => sync_fn fn job)) ;; Ret (inr x)
  | SyncSpec fn process _ _ => _run_in_process fuel fn job run
  end.

Definition task_body (fuel : nat) (t : task) : co unit :=
  match t with
  | TProcess id e fs n => finally (_process fuel e fs n) (retire id)
  | THeartbeat _ e _ => _heartbeat_loop fuel e ;;; Ret tt
  | TRun run job =>
      match get registry (type job) with
      | None => Ret tt
      | Some spec =>
          r <- settle (run_body fuel spec run job) ;;
          match r with
          | Ok (inl _) => Ret tt
          | Ok (inr x) => finish_run run (Ok x)
          | Err e => finish_run run (Err e)
          end ;;;
          update (fun s => set_orphans (w_orphans s ∖ {[run]}) s)
      end
  | TWarmUp pool =>
      r <- settle (_warm_up fuel pool) ;;
      match r with
      | Ok (inl _) => Ret tt
      | Ok (inr _) => update (fun s => set_pool_ready (<[pool := Ok tt]> (w_pool_ready s)) s)
      | Err e => update (fun s => set_pool_ready (<[pool := Err e]> (w_pool_ready s)) s)
      end
  | TMaintenance _ => _maintenance_loop fuel ;;; Ret tt
  end.
End Worker.
