(* ===== verification/Legal.v ===== *)
(** Everything the Python code does is a step of the system.

    [safe D p]: a coroutine that has been given the entries [D] only ever sends requests
    that [sstep] allows, whatever the answers. It holds for every coroutine of the
    producer, the worker (its fetch loop, jobs, heartbeats, handler runs, maintenance)
    and the operator, so by [legal_steps] a whole run of any of them, among any others
    and over a lossy network, is a run of the system, and the theorems about reachable
    states hold in it. *)
From S2P Require Import Prelude Effects Redis Keys LuaScripts Queue Ops Refine.
From S2P Require Import Fields Streams Logs Invariants Machine System.
From S2P Require Import Json Py Models Config Transitions Registry Reaper Client.
From S2P Require Import World Names Metrics Worker.
From stdpp Require Import relations.

#[local] Open Scope string_scope.
#[local] Open Scope list_scope.
#[local] Open Scope Z_scope.
#[local] Open Scope prog_scope.

Section Safe.
Context `{CJson}.
Context (K : Keys.t) (G : string) (T : bool).
Context {S Tk : Type} (task_ok : gset entry -> Tk -> Prop).

Definition safe {A : Type} (D : gset entry) (p : py S Tk A) : Prop :=
  legal K G T (good K G T) task_ok D p (fun _ _ => True).

Lemma safe_bind {A B : Type} D (p : py S Tk A) (f : A -> py S Tk B) :
  safe D p -> (forall a D', D ⊆ D' -> safe D' (f a)) -> safe D (bind p f).
Proof.
  intros Hp Hf. apply legal_bind. eapply legal_mono; [exact Hp|].
  intros [a|e] D' Hs _; [by apply Hf|done].
Qed.

(** A safe part of a coroutine of which more is to be shown. *)
Lemma legal_after {A B : Type} D (p : py S Tk A) (f : A -> py S Tk B) Q :
  safe D p -> (forall a D', D ⊆ D' -> legal K G T (good K G T) task_ok D' (f a) Q) ->
  (forall e D', Q (Err e) D') ->
  legal K G T (good K G T) task_ok D (bind p f) Q.
Proof.
  intros Hp Hf He. apply legal_bind. eapply legal_mono; [exact Hp|].
  intros [a|e] D' Hs _; [by apply Hf|by apply He].
Qed.

Lemma safe_try {A : Type} D (p : py S Tk A) (h : exn -> py S Tk A) :
  safe D p -> (forall e D', D ⊆ D' -> safe D' (h e)) -> safe D (try_catch p h).
Proof.
  intros Hp Hf. apply legal_try. eapply legal_mono; [exact Hp|].
  intros [a|e] D' Hs _; [done|by apply Hf].
Qed.

(** [try: x = p except <c>: h], where [h] gives no [x]. *)
Lemma legal_optional {A : Type} (D : gset entry) (c : exn -> bool) (p : py S Tk A)
    (h : exn -> py S Tk (option A)) (P : A -> gset entry -> Prop) :
  legal K G T (good K G T) task_ok D p
    (fun r D' => match r with Ok a => P a D' | Err _ => True end) ->
  (forall e D', legal K G T (good K G T) task_ok D' (h e)
     (fun r _ => match r with Ok (Some _) => False | _ => True end)) ->
  legal K G T (good K G T) task_ok D (except c (bind p (fun x => Ret (Some x))) h)
    (fun r D' => match r with Ok (Some x) => P x D' | _ => True end).
Proof.
  intros Hp Hh. apply legal_try, legal_bind. eapply legal_mono; [exact Hp|].
  intros [a|e] D' _ Ha; [exact Ha|]. cbn. destruct (c e); [|done].
  eapply legal_mono; [apply Hh|]. by intros [[x|]|e'].
Qed.

Lemma safe_except {A : Type} D c (p : py S Tk A) (h : exn -> py S Tk A) :
  safe D p -> (forall e D', D ⊆ D' -> safe D' (h e)) -> safe D (except c p h).
Proof. intros Hp Hh. apply safe_try; [done|]. intros e D' Hs. by destruct (c e); [apply Hh|]. Qed.

Lemma safe_settle {A : Type} D (p : py S Tk A) : safe D p -> safe D (settle p).
Proof. intros Hp. apply safe_try; [|done]. by apply safe_bind. Qed.

Lemma safe_lift {A : Type} D (r : result exn A) : safe D (lift r).
Proof. by destruct r. Qed.

Lemma safe_finally {A : Type} D (p : py S Tk A) (f : py S Tk unit) :
  safe D p -> (forall D', D ⊆ D' -> safe D' f) -> safe D (finally p f).
Proof.
  intros Hp Hf. apply safe_bind; [by apply safe_settle|]. intros r D' Hs.
  apply safe_bind; [by apply Hf|]. intros. apply safe_lift.
Qed.

Lemma safe_event {X : Type} D (e : pyev S Tk X) :
  permitted K G T (good K G T) task_ok D e -> safe D (call e).
Proof. intros Hp. by apply legal_call_event. Qed.

Lemma safe_loop {St A : Type} n (body : St -> py S Tk (St + A)) : forall s D,
  (forall s D', D ⊆ D' -> safe D' (body s)) -> safe D (loop n body s).
Proof.
  induction n as [|n IH]; intros s D Hb; [done|]. cbn [loop].
  apply safe_bind; [by apply Hb|]. intros [s'|a] D' Hs; [|done].
  apply IH. intros s'' D'' Hs'. apply Hb. by etrans.
Qed.

Lemma safe_for_each {A St : Type} (f : A -> St -> py S Tk St) l : forall s D,
  (forall x s D', x ∈ l -> D ⊆ D' -> safe D' (f x s)) -> safe D (for_each l f s).
Proof.
  induction l as [|x l IH]; intros s D Hf; [done|]. cbn [for_each].
  apply safe_bind; [apply Hf; [left|done]|]. intros s' D' Hs.
  apply IH. intros y s'' D'' Hy Hs'. apply Hf; [by right|by etrans].
Qed.

Lemma safe_map {A B : Type} (f : A -> py S Tk B) l : forall D,
  (forall x D', D ⊆ D' -> safe D' (f x)) -> safe D (map_py f l).
Proof.
  induction l as [|x l IH]; intros D Hf; [done|]. cbn [map_py].
  apply safe_bind; [by apply Hf|]. intros y D' Hs. apply safe_bind; [|done].
  apply IH. intros x' D'' Hs'. apply Hf. by etrans.
Qed.

(** A call that hands nothing out and accepts nothing. *)
Lemma legal_script D n keys args :
  (forall v A D' x v', D ⊆ D' -> named D' -> exec (lua_of n keys args) v x v' ->
     sstep K G T (Sys v A D') (Sys v' A D')) ->
  (forall r, accepted_by n args r = ∅) -> (forall r, given_by n r = ∅) ->
  legal_call K G T (good K G T) D (does_script n keys args).
Proof.
  intros Hl Ha Hg [v A D'] x s' Hok HD (v' & Hx & ->). cbn [s_view s_accepted s_given] in *.
  rewrite Ha, Hg, !union_empty_r_L. eapply Hl; [done|by apply good_named in Hok|exact Hx].
Qed.

(** A command that only reads. *)
Lemma legal_read {A : Type} D (c : cmd A) :
  (forall v r v', doc c v r v' -> v' = v) -> (forall r, given_cmd c r = ∅) ->
  legal_call K G T (good K G T) D (does_cmd c).
Proof.
  intros Hr Hg [v A' D'] x s' Hok HD (v' & Hx & ->). cbn [s_view s_accepted s_given].
  apply exec_call in Hx. apply Hr in Hx as ->. rewrite Hg, union_empty_r_L. apply step_tick; [done|reflexivity|].
  by right.
Qed.
End Safe.

(** Calls that touch no Redis at all. *)
Ltac safe_quiet := apply safe_event; exact I.

(** One step through the shape of a coroutine. *)
Ltac safe_step :=
  lazymatch goal with
  | |- safe _ _ _ _ _ (Ret _) => exact I
  | |- safe _ _ _ _ _ (Raise _) => exact I
  | |- safe _ _ _ _ _ (bind _ _) => apply safe_bind; [|intros ? ? ?]
  | |- safe _ _ _ _ _ (except _ _ _) => apply safe_except; [|intros ? ? ?]
  | |- safe _ _ _ _ _ (settle _) => apply safe_settle
  | |- safe _ _ _ _ _ (finally _ _) => apply safe_finally; [|intros ? ?]
  | |- safe _ _ _ _ _ (try_catch _ _) => apply safe_try; [|intros ? ? ?]
  | |- safe _ _ _ _ _ (lift _) => apply safe_lift
  | |- safe _ _ _ _ _ (loop _ _ _) => apply safe_loop; intros ? ? ?
  | |- safe _ _ _ _ _ (for_each _ _ _) => apply safe_for_each; intros ? ? ? ? ?
  | |- safe _ _ _ _ _ (map_py _ _) => apply safe_map; intros ? ? ?
  | |- safe _ _ _ _ _ (match ?x with _ => _ end) => destruct x
  | |- safe _ _ _ _ _ _ => first [safe_quiet | apply safe_bind; [|intros ? ? ?]]
  end.
Ltac safe_all := repeat safe_step.
(** The goal left by [legal_bind] on a known result, as [safe] again. *)
Ltac safe_rest :=
  cbv beta iota;
  lazymatch goal with
  | |- legal ?K ?G ?T _ ?tok ?D ?p _ => change (safe K G T tok D p)
  end.

(** ** The requests of the code *)
Section Requests.
Context `{CJson}.
Context (settings : Settings.t) (T : bool).
Abbreviation K := (Keys.mk (Settings.queue settings)).
Abbreviation G := (Settings.group settings).
(** Records expire in this run only if the configuration says so. *)
Context (HT : 0 < Settings.done_ttl_seconds settings -> T = true).

Definition task_ok (D : gset entry) (t : task) : Prop :=
  match t with TProcess _ e fs _ => (e, fs) ∈ D | _ => True end.

Section Any.
Context {S Tk : Type} {tok : gset entry -> Tk -> Prop}.
Abbreviation safe := (safe K G T (S := S) tok).

(** A method that is one script call. *)
Lemma safe_sends {A : Type} {n : sname} D (p : py S Tk A) (s : lua (reply n)) f :
  @sends _ S Tk A n p s f ->
  (forall v A D' x v', D ⊆ D' -> named D' -> exec s v x v' ->
     sstep K G T (Sys v A D') (Sys v' A D')) ->
  (forall args r, accepted_by n args r = ∅) -> (forall r, given_by n r = ∅) ->
  safe D p.
Proof.
  intros (keys & args & -> & <-) Hs Ha Hg. apply safe_bind; [|intros; apply safe_lift].
  apply safe_event, legal_script; auto.
Qed.

Lemma safe_commit D w e fs j res :
  (e, fs) ∈ D -> field "job_id" fs = Some (job_id j) ->
  safe D (Transitions.commit settings w e j res).
Proof using HT.
  intros HD Hf. eapply safe_sends; [apply commit_sends| |done|done].
  intros v A D' x v' Hs Hn Hx.
  eapply (step_commit K G T v v' A D' e fs (job_id j)); [by apply Hs|done| |exact HT|exact Hx].
  apply (Hn e fs); [by apply Hs|done].
Qed.

Lemma safe_heartbeat D w e : safe D (Transitions.heartbeat settings w e).
Proof using Type.
  eapply safe_sends; [apply heartbeat_sends| |done|done].
  intros v A D' x v' _ _ Hx. by eapply step_heartbeat.
Qed.

Lemma safe_retry D w e fs j d t :
  (e, fs) ∈ D -> field "job_id" fs = Some (job_id j) ->
  safe D (Transitions.retry settings w e j d t).
Proof using Type.
  intros HD Hf. eapply safe_sends; [apply retry_sends| |done|done].
  intros v A D' x v' Hs _ Hx. eapply (step_retry K G T v v' A D' e fs); [by apply Hs|done|exact Hx].
Qed.

Lemma safe_dead D w e fs j reason error n t :
  (e, fs) ∈ D -> names j e fs ->
  safe D (Transitions.dead settings w e j reason error n t).
Proof using Type.
  intros HD Hf. eapply safe_sends; [apply dead_sends| |done|done].
  intros v A D' x v' Hs _ Hx. eapply (step_dead K G T v v' A D' e fs); [by apply Hs|done|exact Hx].
Qed.

Lemma safe_move_due D : safe D (Scheduler.move_due settings).
Proof using Type.
  apply safe_event, legal_script; [|done|done]. intros v A D' x v' _ _ Hx.
  rewrite move_due_calls in Hx. by eapply step_schedule.
Qed.

Lemma safe_apply D e fields :
  safe D (EffectLedger.apply (EffectLedger.mk K (Settings.done_ttl_seconds settings)) e fields).
Proof using HT.
  apply safe_bind; [|done]. apply safe_event, legal_script; [|done|done].
  intros v A D' x v' _ _ Hx. rewrite apply_calls in Hx. cbn [EffectLedger.keys
    EffectLedger.ttl_seconds] in Hx.
  eapply step_ledger; [|exact HT|exact Hx]. apply flat_even.
Qed.

Lemma safe_requeue D j : safe D (requeue K j).
Proof using Type.
  apply safe_bind; [|done]. apply safe_event, legal_script; [|done|done].
  intros v A D' x v' _ _ Hx. by eapply step_requeue.
Qed.

Lemma safe_prune D w : safe D (Reaper.prune_consumers settings w).
Proof using Type.
  apply safe_event, legal_script; [|done|done]. intros v A D' x v' _ _ Hx.
  unfold Reaper.keys in Hx. cbn [lua_of str] in Hx. rewrite tonumber_str in Hx.
  by eapply step_prune.
Qed.

(** The reader's answer is recorded as given. *)
Lemma permitted_read D w n :
  permitted K G T (good K G T) tok D
    (ECmd (S := S) (XREADGROUP (Keys.stream K) G w n)).
Proof using Type.
  intros [v A D'] x s' _ _ (v' & Hx & ->). cbn [s_view s_accepted s_given] in *.
  pose proof (step_read K G T v v' A D' w n x Hx) as Hs. destruct x; cbn [answer given_cmd] in *; [done|].
  by rewrite union_empty_r_L.
Qed.

Lemma permitted_reclaim D w m cursor n slots thr maxd :
  permitted K G T (good K G T) tok D
    (EScript (S := S) S_reclaim [Keys.stream K; Keys.stats K; Keys.reclaims K]
       [Str G; Str w; str m; Id cursor; str n; str slots; str thr; str maxd]).
Proof using Type.
  intros [v A D'] x s' _ _ (v' & Hx & ->). cbn [s_view s_accepted s_given] in *.
  cbn [lua_of str] in Hx. rewrite !tonumber_str in Hx. cbn [accepted_by given_by]. rewrite union_empty_r_L.
  pose proof (step_reclaim K G T v v' A D' w m cursor (Z.to_nat n) slots thr maxd x Hx) as Hs.
  destruct x; cbn [answer] in *; [done|]. by rewrite union_empty_r_L.
Qed.

Lemma permitted_enqueue D idem j ttl high low c args :
  even_length args = true -> field "job_id" args = Some j -> uuid_like j ->
  0 < ttl -> count_kind c ->
  permitted K G T (good K G T) tok D
    (EScript (S := S) S_enqueue
       ([Keys.stream K; Keys.delayed K; Keys.full K; Keys.stats K] ++
        from_option (fun i => [Keys.idem K i]) [] idem)
       ([Str j; str ttl; str high; str low; Str c] ++ (Str <$> args))).
Proof using Type.
  intros He Hf Hu Ht Hc [v A D'] x s' _ _ (v' & Hx & ->).
  cbn [s_view s_accepted s_given app] in *.
  assert (Hi : idem_key (from_option (fun i => [Keys.idem K i]) [] idem) = Keys.idem K <$> idem)
    by by destruct idem.
  cbn [lua_of str] in Hx. rewrite !tonumber_str, text_of_str, Hi in Hx.
  pose proof (step_enqueue K G T v v' A D' idem j ttl high low c args x He Hf Hu Ht Hc Hx) as Hs.
  cbn [given_by]. rewrite union_empty_r_L. destruct x as [[[o st] d]|]; cbn in *.
  - case_decide; [done|]. by rewrite union_empty_r_L.
  - by rewrite union_empty_r_L.
Qed.

Lemma safe_count_rejected D n :
  safe D (redis (HINCRBY (Keys.stats K) "rejected" n)).
Proof using Type.
  apply safe_event. intros [v A D'] x s' _ _ (v' & Hx & ->).
  cbn [s_view s_accepted s_given given_cmd] in *. rewrite union_empty_r_L.
  by eapply (step_count K G T v v' A D' "rejected" n x); [reflexivity|].
Qed.

(** The group is there from the start, so creating it again only answers BUSYGROUP. *)
Lemma safe_create_group D : safe D (redis (XGROUP_CREATE (Keys.stream K) G)).
Proof using Type.
  apply safe_event. intros [v A D'] x s' Hok _ (v' & Hx & ->). cbn [s_view s_accepted s_given] in *.
  apply exec_call in Hx. cbn in Hx.
  apply good_names in Hok as (a & (Hr & _) & _). cbn [s_view] in Hr.
  change (Keys.stream K) with (render K KStream) in Hx.
  rewrite (rep_stream K G T v _ KStream _ Hr eq_refl) in Hx. cbn in Hx.
  rewrite lookup_singleton_eq in Hx. destruct Hx as [-> ->]. cbn. rewrite union_empty_r_L.
  apply step_tick; [done|reflexivity|by right].
Qed.

Lemma safe_look {A : Type} D (c : cmd A) :
  (forall v r v', doc c v r v' -> v' = v) -> (forall r, given_cmd c r = ∅) ->
  safe D (redis c).
Proof using Type. intros H1 H2. by apply safe_event, legal_read. Qed.
End Any.
End Requests.
