(* ===== verification/Coroutines.v ===== *)
(** Every coroutine of the producer, the worker and the operator only takes steps of the
    system ([safe], see Legal.v), and so the theorems about reachable states hold of any
    run of any of them. *)
From stdpp Require Import relations.
From S2P Require Import Prelude Effects Redis Keys LuaScripts Queue Ops Refine.
From S2P Require Import Fields Streams Logs Invariants Machine System.
From S2P Require Import RedisRef Demo Safety Json Py Models Config Transitions.
From S2P Require Import Registry Reaper Client.
From S2P Require Import World Names Metrics Worker Legal.

#[local] Open Scope string_scope.
#[local] Open Scope list_scope.
#[local] Open Scope Z_scope.
#[local] Open Scope prog_scope.

(** A reading request. *)
Ltac safe_look_ok := apply safe_look; [by intros ? ? ? [? _]|done].

Section Any.
Context `{CJson}.
Context (settings : Settings.t) (T : bool).
Abbreviation K := (Keys.mk (Settings.queue settings)).
Abbreviation G := (Settings.group settings).
(** ** The operator: dlq.py and metrics.py *)
Section Operator.
Context {S Tk : Type} {tok : gset entry -> Tk -> Prop}.
Abbreviation safe := (safe K G T (S := S) tok).

Lemma safe_list_dead D n : safe D (list_dead K n).
Proof. unfold list_dead. safe_step; [safe_look_ok|safe_all]. Qed.

Lemma safe_requeue_all D fuel : safe D (requeue_all K fuel).
Proof.
  unfold requeue_all. safe_step; [safe_look_ok|]. safe_step; [safe_all|].
  apply safe_loop. intros [b z] D'' Hs. cbn [requeue_page].
  safe_step; [safe_look_ok|]. safe_step; [|safe_all]. safe_step; [|safe_all].
  safe_step. safe_step; [safe_all|]. safe_step; [apply safe_requeue|safe_all].
Qed.

Lemma safe_snapshot D : safe D (snapshot settings).
Proof.
  unfold snapshot. do 5 (safe_step; [safe_step; safe_look_ok|]). do 5 (safe_step; [safe_all|]).
  safe_step; [|safe_all].
  safe_step; [|safe_all]. do 2 (safe_step; [safe_look_ok|]). safe_all.
Qed.
End Operator.

(** ** The producer: client.py *)
Section Producer.
Context {Tk : Type} {tok : gset entry -> Tk -> Prop}.
Abbreviation safe := (safe K G T (S := ProducerCounters) tok).
Abbreviation legal := (legal K G T (S := ProducerCounters) (good K G T) tok).
(** A call as [_args] prepares it. *)
Definition enq_ok (c : enq_call) : Prop :=
  exists idem j high low fields,
    c = ([Keys.stream K; Keys.delayed K; Keys.full K; Keys.stats K] ++
           from_option (fun i => [Keys.idem K i]) [] idem,
         [Str j; str (Settings.idempotency_ttl_seconds settings); str high; str low] ++
           (Str <$> fields)) /\
    even_length fields = true /\ field "job_id" fields = Some j /\ uuid_like j.

Lemma legal_args D new :
  legal D (Client._args settings new) (fun r _ => match r with Ok c => enq_ok c | Err _ => True end).
Proof.
  apply legal_bind, legal_call_event; [done|].
  intros r D' Hs _ _ (j & -> & Hj). apply legal_bind.
  unfold new_job. cbn [lift]. destruct (0 <=? 0) eqn:E; [|done]. cbn [World.legal].
  exists (if decide (default "" (new_key new) = "") then None else Some (default "" (new_key new))).
  eexists j, _, _, _. split_and!; [by case_decide|done..].
Qed.

(** What stays pending was pending. *)
Lemma legal_settle ps : forall rs kept acc d D,
  legal D (Client.settle_replies ps rs kept acc d)
    (fun r _ => match r with Ok x => x.1.1 ⊆ kept ++ ps | Err _ => True end).
Proof.
  induction ps as [|p ps IH]; intros [|[[id status] dp] rs] kept acc d D; try done.
  - cbn. by rewrite app_nil_r.
  - cbn [Client.settle_replies]. destruct (_ =? _).
    + eapply legal_mono; [apply IH|]. intros [[[k a] x]|e] D' _ Hx; [|done]. cbn in *.
      by rewrite <- app_assoc in Hx.
    + apply legal_bind, legal_call_event; [done|]. intros [r|r] D' _ _ _ _; [|done].
      eapply legal_mono; [apply IH|]. intros [[[k a] x]|e] D'' _ Hx; [|done].
      intros y Hy. apply Hx in Hy. rewrite elem_of_app in *. rewrite elem_of_cons. tauto.
Qed.

Context (Hidem : 0 < Settings.idempotency_ttl_seconds settings).

Lemma safe_send D ca calls :
  count_kind ca -> Forall enq_ok calls -> safe D (Client._send calls ca).
Proof using Hidem.
  intros Hca Hall.
  assert (Hone : forall c D, enq_ok c -> safe D (script S_enqueue c.1 (Client.argv ca c.2))).
  { intros c D' (idem & j & high & low & fs & -> & He & Hf & Hu). apply safe_event.
    by apply permitted_enqueue. }
  assert (Hpipe : forall cs D, Forall enq_ok cs ->
    safe D (pipe ((fun c => script S_enqueue c.1 (Client.argv ca c.2)) <$> cs))).
  { intros cs D' Hcs. unfold pipe. safe_step; [|safe_all].
    revert D'. induction Hcs as [|c cs Hc _ IH]; intros D'; [done|]. cbn [fmap list_fmap settle_all].
    safe_step; [safe_step; by apply Hone|]. safe_step; [apply IH|done]. }
  destruct calls as [|c [|c' calls]]; [by apply Hpipe| |by apply Hpipe].
  apply Forall_cons in Hall as [Hc _]. apply safe_bind; [by apply Hone|done].
Qed.

Lemma legal_poll D started st : Forall enq_ok (pending st).*2 ->
  legal D (Client.poll settings started st) (fun r _ => match r with
    | Ok (inl st') => Forall enq_ok (pending st').*2 | _ => True end).
Proof using Hidem.
  intros Hp. unfold Client.poll. apply legal_after; [|intros replies D1 _|done].
  { apply safe_send; [|done]. unfold count_kind.
    destruct (waited st), (Client.is_block settings); auto. }
  apply legal_bind. eapply legal_mono; [apply legal_settle|].
  intros [[[rest acc] depth]|e] D2 _ Hr; [|done]. cbn in Hr. case_bool_decide.
  { apply legal_after; [destruct (waited st); safe_all|done|done]. }
  assert (Hrest : Forall enq_ok rest.*2).
  { apply Forall_fmap, Forall_forall. intros x Hx. rewrite Forall_fmap, Forall_forall in Hp.
    by apply Hp, Hr. }
  apply legal_after; [destruct (_ && _); safe_all|intros _ D3 _|done].
  apply legal_after; [destruct (negb _); safe_all|intros [] D4 _|done].
  - apply legal_after; [safe_all|intros _ D5 _|done].
    apply legal_after; [|done|done]. destruct (Client.is_block settings); [|done].
    do 2 (safe_step; [safe_all|]). safe_step; [apply safe_count_rejected|done].
  - do 3 (apply legal_after; [safe_all|intros ? ? _|done]). done.
Qed.

Lemma safe_enqueue_many D fuel jobs : safe D (Client.enqueue_many settings fuel jobs).
Proof using Hidem.
  destruct jobs as [|j jobs]; [done|]. unfold Client.enqueue_many.
  apply legal_bind. eapply legal_mono.
  { instantiate (1 := fun r _ => match r with Ok l => Forall enq_ok l | Err _ => True end).
    generalize (j :: jobs). clear j jobs. intros l. revert D.
    induction l as [|new l IH]; intros D; [constructor|]. cbn [map_py].
    apply legal_bind. eapply legal_mono; [apply legal_args|].
    intros [c|e] D' _ Hc; [|done]. apply legal_bind. eapply legal_mono; [apply IH|].
    intros [cs|e] D'' _ Hcs; [by constructor|done]. }
  intros [calls|e] D' _ Hc; [|done].
  apply legal_bind, legal_call_event; [done|]. intros [started|?] D2 _ _ _ _; [|done].
  apply (legal_loop _ _ _ _ _ (fun st _ => Forall enq_ok (pending st).*2)).
  - cbn [pending]. apply Forall_forall. intros c Hin. rewrite Forall_forall in Hc. apply Hc.
    apply list_elem_of_fmap in Hin as ([i x] & -> & Hx). by apply elem_of_zip_r in Hx.
  - intros st D3 Hst. eapply legal_mono; [by apply legal_poll|]. by intros [[st'|a]|e].
  - done.
Qed.

Lemma safe_enqueue D fuel t p k : safe D (Client.enqueue settings fuel t p k).
Proof using Hidem. safe_step; [apply safe_enqueue_many|safe_all]. Qed.
End Producer.

(** ** The worker: reaper.py, worker.py *)
Section Worker.
Context (HT : 0 < Settings.done_ttl_seconds settings -> T = true).
Context (registry : Registry wstate task) (w : string) (exn_str : exn -> string)
  (child_pid : nat -> nat -> nat -> Z).
Abbreviation safe := (safe K G T (S := wstate) task_ok).
Abbreviation legal := (legal K G T (S := wstate) (good K G T) task_ok).

Lemma safe_fresh D : safe D fresh.
Proof. safe_all. Qed.
Lemma safe_cancel D i : safe D (cancel i).
Proof. safe_all. Qed.
Hint Resolve safe_fresh safe_cancel : core.

Lemma safe_to_dlq D e fs j reason error n t :
  (e, fs) ∈ D -> names j e fs ->
  safe D (_to_dlq settings w e j reason error n t).
Proof.
  intros HD Hn. safe_step; [|safe_all]. safe_step; [|safe_all].
  safe_step; [by apply (safe_dead _ _ _ _ _ fs)|safe_all].
Qed.

Lemma safe_fail D e fs j x :
  (e, fs) ∈ D -> field "job_id" fs = Some (job_id j) ->
  safe D (_fail settings w exn_str e j x).
Proof.
  intros HD Hf. safe_step; [safe_all|]. safe_step.
  { apply (safe_to_dlq _ _ fs); [set_solver|by left]. }
  safe_step; [unfold full_jitter_delay; safe_all|]. safe_step; [|safe_all]. safe_step; [|safe_all].
  safe_step; [|done]. apply (safe_retry _ _ _ _ _ fs); [set_solver|done].
Qed.

Lemma safe_finish D e fs j res :
  (e, fs) ∈ D -> field "job_id" fs = Some (job_id j) ->
  safe D (_finish settings w e j res).
Proof.
  intros HD Hf. safe_step; [|safe_all]. safe_step; [|safe_all].
  safe_step; [by apply (safe_commit _ _ HT _ _ _ fs)|done].
Qed.

Lemma safe_stop_run D run b : safe D (_stop_run run b).
Proof. unfold _stop_run, _reset_process_pool. safe_all. Qed.

Lemma safe_run_handler D fuel spec j : safe D (_run_handler settings fuel spec j).
Proof.
  assert (Hw : forall D, safe D (watch_run settings fuel spec j)).
  { intros D'. unfold watch_run, _start, wait_once. safe_step; [safe_all|].
    safe_step; [|].
    - safe_step; [safe_all|]. safe_step; [apply safe_stop_run|done].
    - safe_step; [done|]. safe_step; [safe_all|]. safe_step; [done|].
      safe_step; [apply safe_stop_run|done]. }
  unfold _run_handler. safe_step; [|safe_all]. safe_step; [|done].
  safe_step; [unfold acquire_slot; safe_all|]. safe_step; [apply Hw|]. unfold release_slot. safe_all.
Qed.

Lemma safe_attempt D fuel e spec j : safe D (attempt_run settings fuel e spec j).
Proof.
  unfold attempt_run. safe_step; [safe_all|]. safe_step; [|safe_all].
  safe_step; [|done]. safe_step; [apply safe_run_handler|done].
Qed.

Lemma names_name_of e fs : names (name_of e fs) e fs.
Proof.
  unfold names, name_of. destruct (field "job_id" fs) as [j|]; [|by auto].
  destruct (decide (j = "")) as [->|]; auto.
Qed.

Lemma safe_process D fuel e fs n :
  (e, fs) ∈ D -> safe D (_process settings registry w exn_str fuel e fs n).
Proof.
  intros HD. unfold _process. destruct (from_fields fs) as [j|x] eqn:Hj.
  - apply from_fields_id in Hj. safe_step; [by apply (safe_to_dlq _ _ fs); [|left]|].
    safe_step; [|by apply (safe_to_dlq _ _ fs); [|left]].
    safe_step; [safe_all|]. safe_step; [apply safe_attempt|]. safe_step.
    + safe_step; [done|]. apply (safe_finish _ _ fs); [set_solver|done].
    + apply (safe_fail _ _ fs); [set_solver|done].
  - safe_step; [|done]. apply (safe_to_dlq _ _ fs); [done|apply names_name_of].
Qed.

Lemma safe_heartbeat_loop D fuel e : safe D (_heartbeat_loop settings w fuel e).
Proof.
  apply safe_loop. intros [] D' _. unfold beat. safe_step; [safe_all|].
  safe_step; [|safe_all]. safe_step; [|safe_all]. safe_step; [apply safe_heartbeat|done].
Qed.

Lemma safe_spawn D e fs n : (e, fs) ∈ D -> safe D (_spawn e fs n).
Proof.
  intros HD. safe_step; [safe_all|]. safe_step; [|safe_all].
  apply safe_event. set_solver.
Qed.

(** What a reply holds is what was given. *)
Lemma claimed_of_given l cs : claimed_of l = Ok cs ->
  forall c, c ∈ cs -> exists n, (entry_id c, claimed_fields c, n) ∈ l.
Proof.
  revert cs. induction l as [|[[i flat] n] l IH]; intros cs; cbn.
  - intros [= <-] c Hc. by apply elem_of_nil in Hc.
  - unfold _pairs. destruct (even_length flat); [|done]. cbn.
    destruct (claimed_of l) as [cs'|]; [|done]. intros [= <-] c [->|Hc]%elem_of_cons.
    + exists n. left.
    + destruct (IH cs' eq_refl c Hc) as [n' Hn]. exists n'. by right.
Qed.

Lemma legal_reclaim D n slots :
  legal D (Reaper.reclaim settings w n slots) (fun r D' => match r with
    | Ok x => forall c, c ∈ x.1 -> (entry_id c, claimed_fields c) ∈ D' | Err _ => True end).
Proof.
  apply legal_after; [safe_all|intros start D1 _|done].
  apply legal_bind, legal_call_event; [apply permitted_reclaim|].
  intros [[[next cl] deleted]|e] D2 _ Hb _ _; [|done]. cbn in Hb.
  apply legal_after; [safe_all|intros _ D3 Hs|done].
  apply legal_after; [safe_all|intros _ D4 Hs'|done].
  destruct (claimed_of cl) as [cs|e] eqn:Hcs; [|done]. cbn.
  intros c Hc. destruct (claimed_of_given _ _ Hcs c Hc) as [m Hm].
  apply Hs', Hs, Hb, elem_of_list_to_set, list_elem_of_fmap. by exists (entry_id c, claimed_fields c, m).
Qed.

Lemma safe_reap D free : safe D (_reap settings w free).
Proof.
  apply legal_after; [safe_all|intros slots D1 _|done].
  apply legal_bind. eapply legal_mono; [apply legal_optional; [apply legal_reclaim|]|].
  { intros e D2. by apply legal_after; [safe_all|intros ? ? _|done]. }
  intros [[[cs more]|]|e] D2 _ Hc; [| |done].
  - safe_rest. safe_step; [safe_all|]. safe_step; [safe_all|]. safe_step; [|done].
    safe_step. unfold start_claimed. safe_step; [safe_all|].
    safe_step; [apply safe_spawn; set_solver|safe_all].
  - safe_rest. safe_all.
Qed.

Lemma legal_fetch D n : legal D (_fetch settings w n) (fun r D' => match r with
  | Ok l => forall e, e ∈ l -> e ∈ D' | Err _ => True end).
Proof.
  apply legal_call_event; [apply permitted_read|].
  intros [l|e] D' _ Hb _ _; [|done]. cbn in Hb. set_solver.
Qed.

Lemma safe_fetch_loop D fuel : safe D (_fetch_loop settings w fuel).
Proof.
  apply safe_loop. intros [] D' _. unfold fetch_once.
  safe_step; [safe_all|]. safe_step; [done|]. safe_step; [safe_all|].
  safe_step; [safe_all|]. safe_step; [safe_all|].
  safe_step; [safe_step; [apply safe_reap|done]|]. safe_step; [done|].
  apply legal_bind. eapply legal_mono; [apply legal_optional; [apply legal_fetch|]|].
  { intros e D6. by do 2 (apply legal_after; [safe_all|intros ? ? _|done]). }
  intros [[l|]|e] D7 _ Hl; [|done|done].
  safe_rest. safe_step; [|done]. safe_step. safe_step; [|done].
  match goal with x : eid * list string |- _ => destruct x as [e fs] end.
  apply safe_spawn. set_solver.
Qed.

Lemma safe_maintenance D fuel : safe D (_maintenance_loop settings w fuel).
Proof.
  safe_step; [safe_all|]. safe_step. unfold maintain_once.
  safe_step; [|safe_all]. safe_step; [|safe_all].
  safe_step; [apply safe_move_due|]. safe_step; [safe_all|]. safe_step; [|done].
  safe_step; [safe_all|]. safe_step; [safe_step; apply safe_prune|safe_all].
Qed.

Lemma safe_connect D fuel : safe D (_connect settings fuel).
Proof.
  apply safe_loop. intros [] D' _. unfold connect_once, ensure_group.
  safe_step; [safe_all|]. safe_step; [done|]. safe_step; [|safe_all].
  safe_step; [|done]. safe_step; [apply safe_create_group|done].
Qed.

Lemma safe_run_worker D fuel : safe D (run_worker settings w fuel).
Proof.
  safe_step; [apply safe_connect|]. safe_step; [done|]. safe_step; [|safe_all].
  safe_step; [safe_all|]. safe_step; [safe_all|]. safe_step; [safe_all|].
  safe_step; [safe_step; apply safe_fetch_loop|]. unfold _drain, cancel_all, _shutdown_pools. safe_all.
Qed.

Lemma safe_run_process D fuel spec j run : safe D (_run_in_process fuel spec j run).
Proof.
  apply safe_loop. intros [] D' _. unfold run_once, stop_clock, _ready_processes, enter_pool, start_clock. safe_all.
Qed.

(** The handlers: a coroutine of a handler itself only makes such requests. *)
Definition handlers_safe : Prop :=
  forall t fn h o, get registry t = Some (AsyncSpec fn h o) ->
  forall job D, safe D (async_fn fn (mk_JobContext job (ledger settings) w)).

(** The body of every task a worker starts. *)
Lemma safe_task_body D fuel t :
  handlers_safe -> task_ok D t -> safe D (task_body settings registry w exn_str child_pid fuel t).
Proof.
  intros Hreg Ht. destruct t as [id e fs n|id e j|run j|pool|id]; cbn [task_body].
  - safe_step; [by apply safe_process|unfold retire; safe_all].
  - safe_step; [apply safe_heartbeat_loop|done].
  - destruct (get registry (type j)) as [spec|] eqn:Hs; [|done].
    safe_step; [|unfold finish_run; safe_all]. safe_step.
    destruct spec as [fn h o|fn [] h o]; cbn [run_body].
    + safe_step; [|done]. by eapply Hreg.
    + safe_all.
    + apply safe_run_process.
  - safe_step; [safe_step|safe_all]. safe_step; [safe_all|]. apply safe_loop.
    intros [round ready] ? _. unfold warm_round. safe_all.
  - safe_step; [apply safe_maintenance|done].
Qed.
End Worker.

End Any.

(** ** The whole program *)
Section Program.
Context `{CJson}.
Context (settings : Settings.t) (T : bool).
Abbreviation K := (Keys.mk (Settings.queue settings)).
Abbreviation G := (Settings.group settings).

Lemma safe_visits {S Tk : Type} (tok : gset entry -> Tk -> Prop) {A : Type} (D : gset entry)
    (p : py S Tk A) (s s' : sys) :
  safe K G T tok D p -> good K G T s -> D ⊆ s_given s ->
  visits K G T p s s' -> rtc (sstep K G T) s s'.
Proof.
  intros Hp Hs HD. eapply (legal_visits K G T (good K G T)); try done.
  - intros s1 s2 H1 H2. eapply good_steps; [exact H1|by apply rtc_once].
  - apply good_named.
Qed.

Lemma safe_spawns {A : Type} (D : gset entry) (p : py wstate task A) (s : sys) (t : task) (s' : sys) :
  safe K G T task_ok D p -> good K G T s -> D ⊆ s_given s ->
  spawns K G T p s t s' -> task_ok (s_given s') t.
Proof.
  intros Hp Hs HD Ht.
  destruct (legal_spawns K G T (good K G T) task_ok
    (fun s1 s2 H1 H2 => good_steps K G T s1 s2 H1 (rtc_once _ _ H2)) (good_named K G T)
    p _ t D s s' Hp Hs HD Ht) as (D' & HD' & Hok).
  destruct t; cbn in *; set_solver.
Qed.
End Program.

(** C16: the Python program implements the system. Under an accepted configuration and
    with handlers that only use the ledger, let any producer, worker, worker task (a job
    it was handed, a heartbeat, a handler run, maintenance) or operator sweep run amid
    any other steps of the system, over a network that loses replies and re-sends
    requests, and be killed at any point: every state it meets is reached by steps of
    the system, and every task a worker starts may be run in turn. So the theorems about
    reachable states hold of the whole program. *)
Theorem python_refines_system `{CJson} (settings : Settings.t) (T : bool)
    (registry : Registry wstate task) (w : string) (exn_str : exn -> string)
    (child_pid : nat -> nat -> nat -> Z) (s : sys) (fuel : nat) :
  let K := Keys.mk (Settings.queue settings) in
  let G := Settings.group settings in
  let steps := rtc (sstep K G T) in
  Config.accepted settings -> (0 < Settings.done_ttl_seconds settings -> T = true) ->
  handlers_safe settings T registry w -> good K G T s ->
  (forall jobs s', visits (Tk := unit) K G T (Client.enqueue_many settings fuel jobs) s s' ->
     steps s s') /\
  (forall s', visits K G T (run_worker settings w fuel) s s' -> steps s s') /\
  (forall t s', spawns K G T (run_worker settings w fuel) s t s' -> task_ok (s_given s') t) /\
  (forall t, task_ok (s_given s) t ->
     (forall s', visits K G T (task_body settings registry w exn_str child_pid fuel t) s s' -> steps s s') /\
     (forall t' s', spawns K G T (task_body settings registry w exn_str child_pid fuel t) s t' s' ->
        task_ok (s_given s') t')) /\
  (forall s', visits (S := unit) (Tk := unit) K G T (requeue_all K fuel) s s' -> steps s s').
Proof.
  intros K G steps Hacc HT Hreg Hs.
  assert (Hidem : 0 < Settings.idempotency_ttl_seconds settings).
  { pose proof (acc_positive _ Hacc) as Hp. rewrite Forall_forall in Hp.
    specialize (Hp (Settings.ge 1 Settings.idempotency_ttl_seconds "idempotency_ttl_seconds"
      settings)). cbn in Hp. apply Z.leb_le in Hp; [lia|].
    by apply (list_elem_of_lookup_2 _ 28). }
  assert (Htask : forall t, task_ok (s_given s) t ->
    safe K G T task_ok (s_given s) (task_body settings registry w exn_str child_pid fuel t))
    by (intros t; by apply safe_task_body).
  split_and!.
  - intros jobs s'. apply (safe_visits settings T (fun _ _ => True) ∅); [|done|set_solver].
    by apply safe_enqueue_many.
  - intros s'. apply (safe_visits settings T task_ok ∅); [|done|set_solver]. by apply safe_run_worker.
  - intros t s'. apply (safe_spawns settings T ∅); [|done|set_solver]. by apply safe_run_worker.
  - intros t Ht. split.
    + intros s'. apply (safe_visits settings T task_ok (s_given s)); [by apply Htask|done..].
    + intros t' s'. apply (safe_spawns settings T (s_given s)); [by apply Htask|done..].
  - intros s'. apply (safe_visits settings T (fun _ _ => True) ∅); [|done|set_solver].
    apply safe_requeue_all.
Qed.

(** The demonstration queue is a good one. *)
Lemma state1_good : good k0 g0 false state1.
Proof.
  exists state0. split.
  - exists queue0. split_and!; [exact start_rep|exact start_fresh|done|].
    by intros e fs ?%elem_of_nil.
  - apply rtc_l with enqueued1; [apply enqueue_step; uuid|].
    apply rtc_l with enqueued2; [apply enqueue_step; uuid|].
    apply rtc_l with enqueued3; [apply enqueue_step; uuid|]. apply rtc_once, read_step.
Qed.

Definition no_handlers : Registry wstate task := ∅.
Definition idle_worker : wstate := mk_wstate false ∅ ∅ 0 (0, 0) ∅ ∅ 0 ∅ 2 None ∅ ∅.
Definition first_task : task := TProcess 0 (id_of 0) (stored "j1") 1.
Definition process_first : py wstate task unit :=
  task_body demo_settings no_handlers "w1" (fun _ => "") (fun _ _ => Z.of_nat) 5 first_task.

(** A worker without handlers is handed the first job: it dies as of unknown type. *)
Lemma python_refines_system_witness : exists s',
  rtc (sstep k0 g0 false) state1 s' /\ job_state k0 "j1" (s_view s') = Some "DEAD".
Proof.
  assert (Hacc : Config.accepted demo_settings)
    by (by apply (make_accepted _ demo_settings); vm_compute).
  destruct (alone_runs k0 g0 false process_first state1 _ _
    (runs_run alone (fun v => v) (ref_alone idle_worker) (ref_alone_ok idle_worker)
       process_first (s_view state1))) as (s' & Hr & Hv).
  exists s'. split.
  - destruct (python_refines_system demo_settings false no_handlers "w1" (fun _ => "")
      (fun _ _ => Z.of_nat) state1 5
      Hacc) as (_ & _ & _ & Htasks & _); [done|done|exact state1_good|].
    apply (Htasks first_task); [|by eapply runs_visits].
    change ((id_of 0, stored "j1") ∈ s_given state1). rewrite demo_given. set_solver.
  - rewrite Hv. vm_compute. reflexivity.
Defined.
