(* ===== verification/Host.v ===== *)
(** One of a worker's coroutines among the others of its process.

    [hosted] says what its effects may do: while it awaits anything, other coroutines of
    the same worker change the object ([others]: jobs end, none is started) and time
    passes; a request is answered by some execution of its script against any state of
    Redis, or fails. The history keeps every state of the object and every script sent.

    [guarantees R p]: whatever happens to [p], its own changes of the object stay in [R];
    with [R := others] it is what the coroutines promise each other. *)
From stdpp Require Import relations.
From S2P Require Import Prelude Effects Redis Keys LuaScripts RedisRef Demo Json.
From S2P Require Import Py Models Config Transitions Registry Reaper Metrics Worker.
From S2P Require Import World.

#[local] Open Scope Z_scope.
#[local] Open Scope prog_scope.

Record host := mk_host {
  h_obj : wstate;
  h_seen : list wstate;                    (* every state of the object, newest first *)
  h_sent : list (sname * list arg);        (* the scripts sent, oldest first *)
  h_clock : Q;
}.

(** Jobs end, and leave the suspects when they do. *)
Definition others (o o' : wstate) : Prop :=
  w_in_flight o' ⊆ w_in_flight o /\ w_suspects o' ⊆ w_suspects o /\
  (w_suspects o ⊆ w_in_flight o -> w_suspects o' ⊆ w_in_flight o').

Lemma others_refl o : others o o.
Proof. done. Qed.

Definition saw (o : wstate) (h : host) : host :=
  mk_host o (o :: h_seen h) (h_sent h) (h_clock h).

(** An await: others run, time passes. *)
Definition meanwhile (h h' : host) : Prop :=
  exists o t, others (h_obj h) o /\ (h_clock h <= t)%Q /\
    h' = mk_host o (o :: h_seen h) (h_sent h) t.

Definition sending (n : sname) (args : list arg) (h : host) : host :=
  mk_host (h_obj h) (h_seen h) (h_sent h ++ [(n, args)]) (h_clock h).

Section Host.
Context `{CJson}.

(** Some answer Redis may give in some state, or none. *)
Definition replied {A : Type} (s : lua A) (r : result exn A) : Prop :=
  (exists v x v', exec s v x v' /\ r = of_reply x) \/
  (exists e, interrupted e /\ r = Err e).

Definition hosted X (e : pyev wstate task X) (h : host) : result exn X -> host -> Prop :=
  match e in pyev _ _ X return result exn X -> host -> Prop with
  | EScript n keys args => fun r h' =>
      replied (lua_of n keys args) r /\ meanwhile (sending n args h) h'
  | ECmd c => fun r h' => replied (call c) r /\ meanwhile h h'
  | ETime => fun r h' => exists t, (h_clock h <= t)%Q /\ r = Ok t /\
      h' = mk_host (h_obj h) (h_seen h) (h_sent h) t
  | ESleep _ | EWait _ => fun r h' => (r = Ok tt \/ r = Err CancelledError) /\ meanwhile h h'
  | EUniform a b => fun r h' => (exists x, r = Ok x /\ uniform_ok a b x) /\ h' = h
  | EUuid => fun r h' => (exists j, r = Ok j) /\ h' = h
  | ELog _ _ | ESpawn _ => fun r h' => r = Ok tt /\ h' = h
  | EExit _ => fun r h' => r = Err CancelledError /\ h' = h
  | ESelf f => fun r h' => r = Ok (f (h_obj h)).1 /\ h' = saw (f (h_obj h)).2 h
  | EAwait f => fun r h' => meanwhile h h' /\ (f (h_obj h') = Some r \/ r = Err CancelledError)
  | ECompute _ f => fun r h' => meanwhile h h' /\
      (r = f tt \/ r = Err BrokenProcessPool \/ r = Err CancelledError)
  end.

Abbreviation hwp := (wp hosted).

(** ** Guarantees *)
Definition guarantees {A : Type} (R : wstate -> wstate -> Prop) : py wstate task A -> Prop :=
  only (fun X e => match e with ESelf f => forall o, R o (f o).2 | _ => True end).

Section Rules.
Context (R : wstate -> wstate -> Prop).

(** A property of the object that [R] and the others keep is kept. *)
Lemma guar_wp {A : Type} (I : wstate -> Prop) (p : py wstate task A) :
  (forall o o', I o -> R o o' -> I o') -> (forall o o', I o -> others o o' -> I o') ->
  guarantees R p -> forall h, I (h_obj h) -> Forall I (h_seen h) ->
  hwp p h (fun _ h' => I (h_obj h') /\ Forall I (h_seen h')).
Proof.
  intros HR Ho. induction p as [a|e|X c k IH]; intros Hg h Hi Hs; cbn in *; [done|done|].
  destruct Hg as [Hc Hk]. intros r h' Hspec.
  assert (Hm : forall h1 h2, meanwhile h1 h2 -> I (h_obj h1) -> Forall I (h_seen h1) ->
    I (h_obj h2) /\ Forall I (h_seen h2)).
  { intros h1 h2 (o & t & Hoo & _ & ->) H1 H2. cbn. assert (I o) by eauto. by split; [|constructor]. }
  assert (Hend : I (h_obj h') /\ Forall I (h_seen h')).
  { destruct c; cbn in Hspec.
    - destruct Hspec as [_ Hspec]. by eapply Hm in Hspec.
    - destruct Hspec as [_ Hspec]. by eapply Hm in Hspec.
    - by destruct Hspec as (t & _ & _ & ->).
    - destruct Hspec as [_ Hspec]. by eapply Hm in Hspec.
    - destruct Hspec as [_ Hspec]. by eapply Hm in Hspec.
    - by destruct Hspec as [_ ->].
    - by destruct Hspec as [_ ->].
    - by destruct Hspec as [_ ->].
    - destruct Hspec as [_ ->]. cbn. assert (I (f (h_obj h)).2) by eauto. by split; [|constructor].
    - destruct Hspec as [Hspec _]. by eapply Hm in Hspec.
    - destruct Hspec as [Hspec _]. by eapply Hm in Hspec.
    - by destruct Hspec as [_ ->].
    - by destruct Hspec as [_ ->]. }
  destruct Hend. by apply IH.
Qed.
End Rules.
End Host.

(** A change of the object that leaves the jobs in flight alone is one of [others]. *)
Ltac guar_leaf := first [exact I | intros ?; repeat case_decide; done].
Ltac guar_step := try unfold guarantees; only_step guar_leaf.
Ltac guar_all := repeat guar_step.

Section Tasks.
Context `{CJson}.
Context (settings : Settings.t) (registry : Registry wstate task) (w : string)
  (exn_str : exn -> string) (child_pid : nat -> nat -> nat -> Z).
Abbreviation guar := (guarantees others).

(** A handler has no access to the worker. *)
Definition handlers_private : Prop :=
  forall t fn h o, get registry t = Some (AsyncSpec fn h o) ->
  forall ctx, guar (async_fn fn ctx).

Lemma guar_run_handler fuel spec j : guar (_run_handler settings fuel spec j).
Proof.
  unfold _run_handler, watch_run, _start, wait_once, _stop_run, _reset_process_pool,
    acquire_slot, release_slot.
  guar_all.
Qed.

Lemma guar_process fuel e fs n : guar (_process settings registry w exn_str fuel e fs n).
Proof.
  unfold _process, _to_dlq, attempt_run, _fail, _finish, full_jitter_delay,
    Transitions.dead, Transitions.retry, Transitions.commit.
  repeat (first [apply guar_run_handler | guar_step]).
Qed.

(** Every task a worker starts leaves its slot and starts nothing itself. *)
Lemma guar_task fuel t :
  handlers_private -> guar (task_body settings registry w exn_str child_pid fuel t).
Proof.
  intros Hreg. destruct t as [id e fs n|id e j|run j|pool|id]; cbn [task_body].
  - apply only_finally; [apply guar_process|]. apply only_call. intros o.
    split_and!; cbn; set_solver.
  - unfold _heartbeat_loop, beat, Transitions.heartbeat. guar_all.
  - destruct (get registry (type j)) as [[fn h o|fn [] h o]|] eqn:Hs; [..|done];
      cbn [run_body]; unfold finish_run.
    + guar_step; [|guar_all]. guar_step. guar_step; [by eapply Hreg|guar_all].
    + guar_all.
    + unfold _run_in_process, run_once, stop_clock, _ready_processes, enter_pool, start_clock.
      guar_all.
  - unfold _warm_up, warm_round. guar_all.
  - unfold _maintenance_loop, maintain_once, Scheduler.move_due, Reaper.prune_consumers.
    guar_all.
Qed.
End Tasks.

(** ** A concrete host: the reference server; at every await the others do [tick], and a
    second passes *)
Section RefHost.
Context (tick : wstate -> wstate) (tick_ok : forall o, others o (tick o)).

Definition await1 (h : host) : host :=
  mk_host (tick (h_obj h)) (tick (h_obj h) :: h_seen h) (h_sent h) (h_clock h + 1).

Definition ref_hosted X (e : pyev wstate task X) (s : host * rview) :
    result exn X * (host * rview) :=
  let '(h, v) := s in
  match e in pyev _ _ X return result exn X * (host * rview) with
  | EScript n keys args =>
      let p := run (@ref_handle) (lua_of n keys args) v in
      (of_reply p.1, (await1 (sending n args h), p.2))
  | ECmd c => let p := run (@ref_handle) (call c) v in (of_reply p.1, (await1 h, p.2))
  | ETime => (Ok (h_clock h), (mk_host (h_obj h) (h_seen h) (h_sent h) (h_clock h), v))
  | ESleep _ | EWait _ => (Ok tt, (await1 h, v))
  | EUniform a b => (Ok (Qmin a b), (h, v))
  | EUuid => (Ok "u"%string, (h, v))
  | ELog _ _ | ESpawn _ => (Ok tt, (h, v))
  | ESelf f => (Ok (f (h_obj h)).1, (saw (f (h_obj h)).2 h, v))
  | EAwait f => (default (Err CancelledError) (f (tick (h_obj h))), (await1 h, v))
  | ECompute _ f => (f tt, (await1 h, v))
  | EExit _ => (Err CancelledError, (h, v))
  end.

Lemma await1_meanwhile h : meanwhile h (await1 h).
Proof using tick_ok.
  exists (tick (h_obj h)), (h_clock h + 1)%Q. split_and!; [done| |done].
  rewrite <- (Qplus_0_r (h_clock h)) at 1. by apply Qplus_le_r.
Qed.

Lemma ref_hosted_ok X (e : pyev wstate task X) s :
  hosted X e s.1 (ref_hosted X e s).1 (ref_hosted X e s).2.1.
Proof using tick_ok.
  pose proof await1_meanwhile as Hm.
  destruct s as [h v]. destruct e; cbn -[ref_handle run await1 saw];
    try (split; [|apply Hm]; auto; fail); try done.
  - split; [|apply Hm]. left.
    exists v, (run (@ref_handle) (lua_of n keys args) v).1,
      (run (@ref_handle) (lua_of n keys args) v).2.
    split; [|done]. apply run_exec. by destruct (run _ _ v).
  - split; [|apply Hm]. left.
    exists v, (run (@ref_handle) (call c) v).1, (run (@ref_handle) (call c) v).2.
    split; [|done]. apply (run_exec (call c)). by destruct (run _ (call c) v).
  - exists (h_clock h). split_and!; [apply Qle_refl|done|done].
  - split; [|done]. eexists. split; [done|]. intros Hab. by apply Qmin_between.
  - split; [by eexists|done].
  - split; [apply Hm|]. unfold await1. cbn. by destruct (f (tick (h_obj h))); [left|right].
  - split; [apply Hm|by left].
Qed.

(** A run of the concrete host is a run. *)
Lemma ref_runs {A : Type} (p : py wstate task A) h v :
  runs hosted p h (run ref_hosted p (h, v)).1 (run ref_hosted p (h, v)).2.1.
Proof using tick_ok. exact (runs_run hosted fst ref_hosted ref_hosted_ok p (h, v)). Qed.
End RefHost.

(** Nobody else runs. *)
Definition idle (o : wstate) : wstate := o.
Lemma idle_ok o : others o (idle o).
Proof. apply others_refl. Qed.

(** Every run that has started has ended with null. *)
Definition finish_all (o : wstate) : wstate :=
  set_runs ((fun r => mk_Run (r_kind r) (Some (Ok JNull)) (r_pool r) (r_started r)) <$> w_runs o) o.
Lemma finish_all_ok o : others o (finish_all o).
Proof. done. Qed.
