(* ===== verification/Slots.v ===== *)
(** A worker's slots: it never holds more jobs than its concurrency, nor more than one
    suspect (Worker.v's [_fetch_loop], [_reap], [_spawn]). *)
From stdpp Require Import relations.
From S2P Require Import Prelude Effects Redis Keys LuaScripts System RedisRef Demo.
From S2P Require Import Json.
From S2P Require Import Py Models Config Transitions Registry Reaper Metrics Worker.
From S2P Require Import World Host.

#[local] Open Scope Z_scope.
#[local] Open Scope prog_scope.

Definition suspicious (thr maxd : Z) (c : claimed_entry) : Prop := thr <= c.2 <= maxd.
#[export] Instance suspicious_dec thr maxd c : Decision (suspicious thr maxd c).
Proof. unfold suspicious. apply _. Defined.

(** How many suspects a list of claimed entries has. *)
Definition nsuspects (thr maxd : Z) (l : list claimed_entry) : Z :=
  Z.of_nat (length (filter (suspicious thr maxd) l)).

Lemma nsuspects_cons thr maxd c l :
  nsuspects thr maxd (c :: l) =
    (if decide (suspicious thr maxd c) then 1 else 0) + nsuspects thr maxd l.
Proof.
  unfold nsuspects. rewrite filter_cons. destruct (decide _); cbn [length]; lia.
Qed.

Lemma nsuspects_app thr maxd l l' :
  nsuspects thr maxd (l ++ l') = nsuspects thr maxd l + nsuspects thr maxd l'.
Proof. unfold nsuspects. rewrite filter_app, length_app. lia. Qed.

(** ** What a reply may hold *)
Section Replies.
Context `{CJson}.

(** What [reclaim_one] keeps of [l] entries: none is added, and each suspect takes one
    of the slots. *)
Lemma reclaim_each ks kh g w m thr maxd l : forall st v,
  lua_wp (for_each l (reclaim_one ks kh g w m thr maxd) st) v (fun r _ =>
    match r with
    | Ok st' => (length st'.2 <= length st.2 + length l)%nat /\
        st'.1 + nsuspects thr maxd st'.2 = st.1 + nsuspects thr maxd st.2 /\
        (0 <= st.1 -> 0 <= st'.1)
    | Err _ => True end).
Proof.
  induction l as [|e l IH]; intros [slots out] v; cbn [for_each].
  { apply wp_ret. cbn. split_and!; [lia|lia|done]. }
  apply wp_bind. unfold reclaim_one. apply wp_call. intros [p|m'] v1 _; [|done].
  destruct p as [|row p]; [done|].
  set (n := row_deliveries row). set (sus := (thr <=? n) && (n <=? maxd)).
  assert (Hsus : sus = true <-> suspicious thr maxd (e, n)).
  { unfold sus, suspicious. cbn. rewrite andb_true_iff, !Z.leb_le. done. }
  destruct (sus && (slots =? 0)) eqn:Hb.
  - apply wp_call. intros [[]|m'] v2 _; [|done]. apply wp_ret.
    eapply wp_mono; [apply IH|]. intros [st'|]; [|done]. cbn [fst snd length].
    intros v3 (H1 & H2 & H3). split_and!; [lia|done|done].
  - apply wp_call. intros [x|m'] v2 _; [|done]. apply wp_ret.
    eapply wp_mono; [apply IH|]. intros [st'|]; [|done]. cbn [fst snd length].
    intros v3 (H1 & H2 & H3). rewrite length_app in H1. cbn [length] in H1.
    rewrite nsuspects_app, nsuspects_cons in H2. change (nsuspects thr maxd []) with 0 in H2.
    destruct e as [i fs]. cbn [fst snd] in *. destruct (decide _) as [Hd|Hd].
    + apply Hsus in Hd. rewrite Hd in *. cbn in Hb. apply Z.eqb_neq in Hb.
      split_and!; [lia|lia|]. intros H0. apply H3. lia.
    + destruct sus; [by destruct Hd; apply Hsus|]. split_and!; [lia|lia|done].
Qed.

Lemma reclaim_reply ks kst kh g w m cursor n slots thr maxd v :
  0 <= slots ->
  lua_wp (reclaim_lua ks kst kh g w m cursor n slots thr maxd) v (fun r _ =>
    match r with
    | Ok x => (length x.1.2 <= n)%nat /\ nsuspects thr maxd x.1.2 <= slots
    | Err _ => True end).
Proof.
  intros Hs. apply wp_call. intros [[[next cl] deleted]|m'] v1 Hd; [|done].
  assert (Hlen : (length cl <= n)%nat).
  { cbn in Hd. destruct (get_group ks g v) as [[s x]|]; [|by destruct Hd as [[] ?]].
    destruct Hd as (a & b & c & (_ & Hle & _) & [= -> -> ->] & _). exact Hle. }
  apply wp_bind. eapply wp_mono; [apply reclaim_each|].
  intros [[s' out]|m'] v2; [|done]. cbn [fst snd length]. intros (H1 & H2 & H3).
  change (nsuspects thr maxd []) with 0 in H2.
  assert (Hend : (length out <= n)%nat /\ nsuspects thr maxd out <= slots) by lia.
  destruct (0 <? length out)%nat; [|by apply wp_ret].
  apply wp_bind, wp_call. intros [x|m'] v3 _; [|done]. by do 2 apply wp_ret.
Qed.

Lemma read_reply k g w n (r : result exn (list (eid * list string))) l :
  replied (call (XREADGROUP k g w n)) r -> r = Ok l -> (length l <= n)%nat.
Proof.
  intros [(v & x & v' & Hx & ->)|(e & _ & ->)]; [|done].
  apply exec_call in Hx. cbn in Hx. destruct (get_group k g v) as [[s y]|].
  - destruct Hx as [-> _]. intros [= <-]. unfold undelivered. rewrite length_take. lia.
  - by destruct Hx as [[e ->] _].
Qed.

Lemma claimed_of_eq l cs : claimed_of l = Ok cs ->
  cs = (fun x : claimed_entry => mk_Claimed x.1.1 x.1.2 x.2) <$> l.
Proof.
  revert cs. induction l as [|[[i flat] n] l IH]; intros cs; cbn; [by intros [= <-]|].
  unfold _pairs. destruct (even_length flat); [|done]. cbn.
  destruct (claimed_of l) as [cs'|]; [|done]. intros [= <-]. by rewrite (IH cs').
Qed.
End Replies.

Lemma wp_for_each {C : Type -> Type} {E V A St : Type}
    (spec : forall X, C X -> V -> result E X -> V -> Prop) (f : A -> St -> prog C E St)
    (I : list A -> St -> V -> Prop) (Q : result E St -> V -> Prop) l : forall s v,
  I l s v ->
  (forall x l s v, I (x :: l) s v -> wp spec (f x s) v (fun r v' =>
     match r with Ok s' => I l s' v' | Err e => Q (Err e) v' end)) ->
  (forall s v, I [] s v -> Q (Ok s) v) ->
  wp spec (for_each l f s) v Q.
Proof.
  induction l as [|x l IH]; intros s v Hi Hf Hq; cbn [for_each]; [by apply wp_ret, Hq|].
  apply wp_bind. eapply wp_mono; [by apply Hf|]. intros [s'|e] v' H; [by apply IH|done].
Qed.

(** ** The slots *)
Section Slots.
Context `{CJson}.
Context (settings : Settings.t) (w : string).
Abbreviation C := (Settings.concurrency settings).
Abbreviation hwp := (wp hosted).

Record slots_ok (o : wstate) : Prop := {
  so_jobs : Z.of_nat (size (w_in_flight o)) <= C;
  so_one : (size (w_suspects o) <= 1)%nat;
  so_sub : w_suspects o ⊆ w_in_flight o;
}.

Lemma slots_others o o' : slots_ok o -> others o o' -> slots_ok o'.
Proof.
  intros [Hj Ho Hs] (H1 & H2 & H3). split; [|..|auto].
  - pose proof (subseteq_size _ _ H1). lia.
  - pose proof (subseteq_size _ _ H2). lia.
Qed.

(** All states so far are fine, and [n] more jobs, [k] of them suspects, would be. *)
Record room (n k : Z) (h : host) : Prop := {
  rm_ok : slots_ok (h_obj h);
  rm_seen : Forall slots_ok (h_seen h);
  rm_jobs : Z.of_nat (size (w_in_flight (h_obj h))) + n <= C;
  rm_one : Z.of_nat (size (w_suspects (h_obj h))) + k <= 1;
}.
Abbreviation fine := (room 0 0).

Lemma room_fine n k h : 0 <= n -> 0 <= k -> room n k h -> fine h.
Proof. intros Hn Hk [H1 H2 H3 H4]. split; try done; lia. Qed.

Lemma room_less n k n' k' h : n' <= n -> k' <= k -> room n k h -> room n' k' h.
Proof. intros Hn Hk [H1 H2 H3 H4]. split; try done; lia. Qed.

Lemma fine_of h : slots_ok (h_obj h) -> Forall slots_ok (h_seen h) -> fine h.
Proof. intros H1 H2. split; try done; [|]; destruct H1; lia. Qed.

Lemma room_meanwhile n k h h' : room n k h -> meanwhile h h' -> room n k h'.
Proof.
  intros [H1 H2 H3 H4] (o & t & Ho & _ & ->).
  assert (slots_ok o) by by eapply slots_others. split; cbn; [done|by constructor|..];
    destruct Ho as (Hj & Hs & _); apply subseteq_size in Hj, Hs; lia.
Qed.

Lemma room_sending n k s args h : room n k h -> room n k (sending s args h).
Proof. by intros [H1 H2 H3 H4]. Qed.

Lemma room_look n k h : room n k h -> room n k (saw (h_obj h) h).
Proof. intros [H1 H2 H3 H4]. split; try done. by constructor. Qed.

Lemma room_clock n k h t : room n k h -> room n k (mk_host (h_obj h) (h_seen h) (h_sent h) t).
Proof. by intros [H1 H2 H3 H4]. Qed.

(** A change that is one of [others]. *)
Lemma room_change n k h o : room n k h -> others (h_obj h) o -> room n k (saw o h).
Proof.
  intros Hr Ho. assert (Hm : room n k (mk_host o (o :: h_seen h) (h_sent h) (h_clock h))).
  { eapply room_meanwhile; [exact Hr|]. exists o, (h_clock h). split_and!; [done|apply Qle_refl|done]. }
  exact Hm.
Qed.

(** A guaranteed part leaves the room there is. *)
Lemma room_guar {A : Type} (p : py wstate task A) n k h :
  guarantees others p -> room n k h -> hwp p h (fun _ h' => room n k h').
Proof.
  revert h. induction p as [a|e|X c f IH]; intros h Hg Hr; cbn in *; [done|done|].
  destruct Hg as [Hc Hk]. intros r h' Hspec. apply IH; [done|]. destruct c; cbn in Hspec.
  - destruct Hspec as [_ Hm]. eapply room_meanwhile; [|exact Hm]. by apply room_sending.
  - destruct Hspec as [_ Hm]. by eapply room_meanwhile.
  - destruct Hspec as (t & _ & _ & ->). by apply room_clock.
  - destruct Hspec as [_ Hm]. by eapply room_meanwhile.
  - destruct Hspec as [_ Hm]. by eapply room_meanwhile.
  - by destruct Hspec as [_ ->].
  - by destruct Hspec as [_ ->].
  - by destruct Hspec as [_ ->].
  - destruct Hspec as [_ ->]. by apply room_change.
  - destruct Hspec as [Hm _]. by eapply room_meanwhile.
  - destruct Hspec as [Hm _]. by eapply room_meanwhile.
  - by destruct Hspec as [_ ->].
  - by destruct Hspec as [_ ->].
Qed.

Lemma hwp_guar {A B : Type} (p : py wstate task A) (f : A -> py wstate task B) n k h Q :
  guarantees others p -> room n k h ->
  (forall a h', room n k h' -> hwp (f a) h' Q) -> (forall e h', room n k h' -> Q (Err e) h') ->
  hwp (bind p f) h Q.
Proof.
  intros Hp Hr Hf He. apply wp_bind. eapply wp_mono; [by apply room_guar|].
  intros [a|e] h' Hr'; auto.
Qed.

Lemma size_add i (X : gset nat) : (size ({[i]} ∪ X) <= S (size X))%nat.
Proof.
  pose proof (size_union_alt {[i]} X) as He.
  pose proof (subseteq_size (X ∖ {[i]}) X ltac:(set_solver)). rewrite size_singleton in He. lia.
Qed.

(** A job is started in the room there is; [id] is its task. *)
Lemma spawn_wp e fs d n k h : 1 <= n -> 0 <= k -> room n k h ->
  hwp (_spawn e fs d) h (fun r h' => room (n - 1) k h' /\
    match r with Ok id => id ∈ w_in_flight (h_obj h') | Err _ => True end).
Proof.
  intros Hn Hk Hr. apply hwp_guar with (n := n) (k := k); [guar_all|done| |].
  2: { intros x h' Hr'. split; [|done]. eapply room_less; [| |exact Hr']; lia. }
  intros id h1 Hr1. apply hwp_guar with (n := n) (k := k); [guar_all|done| |].
  2: { intros x h' Hr'. split; [|done]. eapply room_less; [| |exact Hr']; lia. }
  intros [] h2 [[Hj Ho Hs] H2 H3 H4]. apply wp_call. intros r h3 [-> ->]. apply wp_ret.
  split; [|cbn; set_solver]. pose proof (size_add id (w_in_flight (h_obj h2))).
  assert (Hso : slots_ok (set_in_flight ({[id]} ∪ w_in_flight (h_obj h2)) (h_obj h2))).
  { split; cbn; [lia|lia|set_solver]. }
  split; cbn; [exact Hso|by constructor|lia|lia].
Qed.

Lemma start_claimed_wp c n k h :
  let sus := if is_suspect c settings then 1 else 0 in
  1 <= n -> 0 <= k - sus -> room n k h ->
  hwp (start_claimed settings c) h (fun _ h' => room (n - 1) (k - sus) h').
Proof.
  intros sus Hn Hk Hr. assert (Hs0 : 0 <= sus <= 1) by (unfold sus; destruct (is_suspect _ _); lia).
  assert (Hless : forall h', room (n - 1) k h' -> room (n - 1) (k - sus) h').
  { intros h'. apply room_less; lia. }
  apply hwp_guar with (n := n) (k := k); [guar_all|done| |].
  2: { intros x h' Hr'. apply Hless. eapply room_less; [| |exact Hr']; lia. }
  intros [] h1 Hr1. apply wp_bind. eapply wp_mono; [apply (spawn_wp _ _ _ n k); [done|lia|done]|].
  intros [id|e] h2 [Hr2 Hid]; [|by apply Hless].
  unfold sus in *. destruct (is_suspect c settings); [|by apply wp_ret, Hless].
  destruct Hr2 as [[Hj Ho Hs] H2 H3 H4]. apply wp_event. intros r h3 [-> ->].
  pose proof (size_add id (w_suspects (h_obj h2))).
  assert (Hso : slots_ok (set_suspects ({[id]} ∪ w_suspects (h_obj h2)) (h_obj h2))).
  { split; cbn; [done|lia|set_solver]. }
  split; cbn; [exact Hso|by constructor|lia|lia].
Qed.

(** How many of the claimed are suspects. *)
Fixpoint csuspects (l : list Claimed) : Z :=
  match l with
  | [] => 0
  | c :: r => (if is_suspect c settings then 1 else 0) + csuspects r
  end.

Lemma csuspects_pos l : 0 <= csuspects l.
Proof. induction l as [|c l IH]; cbn [csuspects]; [done|]. destruct (is_suspect _ _); lia. Qed.

Lemma csuspects_of l :
  csuspects ((fun x : claimed_entry => mk_Claimed x.1.1 x.1.2 x.2) <$> l) =
  nsuspects (Settings.suspect_threshold settings) (Settings.max_deliveries settings) l.
Proof.
  induction l as [|[[i fs] n] l IH]; [done|]. rewrite nsuspects_cons, <- IH.
  change (csuspects (_ <$> _ :: l)) with ((if is_suspect (mk_Claimed i fs n) settings then 1 else 0)
    + csuspects ((fun x : claimed_entry => mk_Claimed x.1.1 x.1.2 x.2) <$> l)).
  f_equal. unfold is_suspect, suspicious. cbn [claim_count snd].
  destruct (decide _) as [Hd|Hd]; destruct (Z.leb_spec (Settings.suspect_threshold settings) n),
    (Z.leb_spec n (Settings.max_deliveries settings)); cbn; lia.
Qed.

Lemma reclaim_wp free slots h : 0 <= free -> 0 <= slots -> room free slots h ->
  hwp (Reaper.reclaim settings w free slots) h (fun r h' => room free slots h' /\
    match r with
    | Ok x => Z.of_nat (length x.1) <= free /\ csuspects x.1 <= slots
    | Err _ => True end).
Proof.
  intros Hf Hsl Hr. apply hwp_guar with (n := free) (k := slots); [guar_all|done| |done].
  intros start h1 Hr1. apply wp_call. intros r h2 [Hrep Hm].
  assert (Hr2 : room free slots h2) by (eapply room_meanwhile; [|exact Hm]; by apply room_sending).
  destruct r as [[[next cl] deleted]|e]; [|done].
  assert (Hlen : Z.of_nat (length cl) <= free /\ nsuspects (Settings.suspect_threshold settings)
    (Settings.max_deliveries settings) cl <= slots).
  { destruct Hrep as [(v & x & v' & Hx & Heq)|(e & _ & ?)]; [|done].
    cbn [lua_of str] in Hx. rewrite !tonumber_str in Hx.
    pose proof (wp_runs _ _ _ _ _ _ (reclaim_reply _ _ _ _ _ _ _ _ _ _ _ v Hsl) Hx) as Hb.
    destruct x as [x|]; [|done]. injection Heq as <-. cbn in Hb. lia. }
  apply hwp_guar with (n := free) (k := slots); [guar_all|done| |done]. intros [] h3 Hr3.
  apply hwp_guar with (n := free) (k := slots); [guar_all|done| |done]. intros [] h4 Hr4.
  destruct (claimed_of cl) as [cs|e] eqn:Hcs; [|done]. split; [done|]. cbn [fst].
  rewrite (claimed_of_eq _ _ Hcs), csuspects_of, length_fmap. done.
Qed.

Lemma reap_wp free h : 0 < free -> room free 0 h ->
  hwp (_reap settings w free) h (fun r h' =>
    match r with Ok n => 0 <= n <= free /\ room (free - n) 0 h' | Err _ => fine h' end).
Proof.
  intros Hf Hr. apply wp_call. intros r h1 [-> ->]. cbn [fst snd].
  set (slots := if bool_decide (w_suspects (h_obj h) = ∅) then 1 else 0).
  assert (Hsl : 0 <= slots <= 1) by (unfold slots; destruct (bool_decide _); lia).
  assert (Hr1 : room free slots (saw (h_obj h) h)).
  { destruct (room_look _ _ _ Hr) as [H1 H2 H3 H4]. split; try done. unfold slots.
    case_bool_decide as He; cbn in *; [rewrite He, size_empty; lia|lia]. }
  assert (Hfine : forall h, room free slots h -> fine h) by (intros h'; apply room_fine; lia).
  apply wp_bind, wp_try, wp_bind. eapply wp_mono; [apply reclaim_wp; [lia|lia|exact Hr1]|].
  intros [[cs more]|e] h2 [Hr2 Hx].
  - apply wp_ret. apply hwp_guar with (n := free) (k := slots); [guar_all|done| |auto].
    intros t h3 Hr3. apply hwp_guar with (n := free) (k := slots); [guar_all|done| |auto].
    intros [] h4 Hr4. cbn [fst] in Hx. apply wp_bind.
    apply wp_for_each with (I := fun l _ h =>
      room (free - Z.of_nat (length cs) + Z.of_nat (length l)) (csuspects l) h).
    + eapply room_less; [| |exact Hr4]; lia.
    + intros c l [] h5 Hr5. cbn [length csuspects] in Hr5.
      pose proof (csuspects_pos l).
      eapply wp_mono; [eapply start_claimed_wp; [| |exact Hr5]|];
        [lia|destruct (is_suspect c settings); lia|].
      intros [[]|e] h6 Hr6.
      * eapply room_less; [| |exact Hr6]; destruct (is_suspect c settings); lia.
      * eapply room_fine; [| |exact Hr6]; destruct (is_suspect c settings); lia.
    + intros [] h5 Hr5. cbn in Hr5. apply wp_ret. split; [lia|].
      eapply room_less; [| |exact Hr5]; lia.
  - cbv beta iota. destruct (_REDIS_DOWN e); [|by apply Hfine].
    apply hwp_guar with (n := free) (k := slots); [guar_all|done| |auto]. intros [] h3 Hr3.
    apply wp_ret. apply hwp_guar with (n := free) (k := slots); [guar_all|done| |auto].
    intros t h4 Hr4. apply hwp_guar with (n := free) (k := slots); [guar_all|done| |auto].
    intros [] h5 Hr5. apply wp_ret. split; [lia|]. eapply room_less; [| |exact Hr5]; lia.
Qed.

Lemma fetch_once_wp h : fine h -> hwp (fetch_once settings w tt) h (fun _ h' => fine h').
Proof.
  intros Hr. apply wp_call. intros r h1 [-> ->]. cbn [fst snd].
  destruct (w_stop (h_obj h)); [by apply wp_ret, room_look|].
  set (free := C - _ - _). destruct (Z.leb_spec free 0) as [Hf|Hf].
  { eapply wp_mono; [apply (room_guar _ 0 0); [guar_all|by apply room_look]|done]. }
  assert (Hr1 : room free 0 (saw (h_obj h) h)).
  { destruct (room_look _ _ _ Hr) as [H1 H2 H3 H4]. split; try done. cbn. unfold free. lia. }
  assert (Hfine : forall m h, 0 <= m -> room m 0 h -> fine h) by (intros m h' Hm; by apply room_fine).
  apply hwp_guar with (n := free) (k := 0); [guar_all|done| |intros e h'; apply Hfine; lia].
  intros t h2 Hr2.
  apply hwp_guar with (n := free) (k := 0); [guar_all|done| |intros e h'; apply Hfine; lia].
  intros s h3 Hr3. apply wp_bind.
  apply wp_mono with (Q := fun r h' =>
    match r with Ok n => 0 <= n <= free /\ room (free - n) 0 h' | Err _ => fine h' end).
  { destruct (Qle_bool _ _); [by apply reap_wp|]. apply wp_ret. split; [lia|]. by rewrite Z.sub_0_r. }
  intros [n|e] h4; [|done]. intros [Hn Hr4].
  destruct (Z.eqb_spec (free - n) 0) as [Hz|Hz]; [by apply wp_ret; eapply Hfine; [|exact Hr4]; lia|].
  apply wp_bind, wp_try, wp_call. intros r h5 [Hrep Hm].
  assert (Hr5 : room (free - n) 0 h5) by by eapply room_meanwhile.
  destruct r as [l|e].
  - apply wp_ret. pose proof (read_reply _ _ _ _ _ l Hrep eq_refl) as Hlen. apply wp_bind.
    apply wp_for_each with (I := fun l _ h => room (Z.of_nat (length l)) 0 h).
    + eapply room_less; [| |exact Hr5]; lia.
    + intros x l' [] h6 Hr6. cbn [length] in Hr6. apply wp_bind.
      eapply wp_mono; [eapply spawn_wp; [| |exact Hr6]|]; [lia|lia|].
      intros [id|e] h7 [Hr7 _].
      * apply wp_ret. eapply room_less; [| |exact Hr7]; lia.
      * eapply Hfine; [|exact Hr7]; lia.
    + intros [] h6 Hr6. by apply wp_ret.
  - cbv beta iota. destruct (_REDIS_DOWN e); [|by eapply Hfine; [|exact Hr5]; lia].
    apply hwp_guar with (n := free - n) (k := 0); [guar_all|done| |intros e' h'; apply Hfine; lia].
    intros [] h6 Hr6.
    apply hwp_guar with (n := free - n) (k := 0); [guar_all|done| |intros e' h'; apply Hfine; lia].
    intros [] h7 Hr7. do 2 apply wp_ret. eapply Hfine; [|exact Hr7]. lia.
Qed.

Lemma fine_guar {A B : Type} (p : py wstate task A) (f : A -> py wstate task B) h :
  guarantees others p -> fine h -> (forall a h', fine h' -> hwp (f a) h' (fun _ h' => fine h')) ->
  hwp (bind p f) h (fun _ h' => fine h').
Proof. intros Hp Hr Hf. by apply hwp_guar with (n := 0) (k := 0). Qed.

Lemma run_worker_wp fuel h : fine h -> hwp (run_worker settings w fuel) h (fun _ h' => fine h').
Proof.
  intros Hr. apply fine_guar; [|done|].
  { unfold _connect, connect_once, ensure_group. guar_all. }
  intros [o|[]] h1 Hr1; [by apply wp_ret| |by apply (room_guar _ 0 0); [guar_all|]].
  apply fine_guar; [guar_all|done|]. intros [] h2 Hr2.
  apply fine_guar; [guar_all|done|]. intros m h3 Hr3.
  apply fine_guar; [guar_all|done|]. intros [] h4 Hr4.
  apply wp_bind, wp_settle.
  eapply wp_mono with (Q := fun _ h' => fine h').
  - apply wp_loop with (I := fun _ h => fine h); [done| |done].
    intros [] h5 Hr5. eapply wp_mono; [by apply fetch_once_wp|]. by intros [[s|a]|e].
  - intros r h5 Hr5. apply (room_guar _ 0 0); [|done].
    unfold _drain, cancel_all, _shutdown_pools. guar_all.
Qed.
End Slots.

(** C18: slots. Whatever Redis answers, however the network fails and whatever the jobs
    in flight do meanwhile, at every moment of its life a worker has at most
    [concurrency] jobs in flight and at most one suspect among them; and the tasks it
    starts (jobs, heartbeats, handler runs, pool start-up, maintenance) only ever give
    slots back, provided handlers do not reach into the worker. *)
Theorem worker_slots `{CJson} (settings : Settings.t) (registry : Registry wstate task)
    (w : string) (exn_str : exn -> string) (child_pid : nat -> nat -> nat -> Z)
    (o : wstate) (fuel : nat) r h :
  Settings.make settings = Ok settings -> new_worker settings registry = Ok o ->
  handlers_private registry ->
  runs hosted (run_worker settings w fuel) (mk_host o [o] [] 0) r h ->
  Forall (fun o => Z.of_nat (size (w_in_flight o)) <= Settings.concurrency settings /\
                   (size (w_suspects o) <= 1)%nat /\ w_suspects o ⊆ w_in_flight o) (h_seen h) /\
  (forall t, guarantees others (task_body settings registry w exn_str child_pid fuel t)).
Proof.
  intros Hset Ho Hpriv Hr. split; [|by intros t; apply guar_task].
  apply make_accepted in Hset as [_ Hacc].
  assert (Hc : 1 <= Settings.concurrency settings).
  { pose proof (acc_positive _ Hacc) as Hp. rewrite Forall_forall in Hp.
    specialize (Hp (Settings.ge 1 Settings.concurrency "concurrency" settings)).
    apply Z.leb_le, Hp. by apply (list_elem_of_lookup_2 _ 6). }
  assert (Hok : slots_ok settings o).
  { unfold new_worker, and_then in Ho. destruct (check_specs _ _); [|done]. injection Ho as <-.
    split; cbn; [rewrite size_empty; lia|rewrite size_empty; lia|done]. }
  pose proof (wp_runs _ _ _ _ _ _ (run_worker_wp settings w fuel _
    (fine_of settings (mk_host o [o] [] 0) Hok (Forall_cons_2 _ _ _ Hok (Forall_nil_2 _)))) Hr)
    as [_ Hseen _ _].
  eapply Forall_impl; [exact Hseen|]. by intros x [].
Qed.

(** A worker with the demonstration settings, with three jobs waiting: it takes all three
    and goes on polling. *)
Definition demo_worker : wstate := mk_wstate false ∅ ∅ 0 (0, 0) ∅ ∅ 0 ∅ 2 None ∅ ∅.
Definition demo_host : host := mk_host demo_worker [demo_worker] [] 0.
Definition demo_work : result exn (unit + unit) * (host * rview) :=
  run (ref_hosted idle) (run_worker demo_settings "w1" 2) (demo_host, s_view enqueued3).

Lemma demo_work_runs :
  runs hosted (run_worker demo_settings "w1" 2) demo_host demo_work.1 demo_work.2.1.
Proof. unfold demo_work. apply ref_runs, idle_ok. Qed.

Lemma worker_slots_witness :
  size (w_in_flight (h_obj demo_work.2.1)) = 3%nat /\
  Forall (fun o => Z.of_nat (size (w_in_flight o)) <= 10 /\
                   (size (w_suspects o) <= 1)%nat /\ w_suspects o ⊆ w_in_flight o)
    (h_seen demo_work.2.1).
Proof.
  split; [vm_compute; reflexivity|].
  apply (worker_slots demo_settings ∅ "w1" (fun _ => ""%string) (fun _ _ => Z.of_nat)
    demo_worker 2 demo_work.1 demo_work.2.1); [vm_compute; reflexivity|vm_compute; reflexivity| |].
  - intros t fn h o Ht. unfold get in Ht. by rewrite lookup_empty in Ht.
  - exact demo_work_runs.
Defined.
