(* ===== verification/Attempts.v ===== *)
(** One delivery of a job (Worker.v's [_run_handler], [_process]): the timeout of a
    handler run, and the one transition a delivery ends in. *)
From stdpp Require Import relations.
From S2P Require Import Prelude Effects Redis Keys LuaScripts Fields System RedisRef.
From S2P Require Import Demo Json.
From S2P Require Import Py Models Config Transitions Registry Reaper Metrics Worker.
From S2P Require Import World.
From S2P Require Import Host.
From Stdlib Require Import Lqa.

#[local] Open Scope string_scope.
#[local] Open Scope list_scope.
#[local] Open Scope Z_scope.
#[local] Open Scope prog_scope.

(** Later in the same process, nothing sent in between. *)
Record later (h h' : host) : Prop := {
  lt_seen : h_seen h ⊆ h_seen h';
  lt_sent : h_sent h' = h_sent h;
  lt_clock : (h_clock h <= h_clock h')%Q;
}.

#[export] Instance later_pre : PreOrder later.
Proof.
  split; [intros h; split; [done|done|apply Qle_refl]|].
  intros h1 h2 h3 [H1 H2 H3] [H4 H5 H6]. split; [set_solver|congruence|lra].
Qed.

Lemma later_meanwhile h h' : meanwhile h h' -> later h h'.
Proof. intros (o & t & _ & Ht & ->). split; [set_solver|done|done]. Qed.

Lemma later_saw o h : later h (saw o h).
Proof. split; [set_solver|done|apply Qle_refl]. Qed.

Section Attempts.
Context `{CJson}.
Context (settings : Settings.t) (registry : Registry wstate task) (w : string)
  (exn_str : exn -> string).
Abbreviation hwp := (wp hosted).

Definition silent {A : Type} : py wstate task A -> Prop :=
  only (fun X e => match e with EScript _ _ _ => False | _ => True end).

Lemma silent_wp {A : Type} (p : py wstate task A) : silent p ->
  forall h, hwp p h (fun _ h' => later h h').
Proof.
  induction p as [a|e|X c k IH]; intros Hp h; cbn in *; [done|done|].
  destruct Hp as [Hc Hk]. intros r h' Hspec.
  assert (Hl : later h h').
  { destruct c; cbn in Hspec; try done;
      try (by destruct Hspec as [_ ->]);
      try (by apply later_meanwhile; destruct Hspec).
    - destruct Hspec as (t & Ht & _ & ->). by split.
    - destruct Hspec as [_ ->]. apply later_saw. }
  eapply wp_mono; [by apply IH|]. intros r' h'' Hl'. by etrans.
Qed.

Lemma hwp_silent {A B : Type} (p : py wstate task A) (f : A -> py wstate task B) h Q :
  silent p -> (forall a h', later h h' -> hwp (f a) h' Q) ->
  (forall e h', later h h' -> Q (Err e) h') -> hwp (bind p f) h Q.
Proof.
  intros Hp Hf He. apply wp_bind. eapply wp_mono; [by apply silent_wp|].
  intros [a|e] h' Hl; auto.
Qed.

(** ** The timeout *)

(** The run whose time is up: started, no result, its timeout past. *)
Definition expired (timeout : Q) (run : nat) (h : host) : Prop :=
  exists t0, r_done (run_row run (h_obj h)) = None /\
    r_started (run_row run (h_obj h)) = Some t0 /\ (t0 + timeout <= h_clock h)%Q.

(** What is done about it: it is cancelled; a process is killed with its pool, any other
    run keeps its slot as an orphan until it really ends. *)
Definition stopped (row : _Run) (run : nat) (o : wstate) : Prop :=
  run ∈ w_cancelled o /\
  if decide (r_kind row = k_process)
  then forall pool, r_pool row = Some pool ->
         pool ∈ w_reset_pools o /\ w_process_pool o <> Some pool
  else run ∈ w_orphans o.

Definition timed_out (timeout : Q) (h : host) : Prop :=
  exists run o t0, o ∈ h_seen h /\ r_done (run_row run o) = None /\
    r_started (run_row run o) = Some t0 /\ (t0 + timeout <= h_clock h)%Q /\
    stopped (run_row run o) run (h_obj h).

(** A run ended with [x]. *)
Definition ended_with (x : result exn json) (h : host) : Prop :=
  exists run o, o ∈ h_seen h /\ r_done (run_row run o) = Some x.

Definition run_result (timeout : Q) (k : kind) (r : result exn (unit + result exn json))
    (h : host) : Prop :=
  match r with
  | Ok (inl _) => True
  | Ok (inr x) => ended_with x h
  | Err e => e = CancelledError \/
      e = HandlerTimeout timeout (kind_name k) /\ timed_out timeout h
  end.

Lemma wait_once_wp timeout run h :
  hwp (wait_once timeout run tt) h (fun r h' => later h h' /\
    match r with
    | Ok (inl _) => True
    | Ok (inr _) => is_Some (r_done (run_row run (h_obj h'))) \/ expired timeout run h'
    | Err e => e = CancelledError
    end).
Proof.
  apply wp_call. intros r h1 [-> ->]. cbn [fst snd].
  destruct (r_done (run_row run (h_obj h))) as [x|] eqn:Hd.
  { apply wp_ret. split; [apply later_saw|]. left. by exists x. }
  destruct (r_started (run_row run (h_obj h))) as [t0|] eqn:Ht.
  - apply wp_call. intros r h2 (t & Hle & -> & ->). cbn in Hle.
    destruct (Qle_bool (t0 + timeout - t) 0) eqn:Hq.
    + apply wp_ret. split; [split; [set_solver|done|done]|]. right. exists t0.
      apply Qle_bool_iff in Hq. cbn. split_and!; [done|done|lra].
    + apply wp_call. intros r h3 [Hr Hm]. apply later_meanwhile in Hm.
      assert (Hl : later h h3).
      { etrans; [|exact Hm]. split; [set_solver|done|done]. }
      destruct r as [[]|e]; [by apply wp_ret|]. split; [done|]. by destruct Hr as [|[= ->]].
  - apply wp_call. intros r h2 [Hr Hm]. apply later_meanwhile in Hm.
    assert (Hl : later h h2) by (etrans; [apply later_saw|exact Hm]).
    destruct r as [[]|e]; [by apply wp_ret|]. split; [done|]. by destruct Hr as [|[= ->]].
Qed.

(** Nothing is awaited here. *)
Lemma stop_run_wp run h :
  let row := run_row run (h_obj h) in
  r_done row = None ->
  hwp (_stop_run run false) h (fun r h' => later h h' /\ h_clock h' = h_clock h /\
    r = Ok tt /\ stopped row run (h_obj h')).
Proof.
  intros row Hd. apply wp_call. intros r h1 [-> ->].
  apply wp_call. intros r h2 [-> ->]. cbn [fst snd].
  set (o := set_cancelled ({[run]} ∪ w_cancelled (h_obj h)) (h_obj h)).
  change (run_row run (h_obj (saw o h))) with row.
  assert (Hl : later h (saw o (saw o h))) by (etrans; apply later_saw).
  unfold stopped. destruct (decide (r_kind row = k_process)) as [Hk|Hk].
  - destruct (r_pool row) as [pool|] eqn:Hp.
    + apply wp_call. intros r h3 [-> ->]. apply wp_event. intros r h4 [-> ->].
      split_and!; [etrans; [exact Hl|apply later_saw]|reflexivity|reflexivity| |].
      * cbn. case_decide; cbn; set_solver.
      * intros pool' [= <-]. cbn. case_decide; (split; [cbn; set_solver|done]).
    + apply wp_ret. split_and!; [done|done|done|cbn; set_solver|by intros pool'].
  - rewrite Hd. apply wp_event. intros r h3 [-> ->].
    split_and!; [etrans; [exact Hl|apply later_saw]|done|done|cbn; set_solver|cbn; set_solver].
Qed.

Lemma start_wp spec job h :
  hwp (_start spec job) h (fun r h' => later h h' /\ exists run, r = Ok run).
Proof.
  apply wp_call. intros r h1 [-> ->]. apply wp_call. intros r h2 (t & Ht & -> & ->).
  apply wp_call. intros r h3 [-> ->]. apply wp_call. intros r h4 [-> ->]. apply wp_ret.
  split; [|by eexists]. split; [cbn; set_solver|done|exact Ht].
Qed.

Lemma abandon_wp run h :
  hwp (_stop_run run true) h (fun r h' => later h h' /\ r = Ok tt).
Proof.
  apply wp_call. intros r h1 [-> ->]. apply wp_call. intros r h2 [-> ->]. cbn [fst snd].
  set (o := set_cancelled _ _).
  assert (Hl : later h (saw o (saw o h))) by (etrans; apply later_saw).
  destruct (decide _); [destruct (r_pool _); by apply wp_ret|].
  destruct (r_done _); [by apply wp_ret|]. apply wp_event. intros r h3 [-> ->].
  split; [|done]. etrans; [exact Hl|apply later_saw].
Qed.

Lemma watch_wp fuel spec job h :
  hwp (watch_run settings fuel spec job) h (fun r h' => later h h' /\
    run_result (run_timeout settings spec) (run_kind spec) r h').
Proof.
  set (timeout := run_timeout settings spec).
  apply wp_bind. eapply wp_mono; [apply start_wp|]. intros r h1 [Hl1 [run ->]].
  apply wp_bind, wp_try.
  apply wp_loop with (I := fun _ h' => later h h').
  - done.
  - intros [] h2 Hl2. eapply wp_mono; [apply wait_once_wp|].
    intros [[[]|[]]|e] h3 [Hl Hx]; [by etrans| |].
    + assert (Hl3 : later h h3) by (by etrans). apply wp_call. intros r h4 [-> ->]. cbn [fst snd].
      destruct (r_done (run_row run (h_obj h3))) as [x|] eqn:Hd.
      * apply wp_ret. split; [by etrans; [|apply later_saw]|]. exists run, (h_obj h3).
        split; [cbn; set_solver|done].
      * destruct Hx as [[x Hx]|(t0 & _ & Hs & Ht)]; [congruence|].
        apply wp_bind. eapply wp_mono; [apply (stop_run_wp run (saw (h_obj h3) h3)), Hd|].
        intros r h4 (Hl4 & Hc & -> & Hst). cbn in Hc. split.
        -- etrans; [|exact Hl4]. by etrans; [|apply later_saw].
        -- right. split; [done|]. exists run, (h_obj h3), t0. rewrite Hc.
           split_and!; try done. apply (lt_seen _ _ Hl4). cbn. set_solver.
    + subst e. cbn [bool_decide]. rewrite bool_decide_true by done.
      assert (Hl3 : later h h3) by (by etrans).
      apply wp_bind. eapply wp_mono; [apply abandon_wp|].
      intros r h4 [Hl4 ->]. split; [by etrans|by left].
  - intros [] h2 Hl2. by apply wp_ret.
Qed.

Lemma acquire_wp h : hwp acquire_slot h (fun r h' => later h h' /\
  (r = Ok tt \/ r = Err CancelledError)).
Proof.
  apply wp_call. intros r h1 [Hm Hr]. apply later_meanwhile in Hm.
  assert (Hcase : r = Ok tt \/ r = Err CancelledError).
  { destruct Hr as [Hr| ->]; [|by right]. destruct (0 <? _); [|done]. by injection Hr as <-; left. }
  destruct Hcase as [->| ->]; [|by split; [|right]].
  apply wp_event. intros r h2 [-> ->]. split; [|by left]. etrans; [exact Hm|apply later_saw].
Qed.

(** What the run's outcome means for the attempt. *)
Definition attempt_result (timeout : Q) (k : kind) (r : result exn (unit + string)) (h : host) :
    Prop :=
  match r with
  | Ok (inl _) => True
  | Ok (inr text) => exists x, text = dumps x /\ ended_with (Ok x) h
  | Err e => e = CancelledError \/ ended_with (Err e) h \/
      e = HandlerTimeout timeout (kind_name k) /\ timed_out timeout h
  end.

Lemma timed_out_kept timeout h o :
  timed_out timeout h -> w_cancelled o = w_cancelled (h_obj h) ->
  w_reset_pools o = w_reset_pools (h_obj h) -> w_process_pool o = w_process_pool (h_obj h) ->
  w_orphans o = w_orphans (h_obj h) -> timed_out timeout (saw o h).
Proof.
  intros (run & o' & t0 & H1 & H2 & H3 & H4 & H5) E1 E2 E3 E4. exists run, o', t0.
  split_and!; [cbn; set_solver|done|done|done|]. unfold stopped in *. cbn. by rewrite E1, E2, E3, E4.
Qed.

Lemma ended_later x h h' : ended_with x h -> later h h' -> ended_with x h'.
Proof. intros (run & o & Ho & Hd) [Hs _ _]. exists run, o. split; [by apply Hs|done]. Qed.

Lemma run_handler_wp fuel spec job h :
  hwp (_run_handler settings fuel spec job) h (fun r h' => later h h' /\
    attempt_result (run_timeout settings spec) (run_kind spec) r h').
Proof.
  set (timeout := run_timeout settings spec).
  assert (Hend : forall h r h', later h h' -> run_result timeout (run_kind spec) r h' ->
    hwp (match r with Ok a => match a with inl _ => Ret (inl tt)
           | inr x => bind (lift x) (fun y => Ret (inr (dumps y))) end | Err e => Raise e end) h'
      (fun r h'' => later h h'' /\ attempt_result timeout (run_kind spec) r h'')).
  { intros h0 [[[]|[x|e]]|e] h' Hl Hr.
    - by apply wp_ret.
    - apply wp_ret. split; [done|]. by exists x.
    - split; [done|]. right. by left.
    - split; [done|]. destruct Hr as [-> |Hr]; [by left|right; by right]. }
  apply wp_bind. destruct (decide (run_kind spec = k_process)) as [Hk|Hk].
  - apply wp_bind. eapply wp_mono; [apply acquire_wp|]. intros r h1 [Hl1 [->| ->]].
    2: { split; [done|by left]. }
    apply wp_bind, wp_settle. eapply wp_mono; [apply watch_wp|]. intros r h2 [Hl2 Hr].
    apply wp_call. intros r' h3 [-> ->]. apply wp_lift.
    set (o := set_process_slots (w_process_slots (h_obj h2) + 1) (h_obj h2)).
    assert (Hr3 : run_result timeout (run_kind spec) r (saw o h2)).
    { destruct r as [[[]|x]|e]; [done| |]; cbn in *.
      - eapply ended_later; [exact Hr|apply later_saw].
      - destruct Hr as [-> |[-> Ht]]; [by left|right]. split; [done|]. by apply timed_out_kept. }
    assert (Hl3 : later h (saw o h2)).
    { etrans; [exact Hl1|]. etrans; [exact Hl2|]. apply later_saw. }
    specialize (Hend h r (saw o h2) Hl3 Hr3). by destruct r.
  - eapply wp_mono; [apply watch_wp|]. intros r h2 [Hl2 Hr].
    specialize (Hend h r h2 Hl2 Hr). by destruct r.
Qed.

(** ** The transition a delivery ends in *)

(** Later in the same process, [x] sent in between. *)
Definition sent_one (x : sname * list arg) (h h' : host) : Prop :=
  h_sent h' = h_sent h ++ [x] /\ h_seen h ⊆ h_seen h'.

Lemma sent_later x h h1 h2 h3 :
  later h h1 -> sent_one x h1 h2 -> later h2 h3 -> sent_one x h h3.
Proof.
  intros [A1 A2 _] [B1 B2] [C1 C2 _]. split; [by rewrite C2, B1, A2|set_solver].
Qed.

Lemma sent_now x h h' : sent_one x h h' -> forall h2, later h' h2 -> sent_one x h h2.
Proof. intros Hs h2 Hl. by eapply sent_later; [reflexivity|exact Hs|exact Hl]. Qed.

(** [try: o = method(...) except RedisError: log], then more logging. *)
Lemma transition_wp {A B : Type} n keys args (f : reply n -> result exn A) c
    (g : exn -> py wstate task (option A)) (k : option A -> py wstate task B) h :
  (forall e, silent (g e)) -> (forall o, silent (k o)) ->
  hwp (bind (except c (bind (bind (script n keys args) (fun x => lift (f x)))
                         (fun o => Ret (Some o))) g) k) h
    (fun _ h' => sent_one (n, args) h h').
Proof.
  intros Hg Hk. apply wp_bind, wp_try, wp_bind, wp_call. intros r h1 [_ Hm].
  assert (Hs : sent_one (n, args) h h1).
  { destruct Hm as (o & t & _ & _ & ->). split; [done|set_solver]. }
  assert (Hfin : forall o, hwp (k o) h1 (fun _ h' => sent_one (n, args) h h')).
  { intros x. eapply wp_mono; [by apply silent_wp|]. intros ? h2. by apply sent_now. }
  assert (Hbad : forall e, hwp (if c e then g e else Raise e) h1 (fun r h' =>
    match r with Ok a => hwp (k a) h' (fun _ h' => sent_one (n, args) h h')
               | Err _ => sent_one (n, args) h h' end)).
  { intros e. destruct (c e); [|done]. eapply wp_mono; [by apply silent_wp|].
    intros [a|e'] h2 Hl; [|by eapply sent_now]. eapply wp_mono; [by apply silent_wp|].
    intros ? h3 Hl'. eapply sent_now; [exact Hs|]. by etrans. }
  destruct r as [x|e]; [|apply Hbad]. apply wp_lift. destruct (f x) as [a|e]; [|apply Hbad].
  apply wp_ret. apply Hfin.
Qed.

Definition dead_args (e : eid) (j : string) (reason : DeadReason) (error : string) (n : Z)
    (t : bool) : list arg :=
  [Str (Settings.group settings); Id e; Str w; Str j; Str (reason_value reason); Str error;
   str n; flag t].
Definition commit_args (e : eid) (j : Job) (text : string) : list arg :=
  [Str (Settings.group settings); Id e; Str (job_id j); Str text;
   str (Settings.done_ttl_seconds settings); Str w; str (enqueued_at_ms j)].
Definition retry_args (e : eid) (j : Job) (delay : Q) (t : bool) : list arg :=
  [Str (Settings.group settings); Id e; Str w; str (attempt j + 1);
   str (int_of_Q (delay * 1000)); flag t].

Ltac silent_all := unfold silent; repeat only_step ltac:(exact I).

Lemma to_dlq_wp e j reason error n t h :
  hwp (_to_dlq settings w e j reason error n t) h
    (fun _ h' => sent_one (S_dead, dead_args e j reason error n t) h h').
Proof. apply transition_wp; intros; silent_all. Qed.

Lemma finish_wp e j text h :
  hwp (_finish settings w e j text) h (fun _ h' => sent_one (S_commit, commit_args e j text) h h').
Proof. apply transition_wp; intros; silent_all. Qed.

Definition delay_ok (j : Job) (delay : Q) : Prop :=
  exists b, backoff_bound (attempt j) (Settings.job_backoff_base settings)
              (Settings.job_backoff_cap settings) = Ok b /\ uniform_ok 0 b delay.

Lemma fail_wp e j x h : 0 <= attempt j ->
  hwp (_fail settings w exn_str e j x) h (fun _ h' =>
    if Settings.max_attempts settings <=? attempt j + 1
    then sent_one (S_dead, dead_args e (job_id j) MAX_ATTEMPTS (_error_text exn_str x)
                     (attempt j + 1) (is_timeout x)) h h'
    else exists delay, delay_ok j delay /\
           sent_one (S_retry, retry_args e j delay (is_timeout x)) h h').
Proof.
  intros Hj. apply wp_bind. eapply wp_mono with (Q := fun r h' => later h h' /\ r = Ok tt).
  { destruct (is_timeout x); [|by apply wp_ret]. apply wp_event. by intros r h' [-> ->]. }
  intros r h1 [Hl ->]. cbv beta iota. destruct (_ <=? _).
  - eapply wp_mono; [apply to_dlq_wp|]. intros ? h2 Hs. by eapply sent_later; [exact Hl|exact Hs|].
  - apply wp_bind. unfold full_jitter_delay. apply wp_bind, wp_lift.
    destruct (backoff_bound _ _ _) as [b|] eqn:Hb.
    2: { unfold backoff_bound in Hb. by destruct (Z.ltb_spec (attempt j) 0); [lia|]. }
    apply wp_event. intros r h2 [(d & -> & Hd) ->].
    eapply wp_mono; [apply transition_wp; intros; silent_all|]. intros ? h3 Hs.
    exists d. split; [by exists b|]. by eapply sent_later; [exact Hl|exact Hs|].
Qed.

(** An attempt failed with [x]: the handler raised it, or ran out of time. *)
Definition failed_with (spec : HandlerSpec wstate task) (x : exn) (h : host) : Prop :=
  is_exception x = true /\
  (ended_with (Err x) h \/
   x = HandlerTimeout (run_timeout settings spec) (kind_name (run_kind spec)) /\
   exists h', h_seen h' ⊆ h_seen h /\ timed_out (run_timeout settings spec) h').

(** What one delivery of entry [e] with fields [fs], the [n]-th, may send. *)
Inductive verdict (e : eid) (fs : list string) (n : Z) (h : host) :
    list (sname * list arg) -> Prop :=
  | v_malformed x : from_fields fs = Err x ->
      verdict e fs n h [(S_dead, dead_args e (name_of e fs) MALFORMED (_error_text exn_str x) 0 false)]
  | v_deliveries j : from_fields fs = Ok j -> Settings.max_deliveries settings < n ->
      verdict e fs n h [(S_dead, dead_args e (job_id j) MAX_DELIVERIES
        ("delivered " +:+ str_of_Z n +:+ " times (max_deliveries=" +:+
         str_of_Z (Settings.max_deliveries settings) +:+ ")") (attempt j + 1) false)]
  | v_unknown j : from_fields fs = Ok j -> n <= Settings.max_deliveries settings ->
      get registry (type j) = None ->
      verdict e fs n h [(S_dead, dead_args e (job_id j) UNKNOWN_TYPE
        ("no handler registered for type '" +:+ type j +:+ "'") (attempt j) false)]
  | v_commit j spec x : from_fields fs = Ok j -> n <= Settings.max_deliveries settings ->
      get registry (type j) = Some spec -> ended_with (Ok x) h ->
      verdict e fs n h [(S_commit, commit_args e j (dumps x))]
  | v_retry j spec x delay : from_fields fs = Ok j -> n <= Settings.max_deliveries settings ->
      get registry (type j) = Some spec -> failed_with spec x h ->
      attempt j + 1 < Settings.max_attempts settings -> delay_ok j delay ->
      verdict e fs n h [(S_retry, retry_args e j delay (is_timeout x))]
  | v_exhausted j spec x : from_fields fs = Ok j -> n <= Settings.max_deliveries settings ->
      get registry (type j) = Some spec -> failed_with spec x h ->
      Settings.max_attempts settings <= attempt j + 1 ->
      verdict e fs n h [(S_dead, dead_args e (job_id j) MAX_ATTEMPTS (_error_text exn_str x)
        (attempt j + 1) (is_timeout x))]
  | v_unfinished j spec : from_fields fs = Ok j -> n <= Settings.max_deliveries settings ->
      get registry (type j) = Some spec -> verdict e fs n h [].

Definition decided (e : eid) (fs : list string) (n : Z) (h h' : host) : Prop :=
  exists l, h_sent h' = h_sent h ++ l /\ verdict e fs n h' l.

Lemma malformed_exn fs x : from_fields fs = Err x -> is_malformed x = true.
Proof.
  unfold from_fields, need, json_loads, to_int, new_job.
  repeat (match goal with
          | |- context [match ?y with _ => _ end] => destruct y; cbn
          | |- context [and_then (match ?y with _ => _ end) _] => destruct y; cbn
          end; try (by intros [= <-]); try done).
Qed.

Lemma ended_mono x h h' : h_seen h ⊆ h_seen h' -> ended_with x h -> ended_with x h'.
Proof. intros Hs (run & o & Ho & Hd). exists run, o. split; [by apply Hs|done]. Qed.

Lemma attempt_wp fuel e spec j h :
  hwp (attempt_run settings fuel e spec j) h (fun r h' => later h h' /\
    match r with
    | Ok (Ok (inl _)) => True
    | Ok (Ok (inr text)) => exists x, text = dumps x /\ ended_with (Ok x) h'
    | Ok (Err x) => failed_with spec x h'
    | Err x => x = CancelledError
    end).
Proof.
  apply wp_bind. apply wp_mono with (Q := fun r h' => later h h' /\ exists hb, r = Ok hb).
  { destruct (spec_heartbeat spec); [|by apply wp_ret; split; [|eexists]].
    apply wp_call. intros r h1 [-> ->]. apply wp_call. intros r h2 [-> ->].
    apply wp_ret. split; [apply later_saw|by eexists]. }
  intros r h1 [Hl1 [hb ->]]. cbv beta iota.
  apply wp_bind, wp_settle. apply wp_try, wp_bind.
  eapply wp_mono; [apply run_handler_wp|]. intros r h2 [Hl2 Hr]. cbv beta iota.
  assert (Hl : later h h2) by by etrans.
  set (out := match r with Ok x => Ok (Ok x) | Err x =>
    if is_exception x then Ok (Err x) else Err x end : result exn (result exn (unit + string))).
  assert (Hgo : hwp (bind (match hb with Some id => cancel id ;;; wait None | None => Ret tt end)
      (fun _ => lift out)) h2 (fun r h' => later h h' /\
    match r with
    | Ok (Ok (inl _)) => True
    | Ok (Ok (inr text)) => exists x, text = dumps x /\ ended_with (Ok x) h'
    | Ok (Err x) => failed_with spec x h'
    | Err x => x = CancelledError
    end)).
  { apply wp_bind. apply wp_mono with (Q := fun r h' => later h2 h' /\
      (r = Ok tt \/ r = Err CancelledError)).
    { destruct hb as [id|]; [|by apply wp_ret; split; [|left]].
      apply wp_call. intros r' h3 [-> ->]. apply wp_event. intros r' h4 [Hr' Hm].
      split; [|done]. apply later_meanwhile in Hm. etrans; [apply later_saw|exact Hm]. }
    intros r' h3 [Hl3 [->| ->]]; [|by split; [etrans|]]. apply wp_lift. split; [by etrans|].
    unfold out. destruct r as [[[]|text]|x]; [done| |].
    - destruct Hr as (x & -> & Hx). exists x. split; [done|]. by eapply ended_later.
    - destruct (is_exception x) eqn:Hx; [|by destruct x]. split; [done|].
      destruct Hr as [->|[Hr|[-> Ht]]]; [done|left; by eapply ended_later|right].
      split; [done|]. exists h2. by split; [apply (lt_seen _ _ Hl3)|]. }
  unfold out in Hgo. destruct r as [x|x]; [exact Hgo|]. by destruct (is_exception x).
Qed.

Definition quiet_end (r : result exn unit) : Prop := r = Ok tt \/ r = Err CancelledError.

Lemma process_wp fuel e fs n h :
  hwp (_process settings registry w exn_str fuel e fs n) h (fun r h' =>
    decided e fs n h h' /\ (h_sent h' = h_sent h -> quiet_end r)).
Proof.
  assert (Hnil : forall (x : sname * list arg) (l : list (sname * list arg)), l ++ [x] <> l).
  { intros x l Hl. apply (f_equal length) in Hl. rewrite length_app in Hl. cbn in Hl. lia. }
  assert (Hdead : forall j reason error a t h,
    (forall h', verdict e fs n h' [(S_dead, dead_args e j reason error a t)]) ->
    hwp (_to_dlq settings w e j reason error a t) h (fun r h' =>
      decided e fs n h h' /\ (h_sent h' = h_sent h -> quiet_end r))).
  { intros j reason error a t h0 Hv. eapply wp_mono; [apply to_dlq_wp|].
    intros ? h' [Hs _]. split; [eexists; by split|]. rewrite Hs. intros Heq. by apply Hnil in Heq. }
  unfold _process. destruct (from_fields fs) as [j|x] eqn:Hj.
  2: { rewrite (malformed_exn _ _ Hj). apply Hdead. intros h'. by apply v_malformed. }
  destruct (Z.ltb_spec (Settings.max_deliveries settings) n) as [Hn|Hn].
  { apply Hdead. intros h'. by apply v_deliveries. }
  destruct (get registry (type j)) as [spec|] eqn:Hg.
  2: { apply Hdead. intros h'. by apply v_unknown. }
  assert (Hnone : forall h', later h h' -> decided e fs n h h').
  { intros h' [_ Hs _]. exists []. rewrite app_nil_r. split; [done|]. by eapply v_unfinished. }
  apply wp_call. intros r h1 [-> ->].
  apply wp_bind. eapply wp_mono; [apply attempt_wp|]. intros r h2 [Hl Hr].
  destruct r as [[[[]|text]|x]|x].
  - apply wp_ret. split; [by apply Hnone|by left].
  - destruct Hr as (x & -> & Hx). eapply wp_mono; [apply finish_wp|]. intros ? h3 [Hs Hseen].
    rewrite (lt_sent _ _ Hl) in Hs. split; [|rewrite Hs; intros Heq; by apply Hnil in Heq].
    eexists. rewrite Hs. split; [done|]. eapply v_commit; try done. by eapply ended_mono.
  - eapply wp_mono; [apply fail_wp; by eapply from_fields_attempt|]. intros ? h3 Hs.
    assert (Hf : h_seen h2 ⊆ h_seen h3 -> failed_with spec x h3).
    { intros Hseen. destruct Hr as [He [Hr|[-> (h' & Hl' & Ht)]]]; split; try done.
      - left. by eapply ended_mono.
      - right. split; [done|]. exists h'. split; [by etrans|done]. }
    destruct (Z.leb_spec (Settings.max_attempts settings) (attempt j + 1)) as [Hm|Hm].
    + destruct Hs as [Hs Hseen]. rewrite (lt_sent _ _ Hl) in Hs.
      split; [|rewrite Hs; intros Heq; by apply Hnil in Heq].
      eexists. rewrite Hs. split; [done|]. eapply v_exhausted; eauto.
    + destruct Hs as (delay & Hd & Hs & Hseen). rewrite (lt_sent _ _ Hl) in Hs.
      split; [|rewrite Hs; intros Heq; by apply Hnil in Heq].
      eexists. rewrite Hs. split; [done|]. eapply v_retry; eauto.
  - subst x. split; [by apply Hnone|by right].
Qed.

(** *** Waiting ends *)

(** The run keeps its clock, and [asyncio.wait] is punctual: it ends when the run does or
    when its time is over. *)
Definition punctual (run : nat) (t0 : Q) X (e : pyev wstate task X) (h : host)
    (r : result exn X) (h' : host) : Prop :=
  hosted X e h r h' /\ r_started (run_row run (h_obj h')) = Some t0 /\
  match e with
  | EWait (Some d) => is_Some (r_done (run_row run (h_obj h'))) \/ (h_clock h + d <= h_clock h')%Q
  | _ => True
  end.
End Attempts.

(** A handler's timeout is kept. Waiting on a run ends in its recorded outcome, or
    in HandlerTimeout, which is raised only once the run has been going for its timeout
    without a result, and then the run is cancelled and still holds its slot (or, for a
    process, its pool is killed and will not be used again); or in the cancellation of
    the worker itself. *)
Theorem handler_timeout `{CJson} (settings : Settings.t) (fuel : nat)
    (spec : HandlerSpec wstate task) (job : Job) (h h' : host) r :
  runs hosted (_run_handler settings fuel spec job) h r h' ->
  let timeout := run_timeout settings spec in
  h_sent h' = h_sent h /\
  match r with
  | Ok (inl _) => True
  | Ok (inr text) => exists run o x, o ∈ h_seen h' /\ text = dumps x /\
      r_done (run_row run o) = Some (Ok x)
  | Err e => e = CancelledError \/
      (exists run o, o ∈ h_seen h' /\ r_done (run_row run o) = Some (Err e)) \/
      e = HandlerTimeout timeout (kind_name (run_kind spec)) /\
      exists run o t0, o ∈ h_seen h' /\ r_done (run_row run o) = None /\
        r_started (run_row run o) = Some t0 /\ (t0 + timeout <= h_clock h')%Q /\
        stopped (run_row run o) run (h_obj h')
  end.
Proof.
  intros Hr timeout.
  destruct (wp_runs _ _ _ _ _ _ (run_handler_wp settings fuel spec job h) Hr) as [[_ Hs _] Hx].
  split; [exact Hs|]. destruct r as [[[]|text]|e]; [done| |exact Hx].
  destruct Hx as (x & -> & run & o & Ho & Hd). by exists run, o, x.
Qed.

(** Waiting for a run terminates: while the run keeps its clock and timers are
    punctual, two turns of the wait loop are enough, however the run behaves. *)
Theorem handler_wait_ends `{CJson} (timeout t0 : Q) (run fuel : nat) (h h' : host) r :
  r_started (run_row run (h_obj h)) = Some t0 -> (2 <= fuel)%nat ->
  runs (punctual run t0) (loop fuel (wait_once timeout run) tt) h r h' ->
  r = Ok (inr tt) \/ r = Err CancelledError.
Proof.
  intros Ht Hf Hr. destruct fuel as [|[|fuel]]; [lia|lia|].
  apply (wp_runs (punctual run t0) _ _ _ _ (fun r _ => r = Ok (inr tt) \/ r = Err CancelledError))
    in Hr; [exact Hr|]. clear Hr h' r.
  assert (Hturn : forall h, r_started (run_row run (h_obj h)) = Some t0 ->
    wp (punctual run t0) (wait_once timeout run tt) h (fun r h' =>
      r_started (run_row run (h_obj h')) = Some t0 /\
      match r with
      | Ok (inr _) => True
      | Ok (inl _) => is_Some (r_done (run_row run (h_obj h'))) \/ (t0 + timeout <= h_clock h')%Q
      | Err e => e = CancelledError
      end) /\
    (is_Some (r_done (run_row run (h_obj h))) \/ (t0 + timeout <= h_clock h)%Q ->
     wp (punctual run t0) (wait_once timeout run tt) h (fun r h' => r = Ok (inr tt)))).
  { clear h Ht. intros h Ht. split.
    - apply wp_call. intros r h1 ([-> ->] & H1 & _). cbn [fst snd].
      destruct (r_done (run_row run (h_obj h))) as [x|] eqn:Hd; [by apply wp_ret|].
      rewrite Ht. apply wp_call. intros r h2 ((t & Hle & -> & ->) & H2 & _). cbn in Hle.
      destruct (Qle_bool (t0 + timeout - t) 0) eqn:Hq; [by apply wp_ret|].
      apply wp_call. intros r h3 ([Hr _] & H3 & Hw). cbn in Hw.
      destruct r as [[]|e]; [|split; [done|by destruct Hr as [|[= ->]]]].
      apply wp_ret. split; [done|]. destruct Hw as [Hw|Hw]; [by left|right; lra].
    - intros Hex. apply wp_call. intros r h1 ([-> ->] & H1 & _). cbn [fst snd].
      destruct (r_done (run_row run (h_obj h))) as [x|] eqn:Hd; [by apply wp_ret|].
      destruct Hex as [[? ?]|Hex]; [done|].
      rewrite Ht. apply wp_call. intros r h2 ((t & Hle & -> & ->) & H2 & _). cbn in Hle.
      destruct (Qle_bool (t0 + timeout - t) 0) eqn:Hq; [by apply wp_ret|].
      exfalso. assert (Hfalse : Qle_bool (t0 + timeout - t) 0 = true); [|congruence].
      apply Qle_bool_iff. lra. }
  cbn [loop]. apply wp_bind. eapply wp_mono; [exact (proj1 (Hturn h Ht))|].
  intros [[[]|[]]|e] h1 [H1 Hx]; [|by apply wp_ret; left|by right; subst].
  apply wp_bind. eapply wp_mono; [by apply (proj2 (Hturn h1 H1))|].
  intros r h2 ->. by apply wp_ret; left.
Qed.


(** ** Concrete deliveries *)
Definition quiet_handler : AsyncHandler wstate task := mk_async (fun _ => Ret JNull).
Definition email_spec : HandlerSpec wstate task := AsyncSpec quiet_handler true (Some (3 # 2)).
Definition one_handler : Registry wstate task := {["send_email" := email_spec]}.
Definition empty_worker : wstate := mk_wstate false ∅ ∅ 0 (0, 0) ∅ ∅ 0 ∅ 2 None ∅ ∅.
Definition empty_host : host := mk_host empty_worker [empty_worker] [] 0.

(** The first job of the demonstration queue, whose handler returns null: committed. *)
Definition delivery : result exn unit * (host * rview) :=
  run (ref_hosted finish_all)
    (_process demo_settings one_handler "w1" (fun _ => "") 5 (id_of 0) (stored "j1") 1)
    (empty_host, s_view state1).

Lemma delivery_runs :
  runs hosted (_process demo_settings one_handler "w1" (fun _ => "") 5 (id_of 0) (stored "j1") 1)
    empty_host delivery.1 delivery.2.1.
Proof. unfold delivery. apply ref_runs, finish_all_ok. Qed.


(** A handler that never returns, with a timeout of one and a half seconds. *)
Definition demo_job : Job := mk_Job "j1" "send_email" [] 0 "" 5000.
Definition hung : result exn (unit + string) * (host * rview) :=
  run (ref_hosted idle) (_run_handler demo_settings 5 email_spec demo_job)
    (empty_host, s_view state1).

Lemma hung_runs :
  runs hosted (_run_handler demo_settings 5 email_spec demo_job) empty_host hung.1 hung.2.1.
Proof. unfold hung. apply ref_runs, idle_ok. Qed.

Lemma handler_timeout_witness :
  hung.1 = Err (HandlerTimeout (3 # 2) "async") /\ h_sent hung.2.1 = [] /\
  w_orphans (h_obj hung.2.1) = {[0%nat]}.
Proof.
  split; [vm_compute; reflexivity|]. split; [|vm_compute; reflexivity].
  exact (proj1 (handler_timeout demo_settings 5 email_spec demo_job empty_host hung.2.1 hung.1
    hung_runs)).
Defined.

(** A run that started at 0 and hangs, waited on with a timeout of one second. *)
Definition hanging : wstate :=
  set_runs {[0%nat := mk_Run k_async None None (Some 0%Q)]} empty_worker.
Definition host_at (n : nat) (t : Q) : host := mk_host hanging (replicate n hanging) [] t.

Lemma waited : runs (punctual 0 0) (loop 2 (wait_once 1 0) tt) (host_at 0 0)
  (Ok (inr tt)) (host_at 3 1).
Proof.
  exists (Ok (run_row 0 hanging)), (host_at 1 0). split; [done|].
  exists (Ok 0%Q), (host_at 1 0).
  split; [split; [by exists 0%Q|done]|].
  exists (Ok tt), (host_at 2 1).
  split; [split; [split; [by left|by exists hanging, 1%Q]|split; [done|by right]]|].
  exists (Ok (run_row 0 hanging)), (host_at 3 1). split; [done|].
  exists (Ok 1%Q), (host_at 3 1).
  split; [split; [by exists 1%Q|done]|]. by split.
Qed.

Lemma handler_wait_ends_witness :
  (@Ok exn (unit + unit) (inr tt)) = Ok (inr tt) \/ (@Ok exn (unit + unit) (inr tt)) = Err CancelledError.
Proof.
  exact (handler_wait_ends 1 0 0 2 (host_at 0 0) (host_at 3 1) (Ok (inr tt)) eq_refl (le_n 2) waited).
Defined.
