(* ===== verification/Sweep.v ===== *)
(** The DLQ sweep [requeue_all] (Reaper.v, src/ftq/dlq.py): it ends, and it empties the
    dead-letter queue. *)
From stdpp Require Import relations.
From S2P Require Import Prelude Effects Redis Keys LuaScripts Queue Ops Refine.
From S2P Require Import Fields Streams Logs Invariants Machine System RedisRef Demo.
From S2P Require Import Safety.
From S2P Require Import Json Py Models Config Transitions Registry Reaper World.
From S2P Require Import Metrics.

#[local] Open Scope Z_scope.
#[local] Open Scope prog_scope.

Section Sweep.
Context `{CJson} {S Tk : Type}.
Context (K : Keys.t) (G : string) (T : bool).
Abbreviation awp := (wp (@alone _ S Tk)).

(** The queue seen by the sweep: [l] is what the DLQ holds, [es] what the stream does. *)
Record swept (v : rview) (l : list entry) (es : list (list string)) : Prop := {
  sw_rep : exists q A D, rep K G T v q /\ inv q A D /\ entries (q_dead q) = l /\
    (q_entries q).*2 = es;
}.

(** The first entry goes back to the stream. *)
Lemma requeue_first v d row l es j :
  swept v ((d, row) :: l) es -> strip_dlq row <> [] -> field "dlq_job_id" row = Some j ->
  awp (requeue K j) v (fun r v' => r = Ok true /\ swept v' l (es ++ [strip_dlq row])).
Proof.
  intros [(q & A & D & Hr & Hi & Hl & Hes)] Hne Hj.
  pose proof (dlq_ids _ _ (inv_dlq _ _ _ Hi)) as Hids.
  pose proof (dlq_valid _ _ (inv_dlq _ _ _ Hi)) as Hval.
  pose proof (records_dead_ids _ (inv_records _ _ _ Hi)) as Hdead.
  assert (Hin : (d, row) ∈ entries (q_dead q)) by (rewrite Hl; left).
  destruct (dlq_only _ _ (inv_dlq _ _ _ Hi) d row Hin) as (j' & Hd & Hrow).
  apply dead_row_job in Hrow. assert (j' = j) as -> by congruence.
  assert (Hst : q_state j q = Some "DEAD"%string) by apply Hd.
  apply wp_bind. apply alone_script. intros x v' Hx.
  change (lua_of S_requeue _ _) with
    (requeue_lua (Keys.dead K) (Keys.stream K) (Keys.done K j) (Keys.stats K) j) in Hx.
  eapply wp_runs in Hx; [|apply (requeue_refines K G T v q j); try done].
  2: { intros _. destruct Hd as (_ & Hd & _). by eexists. }
  cbn beta in Hx. destruct Hx as (i & Hf & Hr' & ->).
  pose proof (inv_requeue j i q A D Hi Hf) as Hi'.
  destruct (undead_step j q A D Hi Hst) as (d' & Hd' & _).
  assert (d' = d) as -> by by eapply dead_at_inj.
  revert Hr' Hi'. unfold q_requeue. rewrite decide_True by done.
  change (q_rec j q) with (rec_of (q_done q) j).
  pose proof Hd as (_ & Hdid & Hd1 & Hd2). rewrite Hdid. cbn [mbind option_bind].
  rewrite eid_of_str_of_eid by done.
  rewrite (fields_at_unique _ _ _ _ Hids Hin), decide_False by done.
  cbn [fst snd of_reply]. intros Hr' Hi'. apply wp_ret. split; [done|].
  split. eexists _, A, D. split; [exact Hr'|]. split; [exact Hi'|].
  unfold undead. change (q_rec j (q_add i (strip_dlq row) q)) with (rec_of (q_done q) j).
  rewrite Hdid. cbn [mbind option_bind]. rewrite eid_of_str_of_eid by done. cbn.
  rewrite Hl in *. split; [|by rewrite fmap_app, Hes].
  destruct Hids as [Hs _ _]. apply StronglySorted_inv in Hs as [_ Hs].
  rewrite filter_cons_False by (cbn; congruence). apply filter_all.
  eapply Forall_impl; [exact Hs|]. intros e He Heq. cbn in He.
  rewrite Heq in He. by apply (eid_lt_irrefl d).
Qed.

Definition movable (e : entry) : Prop := strip_dlq e.2 <> [].

Lemma swept_job v d row l es : swept v ((d, row) :: l) es ->
  exists j, field "dlq_job_id" row = Some j.
Proof.
  intros [(q & A & D & Hr & Hi & Hl & Hes)].
  destruct (dlq_only _ _ (inv_dlq _ _ _ Hi) d row) as (j & _ & Hrow); [rewrite Hl; left|].
  exists j. by apply dead_row_job.
Qed.

(** A page. *)
Lemma page_wp page : forall rest total v es,
  swept v (page ++ rest) es -> Forall movable page ->
  awp (for_each page (fun e total =>
         j <- lift (need "dlq_job_id" e.2) ;; ok <- requeue K j ;; Ret (total + Z.b2z ok)) total) v
    (fun r v' => r = Ok (total + Z.of_nat (length page)) /\
       swept v' rest (es ++ (strip_dlq ∘ snd <$> page))).
Proof.
  induction page as [|[d row] page IH]; intros rest total v es Hs Hm.
  - apply wp_ret. cbn. rewrite Z.add_0_r, app_nil_r. done.
  - apply Forall_cons in Hm as [Hm1 Hm]. destruct (swept_job _ _ _ _ _ Hs) as [j Hj].
    cbn [for_each]. apply wp_bind. unfold need. cbn [snd]. rewrite Hj. cbn [lift bind].
    apply wp_bind. eapply wp_mono; [by eapply requeue_first|].
    intros r v1 [-> Hs1]. apply wp_ret. eapply wp_mono; [by apply IH|].
    intros r v2 [-> Hs2]. split; [f_equal; cbn [length Z.b2z]; lia|].
    by rewrite <- app_assoc in Hs2.
Qed.

Lemma swept_sorted v l es : swept v l es ->
  StronglySorted (fun a b : entry => eid_lt a.1 b.1) l.
Proof. intros [(q & A & D & _ & Hi & <- & _)]. apply (dlq_ids _ _ (inv_dlq _ _ _ Hi)). Qed.

Lemma swept_range v l es lo hi n r v' :
  swept v l es -> doc (XRANGE (Keys.dead K) lo hi (Some n)) v r v' ->
  Forall (fun e : entry => above lo e.1 /\ below hi e.1) l ->
  v' = v /\ r = Ok (take n l).
Proof.
  intros [(q & A & D & Hr & Hi & Hl & Hes)] [-> Hd] Hall. split; [done|].
  change (Keys.dead K) with (render K KDead) in Hd.
  rewrite (rep_stream K G T _ q KDead _ Hr eq_refl) in Hd. rewrite Hd, Hl.
  cbn [opt_take]. unfold in_range. by rewrite filter_all.
Qed.

(** The sweep, from a page boundary: [l] is left. *)
Lemma sweep_wp (end_ : eid) fuel : forall start total l v es,
  swept v l es -> Forall movable l ->
  Forall (fun e : entry => above start e.1 /\ below (BIncl end_) e.1) l ->
  (length l + 100 <= fuel * 100)%nat ->
  awp (loop fuel (requeue_page K end_) (start, total)) v (fun r v' =>
    r = Ok (inr (total + Z.of_nat (length l))) /\
    swept v' [] (es ++ (strip_dlq ∘ snd <$> l))).
Proof.
  induction fuel as [|fuel IH]; intros start total l v es Hs Hm Hall Hf; [cbn in Hf; lia|].
  cbn [loop requeue_page]. apply wp_bind, wp_bind. apply alone_cmd. intros r v' Hd.
  destruct (swept_range _ _ _ _ _ _ _ _ Hs Hd Hall) as [-> ->]. cbn [of_reply].
  destruct (last (take _PAGE l)) as [z|] eqn:Hlast.
  2: { apply last_None in Hlast. destruct l as [|e l]; [|done]. do 2 apply wp_ret.
       cbn. by rewrite Z.add_0_r, app_nil_r. }
  rewrite <- (take_drop _PAGE l) in Hs, Hm. apply Forall_app in Hm as [Hm1 Hm2].
  apply wp_bind. eapply wp_mono; [by apply page_wp|]. intros r v1 [-> Hs1].
  apply wp_ret. apply last_Some in Hlast as [page' Hp].
  eapply wp_mono; [apply (IH (BExcl z.1)); [exact Hs1|done| |]|].
  - pose proof (swept_sorted _ _ _ Hs) as Hsort. rewrite Hp, <- app_assoc in Hsort.
    apply StronglySorted_app_1_r in Hsort. cbn in Hsort.
    apply StronglySorted_inv in Hsort as [_ Hz].
    rewrite <- (take_drop _PAGE l) in Hall. apply Forall_app in Hall as [_ Hall].
    rewrite Forall_forall in *. intros e He. split; [by apply Hz|by apply Hall].
  - assert (length l <> O) by (destruct l; [by destruct page'|done]).
    rewrite length_drop. unfold _PAGE. lia.
  - intros r v2 [-> Hs2]. split.
    + do 2 f_equal. rewrite <- (take_drop _PAGE l) at 3. rewrite length_app. lia.
    + rewrite <- app_assoc, <- fmap_app, take_drop in Hs2. exact Hs2.
Qed.
End Sweep.


Definition sweep : py unit unit ((bound * Z) + Z) := requeue_all k0 2.
Definition demo_sweep : result exn ((bound * Z) + Z) * rview :=
  run (ref_alone (S := unit) (Tk := unit) tt) sweep (s_view state3).

Lemma demo_sweep_runs : runs alone sweep (s_view state3) demo_sweep.1 demo_sweep.2.
Proof.
  exact (runs_run alone (fun v => v) (ref_alone tt) (ref_alone_ok tt) sweep (s_view state3)).
Qed.

