(* ===== verification/Builtin.v ===== *)
(** The built-in handlers keep what the worker asks of handlers: they send only ledger
    requests, do not reach into the worker, and their effects have keys of their own. *)
From stdpp Require Import relations.
From S2P Require Import Prelude Effects Redis Keys LuaScripts Fields RedisRef Demo.
From S2P Require Import Json.
From S2P Require Import Py Models Config Transitions Registry Reaper Handlers.
From S2P Require Import World Metrics Worker Legal Coroutines Host.

#[local] Open Scope string_scope.
#[local] Open Scope list_scope.
#[local] Open Scope Z_scope.

(** The effect keys' prefixes. *)
Definition prefixes : list string := ["send_email:"; "flaky:"; "slow:"; "hang:"].

Lemma own_key_inj p p' ctx ctx' : p ∈ prefixes -> p' ∈ prefixes ->
  own_key p ctx = own_key p' ctx' -> p = p' /\ job_id (ctx_job ctx) = job_id (ctx_job ctx').
Proof.
  unfold prefixes, own_key. intros Hp Hp'.
  rewrite !elem_of_cons, elem_of_nil in Hp, Hp'.
  destruct Hp as [->|[->|[->|[->|[]]]]], Hp' as [->|[->|[->|[->|[]]]]]; cbn;
    intros Heq; by simplify_eq.
Qed.


