(* ===== verification/Tables.v ===== *)
(** Python's numbers and tables, for the code that computes with them: exact rationals
    for floats, [round], dictionaries in insertion order and [collections.Counter].

    A float is the rational it stands for, so a result is exact where the machine would
    round to 53 bits. *)
From S2P Require Import Prelude.
From Stdlib Require Import Qcanon Lqa.

#[local] Open Scope list_scope.
#[local] Open Scope Z_scope.

(** ** [round(x)] and [round(x, n)]: to the nearest, halves to even *)
Definition round (q : Q) : Z :=
  let f := Qfloor q in
  let r := (q - inject_Z f)%Q in
  match (r ?= 1 # 2)%Q with
  | Lt => f
  | Gt => f + 1
  | Eq => if Z.even f then f else f + 1
  end.

Definition round_to (n : positive) (q : Q) : Q :=
  Qred (round (q * inject_Z (10 ^ Zpos n)) # Z.to_pos (10 ^ Zpos n)).

Lemma Qfloor_frac q : (0 <= q - inject_Z (Qfloor q) < 1)%Q.
Proof.
  pose proof (Qfloor_le q). pose proof (Qlt_floor q) as Hl.
  rewrite inject_Z_plus in Hl. change (inject_Z 1) with 1%Q in Hl. lra.
Qed.

Lemma round_near q : (q - (1 # 2) <= inject_Z (round q) <= q + (1 # 2))%Q.
Proof.
  unfold round. pose proof (Qfloor_frac q).
  destruct (Qcompare_spec (q - inject_Z (Qfloor q)) (1 # 2)); [destruct (Z.even _)|..];
    rewrite ?inject_Z_plus; change (inject_Z 1) with 1%Q; lra.
Qed.

Lemma round_mono a b : (a <= b)%Q -> round a <= round b.
Proof.
  intros Hab. destruct (Z.le_gt_cases (round a) (round b)) as [|Hlt]; [done|].
  pose proof (round_near a). pose proof (round_near b).
  assert (Hr : (inject_Z (round b) + 1 <= inject_Z (round a))%Q).
  { change 1%Q with (inject_Z 1). rewrite <- inject_Z_plus, <- Zle_Qle. lia. }
  assert (a == b)%Q as Heq by (apply Qle_antisym; [done|lra]). exfalso.
  assert (round a = round b); [|lia]. unfold round. rewrite (Qfloor_comp _ _ Heq).
  assert (a - inject_Z (Qfloor b) == b - inject_Z (Qfloor b))%Q as Hd by lra.
  by rewrite (Qcompare_comp _ _ Hd _ _ (Qeq_refl (1 # 2))).
Qed.

Lemma round_to_near n q : let e := (1 # Z.to_pos (10 ^ Zpos n))%Q in
  (q - (1 # 2) * e <= round_to n q <= q + (1 # 2) * e)%Q.
Proof.
  cbv zeta. unfold round_to. rewrite Qred_correct. set (p := Z.to_pos (10 ^ Zpos n)).
  assert (Hp : inject_Z (10 ^ Zpos n) = inject_Z (Zpos p)).
  { unfold p. rewrite Z2Pos.id; [done|]. apply Z.pow_pos_nonneg; lia. }
  rewrite Hp. pose proof (round_near (q * inject_Z (Zpos p))) as [H1 H2].
  assert (He : forall z, (z # p == inject_Z z * (1 # p))%Q).
  { intros z. unfold Qeq, inject_Z. cbn. lia. }
  rewrite (He (round _)). set (r := inject_Z (round _)) in *.
  assert (Hi : (inject_Z (Zpos p) * (1 # p) == 1)%Q) by (unfold Qeq, inject_Z; cbn; lia).
  assert (Hpos : (0 <= 1 # p)%Q) by done.
  set (P := inject_Z (Zpos p)) in *. set (e := (1 # p)%Q) in *.
  pose proof (Qmult_le_compat_r _ _ _ H1 Hpos). pose proof (Qmult_le_compat_r _ _ _ H2 Hpos).
  assert (Hq : (q * P * e == q)%Q) by (rewrite <- Qmult_assoc, Hi; apply Qmult_1_r).
  lra.
Qed.

(** ** int and float *)
(** Python's [N: (int, float)]. *)
Class Number (N : Type) := {
  num_eq :: EqDecision N;
  num_le : relation N;
  num_le_dec :: RelDecision num_le;
  num_le_trans :: Transitive num_le;
  num_le_total :: Total num_le;
  num_le_antisym :: AntiSymm eq num_le;
  to_Q : N -> Q;
  to_Q_le a b : num_le a b <-> (to_Q a <= to_Q b)%Q;
}.

#[export] Program Instance number_Z : Number Z := {| num_le := Z.le; to_Q := inject_Z |}.
Next Obligation. by rewrite <- Zle_Qle. Qed.

#[export] Instance number_Qc : Number Qc :=
  {| num_le := Qcle; to_Q := this; to_Q_le a b := iff_refl _ |}.

(** ** Dictionaries *)
Section Dict.
Context {K : Type} `{EqDecision K}.

(** [d.get(k, default)] *)
Fixpoint get {V} (d : list (K * V)) (k : K) (default : V) : V :=
  match d with
  | [] => default
  | (k', v) :: r => if decide (k' = k) then v else get r k default
  end.

(** [d[k] = v] *)
Fixpoint put {V} (d : list (K * V)) (k : K) (v : V) : list (K * V) :=
  match d with
  | [] => [(k, v)]
  | (k', v') :: r => if decide (k' = k) then (k', v) :: r else (k', v') :: put r k v
  end.

(** [c[k] += n] on a Counter *)
Definition bump (c : list (K * Z)) (k : K) (n : Z) : list (K * Z) := put c k (get c k 0 + n).

(** [Counter(l)], [c.update(d)] *)
Definition Counter (l : list K) : list (K * Z) := foldl (fun c k => bump c k 1) [] l.
Definition update (c d : list (K * Z)) : list (K * Z) :=
  foldl (fun c e => bump c e.1 e.2) c d.

(** [sum(n for k, n in c.items() if p(k))] *)
Fixpoint weight (p : K -> bool) (c : list (K * Z)) : Z :=
  match c with
  | [] => 0
  | (k, n) :: r => (if p k then n else 0) + weight p r
  end.

Lemma put_keys {V} (d : list (K * V)) k v x : x ∈ (put d k v).*1 <-> x = k \/ x ∈ d.*1.
Proof.
  induction d as [|[k' v'] d IH]; cbn; [rewrite elem_of_cons, elem_of_nil; tauto|].
  case_decide; subst; cbn; rewrite !elem_of_cons; [tauto|]. rewrite IH. tauto.
Qed.

Lemma put_nodup {V} (d : list (K * V)) k v : NoDup d.*1 -> NoDup (put d k v).*1.
Proof.
  induction d as [|[k' v'] d IH]; cbn; [intros; apply NoDup_singleton|].
  intros [Hn Hd]%NoDup_cons. case_decide as Hk; cbn; [by constructor|].
  constructor; [|by apply IH]. rewrite put_keys. intros [->|?]; done.
Qed.

Lemma get_put {V} (d : list (K * V)) k v x dft :
  get (put d k v) x dft = if decide (x = k) then v else get d x dft.
Proof.
  induction d as [|[k' v'] d IH]; cbn; [repeat case_decide; congruence|].
  destruct (decide (k' = k)) as [->|Hk]; cbn; [repeat case_decide; congruence|].
  rewrite IH. repeat case_decide; congruence.
Qed.

Lemma get_out {V} (d : list (K * V)) k dft : k ∉ d.*1 -> get d k dft = dft.
Proof.
  induction d as [|[k' v'] d IH]; [done|]. cbn. rewrite elem_of_cons.
  case_decide; subst; intros Hn; [|apply IH]; tauto.
Qed.

Lemma get_in {V} (d : list (K * V)) k v dft : NoDup d.*1 -> (k, v) ∈ d -> get d k dft = v.
Proof.
  induction d as [|[k' v'] d IH]; cbn; [by rewrite elem_of_nil|].
  intros [Hn Hd]%NoDup_cons [Heq|Hin]%elem_of_cons; [by simplify_eq; case_decide|].
  case_decide as Hk; [|by apply IH]. subst. destruct Hn.
  by apply (list_elem_of_fmap_2 fst) in Hin.
Qed.

Lemma get_bump c k n x : get (bump c k n) x 0 = get c x 0 + (if decide (x = k) then n else 0).
Proof. unfold bump. rewrite get_put. case_decide; subst; lia. Qed.

Lemma bump_nodup c k n : NoDup c.*1 -> NoDup (bump c k n).*1.
Proof. apply put_nodup. Qed.

Lemma weight_bump p c k n :
  weight p (bump c k n) = weight p c + (if p k then n else 0).
Proof.
  unfold bump. induction c as [|[k' m] c IH]; cbn; [destruct (p k); lia|].
  case_decide as Hk; cbn; [subst; destruct (p k); lia|]. rewrite IH. lia.
Qed.

Lemma weight_update p d : forall c, weight p (update c d) = weight p c + weight p d.
Proof.
  induction d as [|[k n] d IH]; intros c; cbn; [lia|].
  unfold update in *. cbn. rewrite IH, weight_bump. cbn. lia.
Qed.

Lemma update_nodup d : forall c, NoDup c.*1 -> NoDup (update c d).*1.
Proof.
  induction d as [|[k n] d IH]; intros c Hc; [done|]. unfold update in *. cbn.
  by apply IH, bump_nodup.
Qed.

Lemma weight_perm p c d : c ≡ₚ d -> weight p c = weight p d.
Proof.
  induction 1 as [|[k n] c d _ IH|[k n] [k' n'] c|c d e _ IH1 _ IH2]; cbn; lia.
Qed.

Lemma weight_mono p p' c : Forall (fun e : K * Z => 0 <= e.2) c ->
  (forall k, p k = true -> p' k = true) -> weight p c <= weight p' c.
Proof.
  intros Hc Hp. induction Hc as [|[k n] c Hn Hc IH]; cbn in *; [lia|].
  specialize (Hp k). destruct (p k); [rewrite Hp by done|destruct (p' k)]; lia.
Qed.

(** A Counter of [l]: what occurs, how often. *)
Lemma foldl_count l : forall c,
  (forall x, get (foldl (fun c k => bump c k 1) c l) x 0 =
     get c x 0 + Z.of_nat (length (filter (fun y => y = x) l))) /\
  (NoDup c.*1 -> NoDup (foldl (fun c k => bump c k 1) c l).*1) /\
  (forall x, x ∈ (foldl (fun c k => bump c k 1) c l).*1 <-> x ∈ l \/ x ∈ c.*1).
Proof.
  induction l as [|y l IH]; intros c; cbn [foldl].
  - split; [intros x; cbn; lia|]. split; [done|]. intros x. rewrite elem_of_nil; tauto.
  - destruct (IH (bump c y 1)) as (H1 & H2 & H3). split; [|split].
    + intros x. rewrite H1, get_bump, filter_cons.
      repeat case_decide; subst; cbn [length]; try congruence; lia.
    + intros Hc. by apply H2, bump_nodup.
    + intros x. rewrite H3. unfold bump. rewrite put_keys, elem_of_cons. tauto.
Qed.

Lemma Counter_get l x : get (Counter l) x 0 = Z.of_nat (length (filter (fun y => y = x) l)).
Proof. unfold Counter. by rewrite (proj1 (foldl_count l [])). Qed.
Lemma Counter_nodup l : NoDup (Counter l).*1.
Proof. apply (foldl_count l []), NoDup_nil_2. Qed.
Lemma Counter_keys l x : x ∈ (Counter l).*1 <-> x ∈ l.
Proof. unfold Counter. rewrite (proj2 (proj2 (foldl_count l []))), elem_of_nil. tauto. Qed.

(** The weight of some keys, key by key. *)
Fixpoint mass (c : list (K * Z)) (l : list K) : Z :=
  match l with [] => 0 | k :: r => get c k 0 + mass c r end.

#[export] Instance mass_perm c : Proper ((≡ₚ) ==> eq) (mass c).
Proof. intros l l' Hl. induction Hl; cbn in *; lia. Qed.

Lemma mass_app c l l' : mass c (l ++ l') = mass c l + mass c l'.
Proof. induction l as [|k l IH]; cbn; lia. Qed.

Lemma mass_cons_out k n c l : k ∉ l -> mass ((k, n) :: c) l = mass c l.
Proof.
  induction l as [|x l IH]; [done|]. rewrite elem_of_cons. intros Hk. cbn.
  rewrite decide_False by (intros ->; tauto). rewrite IH by tauto. done.
Qed.

Lemma weight_mass p c : NoDup c.*1 -> weight p c = mass c (filter (fun k => p k = true) c.*1).
Proof.
  induction c as [|[k n] c IH]; [done|]. cbn [fmap list_fmap]. intros [Hk Hc]%NoDup_cons.
  rewrite filter_cons. cbn [weight fst].
  assert (Hout : k ∉ filter (fun k => p k = true) c.*1).
  { intros Hin. apply list_elem_of_filter in Hin. tauto. }
  case_decide as Hp.
  - rewrite Hp. cbn [mass get]. rewrite decide_True by done.
    rewrite mass_cons_out, IH by done. done.
  - rewrite mass_cons_out, IH by done. apply not_true_is_false in Hp. rewrite Hp. lia.
Qed.

(** [[k for k, n in c.items() for _ in range(n)]] *)
Definition expand (c : list (K * Z)) : list K := c ≫= fun e => replicate (Z.to_nat e.2) e.1.

Lemma expand_length (c : list (K * Z)) : Forall (fun e : K * Z => 0 <= e.2) c ->
  Z.of_nat (length (expand c)) = weight (fun _ => true) c.
Proof.
  intros Hc. induction Hc as [|[k n] c Hn _ IH]; [done|]. cbn in *.
  rewrite length_app, length_replicate. unfold expand in IH. lia.
Qed.

Lemma replicate_count (k x : K) (n : nat) :
  length (filter (fun y => y = x) (replicate n k)) = if decide (k = x) then n else O.
Proof.
  induction n as [|n IH]; [by case_decide|]. cbn [replicate]. rewrite filter_cons.
  destruct (decide (k = x)); cbn [length]; by rewrite IH.
Qed.

Lemma expand_count (c : list (K * Z)) (x : K) : NoDup c.*1 -> Forall (fun e : K * Z => 0 <= e.2) c ->
  Z.of_nat (length (filter (fun y => y = x) (expand c))) = get c x 0.
Proof.
  intros Hnd Hc. induction Hc as [|[k n] c Hn _ IH]; [done|].
  cbn [fmap list_fmap] in Hnd. apply NoDup_cons in Hnd as [Hk Hnd]. cbn in Hn, Hk |- *.
  rewrite filter_app, length_app, replicate_count, Nat2Z.inj_add.
  unfold expand in IH. rewrite IH by done. case_decide as Hx; [subst; rewrite get_out by done|]; lia.
Qed.

Lemma count_fmap {A} (f : A -> K) (x : K) (l : list A) :
  length (filter (fun y => y = x) (f <$> l)) = length (filter (fun e => f e = x) l).
Proof.
  induction l as [|a l IH]; [done|]. cbn [fmap list_fmap]. rewrite !filter_cons.
  repeat case_decide; cbn [length]; congruence.
Qed.

Lemma expand_in (c : list (K * Z)) (x : K) : x ∈ expand c -> x ∈ c.*1.
Proof.
  unfold expand. intros (e & Hx & He)%list_elem_of_bind. apply elem_of_replicate in Hx as [-> _].
  by apply list_elem_of_fmap_2.
Qed.
End Dict.

(** [dict(sorted(d.items()))] *)
Section Sorted.
Context {N : Type} `{Number N}.

Definition key_le {V} (a b : N * V) : Prop := num_le a.1 b.1.
#[export] Instance key_le_dec {V} : RelDecision (@key_le V).
Proof. intros a b. unfold key_le. apply _. Defined.
#[export] Instance key_le_total {V} : Total (@key_le V).
Proof. intros a b. apply (total num_le). Qed.

Definition sorted_items {V} (d : list (N * V)) : list (N * V) := merge_sort key_le d.
Definition sorted (l : list N) : list N := merge_sort num_le l.

Lemma sorted_items_perm {V} (d : list (N * V)) : sorted_items d ≡ₚ d.
Proof. apply merge_sort_Permutation. Qed.
Lemma sorted_perm l : sorted l ≡ₚ l.
Proof. apply merge_sort_Permutation. Qed.
Lemma sorted_sorted l : StronglySorted num_le (sorted l).
Proof. apply StronglySorted_merge_sort; apply _. Qed.
End Sorted.

(** [statistics.median] *)
Definition median (l : list Q) : Q :=
  let s := sorted (Q2Qc <$> l) in
  let n := length s in
  let nth_of (i : nat) : Q := nth i s 0%Qc in
  if Nat.odd n then nth_of (n / 2)%nat
  else ((nth_of (n / 2 - 1)%nat + nth_of (n / 2)%nat) / 2)%Q.
