(* ===== verification/Analysis.v ===== *)
(** The benchmark's arithmetic (bench/analysis.py): windows, rates, nearest-rank
    percentiles, histograms, CPU fractions. *)
From S2P Require Import Prelude Effects Redis LuaScripts Py Tables.
From Stdlib Require Import Qcanon Lqa.

#[local] Open Scope list_scope.
#[local] Open Scope Z_scope.

Definition PERCENTILES : list Q := [50; 95; 99; 999 # 10]%Q.

(** ** Windows *)
Module Window.
Record t := mk { start_ms : Z; end_ms : Z }.

Definition of_run (t0_ms : Z) (warmup_s measure_s : Q) : t :=
  let start := t0_ms + round (warmup_s * 1000) in
  mk start (start + round (measure_s * 1000)).

Definition seconds (w : t) : Q := inject_Z (end_ms w - start_ms w) / 1000.

Definition contains (w : t) (t_ms : Q) : bool :=
  Qle_bool (inject_Z (start_ms w)) t_ms && Qlt_bool t_ms (inject_Z (end_ms w)).
End Window.

(** [a / b] *)
Definition div (a b : Q) : result exn Q :=
  if Qeq_bool b 0 then Err ZeroDivisionError else Ok (a / b)%Q.

Definition rate_in (window : Window.t) (times_ms : list Z) : result exn Q :=
  div (inject_Z (Z.of_nat (length
         (filter (fun t => Window.contains window (inject_Z t) = true) times_ms))))
      (Window.seconds window).

(** ** Percentiles *)
Section Histograms.
Context {N : Type} `{Number N}.

Definition total_of (hist : list (N * Z)) : Z := weight (fun _ => true) hist.

(** The search for the first value whose running count reaches [rank]. *)
Fixpoint reach (hist : list (N * Z)) (rank : Z) (values : list N) (seen : Z) : result exn N :=
  match values with
  | [] => Err AssertionError
  | v :: r => let seen := seen + get hist v 0 in
              if rank <=? seen then Ok v else reach hist rank r seen
  end.

Definition percentile (hist : list (N * Z)) (q : Q) : result exn N :=
  if decide (total_of hist = 0) then Err (ValueError "percentile of an empty histogram") else
  if negb (Qlt_bool 0 q && Qle_bool q 100) then Err (ValueError "q must be in (0, 100]") else
  reach hist (Qceiling (q / 100 * inject_Z (total_of hist))) (sorted hist.*1) 0.

Fixpoint percentiles (hist : list (N * Z)) (qs : list Q) : result exn (list (Q * N)) :=
  match qs with
  | [] => Ok []
  | q :: r => v <-! percentile hist q ;; vs <-! percentiles hist r ;; Ok ((q, v) :: vs)
  end.

(** [max(hist)] *)
Definition max_key (hist : list (N * Z)) : result exn N :=
  match last (sorted hist.*1) with
  | Some v => Ok v
  | None => Err (ValueError "max() iterable argument is empty")
  end.

Record Summary := mk_Summary {
  count : Z; mean : Q; max : N; at_percentile : list (Q * N) }.

(** [None] is [{"count": 0}]. *)
Definition summarize (hist : list (N * Z)) : result exn (option Summary) :=
  let n := total_of hist in
  if decide (n = 0) then Ok None else
  m <-! max_key hist ;;
  ps <-! percentiles hist PERCENTILES ;;
  let sum := foldr (fun e s => (to_Q e.1 * inject_Z e.2 + s)%Q) 0%Q hist in
  Ok (Some (mk_Summary n (round_to 3 (sum / inject_Z n)) m ps)).

Definition merge (hists : list (list (N * Z))) : list (N * Z) :=
  sorted_items (foldl update [] hists).
End Histograms.

(** ** Histograms of measured values *)
Definition edge (v bucket : Q) : result exn Qc :=
  x <-! div v bucket ;;
  Ok (Q2Qc (round_to 6 (inject_Z (Qceiling (x - (1 # 1000000000))) * bucket))).

Fixpoint edges (values : list Q) (bucket : Q) : result exn (list Qc) :=
  match values with
  | [] => Ok []
  | v :: r => e <-! edge v bucket ;; es <-! edges r bucket ;; Ok (e :: es)
  end.

Definition histogram (values : list Q) (bucket : Q) : result exn (list (Qc * Z)) :=
  es <-! edges values bucket ;; Ok (sorted_items (Counter es)).

(** ** Cumulative counters *)
Fixpoint pairwise {A} (l : list A) : list (A * A) :=
  match l with
  | a :: (b :: _) as r => (a, b) :: pairwise r
  | _ => []
  end.

Fixpoint interpolate (pairs : list ((Q * Q) * (Q * Q))) (t default : Q) : Q :=
  match pairs with
  | [] => default
  | ((t0, v0), (t1, v1)) :: r =>
      if Qle_bool t0 t && Qle_bool t t1 then
        if Qeq_bool t1 t0 then v0 else (v0 + (v1 - v0) * (t - t0) / (t1 - t0))%Q
      else interpolate r t default
  end.

Definition value_at (samples : list (Q * Q)) (t : Q) : result exn Q :=
  match samples, last samples with
  | (t0, v0) :: _, Some (_, vn) =>
      if Qle_bool t t0 then Ok v0 else Ok (interpolate (pairwise samples) t vn)
  | _, _ => Err (ValueError "no samples")
  end.

Definition busy_fraction (samples : list (Q * Q)) (window : Window.t) : result exn (option Q) :=
  let s := inject_Z (Window.start_ms window) in
  let e := inject_Z (Window.end_ms window) in
  match samples, last samples with
  | (t0, _) :: _ :: _, Some (tn, _) =>
      if Qlt_bool s t0 || Qlt_bool tn e then Ok None else
      b <-! value_at samples e ;; a <-! value_at samples s ;;
      f <-! div (b - a) (Window.seconds window) ;;
      Ok (Some (round_to 3 f))
  | _, _ => Ok None
  end.

(** ** What a percentile is *)
Section Rank.
Context {N : Type} `{Number N}.

(** The samples at or below [v]. *)
Definition at_most (hist : list (N * Z)) (v : N) : Z :=
  weight (fun k => bool_decide (num_le k v)) hist.

(** [v] is the smallest value with at least q% of the samples at or below it. *)
Record nearest_rank (hist : list (N * Z)) (q : Q) (v : N) : Prop := {
  nr_sample : 0 < get hist v 0;
  nr_reached : (q / 100 * inject_Z (total_of hist) <= inject_Z (at_most hist v))%Q;
  nr_first : forall w, ~ num_le v w -> (inject_Z (at_most hist w) < q / 100 * inject_Z (total_of hist))%Q;
}.

Definition counts_ok (hist : list (N * Z)) : Prop :=
  NoDup hist.*1 /\ Forall (fun e => 0 <= e.2) hist.

Lemma mass_nonneg (hist : list (N * Z)) (l : list N) : counts_ok hist -> 0 <= mass hist l.
Proof.
  intros [Hnd Hc]. induction l as [|k l IH]; cbn; [done|].
  destruct (decide (k ∈ hist.*1)) as [Hk|Hk]; [|by rewrite get_out].
  apply list_elem_of_fmap in Hk as ([k' n] & -> & Hin).
  rewrite (get_in _ _ _ _ Hnd Hin). rewrite Forall_forall in Hc. apply Hc in Hin. cbn in *. lia.
Qed.

Lemma mass_sub (hist : list (N * Z)) (l l' : list N) :
  counts_ok hist -> NoDup l -> l ⊆ l' -> mass hist l <= mass hist l'.
Proof.
  intros Hok Hnd Hsub. destruct (submseteq_Permutation l l') as [k ->].
  { by apply NoDup_submseteq. }
  rewrite mass_app. pose proof (mass_nonneg hist k Hok). lia.
Qed.

Lemma num_refl (v : N) : num_le v v.
Proof. by destruct (total num_le v v). Qed.

Lemma filter_sorted_le (l1 l2 : list N) (v w : N) :
  StronglySorted num_le (l1 ++ v :: l2) -> NoDup (l1 ++ v :: l2) ->
  (w = v -> filter (fun k => bool_decide (num_le k w) = true) (l1 ++ v :: l2) = l1 ++ [v]) /\
  (~ num_le v w -> filter (fun k => bool_decide (num_le k w) = true) (l1 ++ v :: l2) ⊆ l1).
Proof.
  intros Hs Hnd. pose proof (StronglySorted_app_1_r _ _ _ Hs) as Hs2.
  apply StronglySorted_inv in Hs2 as [_ Hv]. rewrite Forall_forall in Hv. split.
  - intros ->. rewrite filter_app, filter_cons_True by (apply bool_decide_eq_true, num_refl).
    assert (Hl2 : filter (fun k => bool_decide (num_le k v) = true) l2 = []).
    { apply elem_of_nil_inv. intros k Hk. apply list_elem_of_filter in Hk as [Hk Hin].
      apply bool_decide_eq_true in Hk. specialize (Hv k Hin).
      assert (k = v) as -> by (by apply (anti_symm num_le)).
      apply NoDup_app in Hnd as (_ & _ & Hnd). apply NoDup_cons in Hnd. tauto. }
    rewrite Hl2. f_equal. apply filter_all. rewrite Forall_forall. intros k Hk.
    apply bool_decide_eq_true. apply StronglySorted_app in Hs as (Hs & _).
    apply (Hs k v); [done|left].
  - intros Hn k Hk. apply list_elem_of_filter in Hk as [Hk Hin]. apply bool_decide_eq_true in Hk.
    apply elem_of_app in Hin as [|[->|Hin]%elem_of_cons]; [done|done|].
    destruct Hn. etrans; [by apply Hv|done].
Qed.

Lemma at_most_mass (hist : list (N * Z)) (w : N) : counts_ok hist ->
  at_most hist w = mass hist (filter (fun k => bool_decide (num_le k w) = true) (sorted hist.*1)).
Proof.
  intros [Hnd _]. unfold at_most. rewrite weight_mass by done.
  by rewrite sorted_perm.
Qed.

Lemma total_mass (hist : list (N * Z)) : counts_ok hist -> total_of hist = mass hist (sorted hist.*1).
Proof.
  intros [Hnd _]. unfold total_of. rewrite weight_mass, sorted_perm by done.
  rewrite filter_all; [done|]. by rewrite Forall_forall.
Qed.

(** The search stops at the first prefix that weighs enough. *)
Lemma reach_found (hist : list (N * Z)) (rank : Z) (l : list N) : forall seen, seen < rank <= seen + mass hist l ->
  exists l1 v l2, l = l1 ++ v :: l2 /\ reach hist rank l seen = Ok v /\
    seen + mass hist l1 < rank <= seen + mass hist l1 + get hist v 0.
Proof.
  induction l as [|v l IH]; intros seen Hr; cbn in Hr; [lia|]. cbn [reach].
  destruct (Z.leb_spec rank (seen + get hist v 0)) as [Hle|Hgt].
  - exists [], v, l. cbn. split; [done|]. split; [done|]. lia.
  - destruct (IH (seen + get hist v 0)) as (l1 & w & l2 & -> & Hw & Hb); [lia|].
    exists (v :: l1), w, l2. split; [done|]. split; [done|]. cbn. lia.
Qed.

Lemma nearest_rank_unique (hist : list (N * Z)) (q : Q) (v w : N) :
  nearest_rank hist q v -> nearest_rank hist q w -> v = w.
Proof.
  intros Hv Hw. apply (anti_symm num_le).
  - destruct (decide (num_le v w)) as [|Hn]; [done|].
    pose proof (nr_first _ _ _ Hv w Hn). pose proof (nr_reached _ _ _ Hw). lra.
  - destruct (decide (num_le w v)) as [|Hn]; [done|].
    pose proof (nr_first _ _ _ Hw v Hn). pose proof (nr_reached _ _ _ Hv). lra.
Qed.

Lemma percentile_found (hist : list (N * Z)) (q : Q) : counts_ok hist -> 0 < total_of hist -> (0 < q <= 100)%Q ->
  exists v, percentile hist q = Ok v /\ nearest_rank hist q v.
Proof.
  intros Hok Ht [Hq1 Hq2]. unfold percentile. rewrite decide_False by lia.
  rewrite (proj2 (Qlt_bool_iff 0 q)), (proj2 (Qle_bool_iff q 100)) by done. cbn [negb andb].
  set (x := (q / 100 * inject_Z (total_of hist))%Q). set (rank := Qceiling x).
  assert (Hx : (0 < x <= inject_Z (total_of hist))%Q).
  { assert (0 < inject_Z (total_of hist))%Q by (change 0%Q with (inject_Z 0); by rewrite <- Zlt_Qlt).
    unfold x, Qdiv. change (/ 100)%Q with (1 # 100)%Q. split; nra. }
  assert (Hrank : 0 < rank <= total_of hist).
  { pose proof (Qle_ceiling x) as H1. pose proof (Qceiling_lt x) as H2. fold rank in H1, H2.
    rewrite Zlt_Qlt. change (inject_Z 0) with 0%Q. split; [lra|].
    assert (Hlt : (inject_Z (rank - 1) < inject_Z (total_of hist))%Q) by lra.
    rewrite <- Zlt_Qlt in Hlt. lia. }
  rewrite total_mass in Hrank by done.
  destruct (reach_found hist rank (sorted hist.*1) 0) as (l1 & v & l2 & Hl & Hv & Hb); [lia|].
  exists v. split; [exact Hv|].
  pose proof (sorted_sorted hist.*1) as Hs. assert (Hnd : NoDup (sorted hist.*1)).
  { rewrite sorted_perm. apply Hok. }
  rewrite Hl in Hs, Hnd. split.
  - lia.
  - rewrite at_most_mass, Hl, (proj1 (filter_sorted_le l1 l2 v v Hs Hnd) eq_refl) by done.
    rewrite mass_app. cbn [mass]. fold x. pose proof (Qle_ceiling x) as H1. fold rank in H1.
    assert (H2 : (inject_Z rank <= inject_Z (mass hist l1 + (get hist v 0 + 0))%Z)%Q); [|lra].
    rewrite <- Zle_Qle. lia.
  - intros w Hw. fold x. pose proof (Qceiling_lt x) as H2. fold rank in H2.
    assert (Hm : at_most hist w <= mass hist l1).
    { rewrite at_most_mass, Hl by done.
      destruct (filter_sorted_le l1 l2 v w Hs Hnd) as [_ Hsub]. specialize (Hsub Hw).
      apply mass_sub; [done| |done]. by apply NoDup_filter. }
    assert (H3 : (inject_Z (at_most hist w) <= inject_Z (rank - 1))%Q) by (rewrite <- Zle_Qle; lia).
    lra.
Qed.

Lemma weight_merge p (hs : list (list (N * Z))) : forall c,
  weight p (foldl update c hs) = weight p c + foldr (fun h s => weight p h + s) 0 hs.
Proof.
  induction hs as [|h hs IH]; intros c; cbn; [lia|]. rewrite IH, weight_update. lia.
Qed.
End Rank.

(** A percentile is the nearest rank. Of a table of counts with a sample in it and
    0 < q <= 100, [percentile] returns a value, and it is the smallest one with at
    least q percent of the samples at or below it, itself a sample; an empty table or
    another q is a ValueError, and the assertion at the end of the search never fires.
    Merging tables pools their samples, so the percentile of a merge is the percentile
    of all the samples together. *)
Theorem percentile_nearest_rank {N : Type} `{Number N} (hist : list (N * Z)) (q : Q)
    (hs : list (list (N * Z))) :
  NoDup hist.*1 -> Forall (fun e => 0 <= e.2) hist ->
  (forall v, percentile hist q = Ok v <->
     0 < total_of hist /\ (0 < q <= 100)%Q /\ nearest_rank hist q v) /\
  (forall e, percentile hist q = Err e ->
     (exists m, e = ValueError m) /\ ~ (0 < total_of hist /\ (0 < q <= 100)%Q)) /\
  (forall v, at_most (merge hs) v = foldr (fun h s => at_most h v + s) 0 hs).
Proof.
  intros Hnd Hc. pose proof (conj Hnd Hc) as Hok.
  assert (Ht : 0 <= total_of hist).
  { rewrite total_mass by done. by apply mass_nonneg. }
  assert (Hdec : (exists m, percentile hist q = Err (ValueError m) /\
    ~ (0 < total_of hist /\ (0 < q <= 100)%Q)) \/ (0 < total_of hist /\ (0 < q <= 100)%Q)).
  { unfold percentile. destruct (decide (total_of hist = 0)) as [|Hn]; [left; eexists; split; [done|lia]|].
    destruct (Qlt_bool 0 q) eqn:H1; cbn [andb negb].
    - apply Qlt_bool_iff in H1. destruct (Qle_bool q 100) eqn:H2; cbn [negb].
      + apply Qle_bool_iff in H2. right. split; [lia|done].
      + left. eexists. split; [done|]. intros (_ & _ & Hq). apply Qle_bool_iff in Hq. congruence.
    - left. eexists. split; [done|]. intros (_ & Hq & _). apply Qlt_bool_iff in Hq. congruence. }
  split; [|split].
  - intros v. split.
    + intros Hv. destruct Hdec as [(m & Hm & _)|[H1 H2]]; [congruence|].
      destruct (percentile_found hist q Hok H1 H2) as (w & Hw & Hr).
      assert (w = v) as -> by congruence. done.
    + intros (H1 & H2 & Hr). destruct (percentile_found hist q Hok H1 H2) as (w & Hw & Hr').
      rewrite Hw. f_equal. by apply (nearest_rank_unique hist q).
  - intros e He. destruct Hdec as [(m & Hm & Hn)|[H1 H2]].
    + split; [exists m; congruence|done].
    + destruct (percentile_found hist q Hok H1 H2) as (w & Hw & _). congruence.
  - intros v. unfold at_most, merge. rewrite (weight_perm _ _ _ (sorted_items_perm _)).
    by rewrite weight_merge.
Qed.

Lemma percentile_nearest_rank_witness :
  percentile [(7, 2); (3, 1); (12, 1)] 50 = Ok 7 /\
  nearest_rank [(7, 2); (3, 1); (12, 1)] 50 7.
Proof.
  destruct (percentile_nearest_rank [(7, 2); (3, 1); (12, 1)] 50 []) as (H1 & _).
  - apply (bool_decide_eq_true_1 _). vm_compute. reflexivity.
  - apply (bool_decide_eq_true_1 _). vm_compute. reflexivity.
  - assert (Hp : percentile [(7, 2); (3, 1); (12, 1)] 50 = Ok 7) by (vm_compute; reflexivity).
    split; [exact Hp|]. exact (proj2 (proj2 (proj1 (H1 7) Hp))).
Defined.

(** ** Buckets *)
(** A value's bucket ends at most a rounding error below it. *)
Lemma edge_upper (v bucket : Q) (e : Qc) : (0 < bucket)%Q -> edge v bucket = Ok e ->
  (v <= e + bucket * (1 # 1000000000) + (1 # 2000000))%Q.
Proof.
  intros Hb. unfold edge, div. destruct (Qeq_bool bucket 0) eqn:Hz.
  { apply Qeq_bool_iff in Hz. lra. }
  cbn [and_then]. intros [= <-].
  set (c := inject_Z (Qceiling (v / bucket - (1 # 1000000000)))).
  assert (Hc : (v / bucket - (1 # 1000000000) <= c)%Q) by apply Qle_ceiling.
  apply (Qmult_le_compat_r _ _ bucket) in Hc; [|lra].
  assert (Hv : (v / bucket * bucket == v)%Q) by (field; lra).
  pose proof (round_to_near 6 (c * bucket)) as [Hr _]. cbv zeta in Hr.
  change (1 # Z.to_pos (10 ^ 6))%Q with (1 # 1000000)%Q in Hr.
  cbn [this Q2Qc]. rewrite Qred_correct. fold c. lra.
Qed.

(** 0.31 lands in the bucket that ends at 0.4; but a value just above an edge is counted
    at that edge, below itself. *)
Definition shown (h : result exn (list (Qc * Z))) : result exn (list (Q * Z)) :=
  x <-! h ;; Ok ((fun e => (this e.1, e.2)) <$> x).

Lemma histogram_edge_below :
  shown (histogram [31 # 100] (1 # 10)) = Ok [((2 # 5)%Q, 1)] /\
  shown (histogram [1 # 10000000000] (1 # 10)) = Ok [(0%Q, 1)].
Proof. split; vm_compute; reflexivity. Qed.
