(* ===== verification/Random.v ===== *)
(** Python's [random.Random]: a generator's state goes through every draw. What is drawn
    is known only up to the documented range. *)
From S2P Require Import Prelude.
From S2P Require Import Json Py Models Config Transitions Registry.
From Stdlib Require Import Lqa.

#[local] Open Scope list_scope.
#[local] Open Scope Z_scope.

Class Rng (R : Type) := {
  rng_uniform : Q -> Q -> R -> Q * R;
  rng_randint : Z -> Z -> R -> Z * R;
  rng_choice : nat -> R -> nat * R;             (* the index [rng.choice] picks *)
  rng_choices : list Q -> R -> nat * R;         (* by weight, k = 1 *)
  rng_shuffle : forall {A}, list A -> R -> list A * R;
  rng_uniform_ok a b r : uniform_ok a b (rng_uniform a b r).1;
  rng_randint_ok a b r : a <= b -> a <= (rng_randint a b r).1 <= b;
  rng_choice_ok n r : (0 < n)%nat -> ((rng_choice n r).1 < n)%nat;
  rng_choices_ok ws r : ws <> [] -> ((rng_choices ws r).1 < length ws)%nat;
  rng_shuffle_ok {A} (l : list A) r : (rng_shuffle l r).1 ≡ₚ l;
}.

(** A generator that counts its draws, and picks an end of the range by their parity. *)
#[export] Program Instance counting_rng : Rng nat := {|
  rng_uniform a b r := (if Nat.even r then a else b, S r);
  rng_randint a b r := (if Nat.even r then a else b, S r);
  rng_choice n r := (if Nat.even r then O else (n - 1)%nat, S r);
  rng_choices ws r := ((r mod length ws)%nat, S r);
  rng_shuffle A l r := (if Nat.even r then l else rev l, S r);
|}.
Next Obligation. intros Hab. destruct (Nat.even r); cbn; split; lra. Qed.
Next Obligation. destruct (Nat.even r); lia. Qed.
Next Obligation. destruct (Nat.even r); lia. Qed.
Next Obligation. apply Nat.mod_upper_bound. by destruct ws. Qed.
Next Obligation. destruct (Nat.even r); [done|]. symmetry. apply Permutation_rev. Qed.
