(* ===== verification/Mix.v ===== *)
(** The chaos job mix (chaos/mix.py): which jobs a run enqueues, and how each must end.

    The text Python prints for a float is the language's: a parameter. *)
From S2P Require Import Prelude Effects Redis Keys LuaScripts Json Fields.
From S2P Require Import Py Models Config Transitions Registry Client Handlers Tables.
From S2P Require Import Random.
From Stdlib Require Import Lqa.

#[local] Open Scope string_scope.
#[local] Open Scope list_scope.
#[local] Open Scope Z_scope.

Record MixParams := mk_MixParams { lease : Q; max_attempts : Z; max_deliveries : Z }.

Inductive Terminal : Type := SUCCEEDED | DEAD.
#[export] Instance Terminal_eq_dec : EqDecision Terminal.
Proof. solve_decision. Defined.
Definition terminal_value (t : Terminal) : string :=
  match t with SUCCEEDED => "SUCCEEDED" | DEAD => "DEAD" end.

Section Mix.
Context {R : Type} `{Rng R}.
Context (float_repr : Q -> string).

Record Kind := mk_Kind {
  name : string;
  job_type : string;
  share : Q;
  minimum : Z;
  expect : Terminal;
  effect : option string;
  kind_payload : MixParams -> R -> list (string * json) * R;
  dlq_reason : option string;
}.

Definition _none (p : MixParams) (rng : R) : list (string * json) * R := ([], rng).
Definition const_payload (f : MixParams -> list (string * json)) (p : MixParams) (rng : R) :=
  (f p, rng).
Definition randint_payload (field : string) (a b : Z) (p : MixParams) (rng : R) :
    list (string * json) * R :=
  let '(k, rng) := rng_randint a b rng in ([(field, JInt k)], rng).

Definition normal := mk_Kind "normal" "send_email" 0 0 SUCCEEDED (Some "send_email")
  (randint_payload "latency_ms" 0 20) None.
Definition flaky := mk_Kind "flaky" "flaky" (3 # 100) 5 SUCCEEDED (Some "flaky")
  (randint_payload "fail_times" 1 3) None.
Definition slow := mk_Kind "slow" "slow" (3 # 1000) 5 SUCCEEDED (Some "slow")
  (fun p rng => let '(u, rng) := rng_uniform (12 # 10) (18 # 10) rng in
     ([("seconds", JFloat (float_repr (round_to 3 (u * lease p))))], rng)) None.
Definition cpu := mk_Kind "cpu" "cpu_task" (2 # 100) 10 SUCCEEDED None
  (const_payload (fun _ => [("rounds", JInt 2000)])) None.
Definition hang := mk_Kind "hang" "hang" (1 # 1000) 3 SUCCEEDED (Some "hang")
  (randint_payload "hang_attempts" 1 2) None.
Definition hang_thread := mk_Kind "hang_thread" "hang_thread" (5 # 10000) 3 SUCCEEDED None
  (fun p rng => let '(u, rng) := rng_uniform 3 5 rng in
     ([("hang_attempts", JInt 1); ("hang_seconds", JFloat (float_repr (round_to 3 u)))], rng)) None.
Definition hang_process := mk_Kind "hang_process" "hang_process" (1 # 1000) 3 SUCCEEDED None
  (randint_payload "hang_attempts" 1 2) None.
Definition hang_forever := mk_Kind "hang_forever" "hang_process" (3 # 100000) 2 DEAD None
  (const_payload (fun p => [("hang_attempts", JInt (max_attempts p + 1000))]))
  (Some "max_attempts").
Definition poison := mk_Kind "poison" "poison" (2 # 10000) 3 DEAD None _none (Some "max_attempts").
Definition crashy :=
  mk_Kind "crashy" "crashy" (3 # 100000) 3 DEAD None _none (Some "max_deliveries").

Definition KINDS : list Kind :=
  [normal; flaky; slow; cpu; hang; hang_thread; hang_process; hang_forever; poison; crashy].

Definition BY_NAME : list (string * Kind) := (fun k => (name k, k)) <$> KINDS.

(** How many of a special kind. *)
Definition special (n : Z) (k : Kind) : Z := Z.max (minimum k) (round (inject_Z n * share k)).
Definition specials (n : Z) : list (string * Z) :=
  (fun k => (name k, special n k)) <$> filter (fun k => name k <> "normal") KINDS.

Definition counts (n : Z) : result exn (list (string * Z)) :=
  let s := specials n in
  let sum := weight (fun _ => true) s in
  if n <=? sum then Err (ValueError "too few jobs for the mix's minimums")
  else Ok (("normal", n - sum) :: s).

(** [BY_NAME[name]] *)
Definition by_name (n : string) : result exn Kind :=
  match get (prod_map id Some <$> BY_NAME) n None with
  | Some k => Ok k
  | None => Err (KeyError n)
  end.

Fixpoint new_jobs (names : list string) (params : MixParams) (rng : R) :
    result exn (list (string * NewJob) * R) :=
  match names with
  | [] => Ok ([], rng)
  | n :: rest =>
      k <-! by_name n ;;
      let '(payload, rng) := kind_payload k params rng in
      later <-! new_jobs rest params rng ;;
      Ok ((n, mk_NewJob (job_type k) payload None) :: later.1, later.2)
  end.

Definition build (n : Z) (rng : R) (params : MixParams) :
    result exn (list (string * NewJob) * R) :=
  c <-! counts n ;;
  let names := expand c in
  let '(names, rng) := rng_shuffle names rng in
  new_jobs names params rng.

(** ** What a mix promises *)
(** The payload makes the handler do what the kind says. *)
Record fits (p : MixParams) (k : Kind) (job : Job) : Prop := {
  fits_flaky : name k = "flaky" -> exists z,
    int_of_json (get_item "fail_times" (payload job) (JInt 1)) = Ok z /\ 1 <= z <= 3;
  fits_hang : name k ∈ ["hang"; "hang_thread"; "hang_process"] ->
    (attempt job <= 0 -> _hangs job = Ok true) /\ (2 <= attempt job -> _hangs job = Ok false);
  fits_forever : name k = "hang_forever" ->
    attempt job < max_attempts p + 1000 -> _hangs job = Ok true;
}.

(** How many jobs of a kind there are. *)
Definition of_kind (k : Kind) (jobs : list (string * NewJob)) : Z :=
  Z.of_nat (length (filter (fun j => j.1 = name k) jobs)).

Record planned (n : Z) (p : MixParams) (jobs : list (string * NewJob)) : Prop := {
  pl_length : Z.of_nat (length jobs) = n;
  pl_special : forall k, k ∈ KINDS -> name k <> "normal" -> of_kind k jobs = special n k;
  pl_minimum : forall k, k ∈ KINDS -> minimum k <= of_kind k jobs;
  pl_jobs : forall x, x ∈ jobs -> exists k, by_name x.1 = Ok k /\ name k = x.1 /\
    new_type x.2 = job_type k /\ new_key x.2 = None /\
    forall job, payload job = new_payload x.2 -> fits p k job;
}.

Lemma hang_fits (p : MixParams) (k : Kind) (job : Job) z rest :
  payload job = ("hang_attempts", JInt z) :: rest -> 1 <= z <= 2 ->
  name k <> "flaky" -> name k <> "hang_forever" -> fits p k job.
Proof.
  intros Hp Hz Hf Hh. split; [done| |done]. intros _. unfold _hangs. rewrite Hp.
  change (get_item _ _ _) with (JInt z). cbn [int_of_json and_then].
  split; intros Ha; f_equal; [apply Z.ltb_lt|apply Z.ltb_ge]; lia.
Qed.

Lemma kind_fits (p : MixParams) (k : Kind) (rng : R) (job : Job) :
  k ∈ KINDS -> payload job = (kind_payload k p rng).1 -> fits p k job.
Proof.
  intros Hk Hp. unfold KINDS in Hk. rewrite !elem_of_cons, elem_of_nil in Hk.
  assert (Hr : forall a b, a <= b -> exists z rng', rng_randint a b rng = (z, rng') /\ a <= z <= b).
  { intros a b Hab. pose proof (rng_randint_ok a b rng Hab). destruct (rng_randint a b rng). eauto. }
  destruct Hk as [->|[->|[->|[->|[->|[->|[->|[->|[->|[->|[]]]]]]]]]]]; cbn in Hp;
    try (split; [done|by intros Hin%(bool_decide_eq_true_2 _)|done]).
  - destruct (Hr 1 3) as (z & rng' & Hz & Hb); [lia|]. unfold randint_payload in Hp.
    rewrite Hz in Hp. cbn in Hp. split; [|by intros Hin%(bool_decide_eq_true_2 _)|done].
    intros _. rewrite Hp. cbn. by exists z.
  - destruct (Hr 1 2) as (z & rng' & Hz & Hb); [lia|]. unfold randint_payload in Hp.
    rewrite Hz in Hp. by eapply hang_fits.
  - destruct (rng_uniform 3 5 rng) as [u rng']. by eapply hang_fits.
  - destruct (Hr 1 2) as (z & rng' & Hz & Hb); [lia|]. unfold randint_payload in Hp.
    rewrite Hz in Hp. by eapply hang_fits.
  - split; [done|by intros Hin%(bool_decide_eq_true_2 _)|]. intros _ Ha. unfold _hangs. rewrite Hp.
    change (get_item _ _ _) with (JInt (max_attempts p + 1000)). cbn [int_of_json and_then]. f_equal.
    by apply Z.ltb_lt.
Qed.

Lemma by_name_kind (k : Kind) : k ∈ KINDS -> by_name (name k) = Ok k.
Proof.
  unfold KINDS. rewrite !elem_of_cons, elem_of_nil.
  by intros [->|[->|[->|[->|[->|[->|[->|[->|[->|[->|[]]]]]]]]]]].
Qed.

Lemma new_jobs_ok names (p : MixParams) : forall rng,
  (forall n, n ∈ names -> exists k, k ∈ KINDS /\ name k = n) ->
  exists jobs rng', new_jobs names p rng = Ok (jobs, rng') /\ jobs.*1 = names /\
    forall x, x ∈ jobs -> exists k, by_name x.1 = Ok k /\ name k = x.1 /\
      new_type x.2 = job_type k /\ new_key x.2 = None /\
      forall job, payload job = new_payload x.2 -> fits p k job.
Proof.
  induction names as [|n names IH]; intros rng Hn.
  { exists [], rng. split; [done|]. split; [done|]. by intros x Hx%elem_of_nil. }
  destruct (Hn n) as (k & Hk & <-); [left|]. cbn [new_jobs].
  rewrite (by_name_kind k Hk). cbn [and_then].
  destruct (kind_payload k p rng) as [pl rng1] eqn:Hpl.
  destruct (IH rng1) as (jobs & rng' & -> & Hnames & Hall);
    [intros n' Hn'; apply Hn; by right|]. cbn [and_then fst snd].
  eexists _, _. split; [done|]. split; [cbn; by rewrite Hnames|].
  intros x [->|Hx]%elem_of_cons; [|by apply Hall]. exists k. cbn.
  split_and!; try done; [by apply by_name_kind|]. intros job Hj.
  apply (kind_fits p k rng job Hk). by rewrite Hpl.
Qed.

(** The table of counts. *)
Lemma specials_list (n : Z) : specials n =
  [("flaky", special n flaky); ("slow", special n slow); ("cpu", special n cpu);
   ("hang", special n hang); ("hang_thread", special n hang_thread);
   ("hang_process", special n hang_process); ("hang_forever", special n hang_forever);
   ("poison", special n poison); ("crashy", special n crashy)].
Proof. reflexivity. Qed.

Lemma special_minimum (n : Z) (k : Kind) : minimum k <= special n k.
Proof. apply Z.le_max_l. Qed.

Lemma counts_good (n : Z) c : counts n = Ok c ->
  NoDup c.*1 /\ Forall (fun e : string * Z => 0 <= e.2) c /\ weight (fun _ => true) c = n /\
  (forall x, x ∈ c.*1 -> exists k, k ∈ KINDS /\ name k = x) /\
  (forall k, k ∈ KINDS -> minimum k <= get c (name k) 0 /\
     (name k <> "normal" -> get c (name k) 0 = special n k)).
Proof.
  unfold counts. destruct (Z.leb_spec n (weight (fun _ => true) (specials n))) as [|Hlt]; [done|].
  intros Hc. assert (c = ("normal", n - weight (fun _ => true) (specials n)) :: specials n) as ->
    by congruence.
  clear Hc. split; [|split; [|split; [|split]]].
  - rewrite specials_list. apply (bool_decide_eq_true_1 _). vm_compute. reflexivity.
  - constructor; [cbn [snd]; lia|]. rewrite specials_list.
    repeat (constructor; [cbn [snd]; etrans; [|apply special_minimum]; done|]). constructor.
  - clear Hlt. generalize (specials n). intros s. cbn. lia.
  - intros x Hx. assert (Hin : x ∈ name <$> KINDS) by (rewrite specials_list in Hx; exact Hx).
    apply list_elem_of_fmap in Hin as (k & -> & Hk). by exists k.
  - intros k Hk. unfold KINDS in Hk. rewrite !elem_of_cons, elem_of_nil in Hk.
    destruct Hk as [->|Hk].
    { split; [|done]. change (get _ _ 0) with (n - weight (fun _ => true) (specials n)).
      cbn [minimum normal]. lia. }
    assert (Hs : get (("normal", n - weight (fun _ => true) (specials n)) :: specials n)
      (name k) 0 = special n k).
    { by destruct Hk as [->|[->|[->|[->|[->|[->|[->|[->|[->|[]]]]]]]]]]. }
    rewrite Hs. split; [apply special_minimum|done].
Qed.
End Mix.

