(* ===== verification/Faults.v ===== *)
(** The chaos faults (chaos/faults.py): the schedule drawn up front, the injector that
    carries it out and the supervisor that restarts crashed workers.

    Docker, Toxiproxy and the workers' states are effects of their own, so are the clock
    and sleeps; the injector and the supervisor share one state ([chaos]), as the
    supervisor reads the injector's [held_down]. *)
From S2P Require Import Prelude Effects Redis Keys LuaScripts Json Fields.
From S2P Require Import Py Models Config Transitions Registry Tables Random.
From Stdlib Require Import Lqa.

#[local] Open Scope string_scope.
#[local] Open Scope list_scope.
#[local] Open Scope Z_scope.

Inductive FaultKind : Type := kill | pause | reset_peer | timeout | latency | partition.
#[export] Instance FaultKind_eq_dec : EqDecision FaultKind.
Proof. solve_decision. Defined.

Definition KINDS : list FaultKind := [kill; pause; reset_peer; timeout; latency; partition].
Definition NETWORK : list FaultKind := [reset_peer; timeout; latency; partition].
Definition _WEIGHTS (k : FaultKind) : Q :=
  match k with
  | kill | pause => 2
  | reset_peer | timeout | partition => 3 # 2
  | latency => 1
  end.
Definition OPENING_ROUNDS : nat := 4.
Definition _SETTLE_S : Q := 2.
Definition _RETRY_FOR_S : Q := 10.
Definition _RETRY_INTERVAL_S : Q := 1 # 2.

Record Fault := mk_Fault {
  at_s : Q;                  (* [at] in the source *)
  kind : FaultKind;
  worker : nat;
  duration : Q;
  latency_ms : Z;
}.

(** ** The plan *)
Section Plan.
Context {R : Type} `{Rng R}.

Definition _duration (k : FaultKind) (rng : R) (lease : Q) : Q * Z * R :=
  match k with
  | kill => let '(d, rng) := rng_uniform (1 # 2) 3 rng in (d, 0, rng)
  | pause => let '(d, rng) := rng_uniform ((3 # 2) * lease) (3 * lease) rng in (d, 0, rng)
  | latency => let '(d, rng) := rng_uniform 2 5 rng in
               let '(ms, rng) := rng_randint 50 250 rng in (d, ms, rng)
  | _ => let '(d, rng) := rng_uniform 1 4 rng in (d, 0, rng)
  end.

(** The variables of [plan]'s loop. *)
Record planning := mk_planning {
  p_rng : R;
  opening : list FaultKind;
  busy_until : list Q;       (* by worker number; number 0 is not used *)
  faults : list Fault;
  clock : Q;                 (* [t] *)
}.

Definition free_workers (workers : nat) (busy : list Q) (t : Q) : list nat :=
  filter (fun w => Qle_bool (nth w busy 0%Q) t = true) (seq 1 workers).

Definition next_kind (s : planning) : FaultKind * R :=
  match opening s with
  | k :: _ => (k, p_rng s)
  | [] => let '(i, rng) := rng_choices (_WEIGHTS <$> KINDS) (p_rng s) in
          (nth i KINDS kill, rng)
  end.

Definition max_active (workers : nat) : nat := Nat.max 1 (workers / 2).

(** One turn of the loop: a fault on a free worker, if there may be one more. *)
Definition turn (workers : nat) (lease : Q) (gap : Q * Q) (s : planning) : planning :=
  let '(k, rng) := next_kind s in
  let free := free_workers workers (busy_until s) (clock s) in
  let active := (workers - length free)%nat in
  let s :=
    if bool_decide (free <> []) && (active <? max_active workers)%nat then
      let '(i, rng) := rng_choice (length free) rng in
      let w := nth i free O in
      let '(d, ms, rng) := _duration k rng lease in
      mk_planning rng (tail (opening s)) (<[w := (clock s + d + _SETTLE_S)%Q]> (busy_until s))
        (faults s ++ [mk_Fault (round_to 3 (clock s)) k w (round_to 3 d) ms]) (clock s)
    else mk_planning rng (opening s) (busy_until s) (faults s) (clock s) in
  let '(d, rng) := rng_uniform gap.1 gap.2 (p_rng s) in
  mk_planning rng (opening s) (busy_until s) (faults s) (clock s + d)%Q.

(** [None]: the fuel ran out. *)
Fixpoint plan_loop (fuel workers : nat) (lease span : Q) (gap : Q * Q) (s : planning) :
    option (list Fault) :=
  if Qlt_bool (clock s) span || bool_decide (opening s <> []) then
    match fuel with
    | O => None
    | S fuel => plan_loop fuel workers lease span gap (turn workers lease gap s)
    end
  else Some (faults s).

Definition plan (fuel : nat) (rng : R) (workers : nat) (lease span : Q) (gap : Q * Q) :
    option (list Fault) :=
  let '(opening, rng) := rng_shuffle (KINDS ≫= fun k => replicate OPENING_ROUNDS k) rng in
  plan_loop fuel workers lease span gap
    (mk_planning rng opening (replicate (workers + 1) 0%Q) [] 2).
End Plan.
Arguments planning R : clear implicits.

(** ** Carrying it out *)
Record Executed := mk_Executed { done_fault : Fault; started : Q; healed : Q; attempts : Z }.
Record Skipped := mk_Skipped { skipped_fault : Fault; tries : Z; reason : string }.

Record chaos := mk_chaos {
  held_down : gset string;
  executed : list Executed;
  skipped : list Skipped;
  restarts : list (Z * Z);                   (* a Counter *)
}.

Inductive chaos_ev : Type -> Type :=
  | CTime : chaos_ev Q                                     (* loop.time() *)
  | CSleep (d : Q) : chaos_ev unit
  | CDocker (args : list string) : chaos_ev unit           (* run("docker", ...) *)
  | CPaused (args : list string) : chaos_ev (list string)  (* names in docker ps's output *)
  | CEnabled (proxy : string) (b : bool) : chaos_ev unit   (* toxi.set_enabled *)
  | CToxic (proxy type : string) (attributes : list (string * Z)) : chaos_ev unit
  | CNoToxic (proxy : string) : chaos_ev unit
  | CReset : chaos_ev unit                                 (* toxi.reset *)
  | CStates : chaos_ev (list (string * (string * option Z)))   (* stack.worker_states() *)
  | CStop : chaos_ev bool                                  (* stop.is_set() *)
  | CWaitStop (d : Q) : chaos_ev unit                      (* wait_for(stop.wait(), d) *)
  | CSelf {A} (f : chaos -> A * chaos) : chaos_ev A.

Section Injector.
Context (worker_name proxy_name : nat -> string) (exn_text : exn -> string) (PROJECT : string).
Abbreviation co := (prog chaos_ev exn).
#[local] Open Scope prog_scope.

Definition change (f : chaos -> chaos) : co unit := call (CSelf (fun s => (tt, f s))).
Definition look : co chaos := call (CSelf (fun s => (s, s))).
Definition hold (n : string) (s : chaos) : chaos :=
  mk_chaos (held_down s ∪ {[n]}) (executed s) (skipped s) (restarts s).
Definition release (n : string) (s : chaos) : chaos :=
  mk_chaos (held_down s ∖ {[n]}) (executed s) (skipped s) (restarts s).
Definition add_executed (e : Executed) (s : chaos) : chaos :=
  mk_chaos (held_down s) (executed s ++ [e]) (skipped s) (restarts s).
Definition add_skipped (e : Skipped) (s : chaos) : chaos :=
  mk_chaos (held_down s) (executed s) (skipped s ++ [e]) (restarts s).

Definition _apply (f : Fault) : co unit :=
  let name := worker_name (worker f) in
  let proxy := proxy_name (worker f) in
  match kind f with
  | kill =>
      change (hold name) ;;;
      try_catch (call (CDocker ["docker"; "kill"; "-s"; "KILL"; name]))
        (fun e => (if is_exception e then change (release name) else Ret tt) ;;; Raise e)
  | pause => call (CDocker ["docker"; "pause"; name])
  | partition => call (CEnabled proxy false)
  | latency => call (CToxic proxy "latency" [("latency", latency_ms f); ("jitter", 50)])
  | timeout => call (CToxic proxy "timeout" [("timeout", 0)])
  | reset_peer => call (CToxic proxy "reset_peer" [("timeout", 0)])
  end.

Definition _heal (f : Fault) : co unit :=
  let name := worker_name (worker f) in
  let proxy := proxy_name (worker f) in
  match kind f with
  | kill => call (CDocker ["docker"; "start"; name]) ;;; change (release name)
  | pause => call (CDocker ["docker"; "unpause"; name])
  | partition => call (CEnabled proxy true)
  | _ => call (CNoToxic proxy)
  end.

(** A turn of [_one]'s loop: [inr (Some _)] when the fault was applied, [inr None] when
    it was skipped. *)
Definition try_apply (f : Fault) (t0 abandoned : Q) (tries : Z) : co (Z + option (Q * Z)) :=
  let tries := tries + 1 in
  now <- call CTime ;;
  let started := (now - t0)%Q in
  r <- try_catch (_apply f ;;; Ret None)
         (fun e => if is_exception e then Ret (Some e) else Raise e) ;;
  match r with
  | None => Ret (inr (Some (started, tries)))
  | Some e =>
      let skip := change (add_skipped (mk_Skipped f tries (cut 300 (exn_text e)))) ;;;
                  Ret (inr None) in
      match kind f with
      | kill | pause =>
          now <- call CTime ;;
          if Qlt_bool now abandoned then call (CSleep _RETRY_INTERVAL_S) ;;; Ret (inl tries)
          else skip
      | _ => skip
      end
  end.

Fixpoint applying (fuel : nat) (f : Fault) (t0 abandoned : Q) (tries : Z) :
    co (option (option (Q * Z))) :=
  match fuel with
  | O => Ret None
  | S fuel =>
      r <- try_apply f t0 abandoned tries ;;
      match r with inl tries => applying fuel f t0 abandoned tries | inr x => Ret (Some x) end
  end.

Definition _one (fuel : nat) (f : Fault) (t0 : Q) : co unit :=
  now <- call CTime ;;
  call (CSleep (Qmax 0 (t0 + at_s f - now))) ;;;
  now <- call CTime ;;
  x <- applying fuel f t0 (now + _RETRY_FOR_S) 0 ;;
  match x with
  | Some (Some (started, tries)) =>
      call (CSleep (duration f)) ;;;
      _heal f ;;;
      now <- call CTime ;;
      change (add_executed (mk_Executed f (round_to 3 started) (round_to 3 (now - t0)) tries))
  | _ => Ret tt
  end.

(** [Injector.counts] *)
Definition kind_name (k : FaultKind) : string :=
  match k with
  | kill => "kill" | pause => "pause" | reset_peer => "reset_peer" | timeout => "timeout"
  | latency => "latency" | partition => "partition"
  end.
Definition counts (s : chaos) : list (string * Z) :=
  let c := Counter ((fun e => kind (done_fault e)) <$> executed s) in
  [("kills", get c kill 0); ("pauses", get c pause 0);
   ("network_windows", foldr (fun k n => get c k 0 + n) 0 NETWORK)] ++
  ((fun k => ("by_kind." +:+ kind_name k, get c k 0)) <$> KINDS) ++
  [("skipped", Z.of_nat (length (skipped s)))].

Definition heal_all : co unit :=
  call CReset ;;;
  paused <- call (CPaused ["docker"; "ps"; "--filter"; "name=^" +:+ PROJECT +:+ "-worker-";
                           "--filter"; "status=paused"; "--format"; "{{.Names}}"]) ;;
  for_each paused (fun name _ => call (CDocker ["docker"; "unpause"; name])) tt.

(** *** Supervisor *)
Definition restart (code : option Z) (s : chaos) : chaos :=
  mk_chaos (held_down s) (executed s) (skipped s) (bump (restarts s) (default (-1) code) 1).

(** A turn of [Supervisor.run]'s loop. *)
Definition supervise (interval : Q) : co unit :=
  before <- look ;;
  states <- call CStates ;;
  for_each states (fun x _ =>
    let '(name, (state, code)) := x in
    after <- look ;;
    let held := bool_decide (name ∈ held_down before) || bool_decide (name ∈ held_down after) in
    if bool_decide (state = "exited") && negb held then
      call (CDocker ["docker"; "start"; name]) ;;; change (restart code)
    else Ret tt) tt ;;;
  call (CWaitStop interval).

Fixpoint supervisor (fuel : nat) (interval : Q) : co unit :=
  match fuel with
  | O => Ret tt
  | S fuel =>
      stop <- call CStop ;;
      if (stop : bool) then Ret tt else supervise interval ;;; supervisor fuel interval
  end.
End Injector.
