(* ===== verification/Schedule.v ===== *)
(** The chaos fault schedule: [plan] (Faults.v, chaos/faults.py) ends, and what it plans. *)
From S2P Require Import Prelude Effects Redis Keys LuaScripts Json Fields.
From S2P Require Import Py Models Config Transitions Registry Tables Random Faults.
From Stdlib Require Import Lqa.

#[local] Open Scope list_scope.
#[local] Open Scope Z_scope.

Lemma round_to_mono n a b : (a <= b)%Q -> (round_to n a <= round_to n b)%Q.
Proof.
  intros Hab. unfold round_to. rewrite !Qred_correct. unfold Qle. cbn.
  apply Z.mul_le_mono_nonneg_r; [lia|]. apply round_mono.
  apply Qmult_le_compat_r; [done|]. change 0%Q with (inject_Z 0). rewrite <- Zle_Qle. lia.
Qed.

(** ** What a plan is *)
Definition ends (f : Fault) : Q := (at_s f + duration f)%Q.
Definition live (x : Q) (f : Fault) : bool := Qle_bool (at_s f) x && Qle_bool x (ends f).
Definition before (f g : Fault) : Prop :=
  (at_s f <= at_s g)%Q /\ (worker f = worker g -> (ends f < at_s g)%Q).
Definition how_many (k : FaultKind) (fs : list Fault) : nat :=
  length (filter (fun f => kind f = k) fs).

Record good_plan (workers : nat) (lease : Q) (fs : list Fault) : Prop := {
  gp_order : StronglySorted before fs;
  gp_half : forall x, (length (filter (fun f => live x f = true) fs) <= max_active workers)%nat;
  gp_worker : Forall (fun f => 1 <= worker f <= workers)%nat fs;
  gp_pause : Forall (fun f => kind f = pause -> (3 # 2) * lease - (1 # 2000) <= duration f)%Q fs;
}.

Section Plan.
Context {R : Type} `{Rng R}.
Context (workers : nat) (lease span : Q) (gap : Q * Q).

Definition longest : Q := (Qmax (3 * lease) 5 + _SETTLE_S)%Q.

Definition in_range (k : FaultKind) (d : Q) : Prop :=
  (0 <= d /\ d + _SETTLE_S <= longest)%Q /\ (k = pause -> (3 # 2) * lease <= d)%Q.

Lemma duration_range k rng : (0 <= lease)%Q -> in_range k (_duration k rng lease).1.1.
Proof.
  intros Hlease. pose proof (Q.le_max_l (3 * lease) 5). pose proof (Q.le_max_r (3 * lease) 5).
  assert (Hu : forall a b r, (a <= b)%Q -> (a <= (rng_uniform a b r).1 <= b)%Q).
  { intros a b r Hab. by apply rng_uniform_ok. }
  unfold in_range, longest. destruct k; cbn [_duration].
  - pose proof (Hu (1 # 2)%Q 3%Q rng ltac:(done)). destruct (rng_uniform _ _ _). cbn in *.
    split; [split; lra|done].
  - pose proof (Hu ((3 # 2) * lease)%Q (3 * lease)%Q rng ltac:(lra)).
    destruct (rng_uniform _ _ _). cbn in *. split; [split; lra|]. intros _. lra.
  - pose proof (Hu 1%Q 4%Q rng ltac:(done)). destruct (rng_uniform _ _ _). cbn in *.
    split; [split; lra|done].
  - pose proof (Hu 1%Q 4%Q rng ltac:(done)). destruct (rng_uniform _ _ _). cbn in *.
    split; [split; lra|done].
  - pose proof (Hu 2%Q 5%Q rng ltac:(done)). destruct (rng_uniform _ _ _) as [q r]. cbn in *.
    destruct (rng_randint _ _ _). cbn. split; [split; lra|done].
  - pose proof (Hu 1%Q 4%Q rng ltac:(done)). destruct (rng_uniform _ _ _). cbn in *.
    split; [split; lra|done].
Qed.

Definition busy_of (s : planning R) (w : nat) : Q := nth w (busy_until s) 0%Q.
Definition free_of (s : planning R) : list nat := free_workers workers (busy_until s) (clock s).
Definition may_place (s : planning R) : Prop :=
  free_of s <> [] /\ (workers - length (free_of s) < max_active workers)%nat.

(** What a turn does. *)
Inductive turns (s : planning R) : planning R -> Prop :=
  | turn_placed k w d ms u rng :
      may_place s -> w ∈ free_of s -> in_range k d -> (gap.1 <= u)%Q ->
      (forall k' ks, opening s = k' :: ks -> k' = k) ->
      turns s (mk_planning rng (tail (opening s)) (<[w := (clock s + d + _SETTLE_S)%Q]> (busy_until s))
        (faults s ++ [mk_Fault (round_to 3 (clock s)) k w (round_to 3 d) ms]) (clock s + u)%Q)
  | turn_idle u rng :
      ~ may_place s -> (gap.1 <= u)%Q ->
      turns s (mk_planning rng (opening s) (busy_until s) (faults s) (clock s + u)%Q).

Lemma turn_turns s : (0 <= lease)%Q -> (gap.1 <= gap.2)%Q -> turns s (turn workers lease gap s).
Proof.
  intros Hlease Hgap2. unfold turn. destruct (next_kind s) as [k rng] eqn:Hk. fold (free_of s).
  assert (Hkind : forall k' ks, opening s = k' :: ks -> k' = k).
  { intros k' ks Ho. unfold next_kind in Hk. rewrite Ho in Hk. congruence. }
  assert (Hu : forall r, (gap.1 <= (rng_uniform gap.1 gap.2 r).1)%Q).
  { intros r. by apply rng_uniform_ok. }
  destruct (bool_decide_reflect (free_of s <> [])) as [Hf|Hf]; cbn [andb].
  2: { pose proof (Hu rng). cbn. destruct (rng_uniform _ _ rng). apply turn_idle; [|done].
       by intros [? _]. }
  destruct (Nat.ltb_spec (workers - length (free_of s)) (max_active workers)) as [Ha|Ha].
  - assert (Hl : (0 < length (free_of s))%nat) by (destruct (free_of s); [done|cbn; lia]).
    pose proof (rng_choice_ok (length (free_of s)) rng Hl) as Hi.
    destruct (rng_choice _ rng) as [i rng1]. cbn in Hi.
    pose proof (duration_range k rng1 Hlease) as Hd. destruct (_duration k rng1 lease) as [[d ms] rng2].
    pose proof (Hu rng2). cbn in *. destruct (rng_uniform _ _ rng2).
    apply turn_placed; try done. by apply list_elem_of_In, nth_In.
  - pose proof (Hu rng). cbn. destruct (rng_uniform _ _ rng). apply turn_idle; [|done].
    intros [_ ?]. lia.
Qed.

(** *** The invariant *)
Record ok (s : planning R) : Prop := {
  ok_len : length (busy_until s) = (workers + 1)%nat;
  ok_busy : Forall (fun f => ends f + 1 <= busy_of s (worker f))%Q (faults s);
  ok_past : Forall (fun f => at_s f <= round_to 3 (clock s))%Q (faults s);
  ok_good : good_plan workers lease (faults s);
  ok_rounds : forall k,
    (OPENING_ROUNDS <= how_many k (faults s) + length (filter (fun x => x = k) (opening s)))%nat;
}.

Lemma free_spec s w : w ∈ free_of s <-> (1 <= w <= workers)%nat /\ (busy_of s w <= clock s)%Q.
Proof.
  unfold free_of, free_workers.
  rewrite list_elem_of_filter, elem_of_seq, Qle_bool_iff. unfold busy_of. split; intros []; split; auto; lia.
Qed.

Lemma near t : (t - (1 # 2000) <= round_to 3 t <= t + (1 # 2000))%Q.
Proof.
  pose proof (round_to_near 3 t) as Hr. cbv zeta in Hr.
  change (1 # Z.to_pos (10 ^ 3))%Q with (1 # 1000)%Q in Hr. lra.
Qed.

Lemma ok_later s rng u : ok s -> (0 <= u)%Q ->
  ok (mk_planning rng (opening s) (busy_until s) (faults s) (clock s + u)%Q).
Proof.
  intros Hs Hu. split; [apply (ok_len _ Hs)|apply (ok_busy _ Hs)| |apply (ok_good _ Hs)|apply (ok_rounds _ Hs)].
  eapply Forall_impl; [apply (ok_past _ Hs)|].
  intros f Hf. cbn in *. eapply Qle_trans; [exact Hf|]. apply round_to_mono. lra.
Qed.

Definition busy_workers (s : planning R) : list nat :=
  filter (fun w => ~ Qle_bool (nth w (busy_until s) 0%Q) (clock s) = true) (seq 1 workers).

Lemma length_busy s : length (busy_workers s) = (workers - length (free_of s))%nat.
Proof.
  pose proof (length_filter_split
    (fun w => Qle_bool (nth w (busy_until s) 0%Q) (clock s) = true) (seq 1 workers)) as Hl.
  rewrite length_seq in Hl. unfold busy_workers, free_of, free_workers. lia.
Qed.

Lemma live_busy s f x : ok s -> f ∈ faults s -> live x f = true ->
  (round_to 3 (clock s) <= x)%Q -> worker f ∈ busy_workers s.
Proof.
  intros Hs Hf [_ Hx]%andb_true_iff Hr. apply Qle_bool_iff in Hx.
  pose proof (ok_busy _ Hs) as Hb. pose proof (gp_worker _ _ _ (ok_good _ Hs)) as Hw.
  rewrite Forall_forall in Hb, Hw. specialize (Hb f Hf). specialize (Hw f Hf). cbn in Hw.
  apply list_elem_of_filter. rewrite elem_of_seq, Qle_bool_iff. split; [|lia].
  fold (busy_of s (worker f)). intros Hle. pose proof (near (clock s)). lra.
Qed.

Lemma live_distinct fs x : StronglySorted before fs ->
  NoDup (worker <$> filter (fun f => live x f = true) fs).
Proof.
  induction 1 as [|f fs Hs IH Hf]; [constructor|]. rewrite filter_cons. case_decide as Hl; [|done].
  cbn. apply NoDup_cons. split; [|done]. intros (g & Hw & Hg)%list_elem_of_fmap.
  apply list_elem_of_filter in Hg as [Hlg Hg]. rewrite Forall_forall in Hf.
  destruct (Hf g Hg) as [_ Hfg]. specialize (Hfg Hw).
  apply andb_true_iff in Hl as [_ Hl]. apply andb_true_iff in Hlg as [Hlg _].
  apply Qle_bool_iff in Hl, Hlg. lra.
Qed.

(** A new fault leaves at most half the workers faulted at any time. *)
Lemma half_snoc s new x : ok s -> may_place s -> at_s new = round_to 3 (clock s) ->
  (length (filter (fun f => live x f = true) (faults s ++ [new])) <= max_active workers)%nat.
Proof.
  intros Hs [_ Hm] Hat. rewrite filter_app, length_app, filter_cons, filter_nil. case_decide as Hl.
  2: { cbn. rewrite Nat.add_0_r. apply (gp_half _ _ _ (ok_good _ Hs)). }
  apply andb_true_iff in Hl as [Hl _]. apply Qle_bool_iff in Hl. rewrite Hat in Hl.
  assert (Hle : (length (filter (fun f => live x f = true) (faults s)) <= length (busy_workers s))%nat).
  { rewrite <- (length_fmap worker). apply submseteq_length, NoDup_submseteq.
    - apply live_distinct, (ok_good _ Hs).
    - intros w (f & -> & Hf)%list_elem_of_fmap. apply list_elem_of_filter in Hf as [Hx Hf].
      by apply (live_busy s f x). }
  rewrite length_busy in Hle. cbn. lia.
Qed.

Lemma ok_place s k w d ms rng : ok s -> may_place s -> w ∈ free_of s -> in_range k d ->
  (forall k' ks, opening s = k' :: ks -> k' = k) ->
  ok (mk_planning rng (tail (opening s)) (<[w := (clock s + d + _SETTLE_S)%Q]> (busy_until s))
        (faults s ++ [mk_Fault (round_to 3 (clock s)) k w (round_to 3 d) ms]) (clock s)).
Proof.
  intros Hs Hm Hw [[Hd _] Hp] Hk. pose proof (near (clock s)) as Hn. pose proof (near d) as Hnd.
  apply free_spec in Hw as [Hw Hfree]. pose proof (ok_len _ Hs) as Hlen.
  assert (Hb : forall w', busy_of (mk_planning rng (tail (opening s))
      (<[w := (clock s + d + _SETTLE_S)%Q]> (busy_until s)) [] (clock s)) w' =
    if decide (w' = w) then (clock s + d + _SETTLE_S)%Q else busy_of s w').
  { intros w'. unfold busy_of. cbn. rewrite !nth_lookup. case_decide; subst.
    - rewrite list_lookup_insert_eq by lia. done.
    - by rewrite list_lookup_insert_ne. }
  unfold _SETTLE_S in Hb. split; cbn [faults clock busy_until opening].
  - by rewrite length_insert.
  - apply Forall_app. split.
    + eapply Forall_impl; [apply (ok_busy _ Hs)|]. intros f Hf. cbn beta.
      unfold busy_of at 1. cbn [busy_until]. specialize (Hb (worker f)). unfold busy_of at 1 in Hb.
      cbn [busy_until] in Hb. unfold _SETTLE_S. rewrite Hb. case_decide as He; [|done].
      cbn beta in Hf. rewrite He in Hf. lra.
    + apply Forall_singleton. unfold ends, busy_of. cbn [at_s duration worker busy_until].
      specialize (Hb w). unfold busy_of at 1 in Hb. cbn [busy_until] in Hb.
      unfold _SETTLE_S. rewrite Hb, decide_True by done. lra.
  - apply Forall_app. split; [apply (ok_past _ Hs)|]. apply Forall_singleton. cbn. apply Qle_refl.
  - pose proof (ok_good _ Hs) as [Ho _ Hwk Hpa]. split.
    + apply StronglySorted_app_2; [|done|repeat constructor].
      intros f g Hf ->%list_elem_of_singleton. pose proof (ok_past _ Hs) as Hpast.
      pose proof (ok_busy _ Hs) as Hbusy. rewrite Forall_forall in Hpast, Hbusy.
      specialize (Hpast f Hf). specialize (Hbusy f Hf). split; [done|]. cbn.
      intros Heq. cbn beta in Hbusy. rewrite Heq in Hbusy. lra.
    + intros x. by apply half_snoc.
    + apply Forall_app. split; [done|]. apply Forall_singleton. cbn. lia.
    + apply Forall_app. split; [done|]. apply Forall_singleton. cbn. intros Hkp.
      specialize (Hp Hkp). lra.
  - intros k'. pose proof (ok_rounds _ Hs k') as Hr. unfold how_many in *.
    rewrite filter_app, length_app, filter_cons, filter_nil. cbn [kind].
    destruct (opening s) as [|k1 ks] eqn:Ho; [cbn [tail]; lia|]. rewrite (Hk k1 ks eq_refl) in Hr.
    rewrite filter_cons in Hr. cbn [tail]. case_decide; cbn [length] in *; lia.
Qed.

(** *** Every turn keeps the invariant *)
Lemma ok_turn s s' : (0 < gap.1)%Q -> ok s -> turns s s' -> ok s'.
Proof.
  intros Hgap Hs Ht. destruct Ht as [k w d ms u rng Hm Hw Hd Hu Hk|u rng Hm Hu].
  - apply (ok_later _ rng u (ok_place s k w d ms rng Hs Hm Hw Hd Hk)). lra.
  - apply (ok_later s); [done|lra].
Qed.

(** *** The loop ends *)
(** Everyone is free in [n] turns. *)
Definition slack (n : nat) (s : planning R) : Prop :=
  Forall (fun b => b <= clock s + inject_Z (Z.of_nat n) * gap.1)%Q (busy_until s).

Lemma inject_S n : (inject_Z (Z.of_nat (S n)) == inject_Z (Z.of_nat n) + 1)%Q.
Proof. rewrite Nat2Z.inj_succ, <- Z.add_1_r, inject_Z_plus. reflexivity. Qed.

Lemma slack_place s : (1 <= workers)%nat -> ok s -> slack 0 s -> may_place s.
Proof.
  intros Hw Hs H0. unfold slack in H0. rewrite Forall_forall in H0.
  assert (Hall : free_of s = seq 1 workers).
  { unfold free_of, free_workers. apply filter_all. rewrite Forall_forall. intros w Hin.
    apply elem_of_seq in Hin. apply Qle_bool_iff.
    assert (Hin' : nth w (busy_until s) 0%Q ∈ busy_until s).
    { apply list_elem_of_In, nth_In. rewrite (ok_len _ Hs). lia. }
    specialize (H0 _ Hin'). change (inject_Z (Z.of_nat 0)) with 0%Q in H0. lra. }
  split; [rewrite Hall; by destruct workers; [lia|]|]. rewrite Hall, length_seq.
  unfold max_active. lia.
Qed.

Lemma slack_turn s s' K n : (0 < gap.1)%Q -> (longest <= inject_Z (Z.of_nat K) * gap.1)%Q ->
  (n <= K)%nat -> slack n s -> turns s s' ->
  (may_place s /\ slack (K - 1) s' /\ length (opening s') = (length (opening s) - 1)%nat) \/
  (~ may_place s /\ slack (n - 1) s' /\ opening s' = opening s).
Proof.
  intros Hgap HK Hn Hs Ht. unfold slack in *.
  assert (HK1 : (1 <= K)%nat).
  { destruct K; [|lia]. change (inject_Z (Z.of_nat 0)) with 0%Q in HK. unfold longest, _SETTLE_S in HK.
    pose proof (Q.le_max_r (3 * lease) 5). lra. }
  assert (Hstep : forall m u b, (gap.1 <= u)%Q ->
    (b <= clock s + inject_Z (Z.of_nat m) * gap.1)%Q ->
    (b <= clock s + u + inject_Z (Z.of_nat (m - 1)) * gap.1)%Q).
  { intros [|m] u b Hu Hb; [change (Z.of_nat (0 - 1)) with (Z.of_nat 0)|
      rewrite inject_S in Hb; rewrite Nat.sub_succ, Nat.sub_0_r]; lra. }
  destruct Ht as [k w d ms u rng Hm Hw [[_ Hd] _] Hu Hk|u rng Hm Hu]; [left|right];
    (split; [done|]); cbn [busy_until clock opening].
  - split; [|by destruct (opening s); cbn; lia]. apply Forall_insert.
    + eapply Forall_impl; [exact Hs|]. intros b Hb. cbn beta in *. apply (Hstep K); [done|].
      assert (inject_Z (Z.of_nat n) <= inject_Z (Z.of_nat K))%Q by (rewrite <- Zle_Qle; lia). nra.
    + apply (Hstep K); [done|]. lra.
  - split; [|done]. eapply Forall_impl; [exact Hs|]. intros b Hb. by apply (Hstep n).
Qed.

Lemma loop_ends K fuel : (0 < gap.1)%Q -> (gap.1 <= gap.2)%Q -> (0 <= lease)%Q ->
  (1 <= workers)%nat -> (longest <= inject_Z (Z.of_nat K) * gap.1)%Q -> forall s n,
  ok s -> slack n s -> (n <= K)%nat ->
  (opening s <> [] -> length (opening s) * K + n <= fuel)%nat ->
  (span <= clock s + inject_Z (Z.of_nat fuel) * gap.1)%Q ->
  exists s', plan_loop fuel workers lease span gap s = Some (faults s') /\ ok s' /\ opening s' = [].
Proof.
  intros Hgap Hgap2 Hlease Hw HK. induction fuel as [|fuel IH]; intros s n Hs Hn HnK Ho Hspan.
  - assert (opening s = []) as Hnil.
    { destruct (opening s) as [|k ks] eqn:E; [done|]. specialize (Ho ltac:(done)). cbn in Ho.
      assert (n = O /\ K = O) as [-> ->] by lia. change (inject_Z (Z.of_nat 0)) with 0%Q in HK.
      unfold longest, _SETTLE_S in HK. pose proof (Q.le_max_r (3 * lease) 5). lra. }
    exists s. cbn. rewrite Hnil. cbn. change (inject_Z (Z.of_nat 0)) with 0%Q in Hspan.
    rewrite orb_false_r. destruct (Qlt_bool (clock s) span) eqn:Hlt; [|done].
    apply Qlt_bool_iff in Hlt. lra.
  - cbn [plan_loop]. destruct (Qlt_bool (clock s) span || bool_decide (opening s <> [])) eqn:Hc.
    2: { apply orb_false_iff in Hc as [_ Hc]. apply bool_decide_eq_false in Hc.
         exists s. split; [done|]. split; [done|]. by apply dec_stable. }
    pose proof (turn_turns s Hlease Hgap2) as Ht.
    pose proof (ok_turn _ _ Hgap Hs Ht) as Hs'. set (s1 := turn workers lease gap s) in *.
    assert (Hspan' : (span <= clock s1 + inject_Z (Z.of_nat fuel) * gap.1)%Q).
    { rewrite inject_S in Hspan. destruct Ht; cbn [clock]; lra. }
    destruct (slack_turn s s1 K n Hgap HK HnK Hn Ht) as [(Hm & Hs1 & Ho1)|(Hm & Hs1 & Ho1)].
    + apply (IH s1 (K - 1)%nat); [done|done|lia| |done]. intros Hne.
      destruct (opening s) as [|k ks] eqn:E.
      { destruct (opening s1); [done|cbn in Ho1; lia]. }
      specialize (Ho ltac:(done)). rewrite Ho1. cbn [length] in *.
      rewrite Nat.mul_succ_l in Ho. rewrite Nat.sub_succ, Nat.sub_0_r.
      destruct K; [rewrite Nat.mul_0_r in *|]; lia.
    + apply (IH s1 (n - 1)%nat); [done|done|lia| |done]. rewrite Ho1. intros Hne.
      specialize (Ho Hne). destruct n as [|n]; [|lia].
      destruct Hm. by apply slack_place.
Qed.
End Plan.

(** The turns that are always enough. *)
Definition turns_per_fault (lease : Q) (gap : Q * Q) : nat :=
  Z.to_nat (Qceiling (longest lease / gap.1)).

(** C29: the fault schedule. With a worker, a gap that moves time forward and enough turns
    (a fixed number for each planned fault of the opening, and the span divided by the
    smallest gap), [plan] ends, and what it returns has every kind of fault at least
    four times; in the order of their start; a worker's faults apart from one another;
    never more than half the workers (or one) faulted at the same moment, counted
    at the written times; on existing workers; and every pause, up to the rounding of what
    is written, lasts one and a half times the lease. *)
Theorem plan_sound {R : Type} `{Rng R} (fuel workers : nat) (rng : R) (lease span : Q)
    (gap : Q * Q) :
  (1 <= workers)%nat -> (0 <= lease)%Q -> (0 < gap.1 <= gap.2)%Q ->
  (24 * turns_per_fault lease gap <= fuel)%nat ->
  (span <= 2 + inject_Z (Z.of_nat fuel) * gap.1)%Q ->
  exists fs, plan fuel rng workers lease span gap = Some fs /\ good_plan workers lease fs /\
    forall k, (OPENING_ROUNDS <= how_many k fs)%nat.
Proof.
  intros Hw Hl [Hg1 Hg2] Hf Hspan. unfold plan.
  pose proof (rng_shuffle_ok (KINDS ≫= fun k => replicate OPENING_ROUNDS k) rng) as Hsh.
  destruct (rng_shuffle _ rng) as [op rng1]. cbn [fst] in Hsh.
  set (s0 := mk_planning rng1 op (replicate (workers + 1) 0%Q) [] 2).
  assert (Hs0 : ok workers lease s0).
  { split; cbn; [by rewrite length_replicate|constructor|constructor| |].
    - split; [constructor|intros x; cbn; lia|constructor|constructor].
    - intros k. rewrite Hsh. destruct k; vm_compute; lia. }
  assert (HK : (longest lease <= inject_Z (Z.of_nat (turns_per_fault lease gap)) * gap.1)%Q).
  { assert (Hp : (0 < longest lease)%Q).
    { unfold longest, _SETTLE_S. pose proof (Q.le_max_r (3 * lease) 5). lra. }
    assert (Hq : (longest lease / gap.1 * gap.1 == longest lease)%Q) by (field; lra).
    rewrite <- Hq at 1. apply Qmult_le_compat_r; [|lra]. unfold turns_per_fault.
    rewrite Z2Nat.id; [apply Qle_ceiling|].
    assert (Hc : (0 <= inject_Z (Qceiling (longest lease / gap.1)))%Q).
    { eapply Qle_trans; [|apply Qle_ceiling]. apply Qle_shift_div_l; lra. }
    change 0%Q with (inject_Z 0) in Hc. by rewrite <- Zle_Qle in Hc. }
  destruct (loop_ends workers lease span gap (turns_per_fault lease gap) fuel Hg1 Hg2 Hl Hw HK
    s0 0 Hs0) as (s' & -> & Hs' & Ho).
  - apply Forall_replicate. change (0 <= 2 + 0 * gap.1)%Q. lra.
  - lia.
  - intros _. cbn [opening s0]. rewrite (Permutation_length Hsh). change (length _) with 24%nat. lia.
  - exact Hspan.
  - exists (faults s'). split; [done|]. split; [apply Hs'|]. intros k.
    pose proof (ok_rounds _ _ _ Hs' k) as Hr. rewrite Ho in Hr. cbn in Hr. lia.
Qed.

(** Three workers, a lease of one second, a plan of a minute. *)
Lemma plan_sound_witness : exists fs,
  plan 200 0%nat 3 1 60 (1, 3)%Q = Some fs /\ good_plan 3 1 fs.
Proof.
  destruct (plan_sound 200 3 0%nat 1 60 (1, 3)%Q) as (fs & Hp & Hg & _).
  - lia.
  - vm_compute. discriminate.
  - split; [reflexivity|vm_compute; discriminate].
  - apply Nat.leb_le. vm_compute. reflexivity.
  - vm_compute. discriminate.
  - exists fs. split; [exact Hp|exact Hg].
Defined.
