(* ===== verification/Verifier.v ===== *)
(** The chaos verifier (chaos/verifier.py): what it reads, and the invariants it checks.

    [verify] is the reading ([gather]), then [judge], a pure function of what was read, then
    the reclaim histogram. In the source the reads of invariant I5 come between the
    checks, none of which depends on them. A Python set's iteration order is free: the two loops over a
    difference of key sets go in the first set's order here. *)
From S2P Require Import Prelude Effects Redis Keys LuaScripts Queue Ops Refine.
From S2P Require Import Fields Streams Logs Invariants Machine System Json.
From S2P Require Import Py Models Config Transitions Registry Reaper Client World.
From S2P Require Import Names Metrics.
From S2P Require Import Handlers Tables Random Mix.

#[local] Open Scope string_scope.
#[local] Open Scope list_scope.
#[local] Open Scope Z_scope.

Definition _SAMPLE : nat := 20.
Definition _PAGE : nat := 100 * 100.
Definition _PIPE : nat := 50 * 100.

(** ** Check *)
Record Check := mk_Check {
  check_ok : bool;
  detail : list (string * json);
  violations : list string;
}.

Definition fail (c : Check) (message : string) : Check :=
  mk_Check false (detail c)
    (if (length (violations c) <? _SAMPLE)%nat then violations c ++ [message] else violations c).
Definition as_dict (c : Check) : json :=
  JObj (put (foldl (fun d e => put d e.1 e.2) [("ok", JBool (check_ok c))] (detail c))
          "violations" (JArr (JStr <$> violations c))).

(** [Check(True)]; [c.detail = d] *)
Definition passes : Check := mk_Check true [] [].
Definition with_detail (d : list (string * json)) (c : Check) : Check :=
  mk_Check (check_ok c) d (violations c).
Definition ints (l : list (string * Z)) : json := JObj (prod_map id JInt <$> l).

Definition Minimums : list (string * Z) :=
  [("kills", 3); ("pauses", 3); ("network_windows", 6); ("reclaimed", 1);
   ("duplicates_suppressed", 1); ("timeouts", 1); ("pool_resets", 1); ("crash_restarts", 1)].

(** ** Reading *)
Section Reading.
Context {S T : Type}.
Abbreviation co := (py S T).
#[local] Open Scope prog_scope.

(** A page of a stream: [inl] the rest is to be read from there. *)
Definition stream_page (key : string) (st : bound * list entry) :
    co (bound * list entry + list entry) :=
  page <- redis (XRANGE key st.1 BMax (Some _PAGE)) ;;
  let out := st.2 ++ page in
  if (length page <? _PAGE)%nat then Ret (inr out)
  else match last page with
       | Some e => Ret (inl (BExcl e.1, out))
       | None => Raise IndexError
       end.

(** [None]: more than [fuel] pages. *)
Definition _stream (fuel : nat) (key : string) : co (option (list entry)) :=
  r <- loop fuel (stream_page key) (BMin, []) ;;
  Ret (match r with inr out => Some out | inl _ => None end).

(** [range(0, len(l), n)] and the slices there. *)
Fixpoint chunks {A} (fuel n : nat) (l : list A) : list (list A) :=
  match fuel, l with
  | O, _ | _, [] => []
  | Datatypes.S fuel, _ => take n l :: chunks fuel n (drop n l)
  end.

Lemma chunks_concat {A} n (l : list A) : (0 < n)%nat -> forall fuel, (length l <= fuel)%nat ->
  concat (chunks fuel n l) = l.
Proof.
  intros Hn fuel. revert l. induction fuel as [|fuel IH]; intros l Hl.
  - destruct l; [done|cbn in Hl; lia].
  - destruct l as [|a l]; [done|]. cbn [chunks concat]. rewrite IH; [apply take_drop|].
    rewrite length_drop. cbn [length] in *. lia.
Qed.

Definition _states (keys : Keys.t) (job_ids : list string) : co (list (string * string)) :=
  for_each (chunks (length job_ids) _PIPE job_ids) (fun chunk states =>
    answers <- pipe ((fun j => redis (HGET (Keys.done keys j) "state")) <$> chunk) ;;
    Ret (foldl (fun d x => put d x.1 (default "" x.2)) states (zip chunk answers))) [].
End Reading.

(** What the invariants are checked against, the logs already counted. *)
Record readings := mk_readings {
  states : list (string * string);
  results : list (string * Z);
  effects : list (string * Z);
  dlq : list entry;
  counters : list (string * Z);
  stream_len : Z;
  pending_len : Z;
  delayed_len : Z;
}.

(** ** Judging *)
Section Judge.
Context {R : Type} `{Rng R}.
Context (float_repr : Q -> string) (py_repr : string -> string).   (* [repr] *)
Context (rd : readings) (accepted : list (string * string)).   (* job_id -> kind *)
Abbreviation by_name := (by_name float_repr).

Definition state_of_job (j : string) : string := get (states rd) j "".
Definition no_state (s : string) : string := if decide (s = "") then "no state" else s.

(** [for job_id, kind in accepted.items(): c = f(job_id, kind, c)] *)
Fixpoint each_job {A} (f : string -> string -> A -> result exn A) (l : list (string * string))
    (c : A) : result exn A :=
  match l with
  | [] => Ok c
  | (j, k) :: r => c' <-! f j k c ;; each_job f r c'
  end.

(** *** I1: no loss *)
Definition i1_job (j kind : string) (c : Check) : result exn Check :=
  let state := state_of_job j in
  if decide (state <> "SUCCEEDED" /\ state <> "DEAD") then
    Ok (fail c (j +:+ " (" +:+ kind +:+ "): no terminal state"))
  else
    k <-! by_name kind ;;
    if decide (state <> terminal_value (expect k)) then
      Ok (fail c (j +:+ " (" +:+ kind +:+ "): " +:+ state +:+ ", expected " +:+
                  terminal_value (expect k)))
    else Ok c.

Definition check_i1 : result exn Check :=
  c <-! each_job i1_job accepted passes ;;
  let late := get (counters rd) "late_successes" 0 in
  if decide (late <> 0) then
    Ok (fail c ("late_successes = " +:+ str_of_Z late +:+ ": a job was transiently DEAD"))
  else Ok c.

Definition by_state : list (string * Z) :=
  Counter ((fun x => let s := state_of_job x.1 in if decide (s = "") then "NONE" else s) <$> accepted).

(** *** I2: no duplicate effects *)
Definition wanted (j : string) : Z := if decide (state_of_job j = "SUCCEEDED") then 1 else 0.

Definition i2_job (j kind : string) (c : Check * list string) :
    result exn (Check * list string) :=
  k <-! by_name kind ;;
  match effect k with
  | None => Ok c
  | Some prefix =>
      let key := prefix +:+ ":" +:+ j in
      let n := get (effects rd) key 0 in
      Ok (if decide (n <> wanted j) then
            fail c.1 (key +:+ " (" +:+ kind +:+ ", " +:+ no_state (state_of_job j) +:+ "): " +:+
                      str_of_Z n +:+ " effects")
          else c.1, c.2 ++ [key])
  end.

Definition check_i2 : result exn Check :=
  ck <-! each_job i2_job accepted (passes, []) ;;
  Ok (foldl (fun c key => fail c ("effect " +:+ key +:+ " (" +:+ str_of_Z (get (effects rd) key 0) +:+
                                  "x) belongs to no accepted job with effects"))
        ck.1 (filter (fun key => key ∉ ck.2) (effects rd).*1)).

Definition i2_detail : list (string * json) :=
  [("effects_logged", JInt (weight (fun _ => true) (effects rd)));
   ("distinct_keys", JInt (Z.of_nat (length (effects rd))));
   ("duplicated_keys", JInt (Z.of_nat (length (filter (fun e => 1 < e.2) (effects rd)))))].

(** *** I2b: no duplicate results *)
Definition i2b_job (j kind : string) (c : Check) : result exn Check :=
  let n := get (results rd) j 0 in
  Ok (if decide (n <> wanted j) then
        fail c (j +:+ " (" +:+ kind +:+ ", " +:+ no_state (state_of_job j) +:+ "): " +:+
                str_of_Z n +:+ " results")
      else c).

Definition check_i2b : result exn Check :=
  c <-! each_job i2b_job accepted passes ;;
  Ok (foldl (fun c j => fail c ("result for " +:+ j +:+ ", which was never accepted"))
        c (filter (fun j => j ∉ accepted.*1) (results rd).*1)).

Definition i2b_detail : list (string * json) :=
  [("results_logged", JInt (weight (fun _ => true) (results rd)));
   ("duplicated_job_ids", JInt (Z.of_nat (length (filter (fun e => 1 < e.2) (results rd)))))].

(** *** I3: the dead-letter queue *)
(** [dlq_by_job.setdefault(...).append(f)] *)
Definition dlq_by_job : list (string * list (list string)) :=
  foldl (fun d e => let j := default "?" (field "dlq_job_id" e.2) in
                    put d j (get d j [] ++ [e.2])) [] (dlq rd).

(** [needle in s] *)
Definition within (needle s : string) : bool :=
  match String.index 0 needle s with Some _ => true | None => false end.

Definition i3_entry (max_attempts max_deliveries : Z) (j kind : string) (k : Kind (R := R))
    (e : list string) (c : Check) : result exn Check :=
  reason <-! need "dlq_reason" e ;;
  if decide (Some reason <> dlq_reason k) then
    Ok (fail c (j +:+ " (" +:+ kind +:+ "): reason " +:+ reason +:+ ", expected " +:+
                default "None" (dlq_reason k)))
  else
  early <-! (if decide (kind = "crashy") then
               t <-! need "dlq_deliveries" e ;; n <-! to_int t ;; Ok (n <=? max_deliveries)
             else Ok false) ;;
  if early : bool then
    t <-! need "dlq_deliveries" e ;;
    Ok (fail c (j +:+ " (crashy): dead-lettered at delivery " +:+ t))
  else
  wrong <-! (if decide (kind = "poison" \/ kind = "hang_forever") then
               t <-! need "dlq_attempts" e ;; Ok (bool_decide (t <> str_of_Z max_attempts))
             else Ok false) ;;
  if wrong : bool then
    t <-! need "dlq_attempts" e ;;
    Ok (fail c (j +:+ " (" +:+ kind +:+ "): dead after " +:+ t +:+ " attempts"))
  else if decide (kind = "hang_forever") then
    x <-! need "dlq_error" e ;;
    Ok (if within "HandlerTimeout" x then c
        else fail c (j +:+ " (hang_forever): last error " +:+ py_repr (cut 80 x)))
  else Ok c.

Definition i3_job (max_attempts max_deliveries : Z) (j kind : string) (c : Check) :
    result exn Check :=
  k <-! by_name kind ;;
  let es := get dlq_by_job j [] in
  if decide (expect k <> DEAD) then
    Ok (match es with
        | [] => c
        | e :: _ => fail c (j +:+ " (" +:+ kind +:+ ") is in the DLQ (" +:+
                            default "None" (field "dlq_reason" e) +:+ ")")
        end)
  else match es with
       | [e] => i3_entry max_attempts max_deliveries j kind k e c
       | _ => Ok (fail c (j +:+ " (" +:+ kind +:+ "): " +:+
                          str_of_Z (Z.of_nat (length es)) +:+ " DLQ entries"))
       end.

Definition check_i3 (max_attempts max_deliveries : Z) (evidence : option (list (string * Z))) :
    result exn Check :=
  c <-! each_job (i3_job max_attempts max_deliveries) accepted passes ;;
  let c := foldl (fun c j => fail c ("DLQ entry for " +:+ j +:+ ", which was never accepted"))
             c (filter (fun j => j ∉ accepted.*1) dlq_by_job.*1) in
  let crashy_jobs := Z.of_nat (length (filter (fun x => x.2 = "crashy") accepted)) in
  Ok (match evidence with
      | Some ev =>
          let n := get ev "crash_restarts" 0 in
          if decide (crashy_jobs * max_deliveries < n) then
            fail c (str_of_Z n +:+ " crashy crashes > " +:+ str_of_Z crashy_jobs +:+
                    " crashy jobs x max_deliveries " +:+ str_of_Z max_deliveries +:+
                    ": a crashy job ran past max_deliveries")
          else c
      | None => c
      end).

Definition crashy_dlq_deliveries : result exn (list Z) :=
  let fs := dlq_by_job ≫= fun x => if decide (get accepted x.1 "" = "crashy") then x.2 else [] in
  ds <-! collect (fun e => t <-! need "dlq_deliveries" e ;; to_int t) fs ;;
  Ok (sorted ds).

Definition reasons : result exn (list (string * Z)) :=
  rs <-! collect (fun e : entry => need "dlq_reason" e.2) (dlq rd) ;; Ok (Counter rs).

(** *** I5: drained *)
Definition check_i5 : Check :=
  mk_Check (bool_decide (stream_len rd = pending_len rd /\ pending_len rd = delayed_len rd /\
                         delayed_len rd = 0))
    [("stream", JInt (stream_len rd)); ("pel", JInt (pending_len rd));
     ("delayed", JInt (delayed_len rd))] [].

(** *** I4: the faults happened, and W1: the workers stayed healthy *)
Definition check_i4 (evidence minimums : list (string * Z)) : Check :=
  let seen := foldl (fun d k => put d k (get (counters rd) k 0)) evidence
                ["reclaimed"; "duplicates_suppressed"; "timeouts"] in
  foldl (fun c m => if decide (get seen m.1 0 < m.2) then
                      fail c (m.1 +:+ " = " +:+ str_of_Z (get seen m.1 0) +:+ " < " +:+ str_of_Z m.2)
                    else c)
    (with_detail [("observed", ints seen); ("minimums", ints minimums)] passes) minimums.

Definition check_w1 (evidence : list (string * Z)) : Check :=
  let unexpected := get evidence "unexpected_exits" 0 in
  let errors := get evidence "error_log_lines" 0 in
  let c := with_detail [("unexpected_exits", JInt unexpected); ("error_log_lines", JInt errors)]
             passes in
  let c := if decide (unexpected <> 0) then
             fail c (str_of_Z unexpected +:+ " worker exit(s) not caused by a crashy job")
           else c in
  if decide (errors <> 0) then fail c (str_of_Z errors +:+ " ERROR line(s) in the worker logs") else c.

(** *** The report *)
(** How far other jobs' delivery counts climbed. *)
Definition others (reclaims : list (Z * Z)) (crashy : list Z) : list (Z * Z) :=
  filter (fun e => e.2 <> 0)
    (foldl (fun d n_dead =>
       foldl (fun d n => put d n (get d n 0 - 1)) d (seqZ 2 (n_dead - 1)))
       reclaims crashy).

Record report := mk_report {
  passed : bool;
  invariants : list (string * Check);
  all_counters : list (string * Z);
  reclaims_by_delivery : list (Z * Z);
  excluding_crashy : list (Z * Z);
  max_delivery : Z;
}.

Definition judge (max_attempts max_deliveries : Z) (evidence minimums : option (list (string * Z))) :
    result exn (list (string * Check) * list Z) :=
  i1 <-! check_i1 ;;
  i2 <-! check_i2 ;;
  i2b <-! check_i2b ;;
  i3 <-! check_i3 max_attempts max_deliveries evidence ;;
  crashy <-! crashy_dlq_deliveries ;;
  rs <-! reasons ;;
  Ok ([("I1_no_loss", with_detail [("jobs", JInt (Z.of_nat (length accepted)));
                                 ("states", ints by_state)] i1);
     ("I2_no_duplicate_effects", with_detail i2_detail i2);
     ("I2b_no_duplicate_results", with_detail i2b_detail i2b);
     ("I3_dlq_correct", with_detail [("dlq_entries", JInt (Z.of_nat (length (dlq rd))));
                                     ("reasons", ints rs);
                                     ("crashy_dlq_deliveries", JArr (JInt <$> crashy))] i3)] ++
    match evidence with
    | Some ev => [("I4_faults_happened", check_i4 ev (default Minimums minimums));
                  ("W1_workers_healthy", check_w1 ev)]
    | None => []
    end ++ [("I5_drained", check_i5)], crashy).

(** The rest of the report, from the reclaim histogram. *)
Definition finish (histogram : list (Z * Z)) (judged : list (string * Check) * list Z) : report :=
  let rest := others histogram judged.2 in
  mk_report (forallb (fun x => check_ok x.2) judged.1) judged.1 (counters rd)
    (sorted_items histogram) (sorted_items rest)
    (match last (sorted rest.*1) with Some n => n | None => 1 end).
End Judge.

(** ** verify *)
Section Verify.
Context {S T : Type} {R : Type} `{Rng R}.
Context (float_repr : Q -> string) (py_repr : string -> string).
Abbreviation co := (py S T).
#[local] Open Scope prog_scope.

(** [{int(k): int(v) for k, v in raw.items()}] *)
Fixpoint int_items (l : list (string * string)) : result exn (list (Z * Z)) :=
  match l with
  | [] => Ok []
  | (k, v) :: r => n <-! to_int k ;; c <-! to_int v ;; rest <-! int_items r ;; Ok ((n, c) :: rest)
  end.

(** The [f[name]] of a log's entries, counted. *)
Definition count_field (name : string) (log : list entry) : result exn (list (string * Z)) :=
  l <-! collect (fun e : entry => need name e.2) log ;; Ok (Counter l).

Definition gather (fuel : nat) (keys : Keys.t) (group : string) (job_ids : list string) :
    co (option readings) :=
  states <- _states keys job_ids ;;
  res <- _stream fuel (Keys.results keys) ;;
  eff <- _stream fuel (Keys.effects keys) ;;
  dead <- _stream fuel (Keys.dead keys) ;;
  match res, eff, dead with
  | Some res, Some eff, Some dead =>
      results <- lift (count_field "job_id" res) ;;
      effects <- lift (count_field "key" eff) ;;
      counters <- read_counters keys ;;
      n <- redis (XLEN (Keys.stream keys)) ;;
      pel <- redis (XPENDING_COUNT (Keys.stream keys) group) ;;
      delayed <- redis (ZCARD (Keys.delayed keys)) ;;
      Ret (Some (mk_readings states results effects dead counters n pel delayed))
  | _, _, _ => Ret None
  end.

Definition verify (fuel : nat) (keys : Keys.t) (group : string) (accepted : list (string * string))
    (max_attempts max_deliveries : Z) (evidence minimums : option (list (string * Z))) :
    co (option report) :=
  rd <- gather fuel keys group accepted.*1 ;;
  match rd with
  | Some rd =>
      judged <- lift (judge float_repr py_repr rd accepted max_attempts max_deliveries
                        evidence minimums) ;;
      raw <- redis (HGETALL (Keys.reclaims keys)) ;;
      histogram <- lift (int_items (map_to_list raw)) ;;
      Ret (Some (finish rd histogram judged))
  | None => Ret None
  end.
End Verify.
