(* ===== verification/Verdicts.v ===== *)
(** What the verifier's verdicts mean (Verifier.v) on the keys of a queue. *)
From stdpp Require Import relations.
From S2P Require Import Prelude Effects Redis Keys LuaScripts Queue Ops Refine.
From S2P Require Import Fields Streams Logs Invariants Machine System RedisRef Demo.
From S2P Require Import Safety.
From S2P Require Import Json Py Models Config Transitions Registry Reaper Client.
From S2P Require Import World Names.
From S2P Require Import Metrics Handlers Tables Random Mix Verifier.

#[local] Open Scope string_scope.
#[local] Open Scope list_scope.
#[local] Open Scope Z_scope.
#[local] Open Scope prog_scope.

(** ** The checks, as formulas over what was read *)
Section Judging.
Context {R : Type} `{Rng R} (float_repr : Q -> string) (rd : readings).
Context (accepted : list (string * string)).
Abbreviation kind_of := (by_name float_repr).

Lemma each_job_ok (f : string -> string -> Check -> result exn Check)
    (good : string -> string -> bool) l : forall c,
  (forall j k c, (j, k) ∈ l -> exists c', f j k c = Ok c' /\ check_ok c' = check_ok c && good j k) ->
  exists c', each_job f l c = Ok c' /\
    check_ok c' = check_ok c && forallb (fun x => good x.1 x.2) l.
Proof.
  induction l as [|[j k] l IH]; intros c Hf; cbn; [exists c; by rewrite andb_true_r|].
  destruct (Hf j k c) as (c1 & -> & H1); [left|]. cbn.
  destruct (IH c1) as (c2 & -> & H2); [intros; apply Hf; by right|].
  exists c2. split; [done|]. by rewrite H2, H1, andb_assoc.
Qed.

Lemma fail_all {A} (msg : A -> string) (l : list A) : forall c,
  check_ok (foldl (fun c x => fail c (msg x)) c l) = check_ok c && bool_decide (l = []).
Proof.
  induction l as [|x l IH]; intros c; cbn; [by rewrite andb_true_r|].
  rewrite IH. cbn. by rewrite andb_false_r.
Qed.

Lemma forallb_iff {A} (p : A -> bool) (P : A -> Prop) l :
  (forall x, x ∈ l -> p x = true <-> P x) -> forallb p l = true <-> forall x, x ∈ l -> P x.
Proof.
  intros Hp. rewrite forallb_forall. split; intros Hl x Hx.
  - apply Hp; [done|]. by apply Hl, list_elem_of_In.
  - apply list_elem_of_In in Hx. apply Hp; [done|]. by apply Hl.
Qed.

Lemma filter_none {A} (P : A -> Prop) `{!forall x, Decision (P x)} l :
  filter P l = [] <-> forall x, x ∈ l -> ~ P x.
Proof.
  split.
  - intros Hn x Hx HP. apply (not_elem_of_nil x). rewrite <- Hn. by apply list_elem_of_filter.
  - intros Hn. apply elem_of_nil_inv. intros x [HP Hx]%list_elem_of_filter. by apply (Hn x).
Qed.

Context (Hkinds : forall x, x ∈ accepted -> exists k, kind_of x.2 = Ok k).

(** *** I1 *)
Definition ends_right (j kind : string) : Prop :=
  exists k, kind_of kind = Ok k /\ state_of_job rd j = terminal_value (expect k).

Lemma i1_verdict : exists c, check_i1 float_repr rd accepted = Ok c /\
  (check_ok c = true <->
     (forall x, x ∈ accepted -> ends_right x.1 x.2) /\ get (counters rd) "late_successes" 0 = 0).
Proof.
  destruct (each_job_ok (i1_job float_repr rd) (fun j kind => match kind_of kind with
    | Ok k => bool_decide (state_of_job rd j = terminal_value (expect k)) | Err _ => false end)
    accepted passes) as (c & Hc & Hok).
  - intros j kind c Hin. destruct (Hkinds _ Hin) as [k Hk]. cbn in Hk. rewrite Hk.
    unfold i1_job. rewrite Hk. case_decide as Hst.
    + eexists. split; [done|]. cbn. rewrite bool_decide_false; [by rewrite andb_false_r|].
      intros Heq. rewrite Heq in Hst. destruct (expect k); cbn in Hst; tauto.
    + cbn [and_then]. destruct (decide (state_of_job rd j = terminal_value (expect k))) as [Heq|Hne].
      * rewrite decide_False, bool_decide_true by tauto. exists c. by rewrite andb_true_r.
      * rewrite decide_True, bool_decide_false by done. eexists. split; [done|].
        cbn. by rewrite andb_false_r.
  - unfold check_i1. rewrite Hc. cbn [and_then].
    assert (Hiff : check_ok c = true <-> forall x, x ∈ accepted -> ends_right x.1 x.2).
    { rewrite Hok. cbn [check_ok passes andb]. apply forallb_iff. intros x Hx.
      destruct (Hkinds x Hx) as [k Hk]. unfold ends_right. rewrite Hk, bool_decide_eq_true.
      split; [by exists k|]. intros (k' & [= <-] & Hs). done. }
    destruct (decide (get (counters rd) "late_successes" 0 = 0)) as [Hl|Hl].
    + rewrite decide_False by tauto. exists c. split; [done|]. rewrite Hiff. tauto.
    + rewrite decide_True by done. eexists. split; [done|]. cbn. split; [done|]. by intros [_ ?].
Qed.

(** *** I2 *)
Definition effect_key (j kind : string) : option string :=
  match kind_of kind with
  | Ok k => (fun p => p +:+ ":" +:+ j) <$> effect k
  | Err _ => None
  end.

Lemma i2_jobs l : forall c keys, (forall x, x ∈ l -> x ∈ accepted) ->
  exists c', each_job (i2_job float_repr rd) l (c, keys) =
      Ok (c', keys ++ omap (fun x => effect_key x.1 x.2) l) /\
    (check_ok c' = true <-> check_ok c = true /\
       forall x key, x ∈ l -> effect_key x.1 x.2 = Some key -> get (effects rd) key 0 = wanted rd x.1).
Proof.
  induction l as [|[j kind] l IH]; intros c keys Hl; cbn.
  { exists c. rewrite app_nil_r. split; [done|]. split; [|tauto]. intros Hc. split; [done|].
    by intros x key ?%elem_of_nil. }
  destruct (Hkinds (j, kind)) as [k Hk]; [apply Hl; left|]. cbn in Hk.
  assert (Hl' : forall x, x ∈ l -> x ∈ accepted) by (intros; apply Hl; by right).
  unfold i2_job at 1. rewrite Hk. cbn [and_then].
  assert (Hkey : effect_key j kind = (fun p => p +:+ ":" +:+ j) <$> effect k)
    by (unfold effect_key; by rewrite Hk).
  destruct (effect k) as [p|] eqn:Hp; cbn [and_then] in *.
  - destruct (IH (if decide (get (effects rd) (p +:+ ":" +:+ j) 0 <> wanted rd j) then
        fail c ((p +:+ ":" +:+ j) +:+ " (" +:+ kind +:+ ", " +:+ no_state (state_of_job rd j) +:+ "): " +:+
                str_of_Z (get (effects rd) (p +:+ ":" +:+ j) 0) +:+ " effects") else c)
      (keys ++ [p +:+ ":" +:+ j]) Hl') as (c' & Hc' & Hok).
    exists c'. split.
    { etrans; [exact Hc'|]. rewrite Hkey. cbn. by rewrite <- app_assoc. }
    rewrite Hok. split.
    + intros [Hd Hall].
      destruct (decide (get (effects rd) (p +:+ ":" +:+ j) 0 = wanted rd j)) as [Heq|Hne].
      * rewrite decide_False in Hd by tauto. split; [done|].
        intros x key [->|Hx]%elem_of_cons; [|by apply Hall]. cbn. rewrite Hkey. by intros [= <-].
      * by rewrite decide_True in Hd.
    + intros [Hc Hall]. split; [|intros x key Hx; apply Hall; by right].
      rewrite decide_False; [done|]. intros Hne. apply Hne, (Hall (j, kind)); [left|]. cbn.
      by rewrite Hkey.
  - destruct (IH c keys Hl') as (c' & Hc' & Hok). exists c'. rewrite Hkey. cbn. split; [done|].
    rewrite Hok. split; intros [Hc Hall]; (split; [done|]); intros x key.
    + intros [->|Hx]%elem_of_cons; [cbn; by rewrite Hkey|by apply Hall].
    + intros Hx. apply Hall. by right.
Qed.

Lemma i2_verdict : exists c, check_i2 float_repr rd accepted = Ok c /\
  (check_ok c = true <->
     (forall x key, x ∈ accepted -> effect_key x.1 x.2 = Some key ->
        get (effects rd) key 0 = wanted rd x.1) /\
     (forall key, key ∈ (effects rd).*1 ->
        exists x, x ∈ accepted /\ effect_key x.1 x.2 = Some key)).
Proof.
  destruct (i2_jobs accepted passes []) as (c & Hc & Hok); [done|].
  unfold check_i2. rewrite Hc. cbn [and_then fst snd app]. eexists. split; [done|].
  rewrite fail_all, andb_true_iff, Hok, bool_decide_eq_true, filter_none.
  cbn [check_ok passes]. split; intros [H1 H2]; (split; [tauto|]).
  - intros key Hk. specialize (H2 key Hk). apply dec_stable in H2.
    apply list_elem_of_omap in H2 as (x & Hx & Hkey). by exists x.
  - intros key Hk Hn. destruct (H2 key Hk) as (x & Hx & Hkey). apply Hn, list_elem_of_omap. by exists x.
Qed.

(** *** I2b *)
Lemma i2b_verdict : exists c, check_i2b rd accepted = Ok c /\
  (check_ok c = true <->
     (forall x, x ∈ accepted -> get (results rd) x.1 0 = wanted rd x.1) /\
     (forall j, j ∈ (results rd).*1 -> j ∈ accepted.*1)).
Proof.
  destruct (each_job_ok (i2b_job rd) (fun j _ => bool_decide (get (results rd) j 0 = wanted rd j))
    accepted passes) as (c & Hc & Hok).
  - intros j k c _. eexists. split; [done|].
    destruct (decide (get (results rd) j 0 = wanted rd j)) as [Heq|Hne].
    + rewrite decide_False, bool_decide_true by tauto. by rewrite andb_true_r.
    + rewrite decide_True, bool_decide_false by done. cbn. by rewrite andb_false_r.
  - unfold check_i2b. rewrite Hc. cbn [and_then]. eexists. split; [done|].
    rewrite fail_all, andb_true_iff, Hok, bool_decide_eq_true, filter_none. cbn [check_ok passes andb].
    rewrite (forallb_iff _ (fun x => get (results rd) x.1 0 = wanted rd x.1))
      by (intros; by rewrite bool_decide_eq_true).
    split; intros [H1 H2]; (split; [done|]); intros j Hj.
    + by apply dec_stable, H2.
    + intros Hn. by apply Hn, H2.
Qed.
End Judging.

(** ** What it reads *)
Section Gathering.
Context `{CJson} {S Tk : Type}.
Abbreviation awp := (wp (@alone _ S Tk)).

Lemma page_pos : (0 < Verifier._PAGE)%nat.
Proof. unfold Verifier._PAGE. lia. Qed.
Lemma pipe_pos : (0 < _PIPE)%nat.
Proof. unfold _PIPE. lia. Qed.

(** [key] holds the stream [l], as far as XRANGE goes. *)
Definition streams (v : rview) (key : string) (l : list entry) : Prop :=
  (forall lo n r v', doc (XRANGE key lo BMax (Some n)) v r v' ->
     v' = v /\ r = Ok (take n (in_range lo BMax l))) /\
  StronglySorted (fun a b : entry => eid_lt a.1 b.1) l.

Lemma range_rest (l out rest : list entry) (lo : bound) :
  l = out ++ rest -> Forall (fun e => ~ above lo e.1) out -> Forall (fun e => above lo e.1) rest ->
  in_range lo BMax l = rest.
Proof.
  intros -> Ho Hr. unfold in_range. rewrite filter_app.
  rewrite (filter_all _ rest) by (eapply Forall_impl; [exact Hr|]; intros e He; by split).
  replace (filter _ out) with (@nil entry); [done|]. symmetry. apply filter_none.
  rewrite Forall_forall in Ho. intros e He [Ha _]. by apply (Ho e).
Qed.

Lemma stream_loop (key : string) (l : list entry) (v : rview) : streams v key l ->
  forall fuel lo out rest, l = out ++ rest ->
  Forall (fun e => ~ above lo e.1) out -> Forall (fun e => above lo e.1) rest ->
  (length rest < fuel * Verifier._PAGE)%nat ->
  awp (loop fuel (stream_page key) (lo, out)) v (fun r v' => v' = v /\ r = Ok (inr l)).
Proof.
  intros [Hd Hs]. induction fuel as [|fuel IH]; intros lo out rest Hl Ho Hr Hf; [cbn in Hf; lia|].
  cbn [loop stream_page fst snd]. apply wp_bind, wp_bind, alone_cmd. intros x v1 Hx.
  apply Hd in Hx as [-> ->]. cbn [of_reply fst snd]. rewrite (range_rest l out rest lo) by done.
  destruct (Nat.ltb_spec (length (take Verifier._PAGE rest)) Verifier._PAGE) as [Hlt|Hge].
  - do 2 apply wp_ret. split; [done|]. rewrite length_take in Hlt.
    rewrite take_ge by lia. by rewrite Hl.
  - pose proof page_pos. rewrite length_take in Hge.
    destruct (last (take Verifier._PAGE rest)) as [z|] eqn:Hlast.
    2: { apply last_None, (f_equal length) in Hlast. rewrite length_take in Hlast. change (length []) with O in Hlast. lia. }
    apply last_Some in Hlast as [page Hp]. apply wp_ret.
    assert (Hsp : StronglySorted (fun a b : entry => eid_lt a.1 b.1)
      ((out ++ page ++ [z]) ++ drop Verifier._PAGE rest)).
    { rewrite <- Hp, <- app_assoc, take_drop. by rewrite <- Hl. }
    assert (Hle : forall e, e ∈ out ++ page -> eid_lt e.1 z.1).
    { intros e He. apply (StronglySorted_app_1_elem_of (fun a b : entry => eid_lt a.1 b.1)
        (out ++ page) ([z] ++ drop Verifier._PAGE rest)); [|done|left].
      by rewrite !app_assoc in Hsp |- *. }
    assert (Hlt : forall e : entry, eid_lt e.1 z.1 -> ~ above (BExcl z.1) e.1).
    { intros e He Hlt. apply (eid_lt_irrefl z.1). by eapply eid_lt_trans. }
    apply (IH (BExcl z.1) (out ++ take Verifier._PAGE rest) (drop Verifier._PAGE rest)).
    + by rewrite <- app_assoc, take_drop.
    + rewrite Hp. apply Forall_app. split; [|apply Forall_app; split].
      * eapply Forall_impl; [|exact Hlt]. rewrite Forall_forall. intros e He.
        apply Hle, elem_of_app. by left.
      * eapply Forall_impl; [|exact Hlt]. rewrite Forall_forall. intros e He.
        apply Hle, elem_of_app. by right.
      * apply Forall_singleton. cbn. apply eid_lt_irrefl.
    + rewrite <- app_assoc in Hsp. apply StronglySorted_app_1_r in Hsp. rewrite <- app_assoc in Hsp.
      apply StronglySorted_app_1_r in Hsp. by apply StronglySorted_inv in Hsp as [_ Hsp].
    + rewrite length_drop. rewrite Nat.mul_succ_l in Hf. lia.
Qed.

Lemma stream_wp (key : string) (l : list entry) (v : rview) fuel : streams v key l ->
  (length l < fuel * Verifier._PAGE)%nat ->
  awp (_stream fuel key) v (fun r v' => v' = v /\ r = Ok (Some l)).
Proof.
  intros Hs Hf. unfold _stream. apply wp_bind.
  eapply wp_mono; [apply (stream_loop key l v Hs fuel BMin [] l); try done|].
  - by apply Forall_true.
  - intros r v' [-> ->]. by apply wp_ret.
Qed.

(** A pipeline of reads. *)
Lemma pipe_reads {A B : Type} (f : A -> py S Tk B) (g : A -> B) (v : rview) (l : list A) :
  (forall x Q, Q (Ok (g x)) v -> awp (f x) v Q) ->
  awp (pipe (f <$> l)) v (fun r v' => v' = v /\ r = Ok (g <$> l)).
Proof.
  intros Hf. unfold pipe. apply wp_bind.
  apply (wp_mono _ _ _ (fun r v' => v' = v /\ r = Ok ((fun x => Ok (g x)) <$> l))).
  - induction l as [|x l IH]; [done|]. cbn [fmap list_fmap settle_all]. apply wp_bind, wp_settle, Hf.
    cbn beta. apply wp_bind. eapply wp_mono; [exact IH|]. by intros r v' [-> ->].
  - intros r v' [-> ->]. apply wp_lift. split; [done|]. clear Hf.
    induction l as [|x l IH]; [done|]. cbn [fmap list_fmap first_err]. by rewrite IH.
Qed.

Definition put_all (g : string -> string) (d : list (string * string)) (l : list string) :=
  foldl (fun d j => put d j (g j)) d l.

Lemma put_all_get g l : forall d j, get (put_all g d l) j "" = if decide (j ∈ l) then g j else get d j "".
Proof.
  induction l as [|x l IH]; intros d j; cbn [put_all foldl]; [by rewrite decide_False by apply not_elem_of_nil|].
  fold (put_all g (put d x (g x)) l). rewrite IH, get_put.
  destruct (decide (j ∈ l)) as [Hin|Hin]; [by rewrite decide_True by by right|].
  destruct (decide (j = x)) as [->|Hne]; [by rewrite decide_True by left|].
  rewrite decide_False; [done|]. rewrite elem_of_cons. tauto.
Qed.

Lemma states_wp (K : Keys.t) (js : list string) (v : rview) (g : string -> option string) :
  (forall j r v', doc (HGET (Keys.done K j) "state") v r v' -> v' = v /\ r = Ok (g j)) ->
  awp (_states K js) v (fun r v' => v' = v /\
    exists st, r = Ok st /\ forall j, j ∈ js -> get st j "" = default "" (g j)).
Proof.
  intros Hd. unfold _states.
  assert (Hgo : forall cs d, awp (for_each cs (fun chunk states =>
      answers <- pipe ((fun j => redis (HGET (Keys.done K j) "state")) <$> chunk) ;;
      Ret (foldl (fun d x => put d x.1 (default "" x.2)) states (zip chunk answers))) d) v
    (fun r v' => v' = v /\ r = Ok (put_all (fun j => default "" (g j)) d (concat cs)))).
  { induction cs as [|c cs IH]; intros d; [done|]. cbn [for_each concat]. apply wp_bind, wp_bind.
    eapply wp_mono.
    - apply (pipe_reads _ g). intros j Q HQ. apply alone_cmd. intros r v' Hr.
      by apply Hd in Hr as [-> ->].
    - intros r v' [-> ->]. apply wp_ret.
      assert (Hz : foldl (fun d x => put d x.1 (default "" x.2)) d (zip c (g <$> c)) =
        put_all (fun j => default "" (g j)) d c).
      { clear. revert d. induction c as [|j c IH]; intros d; [done|]. cbn. apply IH. }
      rewrite Hz. eapply wp_mono; [apply IH|]. intros r v' [-> ->]. split; [done|].
      unfold put_all. by rewrite foldl_app. }
  eapply wp_mono; [apply Hgo|]. intros r v' [-> ->]. split; [done|]. eexists. split; [done|].
  intros j Hj. rewrite chunks_concat by (try apply pipe_pos; done).
  by rewrite put_all_get, decide_True.
Qed.

Lemma collect_ok {A B : Type} (f : A -> result exn B) (g : A -> B) l :
  (forall x, x ∈ l -> f x = Ok (g x)) -> collect f l = Ok (g <$> l).
Proof.
  intros Hf. induction l as [|x l IH]; [done|]. cbn. rewrite Hf by left. cbn.
  rewrite IH; [done|]. intros y Hy. apply Hf. by right.
Qed.

Lemma count_ok (name : string) (log : list entry) :
  (forall e, e ∈ log -> is_Some (field name e.2)) ->
  count_field name log = Ok (Counter (logged name log)).
Proof.
  intros Hn. unfold count_field. rewrite (collect_ok _ (fun e : entry => default "" (field name e.2))); [done|].
  intros e He. unfold need. destruct (Hn e He) as [x Hx]. by rewrite Hx.
Qed.

(** What the readings should say of the keys. *)
Record read_right (K : Keys.t) (G : string) (v : rview) (js : list string) (rd : readings) : Prop := {
  rr_states : forall j, j ∈ js -> state_of_job rd j = default "" (job_state K j v);
  rr_results : results rd = Counter (logged "job_id" (entries_at (Keys.results K) v));
  rr_effects : effects rd = Counter (logged "key" (entries_at (Keys.effects K) v));
  rr_dlq : dlq rd = entries_at (Keys.dead K) v;
  rr_counters : counters rd = (fun n => (n, counter K n v)) <$> COUNTERS;
  rr_stream : stream_len rd = Z.of_nat (length (entries_at (Keys.stream K) v));
  rr_pending : pending_len rd = Z.of_nat (size (pel (group_at (Keys.stream K) G v)));
  rr_delayed : delayed_len rd = Z.of_nat (size (zset_at (Keys.delayed K) v));
}.

Lemma log_streams K G T v q a s : rep K G T v q -> qval G q a = AStream s ->
  ids_ok (entries s) (last_id s) -> streams v (render K a) (entries s).
Proof.
  intros Hr Ha [Hs _ _]. split; [|done]. intros lo n r v' [-> Hd]. split; [done|].
  by rewrite (rep_stream K G T v q a s Hr Ha) in Hd.
Qed.

Lemma gather_wp (K : Keys.t) (G : string) (T : bool) (v : rview) q A D fuel js :
  rep K G T v q -> inv q A D ->
  (forall e, e ∈ entries (q_effects q) -> field "key" e.2 = Some (effect_of e.2)) ->
  (length (entries (q_results q)) < fuel * Verifier._PAGE)%nat ->
  (length (entries (q_effects q)) < fuel * Verifier._PAGE)%nat ->
  (length (entries (q_dead q)) < fuel * Verifier._PAGE)%nat ->
  awp (gather fuel K G js) v (fun r v' => v' = v /\ exists rd, r = Ok (Some rd) /\ read_right K G v js rd).
Proof.
  intros Hr Hi Hkey H1 H2 H3. unfold gather.
  apply wp_bind. eapply wp_mono; [apply (states_wp K js v (fun j => q_rec j q !! "state"))|].
  { intros j r v' Hd. by apply (rep_hget K G T v q) in Hd as [-> ->]. }
  intros r v' (-> & st & -> & Hst). apply wp_bind.
  eapply wp_mono; [by apply (stream_wp _ (entries (q_results q)));
    [apply (log_streams K G T v q KResults); [| |apply (inv_results _ _ _ Hi)]|]|].
  intros r v' [-> ->]. apply wp_bind.
  eapply wp_mono; [by apply (stream_wp _ (entries (q_effects q)));
    [apply (log_streams K G T v q KEffects); [| |apply (inv_effects _ _ _ Hi)]|]|].
  intros r v' [-> ->]. apply wp_bind.
  eapply wp_mono; [by apply (stream_wp _ (entries (q_dead q)));
    [apply (log_streams K G T v q KDead); [| |apply (inv_dlq _ _ _ Hi)]|]|].
  intros r v' [-> ->].
  rewrite (count_ok "job_id") by apply (inv_results _ _ _ Hi).
  rewrite (count_ok "key") by (intros e He; rewrite (Hkey e He); by eexists). cbn [lift bind].
  apply wp_bind, wp_bind, alone_cmd. intros x v1 [-> Hd].
  change (Keys.stats K) with (render K KStats) in Hd.
  rewrite (rep_hash K G T v q KStats _ Hr eq_refl) in Hd. subst x. cbn [of_reply].
  rewrite counts_ok. apply wp_lift. apply wp_bind, alone_cmd. intros x v1 Hd.
  apply (rep_xlen K G T v q) in Hd as [-> ->]; [|done]. cbn [of_reply].
  apply wp_bind, alone_cmd. intros x v1 [-> Hd]. rewrite (rep_get_group K G T v q Hr) in Hd.
  cbn [pel] in Hd. subst x. cbn [of_reply].
  apply wp_bind, alone_cmd. intros x v1 Hd.
  apply (rep_zcard K G T v q) in Hd as [-> ->]; [|done]. cbn [of_reply]. apply wp_ret.
  split; [done|]. eexists. split; [done|].
  split; cbn [states results effects dlq counters stream_len pending_len delayed_len];
    rewrite ?(entries_results Hr), ?(entries_effects Hr), ?(entries_dead Hr), ?(entries_stream Hr),
      ?(group_stream Hr), ?(zset_delayed Hr); try done.
  - intros j Hj. unfold state_of_job. cbn [states]. rewrite Hst by done. by rewrite (state_done Hr).
  - apply list_fmap_ext. intros i n _. by rewrite (counter_stat Hr).
Qed.
End Gathering.

(** ** The verdicts *)
Section Verdict.
Context `{CJson} {R : Type} `{Rng R} (float_repr : Q -> string).
Context (K : Keys.t) (G : string) (v : rview) (accepted : list (string * string)) (rd : readings).
Context (Hrd : read_right K G v accepted.*1 rd).

Lemma once_count (l : list string) (x : string) : NoDup l ->
  get (Counter l) x 0 = if decide (x ∈ l) then 1 else 0.
Proof.
  intros Hl. rewrite Counter_get. induction Hl as [|y l Hy Hl IH]; [done|].
  rewrite filter_cons. destruct (decide (y = x)) as [->|Hne].
  - rewrite decide_True by left. cbn [length]. rewrite decide_False in IH by done. lia.
  - rewrite IH. destruct (decide (x ∈ l)); [by rewrite decide_True by by right|].
    rewrite decide_False; [done|]. rewrite elem_of_cons. intros [->|]; tauto.
Qed.

(** A log without repetition agrees with the states exactly when its members do. *)
Lemma count_wanted (l : list string) (x j : string) : NoDup l ->
  get (Counter l) x 0 = wanted rd j <-> (x ∈ l <-> state_of_job rd j = "SUCCEEDED").
Proof.
  intros Hl. rewrite once_count by done. unfold wanted.
  repeat case_decide; split; intros; try done; tauto.
Qed.

Lemma state_read x s : x ∈ accepted -> s <> "" ->
  state_of_job rd x.1 = s <-> job_state K x.1 v = Some s.
Proof using Hrd.
  intros Hx Hs. rewrite (rr_states _ _ _ _ _ Hrd) by by apply list_elem_of_fmap_2.
  destruct (job_state K x.1 v) as [s'|]; cbn; [split; congruence|]. split; [|done].
  intros <-. done.
Qed.

Lemma counter_read n : n ∈ COUNTERS -> get (counters rd) n 0 = counter K n v.
Proof using Hrd.
  intros Hn. rewrite (rr_counters _ _ _ _ _ Hrd). revert Hn.
  induction COUNTERS as [|m l IH]; [by intros ?%elem_of_nil|]. cbn.
  intros [->|Hn]%elem_of_cons; [by rewrite decide_True|]. case_decide; [by subst|by apply IH].
Qed.

Context (T : bool) (q : queue) (A : gset string) (D : gset entry).
Context (Hr : rep K G T v q) (Hi : inv q A D).
Context (Hkinds : forall x, x ∈ accepted -> exists k, by_name float_repr x.2 = Ok k).
Context (Hkey : forall e, e ∈ entries_at (Keys.effects K) v -> field "key" e.2 = Some (effect_of e.2)).

Lemma i1_keys : exists c, check_i1 float_repr rd accepted = Ok c /\
  (check_ok c = true <->
     (forall x, x ∈ accepted -> exists k, by_name float_repr x.2 = Ok k /\
        job_state K x.1 v = Some (terminal_value (expect k))) /\
     counter K "late_successes" v = 0).
Proof using Hrd Hkinds.
  destruct (i1_verdict float_repr rd accepted Hkinds) as (c & Hc & Hok). exists c. split; [done|].
  rewrite Hok, counter_read by (apply (bool_decide_eq_true_1 _); reflexivity).
  unfold ends_right. split; intros [Ha Hb]; (split; [|done]); intros x Hx;
    destruct (Ha x Hx) as (k & Hk & Hst); exists k; (split; [done|]);
    by apply (state_read x) in Hst; [|done|by destruct (expect k)].
Qed.

Lemma logged_keys : logged "key" (entries_at (Keys.effects K) v) = effect_keys (q_effects q).
Proof using Hr Hkey.
  pose proof Hkey as Hk. rewrite (entries_effects Hr) in Hk |- *. unfold logged, effect_keys.
  apply list_fmap_ext. intros i e He. rewrite Hk; [done|]. by eapply list_elem_of_lookup_2.
Qed.

Lemma i2_keys : exists c, check_i2 float_repr rd accepted = Ok c /\
  (check_ok c = true <->
     (forall x key, x ∈ accepted -> effect_key float_repr x.1 x.2 = Some key ->
        (is_Some (look (Keys.ledger K key) v) <-> job_state K x.1 v = Some "SUCCEEDED")) /\
     (forall e, e ∈ entries_at (Keys.effects K) v ->
        exists x, x ∈ accepted /\ effect_key float_repr x.1 x.2 = Some (effect_of e.2))).
Proof using Hrd Hr Hi Hkinds Hkey.
  destruct (i2_verdict float_repr rd accepted Hkinds) as (c & Hc & Hok). exists c. split; [done|].
  destruct (inv_effects _ _ _ Hi) as [He1 He2 _].
  rewrite Hok, (rr_effects _ _ _ _ _ Hrd), logged_keys. split; intros [Ha Hb]; split.
  - intros x key Hx Hk. specialize (Ha x key Hx Hk). apply count_wanted in Ha; [|done].
    rewrite (marker_exists Hr), <- He2, Ha. by apply state_read.
  - intros e He. apply Hb. rewrite Counter_keys. rewrite (entries_effects Hr) in He.
    by apply (list_elem_of_fmap_2 (fun e : entry => effect_of e.2)).
  - intros x key Hx Hk. apply count_wanted; [done|].
    rewrite He2, <- (marker_exists Hr), (Ha x key Hx Hk). symmetry. by apply state_read.
  - intros key Hk. rewrite Counter_keys in Hk. apply list_elem_of_fmap in Hk as (e & -> & He).
    apply Hb. by rewrite (entries_effects Hr).
Qed.

Lemma i2b_keys : exists c, check_i2b rd accepted = Ok c /\
  (check_ok c = true <->
     forall j, j ∈ logged "job_id" (entries_at (Keys.results K) v) -> j ∈ accepted.*1).
Proof using Hrd Hr Hi.
  destruct (i2b_verdict rd accepted) as (c & Hc & Hok). exists c. split; [done|].
  destruct (inv_results _ _ _ Hi) as [Hr1 Hr2 _ _].
  rewrite Hok, (rr_results _ _ _ _ _ Hrd), (entries_results Hr). fold (result_jobs (q_results q)).
  split.
  - intros [_ Ha] j Hj. apply Ha. by rewrite Counter_keys.
  - intros Ha. split; [|intros j Hj; apply Ha; by rewrite Counter_keys in Hj].
    intros x Hx. apply count_wanted; [done|].
    rewrite state_read by done. by rewrite (state_done Hr).
Qed.

Lemma i5_keys : check_ok (check_i5 rd) = true <->
  entries_at (Keys.stream K) v = [] /\ zset_at (Keys.delayed K) v = ∅.
Proof using Hrd Hr Hi.
  unfold check_i5. cbn [check_ok]. rewrite bool_decide_eq_true.
  rewrite (rr_stream _ _ _ _ _ Hrd), (rr_pending _ _ _ _ _ Hrd), (rr_delayed _ _ _ _ _ Hrd).
  rewrite (group_stream Hr), (entries_stream Hr). cbn [pel q_group]. split.
  - intros (Ha & Hb & Hc). split; [apply nil_length_inv; lia|apply map_size_empty_inv; lia].
  - intros [Ha ->]. rewrite Ha, map_size_empty. cbn.
    assert (q_pel q = ∅) as ->; [|done]. apply map_empty. intros i.
    destruct (q_pel q !! i) as [l|] eqn:Hl; [|done].
    destruct (so_pel _ _ _ _ _ (inv_stream _ _ _ Hi) i) as [fs Hfs]; [by eexists|].
    rewrite Ha in Hfs. by apply elem_of_nil in Hfs.
Qed.
End Verdict.


Definition demo_accepted : list (string * string) :=
  [("j1", "normal"); ("j2", "cpu"); ("j3", "poison")].
Definition no_repr (_ : Q) : string := "".
Definition demo_gather : result exn (option readings) * rview :=
  run (ref_alone (S := unit) (Tk := unit) tt) (gather 1 k0 g0 demo_accepted.*1) (s_view state3).

Lemma demo_gather_runs :
  runs alone (gather (S := unit) (T := unit) 1 k0 g0 demo_accepted.*1) (s_view state3)
    demo_gather.1 demo_gather.2.
Proof.
  exact (runs_run alone (fun v => v) (ref_alone tt) (ref_alone_ok tt)
    (gather (S := unit) (T := unit) 1 k0 g0 demo_accepted.*1) (s_view state3)).
Qed.

