(* ===== verification/Logging.v ===== *)
(** Structured logs (src/ftq/logs.py): what a record is printed as.

    A record's [extra] and attributes are tables of values; the time stamp's text, the
    classic text line and the traceback's text are the standard library's: parameters. *)
From S2P Require Import Prelude Json Tables.

#[local] Open Scope string_scope.
#[local] Open Scope list_scope.

Definition CONTEXT_FIELDS : list string :=
  ["worker_id"; "job_id"; "job_type"; "attempt"; "entry_id"].

Record LogRecord := mk_LogRecord {
  created : Q;
  levelname : string;
  logger : string;
  message : string;                     (* [record.getMessage()] *)
  exc_info : bool;
  attributes : list (string * json);    (* what [extra] put on the record *)
}.

(** [hasattr(record, name)], [getattr(record, name)] *)
Definition attribute (r : LogRecord) (name : string) : option json :=
  get (prod_map id Some <$> attributes r) name None.

(** The context fields the record has, in the fixed order. *)
Definition context (r : LogRecord) : list (string * json) :=
  omap (fun n => v ← attribute r n; Some (n, v)) CONTEXT_FIELDS.

(** [{**a, **b}] *)
Definition merged {V} (a b : list (string * V)) : list (string * V) :=
  foldl (fun d e => put d e.1 e.2) a b.

Module JsonFormatter.
Definition format (isoformat : Q -> string) (traceback : LogRecord -> string) (r : LogRecord) :
    string :=
  dumps_spaced (JObj ([("ts", JStr (isoformat (created r))); ("level", JStr (levelname r));
                ("logger", JStr (logger r)); ("msg", JStr (message r))] ++ context r ++
               (if exc_info r then [("exc", JStr (traceback r))] else []))).
End JsonFormatter.

Module TextFormatter.
(** [shown] is [str(x)]. *)
Definition format (classic : LogRecord -> string) (shown : json -> string) (r : LogRecord) :
    string :=
  match context r with
  | [] => classic r
  | c => classic r +:+ " [" +:+
         String.concat " " ((fun x => x.1 +:+ "=" +:+ shown x.2) <$> c) +:+ "]"
  end.
End TextFormatter.
Module ContextLogger.
(** A call's keyword arguments: its [extra], which may be missing, and the others. *)
Definition process {V M A} (extra : option (list (string * V))) (msg : M)
    (kwargs : option (list (string * V)) * A) : M * (option (list (string * V)) * A) :=
  (msg, (Some (merged (default [] extra) (default [] kwargs.1)), kwargs.2)).
End ContextLogger.

(** The context never overrides what a call says, and says the rest. *)
Lemma merged_get {V} (a b : list (string * V)) n (d : V) : NoDup b.*1 ->
  get (merged a b) n d = match get (prod_map id Some <$> b) n None with
                         | Some v => v
                         | None => get a n d
                         end.
Proof.
  unfold merged. revert a. induction b as [|[k v] b IH]; intros a Hb; [done|].
  cbn [fmap list_fmap fst] in Hb. apply NoDup_cons in Hb as [Hk Hb]. cbn [foldl fst snd].
  rewrite IH, get_put by done. cbn. destruct (decide (k = n)) as [->|Hne].
  - rewrite decide_True by done. rewrite get_out; [done|].
    rewrite <- list_fmap_compose. intros (x & -> & Hx)%list_elem_of_fmap.
    apply Hk. by apply list_elem_of_fmap_2.
  - by rewrite decide_False by congruence.
Qed.
