(* ===== verification/Bench.v ===== *)
(** [ftq bench] (src/ftq/bench.py): enqueue a batch of jobs, wait for the workers, count. *)
From S2P Require Import Prelude Effects Redis Keys LuaScripts Queue Ops Refine.
From S2P Require Import Fields Streams.
From S2P Require Import Logs Invariants Machine System Json.
From S2P Require Import Py Models Config Transitions Registry Reaper Client World.
From S2P Require Import Names Metrics.
From S2P Require Import Tables Analysis.

#[local] Open Scope string_scope.
#[local] Open Scope list_scope.
#[local] Open Scope Z_scope.
#[local] Open Scope prog_scope.

Record BenchReport := mk_BenchReport {
  br_jobs : Z;
  br_job_type : string;
  br_payload : list (string * json);
  br_batch : Z;
  enqueue_seconds : Q;
  enqueue_per_second : Q;
  drain_seconds : Q;
  throughput_per_second : Q;
  completed : Z;
  missing : Z;
  duplicate_results : Z;
  producer : ProducerCounters;
  stats : Snapshot;
}.

(** What the waiting loop carries. *)
Record waiting := mk_waiting { seen : list (string * Z); found : Z; cursor : eid }.

(** The sizes of the batches: [range(0, jobs, batch)]. *)
Fixpoint batches (fuel : nat) (jobs batch i : Z) : list Z :=
  match fuel with
  | O => []
  | S fuel => if i <? jobs then Z.min batch (jobs - i) :: batches fuel jobs batch (i + batch) else []
  end.

Section Bench.
Context {T : Type} (settings : Settings.t).
Abbreviation co := (py ProducerCounters T).
Definition keys : Keys.t := Keys.mk (Settings.queue settings).

(** [set(job_ids)] *)
Definition ours (job_ids : list string) : gset string := list_to_set job_ids.

Definition count_result (mine : gset string) (st : waiting) (e : entry) : result exn waiting :=
  job_id <-! need "job_id" e.2 ;;
  let seen := bump (seen st) job_id 1 in
  Ok (mk_waiting seen
        (if bool_decide (get seen job_id 0 = 1) && bool_decide (job_id ∈ mine)
         then found st + 1 else found st) e.1).

Fixpoint count_page (mine : gset string) (st : waiting) (page : list entry) : result exn waiting :=
  match page with
  | [] => Ok st
  | e :: r => st' <-! count_result mine st e ;; count_page mine st' r
  end.

(** A turn of the waiting loop. *)
Definition poll (mine : gset string) (deadline : Q) (st : waiting) : co (waiting + waiting) :=
  late <- (if found st <? Z.of_nat (size mine) then t <- now ;; Ret (Qle_bool deadline t)
           else Ret true) ;;
  if (late : bool) then Ret (inr st) else
  reply <- redis (XRANGE (Keys.results keys) (BExcl (cursor st)) BMax (Some (100 * 100)%nat)) ;;
  match reply with
  | [] => sleep (5 # 100) ;;; Ret (inl st)
  | _ => st <- lift (count_page mine st reply) ;; Ret (inl st)
  end.

(** [None]: the fuel ran out, in the waiting loop or in an [enqueue_many]. *)
Definition run_bench (fuel : nat) (jobs : Z) (job_type : string) (payload : list (string * json))
    (batch : Z) (wait_limit : Q) : co (option BenchReport) :=
  last <- redis (XREVRANGE (Keys.results keys) 1) ;;
  let start_id := match last with e :: _ => e.1 | [] => (0, 0) end in
  t0 <- now ;;
  (if decide (batch = 0) then Raise (ValueError "range() arg 3 must not be zero") else Ret tt) ;;;
  job_ids <- for_each (if 0 <? batch then batches (Z.to_nat jobs) jobs batch 0 else [])
    (fun n ids =>
       match ids with
       | None => Ret None
       | Some ids =>
           r <- Client.enqueue_many settings fuel
                  (replicate (Z.to_nat n) (mk_NewJob job_type payload None)) ;;
           Ret (match r with inr new => Some (ids ++ new) | inl _ => None end)
       end) (Some []) ;;
  match job_ids with
  | None => Ret None
  | Some job_ids =>
      t1 <- now ;;
      let enqueue_s := (t1 - t0)%Q in
      let mine := ours job_ids in
      r <- loop fuel (poll mine (t0 + wait_limit)) (mk_waiting [] 0 start_id) ;;
      match r with
      | inl _ => Ret None
      | inr st =>
          t2 <- now ;;
          let drain_s := (t2 - t0)%Q in
          enqueue_rate <- lift (div (inject_Z jobs) enqueue_s) ;;
          rate <- lift (div (inject_Z (found st)) drain_s) ;;
          counters <- self ;;
          stats <- snapshot settings ;;
          Ret (Some (mk_BenchReport jobs job_type payload batch (round_to 3 enqueue_s)
                 (round_to 1 enqueue_rate) (round_to 3 drain_s) (round_to 1 rate)
                 (found st) (Z.of_nat (size mine) - found st)
                 (Z.of_nat (size (filter (fun j => 1 < get (seen st) j 0) mine)))
                 counters stats))
      end
  end.
End Bench.

(** The batches are the jobs. *)
Lemma batches_sum (jobs batch : Z) : 0 < batch -> forall fuel i,
  0 <= i -> jobs - i <= Z.of_nat fuel * batch ->
  foldr Z.add 0 (batches fuel jobs batch i) = Z.max 0 (jobs - i).
Proof.
  intros Hb. induction fuel as [|fuel IH]; intros i Hi Hf; cbn; [lia|].
  destruct (Z.ltb_spec i jobs) as [Hlt|]; [|cbn; lia].
  cbn. rewrite IH by lia. lia.
Qed.
