(* ===== verification/Cli.v ===== *)
(** The command line (src/ftq/cli.py): each command as a coroutine that answers what it
    printed and the exit code.

    [env] is the settings the environment asks for. Importing the handlers' module, the
    text of a float, the indented JSON printer and the texts of library exceptions
    are parameters; [asyncio.run] and closing the connection do nothing to the queue. *)
From S2P Require Import Prelude Effects Redis Keys LuaScripts Fields Json.
From S2P Require Import Py Models Config Transitions Registry Reaper Client World.
From S2P Require Import Names Metrics.
From S2P Require Import Worker Tables Bench.

#[local] Open Scope string_scope.
#[local] Open Scope list_scope.
#[local] Open Scope Z_scope.
#[local] Open Scope prog_scope.

(** A line on standard output or on standard error. *)
Inductive line : Type := Out (s : string) | ErrOut (s : string).
Abbreviation outcome := (list line * Z)%type.

Section Cli.
Context (env : Settings.t) (load : string -> string -> result exn (option (Registry wstate task))).
Context (indented : json -> string) (float_repr : Q -> string).

(** The flags that were given replace what the environment says. *)
Definition _settings (queue : option string) (concurrency : option Z) (bp : option mode) :
    result exn Settings.t :=
  let s := env in
  Settings.make (Settings.mk (Settings.redis_url s) (Settings.socket_timeout s)
    (Settings.socket_connect_timeout s) (Settings.health_check_interval s)
    (Settings.retry_attempts s) (Settings.retry_backoff_base s) (Settings.retry_backoff_cap s)
    (default (Settings.queue s) queue) (Settings.group s)
    (default (Settings.concurrency s) concurrency) (Settings.block_ms s)
    (Settings.shutdown_grace s) (Settings.process_pool_size s) (Settings.job_timeout s)
    (Settings.visibility_timeout s) (Settings.heartbeat_interval s) (Settings.reap_interval s)
    (Settings.max_attempts s) (Settings.max_deliveries s) (Settings.suspect_deliveries s)
    (Settings.job_backoff_base s) (Settings.job_backoff_cap s) (Settings.scheduler_interval s)
    (Settings.scheduler_batch s) (Settings.consumer_prune_idle s)
    (Settings.consumer_prune_interval s) (default (Settings.backpressure_mode s) bp)
    (Settings.high_watermark s) (Settings.low_watermark s) (Settings.block_timeout s)
    (Settings.block_poll_interval s) (Settings.log_level s) (Settings.log_format s)
    (Settings.done_ttl_seconds s) (Settings.idempotency_ttl_seconds s)).

(** [spec.partition(":")], without the separator. *)
Fixpoint partition (s : string) : string * string :=
  match s with
  | EmptyString => (EmptyString, EmptyString)
  | String ":" r => (EmptyString, r)
  | String c r => let '(a, b) := partition r in (String c a, b)
  end.

(** [load module attribute]: the attribute, if it is a Registry. *)
Definition _load_registry (spec : string) : result exn (Registry wstate task) :=
  let '(module_name, attr) := partition spec in
  r <-! load module_name (if decide (attr = "") then "registry" else attr) ;;
  match r with
  | Some registry => Ok registry
  | None => Err (BadParameter (spec +:+ " is not an ftq Registry"))
  end.

(** *** worker *)
(** [None]: out of fuel. *)
Definition worker (worker_id : string) (fuel : nat) (handlers : string) (queue : option string) (concurrency : option Z) :
    py wstate task (option outcome) :=
  settings <- lift (_settings queue concurrency None) ;;
  registry <- lift (_load_registry handlers) ;;
  start <- lift (new_worker settings registry) ;;
  Py.update (fun _ => start) ;;;
  r <- Worker.run_worker settings worker_id fuel ;;
  match r with
  | inl _ => Ret None
  | inr _ =>
      finished <- self ;;
      let stuck := threads_still_running finished in
      if 0 <? stuck then
        log_line WARNING ("exiting with " +:+ str_of_Z stuck +:+
          " handler thread(s) still running; they are killed with the process") ;;;
        x <- call (EExit 0) ;; match x : Empty_set with end
      else Ret (Some ([], 0))
  end.

(** *** enqueue *)
Definition parse_payload (payload : string) : result exn (list (string * json)) :=
  p <-! json_loads payload ;;
  match p with
  | JObj d => Ok d
  | _ => Err (BadParameter "payload must be a JSON object")
  end.

Section Producer.
Context {T : Type}.

Definition enqueue (fuel : nat) (job_type payload : string) (idempotency_key queue : option string) :
    py ProducerCounters T (option outcome) :=
  parsed <- lift (parse_payload payload) ;;
  settings <- lift (_settings queue None None) ;;
  try_catch
    (r <- Client.enqueue settings fuel job_type parsed idempotency_key ;;
     Ret (match r with Some id => Some ([Out id], 0) | None => None end))
    (fun e => match e with
              | QueueFull depth _ =>
                  Ret (Some ([ErrOut ("not enqueued: queue full (depth " +:+ str_of_Z depth +:+ ")")], 2))
              | _ => Raise e
              end).

(** *** bench *)
Definition json_of_snapshot (s : Snapshot) : json :=
  JObj [("queue", JStr (snap_queue s)); ("depth", JInt (snap_depth s));
        ("in_flight", JInt (snap_in_flight s)); ("undelivered", JInt (snap_undelivered s));
        ("delayed", JInt (snap_delayed s)); ("dlq", JInt (snap_dlq s));
        ("consumers", JInt (snap_consumers s)); ("full", JBool (snap_full s));
        ("watermarks", JObj [("high", JInt (snap_watermarks s).1); ("low", JInt (snap_watermarks s).2)]);
        ("counters", JObj (prod_map id JInt <$> snap_counters s))].

Definition json_of_float (q : Q) : json := JFloat (float_repr q).

(** [format_report(report)] *)
Definition format_report (r : BenchReport) : string :=
  indented (JObj
    [("jobs", JInt (br_jobs r)); ("job_type", JStr (br_job_type r));
     ("payload", JObj (br_payload r)); ("batch", JInt (br_batch r));
     ("enqueue_seconds", json_of_float (enqueue_seconds r));
     ("enqueue_per_second", json_of_float (enqueue_per_second r));
     ("drain_seconds", json_of_float (drain_seconds r));
     ("throughput_per_second", json_of_float (throughput_per_second r));
     ("completed", JInt (completed r)); ("missing", JInt (missing r));
     ("duplicate_results", JInt (duplicate_results r));
     ("producer", JObj [("accepted", JInt (accepted (producer r)));
                        ("duplicates", JInt (duplicates (producer r)));
                        ("rejected", JInt (rejected (producer r)));
                        ("blocked", JInt (blocked (producer r)));
                        ("blocked_seconds", json_of_float (blocked_seconds (producer r)))]);
     ("stats", json_of_snapshot (stats r))]).

Definition bench (fuel : nat) (jobs : Z) (job_type payload : string) (batch : Z) (timeout : Q)
    (queue : option string) : py ProducerCounters T (option outcome) :=
  parsed <- lift (parse_payload payload) ;;
  settings <- lift (_settings queue None (Some block)) ;;
  report <- run_bench settings fuel jobs job_type parsed batch timeout ;;
  Ret (match report with
       | Some r => Some ([Out (format_report r)],
                         if decide (missing r = 0 /\ duplicate_results r = 0) then 0 else 1)
       | None => None
       end).
End Producer.

(** *** stats, dlq list, dlq requeue *)
Section Operator.
Context {S T : Type}.

Definition stats (queue : option string) : py S T outcome :=
  settings <- lift (_settings queue None None) ;;
  s <- snapshot settings ;;
  Ret ([Out (indented (json_of_snapshot s))], 0).

Definition str_id (i : eid) : json := JStr (str_of_eid i).
Definition json_of_dead (d : DeadJob) : json :=
  JObj [("dlq_entry_id", str_id (dlq_entry_id d)); ("job_id", JStr (dead_job_id d));
        ("type", JStr (dead_type d)); ("reason", JStr (dead_reason d));
        ("error", JStr (dead_error d)); ("attempts", JInt (dead_attempts d));
        ("deliveries", JInt (dead_deliveries d)); ("dead_at_ms", JInt (dead_at_ms d))].

Definition dlq_list (limit : nat) (queue : option string) : py S T outcome :=
  settings <- lift (_settings queue None None) ;;
  dead <- list_dead (Keys.mk (Settings.queue settings)) limit ;;
  Ret ((fun d => Out (dumps_spaced (json_of_dead d))) <$> dead, 0).

(** The count, and what was printed on the way. *)
Definition requeue_each (keys : Keys.t) (job_ids : list string) : py S T (Z * list line) :=
  for_each job_ids (fun j st =>
    ok <- requeue keys j ;;
    Ret (if ok : bool then (st.1 + 1, st.2)
         else (st.1, st.2 ++ [ErrOut (j +:+ ": not DEAD, skipped")]))) (0, []).

Definition dlq_requeue (fuel : nat) (job_ids : list string) (all_ : bool) (queue : option string) :
    py S T (option outcome) :=
  (if Bool.eqb all_ (negb (bool_decide (job_ids = []))) then
     Raise (BadParameter "give job_id(s) or --all, not both or neither")
   else Ret tt) ;;;
  settings <- lift (_settings queue None None) ;;
  let keys := Keys.mk (Settings.queue settings) in
  if all_ then
    r <- requeue_all keys fuel ;;
    Ret (match r with
         | inr n => Some ([Out ("requeued " +:+ str_of_Z n)], 0)
         | inl _ => None
         end)
  else
    r <- requeue_each keys job_ids ;;
    Ret (Some (r.2 ++ [Out ("requeued " +:+ str_of_Z r.1)], 0)).
End Operator.
End Cli.
