(* ===== verification/Texts.v ===== *)
(** Python's texts, for the tools around the queue: strip, split and join, shell quoting,
    base64, and reading values out of parsed JSON. *)
From S2P Require Import Prelude Effects Redis LuaScripts Json Py Models Tables.
From Stdlib Require Import Qabs.

#[local] Open Scope string_scope.
#[local] Open Scope list_scope.
#[local] Open Scope Z_scope.

(** ** Strings *)
Fixpoint strip_right (s : string) : string :=
  match s with
  | EmptyString => EmptyString
  | String c r => if all_blank s then EmptyString else String c (strip_right r)
  end.
(** [s.strip()] *)
Definition strip (s : string) : string := strip_right (strip_left s).

(** [sep.join(l)] *)
Fixpoint join (sep : string) (l : list string) : string :=
  match l with
  | [] => EmptyString
  | [x] => x
  | x :: r => x +:+ sep +:+ join sep r
  end.
Definition newline : string := String "010" EmptyString.
Definition double_quote : string := String "034" EmptyString.

(** [p in s] *)
Fixpoint contains (p s : string) : bool :=
  match drop_prefix p s, s with
  | Some _, _ => true
  | None, EmptyString => false
  | None, String _ r => contains p r
  end.

(** [s.replace(old, new)], [old] not empty: [skipping] characters of a match are left. *)
Fixpoint replace_from (old new s : string) (skipping : nat) : string :=
  match s with
  | EmptyString => EmptyString
  | String c r =>
      match skipping with
      | S n => replace_from old new r n
      | O => match drop_prefix old s with
             | Some _ => new +:+ replace_from old new r (String.length old - 1)
             | None => String c (replace_from old new r 0)
             end
      end
  end.
Definition replace (old new s : string) : string := replace_from old new s 0.

(** [s.replace(old, new, 1)] *)
Fixpoint replace_first (old new s : string) : string :=
  match drop_prefix old s, s with
  | Some r, _ => new +:+ r
  | None, String c r => String c (replace_first old new r)
  | None, EmptyString => EmptyString
  end.

(** [s.rsplit(c, 1)[-1]]: the part after the last [c]. *)
Fixpoint last_part_from (c : ascii) (s best : string) : string :=
  match s with
  | EmptyString => best
  | String a r => last_part_from c r (if decide (a = c) then r else best)
  end.
Definition last_part (c : ascii) (s : string) : string := last_part_from c s s.

(** [s.split(c, 1)[0]]: the part before the first [c]. *)
Fixpoint first_part (c : ascii) (s : string) : string :=
  match s with
  | EmptyString => EmptyString
  | String a r => if decide (a = c) then EmptyString else String a (first_part c r)
  end.

(** The first [n] characters and the rest; [textwrap.wrap(s, n)] of a text without blanks
    and hyphens. *)
Fixpoint split_at (n : Z) (s : string) : string * string :=
  match s with
  | EmptyString => (EmptyString, EmptyString)
  | String c r => if n <=? 0 then (EmptyString, s)
                  else let '(a, b) := split_at (n - 1) r in (String c a, b)
  end.
(** [s.endswith(suffix)] *)
Definition ends_with (s suffix : string) : bool :=
  bool_decide ((split_at (Z.of_nat (String.length s - String.length suffix)) s).2 = suffix).
Fixpoint wrap_from (fuel : nat) (n : Z) (s : string) : list string :=
  match fuel, s with
  | S fuel, String _ _ => let '(a, b) := split_at n s in a :: wrap_from fuel n b
  | _, _ => []
  end.
Definition wrap (n : Z) (s : string) : list string := wrap_from (String.length s) n s.

(** A number in two digits at least ([:02d]). *)
Definition two_digits (n : Z) : string :=
  if (0 <=? n) && (n <? 10) then "0" +:+ str_of_Z n else str_of_Z n.

(** The same with three ([:03d]). *)
Definition three_digits (n : Z) : string :=
  if (0 <=? n) && (n <? 10) then "00" +:+ str_of_Z n
  else if (0 <=? n) && (n <? 100) then "0" +:+ str_of_Z n
  else if (-10 <? n) && (n <? 0) then "-0" +:+ str_of_Z (- n)
  else str_of_Z n.

(** Padded with blanks to [n] characters ([:>n], [:<n]). *)
Fixpoint repeated (s : string) (n : nat) : string :=
  match n with O => "" | S n => s +:+ repeated s n end.
Definition blanks (n : nat) (s : string) : string := repeated " " (n - String.length s).
Definition pad_left (n : nat) (s : string) : string := blanks n s +:+ s.
Definition pad_right (n : nat) (s : string) : string := s +:+ blanks n s.

(** A number with [d] decimals ([:.df]). *)
Definition fixed (d : nat) (q : Q) : string :=
  let n := Tables.round (Qabs q * inject_Z (10 ^ Z.of_nat d)) in
  let whole := n / 10 ^ Z.of_nat d in
  let part := str_of_Z (n mod 10 ^ Z.of_nat d) in
  (if Qlt_bool q 0 then "-" else "") +:+ str_of_Z whole +:+
  (match d with O => "" | _ => "." +:+ repeated "0" (d - String.length part) +:+ part end).

(** ** Numbers with thousands separators *)
(** A comma before every third digit from the right, but not in front. *)
Fixpoint commas (digits : string) : string :=
  match digits with
  | EmptyString => EmptyString
  | String c r =>
      String c (if negb (String.length r =? 0)%nat && (String.length r mod 3 =? 0)%nat
                then "," +:+ commas r else commas r)
  end.
(** [f"{n:,}"] *)
Definition grouped (n : Z) : string :=
  if n <? 0 then "-" +:+ commas (str_of_Z (- n)) else commas (str_of_Z n).
(** [f"{q:,.0f}"] *)
Definition grouped_float (q : Q) : string :=
  if Qlt_bool q 0 then "-" +:+ commas (str_of_Z (- Tables.round q)) else commas (str_of_Z (Tables.round q)).

(** *** [shlex.quote], [shlex.join] *)
Definition shell_safe (c : ascii) : bool :=
  let n := code c in
  ((48 <=? n) && (n <=? 57)) || ((65 <=? n) && (n <=? 90)) || ((97 <=? n) && (n <=? 122)) ||
  bool_decide (c ∈ ["_"; "@"; "%"; "+"; "="; ":"; ","; "."; "/"; "-"]%char).
Fixpoint all_chars (p : ascii -> bool) (s : string) : bool :=
  match s with EmptyString => true | String c r => p c && all_chars p r end.

Lemma append_nil s : s +:+ "" = s.
Proof. induction s as [|c s IH]; [done|]. change (String c (s +:+ "") = String c s). by rewrite IH. Qed.

(** Texts without a character *)
Definition without (c : ascii) (s : string) : bool := all_chars (fun a => negb (bool_decide (a = c))) s.
Lemma digits_without s c : digit_val c = None -> forall acc z, digits s acc = Some z -> without c s = true.
Proof.
  intros Hc. induction s as [|a s IH]; intros acc z Hd; [done|]. cbn in Hd.
  destruct (digit_val a) eqn:Ha; [|done]. unfold without. cbn [all_chars].
  rewrite bool_decide_false by congruence. cbn. by eapply IH.
Qed.
Lemma int_without s c z : digit_val c = None -> c <> "-"%char -> int_of_str s = Some z ->
  without c s = true.
Proof.
  intros Hc Hm. assert (Hn : forall s z, nat_of_str s = Some z -> without c s = true).
  { intros [|a r] z' H; [done|]. by eapply digits_without. }
  intros Hs. destruct s as [|a r]; [done|]. destruct (decide (a = "-"%char)) as [->|Ha].
  - change (Z.opp <$> nat_of_str r = Some z) in Hs. unfold without. cbn [all_chars].
    rewrite bool_decide_false by congruence. destruct (nat_of_str r) eqn:Hr; [|done]. by eapply Hn.
  - eapply Hn. revert Hs. by destruct a as [[] [] [] [] [] [] [] []].
Qed.

Lemma without_app c s k : without c (s +:+ k) = without c s && without c k.
Proof.
  unfold without. induction s as [|a s IH]; [done|].
  change (String a s +:+ k) with (String a (s +:+ k)). cbn [all_chars]. by rewrite IH, andb_assoc.
Qed.
Lemma without_mark c k : without c (String c k) = false.
Proof. unfold without. cbn [all_chars]. by rewrite bool_decide_true. Qed.

Definition quote (s : string) : string :=
  if decide (s = "") then "''"
  else if all_chars shell_safe s then s
  else "'" +:+ replace "'" ("'" +:+ double_quote +:+ "'" +:+ double_quote +:+ "'") s +:+ "'".
Definition shell_join (l : list string) : string := join " " (quote <$> l).

(** ** Base64 *)
(** Six bits, the high one first. *)
Abbreviation sextet := (bool * bool * bool * bool * bool * bool)%type.

Definition alphabet : string :=
  "ABCDEFGHIJKLMNOPQRSTUVWXYZabcdefghijklmnopqrstuvwxyz0123456789+/".
Definition sextet_index (x : sextet) : nat :=
  let '(a, b, c, d, e, f) := x in
  let bit (y : bool) (n : nat) := if y then n else O in
  (bit a 32 + bit b 16 + bit c 8 + bit d 4 + bit e 2 + bit f 1)%nat.
Definition char_of_sextet (x : sextet) : ascii :=
  default "="%char (String.get (sextet_index x) alphabet).

Definition sextets : list sextet :=
  let bits := [false; true] in
  a ← bits; b ← bits; c ← bits; d ← bits; e ← bits; f ← bits; [(a, b, c, d, e, f)].
Definition sextet_of_char (c : ascii) : option sextet :=
  head (filter (fun x => char_of_sextet x = c) sextets).

(** [base64.b64encode] *)
Fixpoint b64encode (s : string) : string :=
  match s with
  | EmptyString => EmptyString
  | String (Ascii a0 a1 a2 a3 a4 a5 a6 a7) EmptyString =>
      String (char_of_sextet (a7, a6, a5, a4, a3, a2))
     (String (char_of_sextet (a1, a0, false, false, false, false)) "==")
  | String (Ascii a0 a1 a2 a3 a4 a5 a6 a7) (String (Ascii b0 b1 b2 b3 b4 b5 b6 b7) EmptyString) =>
      String (char_of_sextet (a7, a6, a5, a4, a3, a2))
     (String (char_of_sextet (a1, a0, b7, b6, b5, b4))
     (String (char_of_sextet (b3, b2, b1, b0, false, false)) "="))
  | String (Ascii a0 a1 a2 a3 a4 a5 a6 a7) (String (Ascii b0 b1 b2 b3 b4 b5 b6 b7)
      (String (Ascii c0 c1 c2 c3 c4 c5 c6 c7) r)) =>
      String (char_of_sextet (a7, a6, a5, a4, a3, a2))
     (String (char_of_sextet (a1, a0, b7, b6, b5, b4))
     (String (char_of_sextet (b3, b2, b1, b0, c7, c6))
     (String (char_of_sextet (c5, c4, c3, c2, c1, c0)) (b64encode r))))
  end.

(** What is left over between two characters of a quadruple. *)
Inductive quad : Type :=
  | Q0
  | Q1 (x : sextet)
  | Q2 (x : bool * bool * bool * bool)
  | Q3 (x : bool * bool).
Definition quad_pos (q : quad) : nat :=
  match q with Q0 => 0 | Q1 _ => 1 | Q2 _ => 2 | Q3 _ => 3 end.

(** [base64.b64decode], not validating: characters that are not of the alphabet are
    skipped, and enough padding ends the text. *)
Fixpoint b64decode_from (s : string) (q : quad) (pads : nat) : result exn string :=
  match s with
  | EmptyString =>
      match q with Q0 => Ok EmptyString | _ => Err (ValueError "Incorrect padding") end
  | String c r =>
      if decide (c = "="%char) then
        if (2 <=? quad_pos q)%nat then
          if (4 <=? quad_pos q + S pads)%nat then Ok EmptyString
          else b64decode_from r q (S pads)
        else b64decode_from r q pads
      else
        match sextet_of_char c with
        | None => b64decode_from r q pads
        | Some (x5, x4, x3, x2, x1, x0) =>
            match q with
            | Q0 => b64decode_from r (Q1 (x5, x4, x3, x2, x1, x0)) 0
            | Q1 (a7, a6, a5, a4, a3, a2) =>
                t <-! b64decode_from r (Q2 (x3, x2, x1, x0)) 0 ;;
                Ok (String (Ascii x4 x5 a2 a3 a4 a5 a6 a7) t)
            | Q2 (a7, a6, a5, a4) =>
                t <-! b64decode_from r (Q3 (x1, x0)) 0 ;;
                Ok (String (Ascii x2 x3 x4 x5 a4 a5 a6 a7) t)
            | Q3 (a7, a6) =>
                t <-! b64decode_from r Q0 0 ;;
                Ok (String (Ascii x0 x1 x2 x3 x4 x5 a6 a7) t)
            end
        end
  end.
Definition b64decode (s : string) : result exn string := b64decode_from s Q0 0.

Lemma sextet_round_trip (x : sextet) :
  sextet_of_char (char_of_sextet x) = Some x /\ char_of_sextet x <> "="%char /\
  is_blank (char_of_sextet x) = false.
Proof. by destruct x as [[[[[[] []] []] []] []] []]; vm_compute. Qed.

Lemma b64_triple (P : string -> Prop) :
  P EmptyString -> (forall a, P (String a EmptyString)) ->
  (forall a b, P (String a (String b EmptyString))) ->
  (forall a b c r, P r -> P (String a (String b (String c r)))) -> forall s, P s.
Proof.
  intros H0 H1 H2 H3. fix IH 1.
  intros [|a [|b [|c r]]]; [exact H0|exact (H1 a)|exact (H2 a b)|exact (H3 a b c r (IH r))].
Qed.

Lemma b64decode_char x r q pads :
  b64decode_from (String (char_of_sextet x) r) q pads =
    let '(x5, x4, x3, x2, x1, x0) := x in
    match q with
    | Q0 => b64decode_from r (Q1 (x5, x4, x3, x2, x1, x0)) 0
    | Q1 (a7, a6, a5, a4, a3, a2) =>
        t <-! b64decode_from r (Q2 (x3, x2, x1, x0)) 0 ;;
        Ok (String (Ascii x4 x5 a2 a3 a4 a5 a6 a7) t)
    | Q2 (a7, a6, a5, a4) =>
        t <-! b64decode_from r (Q3 (x1, x0)) 0 ;;
        Ok (String (Ascii x2 x3 x4 x5 a4 a5 a6 a7) t)
    | Q3 (a7, a6) =>
        t <-! b64decode_from r Q0 0 ;;
        Ok (String (Ascii x0 x1 x2 x3 x4 x5 a6 a7) t)
    end.
Proof.
  destruct (sextet_round_trip x) as (Hx & Hne & _). cbn [b64decode_from].
  rewrite decide_False, Hx by done. by destruct x as [[[[[]]]]].
Qed.

Lemma b64_round_trip s : b64decode (b64encode s) = Ok s.
Proof.
  unfold b64decode. induction s as [| [a0 a1 a2 a3 a4 a5 a6 a7]
    | [a0 a1 a2 a3 a4 a5 a6 a7] [b0 b1 b2 b3 b4 b5 b6 b7]
    | [a0 a1 a2 a3 a4 a5 a6 a7] [b0 b1 b2 b3 b4 b5 b6 b7] [c0 c1 c2 c3 c4 c5 c6 c7] r IH]
    using b64_triple; [done|..]; cbn [b64encode]; rewrite !b64decode_char; [done|done|].
  by rewrite IH.
Qed.

(** Base64 text holds no blanks. *)
Fixpoint blankless (s : string) : bool :=
  match s with EmptyString => true | String c r => negb (is_blank c) && blankless r end.

Lemma b64_blankless s : blankless (b64encode s) = true.
Proof.
  assert (Hc : forall x r, blankless (String (char_of_sextet x) r) = blankless r).
  { intros x r. cbn [blankless]. by rewrite (proj2 (proj2 (sextet_round_trip x))). }
  induction s as [| [a0 a1 a2 a3 a4 a5 a6 a7]
    | [a0 a1 a2 a3 a4 a5 a6 a7] [b0 b1 b2 b3 b4 b5 b6 b7]
    | [a0 a1 a2 a3 a4 a5 a6 a7] [b0 b1 b2 b3 b4 b5 b6 b7] [c0 c1 c2 c3 c4 c5 c6 c7] r IH]
    using b64_triple; [done|..]; cbn [b64encode]; by rewrite !Hc.
Qed.

Lemma strip_right_blankless s : blankless s = true -> strip_right s = s.
Proof.
  induction s as [|c r IH]; [done|]. cbn. intros [Hc Hr]%andb_prop.
  apply negb_true_iff in Hc. by rewrite Hc, IH.
Qed.
Lemma strip_blankless s : blankless s = true -> strip s = s.
Proof.
  intros Hs. unfold strip. replace (strip_left s) with s; [by apply strip_right_blankless|].
  destruct s as [|c r]; [done|]. cbn in Hs |- *. by destruct (is_blank c).
Qed.
Lemma blankless_app s t : blankless (s +:+ t) = blankless s && blankless t.
Proof.
  induction s as [|c r IH]; [done|]. change (String c r +:+ t) with (String c (r +:+ t)).
  cbn [blankless]. rewrite IH. apply andb_assoc.
Qed.

Lemma split_at_app n s : (split_at n s).1 +:+ (split_at n s).2 = s.
Proof.
  revert n. induction s as [|c r IH]; intros n; [done|]. cbn. case_match; [done|].
  specialize (IH (n - 1)). destruct (split_at (n - 1) r). cbn in *. by rewrite <- IH.
Qed.

(** Wrapping cuts the text and loses nothing. *)
Lemma wrap_concat n s : 0 < n -> foldr String.append "" (wrap n s) = s.
Proof.
  intros Hn. unfold wrap. enough (H : forall fuel s, (String.length s <= fuel)%nat ->
    foldr String.append "" (wrap_from fuel n s) = s) by by apply H.
  clear s. induction fuel as [|fuel IH]; intros [|c r] Hl; cbn in Hl; try done; [lia|].
  cbn [wrap_from]. pose proof (split_at_app n (String c r)) as Ha.
  assert (Hpos : (split_at n (String c r)).1 <> "").
  { cbn. destruct (Z.leb_spec n 0); [lia|]. by destruct (split_at (n - 1) r). }
  destruct (split_at n (String c r)) as [a b]. cbn [fst snd foldr] in *.
  assert (Hlen : (String.length b < S (String.length r))%nat).
  { apply (f_equal String.length) in Ha. rewrite string_app_length in Ha.
    destruct a; [done|]. cbn in Ha. lia. }
  rewrite IH by lia. done.
Qed.

(** ** Values in parsed JSON *)
(** [j[k]] on a dictionary *)
Fixpoint member (k : string) (l : list (string * json)) : option json :=
  match l with
  | [] => None
  | (n, v) :: r => if decide (n = k) then Some v else member k r
  end.
Definition at_key (k : string) (j : json) : result exn json :=
  match j with
  | JObj l => match member k l with Some v => Ok v | None => Err (KeyError k) end
  | _ => Err (TypeError "indices must be integers or slices, not str")
  end.
(** [j.get(k)] *)
Definition get_key (k : string) (j : json) : result exn json :=
  match j with
  | JObj l => Ok (default JNull (member k l))
  | _ => Err (TypeError "no attribute 'get'")
  end.
(** [for x in j] over a list *)
Definition items_of (j : json) : result exn (list json) :=
  match j with JArr l => Ok l | _ => Err (TypeError "object is not iterable") end.
(** [j[0]] on a list *)
Definition at_first (j : json) : result exn json :=
  match j with
  | JArr (x :: _) => Ok x
  | JArr [] => Err IndexError
  | JObj _ => Err (KeyError "0")
  | _ => Err (TypeError "object is not subscriptable")
  end.
(** A value the code takes for text ([str(x)] of a string is the string). *)
Definition as_text (j : json) : result exn string :=
  match j with JStr s => Ok s | _ => Err (TypeError "expected str") end.
(** [if x], for what is not a float *)
Definition truthy (j : json) : bool :=
  match j with
  | JNull | JBool false | JInt 0 | JStr EmptyString | JArr [] | JObj [] => false
  | _ => true
  end.
(** [x[k] = v] in a dictionary *)
Fixpoint set_member (k : string) (v : json) (l : list (string * json)) : list (string * json) :=
  match l with
  | [] => [(k, v)]
  | (n, x) :: r => if decide (n = k) then (n, v) :: r else (n, x) :: set_member k v r
  end.
Definition set_key (k : string) (v j : json) : result exn json :=
  match j with
  | JObj l => Ok (JObj (set_member k v l))
  | _ => Err (TypeError "object does not support item assignment")
  end.
(** [f(x)] for every element, in order *)
Fixpoint each {A B} (f : A -> result exn B) (l : list A) : result exn (list B) :=
  match l with
  | [] => Ok []
  | x :: r => y <-! f x ;; ys <-! each f r ;; Ok (y :: ys)
  end.
(** [x == n] for an integer [n] *)
Definition is_int (n : Z) (j : json) : bool :=
  match j with JInt z => z =? n | JBool b => Z.b2z b =? n | _ => false end.
(** A list in a field that may be missing ([d.get(k, [])]). *)
Definition optional_list (k : string) (j : json) : result exn (list json) :=
  match j with
  | JObj l => match member k l with Some v => items_of v | None => Ok [] end
  | _ => Err (TypeError "no attribute 'get'")
  end.
(** [len(j)] *)
Definition json_len (j : json) : result exn Z :=
  match j with
  | JArr l => Ok (Z.of_nat (length l))
  | JObj l => Ok (Z.of_nat (length l))
  | JStr s => Ok (Z.of_nat (String.length s))
  | _ => Err (TypeError "object has no len()")
  end.
(** [j.values()] *)
Definition values_of (j : json) : result exn (list json) :=
  match j with JObj l => Ok l.*2 | _ => Err (TypeError "no attribute 'values'") end.
