(* ===== verification/Shell.v ===== *)
(** Programs that drive other programs: the effects of the tools that run commands and
    keep files, and the polling loop they share (deploy/bench.py's [_run], [_wait]).

    Commands, files, the clock, random suffixes and log lines are effects. A loop takes
    fuel; a program stops with an exception or because its fuel ran out ([Diverges]),
    which nothing catches, or leaves through sys.exit ([Exits]). *)
From S2P Require Import Prelude Effects Redis LuaScripts Json Py Models Texts.

#[local] Open Scope string_scope.
#[local] Open Scope list_scope.
#[local] Open Scope Z_scope.
#[local] Open Scope prog_scope.

Inductive stop : Type :=
  | Diverges
  | Throws (e : exn)
  | Exits (status : string + Z).             (* SystemExit: not an Exception *)

(** What a finished command leaves: exit code, standard output, standard error. *)
Abbreviation finished := (Z * string * string)%type.

Inductive host : Type -> Type :=
  | HClock : host Q                                (* time.monotonic() *)
  | HSleep (seconds : Q) : host unit
  | HHex : host string                             (* uuid.uuid4().hex *)
  | HUtc : host string                             (* datetime.now(UTC).isoformat(...) *)
  | HCommand (cmd : list string) : host finished   (* subprocess.run(cmd) *)
  | HExists (path : string) : host bool
  | HRead (path : string) : host string
  | HWrite (path text : string) : host unit        (* its directory is made first *)
  | HGlob (pattern : string) : host (list string)
  | HLog (l : level) (message : string) : host unit
  | HPrint (line : string) : host unit.

Abbreviation sh := (prog host stop).

Definition throw {C A} (e : exn) : prog C stop A := Raise (Throws e).
Definition check {C A} (r : result exn A) : prog C stop A :=
  match r with Ok a => Ret a | Err e => throw e end.

(** [try: p except <handled> as e: h e] *)
Definition except {C A} (handled : exn -> bool) (p : prog C stop A) (h : exn -> prog C stop A) :
    prog C stop A :=
  try_catch p (fun x =>
    match x with Throws e => if handled e then h e else throw e | _ => Raise x end).

(** The outcome of [p] as a value. *)
Definition settled {C E A} (p : prog C E A) : prog C E (result E A) :=
  try_catch (x <- p ;; Ret (Ok x)) (fun e => Ret (Err e)).

(** [try: p finally: cleanup] *)
Definition finally {C A} (p : prog C stop A) (cleanup : prog C stop unit) : prog C stop A :=
  r <- settled p ;; cleanup ;;; match r with Ok a => Ret a | Err e => Raise e end.

(** [while True], at most [fuel] times *)
Fixpoint while_true {C St A} (fuel : nat) (body : St -> prog C stop (St + A)) (s : St) :
    prog C stop A :=
  match fuel with
  | O => Raise Diverges
  | S n => r <- body s ;; match r with inl s' => while_true n body s' | inr a => Ret a end
  end.

(** A program over [C] run by a program over [D] for each of its effects. *)
Fixpoint carried_out {C D : Type -> Type} {E A : Type} (f : forall X, C X -> prog D E X)
    (p : prog C E A) : prog D E A :=
  match p with
  | Ret a => Ret a
  | Raise e => Raise e
  | Vis c k => r <- settled (f _ c) ;; carried_out f (k r)
  end.

Section Settled.
Context {C : Type -> Type} {V : Type}.
Context (spec : forall X, C X -> V -> result stop X -> V -> Prop).

Lemma wp_settled {A} (p : prog C stop A) v Q :
  wp spec p v (fun r v' => Q (Ok r) v') -> wp spec (settled p) v Q.
Proof. unfold settled. revert v. induction p as [a|e|X c k IH]; intros v; cbn; eauto. Qed.

Lemma wp_finally {A} (p : prog C stop A) (cleanup : prog C stop unit) v Q :
  wp spec p v (fun r v' => wp spec cleanup v' (fun c v'' =>
    match c with Ok _ => Q r v'' | Err e => Q (Err e) v'' end)) ->
  wp spec (finally p cleanup) v Q.
Proof.
  intros Hp. apply wp_bind, wp_settled. eapply wp_mono; [exact Hp|]. intros r v' Hc.
  apply wp_bind. eapply wp_mono; [exact Hc|]. intros [] v'' HQ; [by destruct r|done].
Qed.

Lemma wp_check {A B} (r : result exn A) (f : A -> prog C stop B) v Q :
  match r with Ok a => wp spec (f a) v Q | Err e => Q (Err (Throws e)) v end ->
  wp spec (a <- check r ;; f a) v Q.
Proof. by destruct r. Qed.
End Settled.

(** A program over [C] as one over [D], effect by effect; [C]'s exceptions are thrown. *)
Fixpoint translated {C D : Type -> Type} (f : forall X, C X -> D X) {A : Type}
    (p : prog C exn A) : prog D stop A :=
  match p with
  | Ret a => Ret a
  | Raise e => throw e
  | Vis c k =>
      Vis (f _ c) (fun r => match r with
        | Ok x => translated f (k (Ok x))
        | Err (Throws e) => translated f (k (Err e))
        | Err e => Raise e
        end)
  end.

(** What holds of the program holds of its translation, in a world that is projected to the
    program's; what is not projected changes as [R] allows, and the host adds no other end
    than [Other] allows. *)
Section Translated.
Context {C D : Type -> Type} (f : forall X, C X -> D X) {V W : Type} (view : W -> V).
Context (spec : forall X, C X -> V -> result exn X -> V -> Prop).
Context (world : forall X, D X -> W -> result stop X -> W -> Prop).
Context (R : W -> W -> Prop) `{!PreOrder R} (Other : Prop).
Hypothesis world_ok : forall X (c : C X) w r w', world _ (f X c) w r w' ->
  R w w' /\ match r with
  | Ok x => spec _ c (view w) (Ok x) (view w')
  | Err (Throws e) => spec _ c (view w) (Err e) (view w')
  | Err _ => Other
  end.

Lemma translated_wp {A} (p : prog C exn A) Q : forall w,
  wp spec p (view w) Q ->
  wp world (translated f p) w (fun r w' => R w w' /\
    match r with
    | Ok a => Q (Ok a) (view w')
    | Err (Throws e) => Q (Err e) (view w')
    | Err _ => Other
    end).
Proof using All.
  induction p as [a|m|X c k IH]; intros w Hp; cbn in Hp |- *; [by split..|].
  intros r w1 Hs. apply world_ok in Hs as [HR Hs].
  assert (Hgo : forall r1, spec _ c (view w) r1 (view w1) ->
    wp world (translated f (k r1)) w1 (fun r w' => R w w' /\
      match r with Ok a => Q (Ok a) (view w') | Err (Throws e) => Q (Err e) (view w')
      | Err _ => Other end)).
  { intros r1 H1. eapply wp_mono; [apply IH, Hp, H1|]. intros r' w2 [HR2 HQ].
    split; [by transitivity w1|done]. }
  destruct r as [x|[|e|]]; cbn; [by apply Hgo|by split|by apply Hgo|by split].
Qed.
End Translated.

Definition is_called_process_error (e : exn) : bool :=
  match e with CalledProcessError _ _ => true | _ => false end.
Definition is_runtime_error (e : exn) : bool :=
  match e with RuntimeError _ => true | _ => false end.

(** [str.splitlines()] *)
Definition is_line_end (c : ascii) : bool :=
  let n := code c in ((10 <=? n) && (n <=? 13)) || ((28 <=? n) && (n <=? 30)) || (n =? 133).
Fixpoint splitlines_from (s : string) (line : string) : list string :=
  match s with
  | EmptyString => if decide (line = "") then [] else [line]
  | String "013" (String "010" r) => line :: splitlines_from r ""
  | String c r => if is_line_end c then line :: splitlines_from r ""
                  else splitlines_from r (line +:+ String c "")
  end.
Definition splitlines (s : string) : list string := splitlines_from s "".

(** [s.split()] *)
Fixpoint words_from (s : string) (word : string) : list string :=
  match s with
  | EmptyString => if decide (word = "") then [] else [word]
  | String c r => if is_blank c then (if decide (word = "") then [] else [word]) ++ words_from r ""
                  else words_from r (word +:+ String c "")
  end.
Definition words (s : string) : list string := words_from s "".

(** [sorted] on strings *)
Definition string_le (a b : string) : Prop := String.leb a b = true.
#[export] Instance string_le_dec : RelDecision string_le.
Proof. intros a b. unfold string_le. apply _. Defined.
Definition sort_strings (l : list string) : list string := merge_sort string_le l.

(** *** What a command printed, as JSON *)
Definition parse {C} (text : string) : prog C stop json := check (json_loads text).
(** [x == s], [x == n] *)
Definition is_text (s : string) (j : json) : bool :=
  match j with JStr t => bool_decide (t = s) | _ => false end.
Definition text_list (j : json) : result exn (list string) := l <-! items_of j ;; each as_text l.
Definition json_at (j : json) (k : string) {C} : prog C stop json := check (at_key k j).
Definition listed (j : json) (k : string) {C} : prog C stop (list json) :=
  check (x <-! at_key k j ;; items_of x).
Definition texts (j : json) (k : string) {C} : prog C stop (list string) :=
  check (x <-! at_key k j ;; text_list x).

(** *** [_run]: a command's output, or its failure *)
Definition _run (cmd : list string) : sh string :=
  r <- call (HCommand cmd) ;;
  let '(code, out, err) := r in
  if code =? 0 then Ret out else throw (CalledProcessError code err).

(** *** [_wait] *)
Section Wait.
Context (fuel : nat) (what : string) (done : sh bool) (within every : Q).

Definition wait_turn (deadline : Q) (_ : unit) : sh (unit + unit) :=
  ready <- done ;;
  if ready : bool then Ret (inr tt) else
    now <- call HClock ;;
    if Qlt_bool deadline now then throw (RuntimeError ("timed out waiting for " +:+ what))
    else call (HSleep every) ;;; Ret (inl tt).

Definition _wait : sh unit :=
  now <- call HClock ;;
  while_true fuel (wait_turn (now + within)) tt.
End Wait.
