(* ===== verification/Argparse.v ===== *)
(** Python 3.12's argparse, as far as the tools use it: long options with one value, with
    several or with none, [--option=value], abbreviated options, [-h], one positional
    argument, [--], negative numbers as values.

    A parser is a table ([parser]). Parsing first says of every text whether it is an option
    ([classify]), then consumes options and arguments from the left ([consume]), as
    [_parse_known_args] does. It answers the namespace, or the code argparse exits with: 0
    after printing the help, 2 after printing an error (the printed texts are left out). *)
From S2P Require Import Prelude Effects Redis LuaScripts Json Py Models Handlers.
From S2P Require Import Tables Texts.

#[local] Open Scope string_scope.
#[local] Open Scope list_scope.
#[local] Open Scope Z_scope.

(** ** [float(text)] *)
(** [s.partition(c)], for the first character that [p] accepts. *)
Fixpoint partition_by (p : ascii -> bool) (s : string) : string * option string :=
  match s with
  | EmptyString => (EmptyString, None)
  | String c r => if p c then (EmptyString, Some r)
                  else let '(a, b) := partition_by p r in (String c a, b)
  end.
Definition is_char (a c : ascii) : bool := bool_decide (c = a).
Definition is_digit (c : ascii) : bool := bool_decide (is_Some (digit_val c)).
Fixpoint count_chars (p : ascii -> bool) (s : string) : Z :=
  match s with EmptyString => 0 | String c r => Z.b2z (p c) + count_chars p r end.

(** Digits with single underscores between them *)
Definition plain_nat (s : string) : option Z :=
  if all_chars (fun c => negb (is_blank c)) s then py_nat s else None.
(** A part of the mantissa, which may be empty: its value and how many digits it has. *)
Definition mantissa_part (s : string) : option (Z * Z) :=
  if decide (s = "") then Some (0, 0) else n ← plain_nat s; Some (n, count_chars is_digit s).
Definition exponent (e : option string) : option Z :=
  match e with
  | None => Some 0
  | Some (String "-" r) => Z.opp <$> plain_nat r
  | Some (String "+" r) => plain_nat r
  | Some r => plain_nat r
  end.
Definition unsigned_float (s : string) : option Q :=
  let '(m, e) := partition_by (fun c => is_char "e" c || is_char "E" c) s in
  let '(w, f) := partition_by (is_char ".") m in
  '(a, i) ← mantissa_part w;
  '(b, n) ← mantissa_part (default "" f);
  x ← exponent e;
  if i + n =? 0 then None
  else Some ((inject_Z a + inject_Z b / inject_Z (10 ^ n)) * pow10 x)%Q.
(** Infinities and NaN are no rationals: they are refused. *)
Definition py_float (s : string) : option Q :=
  match strip s with
  | String "-" r => Qopp <$> unsigned_float r
  | String "+" r => unsigned_float r
  | r => unsigned_float r
  end.

(** ** The tables *)
Inductive value : Type :=
  | VNone
  | VText (s : string)
  | VInt (n : Z)
  | VFloat (q : Q)
  | VBool (b : bool)
  | VList (l : list value).
Definition namespace : Type := list (string * value).

Inductive reading : Type := AsText | AsInt | AsFloat.          (* [type] *)
Inductive arity : Type := One | Several | Switch | Help.       (* [nargs], [action] *)
Record argument := mk_argument {
  names : list string;
  dest : string;
  takes : arity;
  reads_as : reading;
  choices : list string;                                       (* [] allows any *)
  required : bool;
  initial : value;
}.
Record parser := mk_parser {
  optionals : list argument;
  positional : option argument;
}.

(** The attribute an option is stored under *)
Definition dest_of (flag : string) : string :=
  replace "-" "_" (default flag (drop_prefix "--" flag)).
Definition option_of (flag : string) (r : reading) (v : value) : argument :=
  mk_argument [flag] (dest_of flag) One r [] false v.
Definition several_of (flag : string) (r : reading) (v : list value) : argument :=
  mk_argument [flag] (dest_of flag) Several r [] false (VList v).
Definition choice_of (flag : string) (among : list string) (v : string) : argument :=
  mk_argument [flag] (dest_of flag) One AsText among false (VText v).
Definition switch_of (flag : string) : argument :=
  mk_argument [flag] (dest_of flag) Switch AsText [] false (VBool false).
Definition positional_of (name : string) (among : list string) : argument :=
  mk_argument [] name One AsText among true VNone.
Definition help_option : argument := mk_argument ["-h"; "--help"] "help" Help AsText [] false VNone.

(** [_option_string_actions]: the help option comes first. *)
Definition option_strings (p : parser) : list (string * argument) :=
  a ← help_option :: optionals p; n ← names a; [(n, a)].
Definition named (p : parser) (s : string) : option argument :=
  snd <$> head (filter (fun o : string * argument => o.1 = s) (option_strings p)).

(** ** What each text is *)
Inductive mark : Type :=
  | Argument
  | Separator                                                   (* -- *)
  | Option (a : option argument) (explicit : option string).    (* [None]: no such option *)

Definition starts_with (s p : string) : bool := bool_decide (is_Some (drop_prefix p s)).
(** Without a newline at the end *)
Fixpoint chomp (s : string) : string :=
  match s with
  | EmptyString => EmptyString
  | String c r => if decide (s = newline) then EmptyString else String c (chomp r)
  end.
(** [^-\d+$|^-\d*\.\d+$], where [$] allows a final newline *)
Definition negative_number (s : string) : bool :=
  match chomp s with
  | String "-" r =>
      let '(w, f) := partition_by (is_char ".") r in
      all_chars is_digit w &&
      match f with
      | None => negb (bool_decide (w = ""))
      | Some f => all_chars is_digit f && negb (bool_decide (f = ""))
      end
  | _ => false
  end.

(** The options a text may abbreviate *)
Definition _get_option_tuples (p : parser) (s : string) : list (argument * option string) :=
  match s with
  | String "-" (String "-" _) =>
      let '(prefix, explicit) := partition_by (is_char "=") s in
      o ← option_strings p; if starts_with o.1 prefix then [(o.2, explicit)] else []
  | String "-" (String c r) =>
      o ← option_strings p;
      if decide (o.1 = String "-" (String c "")) then [(o.2, Some r)]
      else if starts_with o.1 s then [(o.2, None)] else []
  | _ => []
  end.

Definition unknown_option (p : parser) (s : string) : result Z mark :=
  match _get_option_tuples p s with
  | _ :: _ :: _ => Err 2
  | [(a, e)] => Ok (Option (Some a) e)
  | [] => if negative_number s || contains " " s then Ok Argument else Ok (Option None None)
  end.
Definition _parse_optional (p : parser) (s : string) : result Z mark :=
  match s with
  | String "-" r =>
      match named p s with
      | Some a => Ok (Option (Some a) None)
      | None =>
          if decide (r = "") then Ok Argument else
          let '(name, explicit) := partition_by (is_char "=") s in
          match explicit, named p name with
          | Some _, Some a => Ok (Option (Some a) explicit)
          | _, _ => unknown_option p s
          end
      end
  | _ => Ok Argument
  end.
Definition marked (s : string) : mark * string := (Argument, s).
Fixpoint classify (p : parser) (args : list string) : result Z (list (mark * string)) :=
  match args with
  | [] => Ok []
  | s :: r =>
      if decide (s = "--") then Ok ((Separator, s) :: (marked <$> r))
      else m <-! _parse_optional p s ;; l <-! classify p r ;; Ok ((m, s) :: l)
  end.

(** ** Consuming *)
Record parsing := mk_parsing {
  found : namespace;
  given : list string;                      (* the actions seen, by attribute *)
  extras : list string;
}.
Definition set_found (a : argument) (v : value) (st : parsing) : parsing :=
  mk_parsing (put (found st) (dest a) v) (dest a :: given st) (extras st).
Definition add_extra (s : string) (st : parsing) : parsing :=
  mk_parsing (found st) (given st) (extras st ++ [s]).

Definition _get_value (a : argument) (s : string) : result Z value :=
  match reads_as a with
  | AsText => if bool_decide (choices a = []) || bool_decide (s ∈ choices a) then Ok (VText s)
              else Err 2
  | AsInt => match to_int s with Ok n => Ok (VInt n) | Err _ => Err 2 end
  | AsFloat => match py_float s with Some q => Ok (VFloat q) | None => Err 2 end
  end.
Fixpoint _get_values (a : argument) (l : list string) : result Z (list value) :=
  match l with
  | [] => Ok []
  | s :: r => v <-! _get_value a s ;; vs <-! _get_values a r ;; Ok (v :: vs)
  end.
Definition take_one (a : argument) (s : string) (st : parsing) : result Z parsing :=
  v <-! _get_value a s ;; Ok (set_found a v st).
Definition take_several (a : argument) (l : list string) (st : parsing) : result Z parsing :=
  vs <-! _get_values a l ;; Ok (set_found a (VList vs) st).
(** [--option=value] *)
Definition take_explicit (a : argument) (s x : string) (st : parsing) : result Z parsing :=
  match takes a with
  | One => take_one a x st
  | Several => take_several a [x] st
  | Switch => Err 2
  | Help => if starts_with s "--" || negb (all_chars (is_char "h") x) then Err 2 else Err 0
  end.
Definition free_positional (p : parser) (st : parsing) : option argument :=
  match positional p with
  | Some a => if bool_decide (dest a ∈ given st) then None else Some a
  | None => None
  end.

Fixpoint consume (p : parser) (l : list (mark * string)) (st : parsing) : result Z parsing :=
  match l with
  | [] => Ok st
  | (Option None _, s) :: r => consume p r (add_extra s st)
  | (Option (Some a) (Some x), s) :: r => st <-! take_explicit a s x st ;; consume p r st
  | (Option (Some a) None, _) :: r =>
      match takes a, r with
      | Help, _ => Err 0
      | Switch, _ => consume p r (set_found a (VBool true) st)
      | One, (Argument, v) :: r => st <-! take_one a v st ;; consume p r st
      | Several, (Argument, v) :: r =>
          (fix run (vs : list string) (r : list (mark * string)) : result Z parsing :=
             match r with
             | (Argument, v) :: r => run (vs ++ [v]) r
             | _ => st <-! take_several a vs st ;; consume p r st
             end) [v] r
      | _, _ => Err 2
      end
  | (Argument, s) :: r =>
      match free_positional p st, r with
      | None, _ => consume p r (add_extra s st)
      | Some a, (Separator, _) :: r => st <-! take_one a s st ;; consume p r st
      | Some a, _ => st <-! take_one a s st ;; consume p r st
      end
  | (Separator, s) :: r =>
      match free_positional p st, r with
      | Some a, (Argument, v) :: r => st <-! take_one a v st ;; consume p r st
      | _, _ => consume p r (add_extra s st)
      end
  end.

Definition arguments (p : parser) : list argument := optionals p ++ option_list (positional p).
Definition defaults (p : parser) : namespace := (fun a => (dest a, initial a)) <$> arguments p.
Definition complete (p : parser) (st : parsing) : bool :=
  forallb (fun a => negb (required a) || bool_decide (dest a ∈ given st)) (arguments p) &&
  bool_decide (extras st = []).
(** [p.parse_args(args)] *)
Definition parse_args (p : parser) (args : list string) : result Z namespace :=
  l <-! classify p args ;;
  st <-! consume p l (mk_parsing (defaults p) [] []) ;;
  if complete p st then Ok (found st) else Err 2.

(** ** Printed arguments *)
(** What a caller writes: an option with its value, or a switch. *)
Inductive word : Type :=
  | Given (flag text : string)
  | On (flag : string).
Definition written (i : word) : list string :=
  match i with Given f t => [f; t] | On f => [f] end.
Definition command_line (l : list word) : list string := l ≫= written.

(** A text that is taken as a value where it stands *)
Definition is_value (p : parser) (t : string) : Prop := t <> "--" /\ _parse_optional p t = Ok Argument.
(** An option's exact name *)
Definition is_option (p : parser) (f : string) (a : argument) : Prop :=
  f <> "--" /\ starts_with f "-" = true /\ named p f = Some a.

(** What a word stores, and under which attribute. *)
Definition item_stores (p : parser) (i : word) (a : argument) (v : value) : Prop :=
  match i with
  | Given f t => is_option p f a /\ takes a = One /\ is_value p t /\ _get_value a t = Ok v
  | On f => is_option p f a /\ takes a = Switch /\ v = VBool true
  end.

Section Printed.
Context (p : parser).

Lemma parse_option f a : is_option p f a -> _parse_optional p f = Ok (Option (Some a) None).
Proof.
  intros (_ & Hs & Hn). unfold _parse_optional. rewrite Hn.
  unfold starts_with in Hs. apply bool_decide_eq_true in Hs as [r Hr].
  destruct f as [|c f]; [done|]. cbn in Hr. case_bool_decide as Hc; [|done]. by subst c.
Qed.
Lemma classify_cons s m r : s <> "--" -> _parse_optional p s = Ok m ->
  classify p (s :: r) = (l <-! classify p r ;; Ok ((m, s) :: l)).
Proof. intros Hs Hm. cbn [classify]. rewrite decide_False, Hm by done. done. Qed.

Lemma parsed_item i a v r : item_stores p i a v ->
  exists l, (forall lr, classify p r = Ok lr -> classify p (written i ++ r) = Ok (l ++ lr)) /\
    forall lr st, consume p (l ++ lr) st = consume p lr (set_found a v st).
Proof.
  destruct i as [f t|f]; cbn [item_stores written].
  - intros (Hf & Ho & [Ht Hv] & Hg). exists [(Option (Some a) None, f); (Argument, t)]. split.
    + intros lr Hl. cbn [app].
      rewrite (classify_cons f (Option (Some a) None)) by (apply Hf || by apply parse_option).
      by rewrite (classify_cons t Argument), Hl by done.
    + intros lr st. cbn. rewrite Ho. unfold take_one. by rewrite Hg.
  - intros (Hf & Ho & ->). exists [(Option (Some a) None, f)]. split.
    + intros lr Hl. cbn [app].
      rewrite (classify_cons f (Option (Some a) None)) by (apply Hf || by apply parse_option).
      by rewrite Hl.
    + intros lr st. cbn. by rewrite Ho.
Qed.

Fixpoint stored (avs : list (argument * value)) (st : parsing) : parsing :=
  match avs with [] => st | av :: r => stored r (set_found av.1 av.2 st) end.
Lemma parsed_items items avs : Forall2 (fun i av => item_stores p i av.1 av.2) items avs ->
  exists l, classify p (command_line items) = Ok l /\
    forall st, consume p l st = Ok (stored avs st).
Proof.
  induction 1 as [|i [a v] items avs Hi _ (l & Hl & Hc)]; [by exists []|]. cbn [fst snd] in Hi.
  destruct (parsed_item i a v (command_line items) Hi) as (li & Hcl & Hco).
  exists (li ++ l). split; [by apply Hcl|]. intros st. by rewrite Hco, Hc.
Qed.

Lemma stored_extras avs : forall st, extras (stored avs st) = extras st.
Proof. induction avs as [|av avs IH]; intros st; [done|]. cbn. by rewrite IH. Qed.
Lemma stored_found avs : forall st,
  found (stored avs st) = foldl (fun d av => put d (dest av.1) av.2) (found st) avs.
Proof. induction avs as [|av avs IH]; intros st; [done|]. cbn. by rewrite IH. Qed.
Lemma stored_given avs x : forall st, x ∈ given st \/ x ∈ dest <$> avs.*1 ->
  x ∈ given (stored avs st).
Proof.
  induction avs as [|av avs IH]; intros st Hx; [set_solver|].
  cbn. apply IH. cbn in Hx |- *. rewrite elem_of_cons. set_solver.
Qed.

(** Every argument that must be given is. *)
Definition all_required (ds : list string) : bool :=
  forallb (fun a => negb (required a) || bool_decide (dest a ∈ ds)) (arguments p).

Lemma parse_printed items avs : Forall2 (fun i av => item_stores p i av.1 av.2) items avs ->
  all_required (dest <$> avs.*1) = true ->
  parse_args p (command_line items) = Ok (foldl (fun d av => put d (dest av.1) av.2) (defaults p) avs).
Proof.
  intros Hi Hr. destruct (parsed_items items avs Hi) as (l & Hl & Hc).
  unfold parse_args. rewrite Hl. cbn [and_then]. rewrite Hc. cbn [and_then].
  unfold complete. rewrite stored_extras, stored_found. cbn [extras found].
  rewrite (bool_decide_true ([] = [])), andb_true_r by done.
  replace (forallb _ (arguments p)) with true; [done|]. symmetry.
  unfold all_required in Hr. rewrite forallb_forall in Hr |- *. intros a Ha.
  specialize (Hr a Ha). apply orb_prop in Hr as [Hr|Hr]; [by rewrite Hr|].
  apply bool_decide_eq_true in Hr. rewrite (bool_decide_true (dest a ∈ _)), orb_true_r; [done|].
  apply stored_given. by right.
Qed.

(** *** Texts that are values *)
Lemma value_plain s : starts_with s "-" = false -> is_value p s.
Proof.
  intros Hs. split; [by intros ->|]. destruct s as [|c s]; [done|].
  by destruct c as [[] [] [] [] [] [] [] []].
Qed.

Definition long_options : bool :=
  forallb (fun o => bool_decide (o.1 = "-h") || starts_with o.1 "--") (option_strings p).

Lemma digits_all_digits s : forall acc z, digits s acc = Some z -> all_chars is_digit s = true.
Proof.
  induction s as [|c s IH]; intros acc z H; [done|]. cbn in *. unfold is_digit.
  destruct (digit_val c); [|done]. by eapply IH.
Qed.
Lemma partition_none q s : all_chars (fun c => negb (q c)) s = true -> partition_by q s = (s, None).
Proof.
  induction s as [|c s IH]; [done|]. cbn. intros [Hc Hs]%andb_prop. destruct (q c); [done|].
  by rewrite IH.
Qed.
Lemma all_chars_mono (q r : ascii -> bool) s : (forall c, q c = true -> r c = true) ->
  all_chars q s = true -> all_chars r s = true.
Proof.
  intros Hqr. induction s as [|c s IH]; [done|]. cbn. intros [Hc Hs]%andb_prop.
  by rewrite Hqr, IH.
Qed.
Lemma digit_is c a : is_digit c = true -> is_digit a = false -> is_char a c = false.
Proof. intros Hc Ha. apply bool_decide_eq_false. intros ->. by rewrite Ha in Hc. Qed.
Lemma no_char s a : all_chars is_digit s = true -> is_digit a = false ->
  all_chars (fun c => negb (is_char a c)) s = true.
Proof. intros Hs Ha. eapply all_chars_mono, Hs. intros c Hc. by rewrite (digit_is c a). Qed.

Lemma chomp_digits s : all_chars is_digit s = true -> chomp s = s.
Proof.
  induction s as [|c s IH]; [done|]. intros Hs. cbn in Hs. apply andb_prop in Hs as [Hc Hs].
  cbn [chomp]. rewrite decide_False by (intros He; by injection He as -> _). by rewrite IH.
Qed.

(** No option looks like a negative number. *)
Lemma option_not_number o c r : long_options = true -> o ∈ option_strings p -> is_digit c = true ->
  starts_with o.1 (String "-" (String c r)) = false /\ o.1 <> String "-" (String c "") /\
  o.1 <> String "-" (String c r).
Proof.
  unfold long_options. rewrite forallb_forall. intros Hl Ho%list_elem_of_In Hc.
  specialize (Hl _ Ho). assert (Hd : exists c' r', o.1 = String "-" (String c' r') /\ c' <> c).
  { apply orb_prop in Hl as [Hh|Hs].
    - apply bool_decide_eq_true in Hh. exists "h"%char, "". split; [done|]. by intros <-.
    - unfold starts_with in Hs. apply bool_decide_eq_true in Hs as [t Ht].
      destruct o.1 as [|a [|b s]]; cbn in Ht; repeat (case_bool_decide; [|done]); try done.
      subst. exists "-"%char, s. split; [done|]. by intros <-. }
  destruct Hd as (c' & r' & -> & Hne). repeat split; [|congruence..].
  apply bool_decide_eq_false. intros [t Ht]. cbn in Ht.
  by rewrite (bool_decide_false (c = c')) in Ht by congruence.
Qed.
Lemma named_none s : (forall o, o ∈ option_strings p -> o.1 <> s) -> named p s = None.
Proof.
  intros H. unfold named. destruct (head _) as [o|] eqn:Ho; [|done]. exfalso.
  apply head_Some_elem_of, list_elem_of_filter in Ho as [He Ho]. by eapply H.
Qed.
Lemma bind_nil {A B} (f : A -> list B) l : (forall x, x ∈ l -> f x = []) -> l ≫= f = [].
Proof.
  induction l as [|x l IH]; intros H; [done|]. cbn. rewrite H by apply list_elem_of_here.
  apply IH. intros y Hy. by apply H, list_elem_of_further.
Qed.

Lemma value_negative c r : long_options = true -> is_digit c = true -> all_chars is_digit r = true ->
  is_value p (String "-" (String c r)).
Proof.
  intros Hl Hc Hr. assert (Ha : all_chars is_digit (String c r) = true) by (cbn; by rewrite Hc).
  split. { intros He. injection He as -> _. by vm_compute in Hc. }
  unfold _parse_optional. rewrite named_none; [|intros o Ho; by eapply option_not_number].
  rewrite decide_False by done.
  rewrite partition_none by exact (no_char (String c r) "="%char Ha eq_refl).
  unfold unknown_option. replace (_get_option_tuples p _) with (@nil (argument * option string)).
  - replace (negative_number _) with true; [done|]. unfold negative_number. symmetry.
    change (chomp (String "-" (String c r))) with (String "-" (chomp (String c r))).
    rewrite chomp_digits, partition_none by (done || exact (no_char (String c r) "."%char Ha eq_refl)).
    by rewrite Ha.
  - symmetry. assert (Hb : (o ← option_strings p;
      if decide (o.1 = String "-" (String c "")) then [(o.2, Some r)]
      else if starts_with o.1 (String "-" (String c r)) then [(o.2, None)] else []) = []).
    { apply bind_nil. intros o Ho. destruct (option_not_number o c r Hl Ho Hc) as (Hs & Hd & _).
      by rewrite decide_False, Hs by done. }
    by destruct c as [[] [] [] [] [] [] [] []].
Qed.
Lemma value_number z : long_options = true -> is_value p (str_of_Z z).
Proof.
  intros Hl. unfold str_of_Z, pretty, pretty_Z. destruct z as [|n|n]; [by apply value_plain| |].
  - change (pretty n) with (pretty (N.pos n)). destruct (pretty_N_cons (N.pos n)) as (c & s & -> & Hc).
    apply value_plain. destruct Hc as [d Hc]. by destruct c as [[] [] [] [] [] [] [] []].
  - change (pretty n) with (pretty (N.pos n)).
    pose proof (digits_all_digits _ _ _ (digits_pretty_N (N.pos n))) as Hd.
    destruct (pretty_N_cons (N.pos n)) as (c & s & He & _). rewrite He in *.
    change (String "-" "" +:+ String c s) with (String "-" (String c s)).
    cbn in Hd. apply andb_prop in Hd as [Hc Hs]. by apply value_negative.
Qed.
End Printed.

(** ** The texts of numbers read back *)
Lemma strip_plain s : all_chars (fun c => negb (is_blank c)) s = true -> strip s = s.
Proof.
  assert (Hl : forall s, all_chars (fun c => negb (is_blank c)) s = true -> strip_left s = s).
  { intros [|c t]; [done|]. cbn. intros [Hc _]%andb_prop. by destruct (is_blank c). }
  intros Hs. unfold strip. rewrite Hl by done. induction s as [|c s IH]; [done|].
  cbn in Hs |- *. apply andb_prop in Hs as [Hc Hs]. destruct (is_blank c); [done|]. cbn.
  by rewrite IH.
Qed.
Lemma digit_not_blank c : is_digit c = true -> negb (is_blank c) = true.
Proof. by destruct c as [[] [] [] [] [] [] [] []]. Qed.
Lemma count_all s : all_chars is_digit s = true -> count_chars is_digit s = Z.of_nat (String.length s).
Proof.
  induction s as [|c s IH]; [done|]. cbn [all_chars count_chars String.length].
  intros [Hc Hs]%andb_prop. rewrite Hc, IH by done. cbn [Z.b2z]. lia.
Qed.
Lemma pretty_digits (x : N) : all_chars is_digit (pretty x) = true /\ pretty x <> "".
Proof.
  split; [exact (digits_all_digits _ _ _ (digits_pretty_N x))|].
  by destruct (pretty_N_cons x) as (c & s & -> & _).
Qed.
Lemma mantissa_nat (x : N) :
  mantissa_part (pretty x) = Some (Z.of_N x, Z.of_nat (String.length (pretty x))).
Proof.
  destruct (pretty_digits x) as [Hd Hn]. unfold mantissa_part, plain_nat.
  rewrite decide_False by done.
  rewrite (all_chars_mono is_digit _ _ digit_not_blank Hd), py_nat_pretty, count_all by done. done.
Qed.
Lemma unsigned_float_nat (x : N) : unsigned_float (pretty x) = Some (inject_Z (Z.of_N x)).
Proof.
  destruct (pretty_digits x) as [Hd Hn]. unfold unsigned_float. rewrite partition_none.
  2:{ eapply all_chars_mono, Hd. intros c Hc. by rewrite !(digit_is c). }
  rewrite partition_none by by apply no_char. rewrite mantissa_nat.
  destruct (pretty x) as [|c s]; [done|]. change (mantissa_part (default "" None)) with (Some (0, 0)).
  cbn -[Z.mul Z.add Z.of_N Z.of_nat]. rewrite Z.add_0_r. change (Z.of_nat (S (String.length s)) =? 0) with false.
  change (Some ((inject_Z (Z.of_N x) + 0) * 1)%Q = Some (inject_Z (Z.of_N x))).
  unfold inject_Z, Qmult, Qplus. cbn [Qnum Qden]. f_equal. f_equal. lia.
Qed.
(** [float(str(z)) == z] *)
Lemma py_float_of_Z z : py_float (str_of_Z z) = Some (inject_Z z).
Proof.
  assert (Hs : forall x : N, all_chars (fun c => negb (is_blank c)) (pretty x) = true).
  { intros x. eapply all_chars_mono, digits_all_digits, digits_pretty_N. apply digit_not_blank. }
  assert (Hp : forall x : N, py_float (pretty x) = Some (inject_Z (Z.of_N x))).
  { intros x. unfold py_float. rewrite strip_plain, <- unsigned_float_nat by done.
    destruct (pretty_N_cons x) as (c & s & -> & [d Hc]). by destruct c as [[] [] [] [] [] [] [] []]. }
  unfold str_of_Z, pretty, pretty_Z. destruct z as [|n|n]; [done|exact (Hp (N.pos n))|].
  change (pretty n) with (pretty (N.pos n)). change ("-" +:+ pretty (N.pos n))
    with (String "-" (pretty (N.pos n))).
  unfold py_float. rewrite strip_plain by exact (Hs (N.pos n)). by rewrite unsigned_float_nat.
Qed.

(** ** Whatever is parsed has its type *)
Definition value_ok (a : argument) (v : value) : Prop :=
  match reads_as a, v with
  | AsText, VText s => choices a = [] \/ s ∈ choices a
  | AsInt, VInt _ => True
  | AsFloat, VFloat _ => True
  | _, _ => False
  end.
(** The default, or what the argument's kind stores *)
Definition argument_ok (a : argument) (v : value) : Prop :=
  v = initial a \/
  match takes a with
  | One => value_ok a v
  | Several => exists vs, v = VList vs /\ Forall (value_ok a) vs
  | Switch => v = VBool true
  | Help => False
  end.

Section Typed.
Context (p : parser).
Record typed (ns : namespace) : Prop := {
  all_there : ns.*1 = dest <$> arguments p;
  each_ok : forall d v, (d, v) ∈ ns -> exists a, a ∈ arguments p /\ dest a = d /\ argument_ok a v;
}.
(** An outcome: typed, or one of argparse's two exit codes *)
Definition outcome_ok (r : result Z parsing) : Prop :=
  match r with Ok st => typed (found st) | Err code => code = 0 \/ code = 2 end.

Lemma put_in (d : namespace) k v k' v' : (k', v') ∈ put d k v -> (k', v') = (k, v) \/ (k', v') ∈ d.
Proof.
  induction d as [|[a b] d IH]; cbn; [set_solver|]. case_decide as Hk; [subst|]; set_solver.
Qed.
Lemma put_same_keys (d : namespace) k v : k ∈ d.*1 -> (put d k v).*1 = d.*1.
Proof.
  induction d as [|[a b] d IH]; cbn; [set_solver|]. case_decide as Hk; [by subst|].
  rewrite elem_of_cons. intros [->|Hd]; [done|]. cbn. by rewrite IH.
Qed.
Lemma typed_set a v st : a ∈ arguments p -> argument_ok a v -> typed (found st) ->
  typed (found (set_found a v st)).
Proof.
  intros Ha Hv [Hk He]. split; cbn.
  - rewrite put_same_keys; [done|]. rewrite Hk. by apply list_elem_of_fmap_2.
  - intros d w Hw. apply put_in in Hw as [[= -> ->]|Hw]; [by exists a|by apply He].
Qed.

Lemma get_value_ok a s : match _get_value a s with Ok v => value_ok a v | Err c => c = 2 end.
Proof.
  unfold _get_value, value_ok. destruct (reads_as a).
  - destruct (bool_decide (choices a = [])) eqn:H1; cbn.
    { left. by apply bool_decide_eq_true in H1. }
    destruct (bool_decide (s ∈ choices a)) eqn:H2; [|done]. right. by apply bool_decide_eq_true in H2.
  - by destruct (to_int s).
  - by destruct (py_float s).
Qed.
Lemma get_values_ok a l :
  match _get_values a l with Ok vs => Forall (value_ok a) vs | Err c => c = 2 end.
Proof.
  induction l as [|s l IH]; cbn; [done|]. pose proof (get_value_ok a s) as Hv.
  destruct (_get_value a s); [|done]. cbn. destruct (_get_values a l); [|done]. by constructor.
Qed.
Lemma take_one_ok a s st k : a ∈ arguments p -> takes a = One -> typed (found st) ->
  (forall st, typed (found st) -> outcome_ok (k st)) ->
  outcome_ok (st <-! take_one a s st ;; k st).
Proof.
  intros Ha Ht Hst Hk. unfold take_one. pose proof (get_value_ok a s) as Hv.
  destruct (_get_value a s); cbn; [|by right]. apply Hk, typed_set; [done| |done].
  right. by rewrite Ht.
Qed.
Lemma take_several_ok a l st k : a ∈ arguments p -> takes a = Several -> typed (found st) ->
  (forall st, typed (found st) -> outcome_ok (k st)) ->
  outcome_ok (st <-! take_several a l st ;; k st).
Proof.
  intros Ha Ht Hst Hk. unfold take_several. pose proof (get_values_ok a l) as Hv.
  destruct (_get_values a l) as [vs|]; cbn; [|by right]. apply Hk, typed_set; [done| |done].
  right. rewrite Ht. by exists vs.
Qed.

(** The marks name options of the parser. *)
Definition mark_ok (m : mark * string) : Prop :=
  match m.1 with Option (Some a) _ => a = help_option \/ a ∈ optionals p | _ => True end.
Lemma option_strings_ok o : o ∈ option_strings p -> o.2 = help_option \/ o.2 ∈ optionals p.
Proof.
  unfold option_strings. intros (b & Ho & Hb)%list_elem_of_bind.
  apply list_elem_of_bind in Ho as (n & Ho & _). apply list_elem_of_singleton in Ho as ->.
  apply elem_of_cons in Hb. naive_solver.
Qed.
Lemma named_ok s a : named p s = Some a -> a = help_option \/ a ∈ optionals p.
Proof.
  unfold named. destruct (head _) as [o|] eqn:Ho; [|done]. intros [= <-].
  apply head_Some_elem_of, list_elem_of_filter in Ho as [_ Ho]. by apply option_strings_ok.
Qed.
Lemma tuples_ok s a e : (a, e) ∈ _get_option_tuples p s -> a = help_option \/ a ∈ optionals p.
Proof.
  assert (Hb : forall f : string * argument -> list (argument * option string),
    (forall o x, x ∈ f o -> x.1 = o.2) -> (a, e) ∈ (o ← option_strings p; f o) ->
    a = help_option \/ a ∈ optionals p).
  { intros f Hf (o & Hx & Ho)%list_elem_of_bind. apply Hf in Hx. cbn in Hx. subst.
    by apply option_strings_ok. }
  unfold _get_option_tuples. destruct s as [|c s]; [set_solver|].
  destruct (decide (c = "-"%char)) as [->|Hc]; [|destruct c as [[] [] [] [] [] [] [] []]; set_solver].
  destruct s as [|d s]; [set_solver|].
  destruct (decide (d = "-"%char)) as [->|Hd].
  - destruct (partition_by _ _) as [prefix x]. apply Hb. intros o y. case_match; set_solver.
  - intros H. assert (Hx : (a, e) ∈ (o ← option_strings p;
      if decide (o.1 = String "-" (String d "")) then [(o.2, Some s)]
      else if starts_with o.1 (String "-" (String d s)) then [(o.2, None)] else [])).
    { by destruct d as [[] [] [] [] [] [] [] []]. }
    revert Hx. apply Hb. intros o y. repeat case_match; set_solver.
Qed.
Lemma unknown_ok s m : unknown_option p s = Ok m -> mark_ok (m, s).
Proof.
  unfold unknown_option. destruct (_get_option_tuples p s) as [|[a e] [|]] eqn:Ht.
  - by destruct (_ || _); intros [= <-].
  - intros [= <-]. eapply tuples_ok. rewrite Ht. apply list_elem_of_here.
  - done.
Qed.
Lemma parse_optional_ok s :
  match _parse_optional p s with Ok m => mark_ok (m, s) | Err c => c = 2 end.
Proof.
  assert (Hu : match unknown_option p s with Ok m => mark_ok (m, s) | Err c => c = 2 end).
  { destruct (unknown_option p s) eqn:Hu; [by apply unknown_ok|]. revert Hu. unfold unknown_option.
    repeat case_match; congruence. }
  unfold _parse_optional. destruct s as [|c r]; [done|].
  destruct (decide (c = "-"%char)) as [->|Hc]; [|by destruct c as [[] [] [] [] [] [] [] []]].
  destruct (named p _) eqn:Hn; [by eapply named_ok|]. case_decide; [done|].
  destruct (partition_by _ _) as [name [x|]]; [|done].
  destruct (named p name) eqn:Hm; [by eapply named_ok|done].
Qed.
Lemma classify_ok args :
  match classify p args with Ok l => Forall mark_ok l | Err c => c = 2 end.
Proof.
  induction args as [|s r IH]; cbn; [done|]. case_decide.
  - constructor; [done|]. apply Forall_fmap, Forall_true. by intros.
  - pose proof (parse_optional_ok s) as Hm. destruct (_parse_optional p s); [|done]. cbn.
    destruct (classify p r); [|done]. by constructor.
Qed.

(** *** Several values are all the arguments that follow *)
Fixpoint leading (l : list (mark * string)) : list string * list (mark * string) :=
  match l with
  | (Argument, v) :: r => let '(vs, r') := leading r in (v :: vs, r')
  | _ => ([], l)
  end.
Lemma consume_several a s v r st : takes a = Several ->
  consume p ((Option (Some a) None, s) :: (Argument, v) :: r) st =
    (st <-! take_several a (v :: (leading r).1) st ;; consume p (leading r).2 st).
Proof.
  intros Ha. cbn. rewrite Ha.
  match goal with |- ?run [v] r = _ => assert (Hr : forall r vs, run vs r =
    (st <-! take_several a (vs ++ (leading r).1) st ;; consume p (leading r).2 st)) end.
  { clear r. induction r as [|[[] x] r IH]; intros vs; cbn [leading fst snd].
    - by rewrite app_nil_r.
    - rewrite IH. destruct (leading r) as [ws r']. cbn [fst snd]. by rewrite <- app_assoc.
    - by rewrite app_nil_r.
    - by rewrite app_nil_r. }
  by rewrite Hr.
Qed.
Lemma leading_ok l : Forall mark_ok l -> Forall mark_ok (leading l).2 /\
  (length (leading l).2 <= length l)%nat.
Proof.
  induction l as [|[[] x] l IH]; cbn; [done| |by split; [|lia]..].
  intros [_ Hl]%Forall_cons. destruct (leading l), (IH Hl). cbn in *. split; [done|lia].
Qed.

Lemma explicit_ok a s x st k : (a = help_option \/ a ∈ optionals p) -> typed (found st) ->
  (forall st, typed (found st) -> outcome_ok (k st)) ->
  outcome_ok (st <-! take_explicit a s x st ;; k st).
Proof.
  intros Ha Hst Hk. unfold take_explicit. destruct (takes a) eqn:Ht.
  - destruct Ha as [->|Ha]; [done|]. apply take_one_ok; [|done..]. unfold arguments. set_solver.
  - destruct Ha as [->|Ha]; [done|]. apply take_several_ok; [|done..]. unfold arguments. set_solver.
  - by right.
  - destruct (_ || _); [by right|by left].
Qed.
Lemma positional_in st a : free_positional p st = Some a -> a ∈ arguments p /\ positional p = Some a.
Proof.
  unfold free_positional, arguments. destruct (positional p) as [b|]; [|done].
  case_bool_decide; [done|]. intros [= ->]. set_solver.
Qed.
Context (one_positional : forall a, positional p = Some a -> takes a = One).

Lemma consume_ok n : forall l st, (length l <= n)%nat -> Forall mark_ok l -> typed (found st) ->
  outcome_ok (consume p l st).
Proof using All.
  induction n as [|n IH]; intros [|[m s] l] st Hn Hl Hst; try done; [cbn in Hn; lia|].
  apply Forall_cons in Hl as [Hm Hl]. cbn in Hn.
  assert (IHl : forall st, typed (found st) -> outcome_ok (consume p l st)) by (intros; apply IH; [lia|done..]).
  assert (Htail : forall m l' st, l = m :: l' -> typed (found st) -> outcome_ok (consume p l' st)).
  { intros m' l' st' -> Hst'. apply Forall_cons in Hl as [_ Hl]. apply IH; [cbn in Hn; lia|done..]. }
  destruct m as [| |[a|] [x|]].
  - cbn. destruct (free_positional p st) as [a|] eqn:Hf; [|by apply IHl].
    apply positional_in in Hf as [Ha Hp].
    destruct l as [|[[] y] l]; apply take_one_ok; eauto.
  - cbn. destruct (free_positional p st) as [a|] eqn:Hf; [|by apply IHl].
    apply positional_in in Hf as [Ha Hp].
    destruct l as [|[[] y] l]; try by apply IHl. apply take_one_ok; eauto.
  - cbn. by apply explicit_ok.
  - destruct (takes a) eqn:Ht.
    + cbn. rewrite Ht. destruct Hm as [->|Ha]; [done|].
      assert (a ∈ arguments p) by (unfold arguments; set_solver).
      destruct l as [|[[] y] l]; try by right. apply take_one_ok; eauto.
    + destruct Hm as [->|Ha]; [done|]. assert (a ∈ arguments p) by (unfold arguments; set_solver).
      destruct l as [|[[] y] l]; try (cbn; rewrite Ht; by right).
      rewrite consume_several by done. apply take_several_ok; [done..|]. intros st' Hst'.
      apply Forall_cons in Hl as [_ Hl]. destruct (leading_ok l Hl). apply IH; [cbn in Hn; lia|done..].
    + cbn. rewrite Ht. destruct Hm as [->|Ha]; [done|]. apply IHl, typed_set; [|by right; rewrite Ht|done].
      unfold arguments. set_solver.
    + cbn. rewrite Ht. by left.
  - cbn. by apply IHl.
  - cbn. by apply IHl.
Qed.

(** A command line is a namespace with every attribute of its type, or exit code 0 or 2. *)
Lemma parse_typed args :
  match parse_args p args with Ok ns => typed ns | Err code => code = 0 \/ code = 2 end.
Proof using All.
  unfold parse_args. pose proof (classify_ok args) as Hl.
  destruct (classify p args) as [l|]; cbn; [|by right].
  assert (Hd : typed (defaults p)).
  { unfold defaults. split; [by rewrite <- list_fmap_compose|]. intros d v Hv.
    apply list_elem_of_fmap in Hv as (a & [= -> ->] & Ha). exists a. split_and!; [done..|by left]. }
  pose proof (consume_ok (length l) l (mk_parsing (defaults p) [] []) (le_n _) Hl Hd) as Hc.
  destruct (consume p l _); cbn; [|done]. destruct (complete p a); [done|by right].
Qed.
End Typed.
