(* ===== verification/Session.v ===== *)
(** The AWS benchmark driver (deploy/bench.py): the session's points, the loadgen commands,
    the report that comes back in a log, the two backends and the driver itself.

    The driver is a program over its backend's operations ([bop], the protocol [Backend])
    and the host's effects; [AwsBackend] and [LocalBackend] carry the operations out with
    commands. gzip (a class with its round trip), the indented JSON printer and the
    text of a container value are parameters. [out_dir] is a path, file names are appended
    to it. Log lines are cut short. *)
From S2P Require Import Prelude Effects Redis LuaScripts Json Py Models Handlers.
From S2P Require Import Tables.
From S2P Require Import Texts Shell.
From Stdlib Require Import Qcanon.

#[local] Open Scope string_scope.
#[local] Open Scope list_scope.
#[local] Open Scope Z_scope.
#[local] Open Scope prog_scope.

Definition QUEUE : string := "bench".
Definition MAX_DEPTH : Z := 20000.
Definition POINT_OVERHEAD_S : Z := 90.
Definition SESSION_OVERHEAD_S : Z := 15 * 60.
Definition ENVIRONMENT : string :=
  "AWS us-west-2a, ECS on EC2: Redis on m7i-flex.large, 2 loadgen hosts and the " +:+
  "workers on c7i-flex.large (2 workers per host)".

(** ** The session *)
Record BenchPoint := mk_BenchPoint {
  suite : string;
  label : string;
  workers : Z;
  warmup : Z;
  measure : Z;
  cooldown : Z;
  args : list string;
  overload : Q;
}.

Definition seconds (p : BenchPoint) : Z := warmup p + measure p + cooldown p + POINT_OVERHEAD_S.

Record SessionSpec := mk_SessionSpec {
  worker_counts : list Z;
  scaling_measure : Z;
  headline_workers : Z;
  headline_measure : Z;
  headline_repeats : Z;
  backpressure_measure : Z;
  spec_overload : Q;
  high_watermark : Z;
  low_watermark : Z;
  spec_warmup : Z;
  spec_cooldown : Z;
  processes : Z;
  suites : list string;
}.
Definition default_spec : SessionSpec :=
  mk_SessionSpec [1; 2; 4; 8; 12] 180 12 300 3 120 (3 # 2) 200000 150000 20 5 4
    ["scaling"; "headline"; "backpressure"].

Definition session_points (s : SessionSpec) : list BenchPoint :=
  let saturate := ["--rate"; "0"; "--max-depth"; str_of_Z MAX_DEPTH; "--batch"; "500"] in
  let procs := ["--processes"; str_of_Z (processes s)] in
  let hw := headline_workers s in
  (if bool_decide ("scaling" ∈ suites s) then
     (fun w => mk_BenchPoint "scaling" ("w" +:+ two_digits w) w (spec_warmup s)
        (scaling_measure s) (spec_cooldown s) (procs ++ saturate) 0) <$> worker_counts s
   else []) ++
  (if bool_decide ("headline" ∈ suites s) then
     (fun r => mk_BenchPoint "headline" ("w" +:+ two_digits hw +:+ "_r" +:+ str_of_Z r) hw
        (spec_warmup s) (headline_measure s) (spec_cooldown s) (procs ++ saturate) 0)
     <$> seqZ 1 (headline_repeats s)
   else []) ++
  (if bool_decide ("backpressure" ∈ suites s) then
     let marks := ["--high-watermark"; str_of_Z (high_watermark s);
                   "--low-watermark"; str_of_Z (low_watermark s)] in
     (fun mode => mk_BenchPoint "backpressure" ("w" +:+ two_digits hw +:+ "_" +:+ mode) hw
        (spec_warmup s) (backpressure_measure s) (spec_cooldown s)
        (procs ++ ["--backpressure"; mode] ++ marks) (spec_overload s)) <$> ["reject"; "block"]
   else []).

Definition session_seconds (points : list BenchPoint) : Z :=
  foldr Z.add 0 (seconds <$> points) + SESSION_OVERHEAD_S.

Definition backpressure_rate (headline_rates : list Q) (overload : Q) : result exn Q :=
  match headline_rates with
  | [] => Err (ValueError "no headline results yet: run the headline suite first")
  | _ => Ok (overload * median headline_rates)%Q
  end.

(** ** Commands *)
(** A float without decimals ([:.0f]), not negative. *)
Definition fixed0 (q : Q) : string := str_of_Z (Tables.round q).

Definition _DUMP : string :=
  foldr (fun l r => l +:+ newline +:+ r) ""
  ["import base64,gzip,os,textwrap";
   "p='/tmp/report.json'";
   "if os.path.exists(p):";
   " d=base64.b64encode(gzip.compress(open(p,'rb').read())).decode()";
   " print('REPORT-BEGIN',flush=True)";
   " [print('R:'+c,flush=True) for c in textwrap.wrap(d,60000)]";
   " print('REPORT-END',flush=True)"].

Definition FLUSH_COMMAND : list string :=
  ["python"; "-c";
   foldr (fun l r => l +:+ newline +:+ r) ""
   ["import os,redis";
    "r=redis.Redis.from_url(os.environ['FTQ_REDIS_URL'])";
    "r.flushall()";
    "print('flushed; dbsize', r.dbsize())"]].

(** What the two containers give the load generator as its command line *)
Definition coordinator_argv (p : BenchPoint) (run_id : string) (meta : json)
    (rate : option Q) : list string :=
  ["--queue"; QUEUE;
   "--hosts"; "2"; "--run-id"; run_id; "--expect-workers"; str_of_Z (workers p);
   "--warmup"; str_of_Z (warmup p); "--measure"; str_of_Z (measure p);
   "--cooldown"; str_of_Z (cooldown p);
   "--drain-timeout"; "600"; "--host-timeout"; "180"] ++ args p ++
  (match rate with Some r => ["--rate"; fixed0 r] | None => [] end) ++
  ["--meta"; dumps meta; "--out"; "/tmp/report.json"].
Definition producer_argv (run_id : string) : list string :=
  ["--queue"; QUEUE; "--producer-only"; "--run-id"; run_id; "--host-timeout"; "300"].

Definition coordinator_command (p : BenchPoint) (run_id : string) (meta : json)
    (rate : option Q) : list string :=
  let a := ["python"; "-m"; "bench.loadgen"] ++ coordinator_argv p run_id meta rate in
  ["sh"; "-c"; shell_join a +:+ "; rc=$?; python -c " +:+ quote _DUMP +:+ "; exit $rc"].

Definition producer_command (run_id : string) : list string :=
  ["python"; "-m"; "bench.loadgen"] ++ producer_argv run_id.

(** Replace every mention of the account. *)
Definition scrub_account (text account_id : string) : string :=
  if decide (account_id = "") then text else replace account_id "<acct>" text.

(** *** The report in the coordinator's log *)
Class Gzip := {
  compress : string -> string;
  decompress : string -> result exn string;
  decompress_compress s : decompress (compress s) = Ok s;
}.

(** The lines between the marks, their prefixes off; [None]: no end mark. *)
Fixpoint report_chunks (lines : list string) (inside : bool) (chunks : list string) :
    option (list string) :=
  match lines with
  | [] => None
  | raw :: r =>
      let line := strip raw in
      if decide (line = "REPORT-BEGIN") then report_chunks r true []
      else if bool_decide (line = "REPORT-END") && inside then Some chunks
      else match drop_prefix "R:" line with
           | Some c => report_chunks r inside (if inside then chunks ++ [c] else chunks)
           | None => report_chunks r inside chunks
           end
  end.

Definition decode_report `{Gzip} (lines : list string) : result exn (option json) :=
  match report_chunks lines false [] with
  | None => Ok None
  | Some chunks =>
      data <-! b64decode (join "" chunks) ;;
      text <-! decompress data ;;
      j <-! json_loads text ;; Ok (Some j)
  end.

(** ** Backends *)
Record PairResult := mk_PairResult {
  coordinator_exit : json;
  producer_exit : json;
  coordinator_log : list string;
  producer_log : list string;
  placement : list (string * string);
}.

Inductive bop : Type -> Type :=
  | wait_for_redis : bop unit
  | set_workers (n : Z) : bop unit
  | flush : bop unit
  | snapshot : bop json
  | run_pair (coordinator producer : list string) (within : Q) : bop PairResult.

Record Backend := mk_Backend {
  name : string;
  scrub : string -> string;
  perform : forall X, bop X -> sh X;
}.

(** A call of the AWS command line that only reads, by its first two words. *)
Definition READ_ONLY_CALLS : list (string * string) :=
  [("sts", "get-caller-identity"); ("ecs", "describe-services"); ("ecs", "describe-tasks");
   ("ecs", "describe-container-instances"); ("ecs", "describe-task-definition");
   ("ecs", "list-tasks"); ("ecs", "list-container-instances");
   ("logs", "get-log-events"); ("logs", "filter-log-events")].
Definition READ_ATTEMPTS : nat := 3.
Definition read_only (a : list string) : bool :=
  match a with x :: y :: _ => bool_decide ((x, y) ∈ READ_ONLY_CALLS) | _ => false end.
Definition attempts_of (a : list string) : nat := if read_only a then READ_ATTEMPTS else 1%nat.
Definition aws_cmd (a : list string) : list string := "aws" :: a ++ ["--output"; "json"].

(** [left] attempts are left, [attempt] is the number of the next one. *)
Fixpoint try_aws (retry_s : Q) (a : list string) (left : nat) (attempt : Z) : sh string :=
  match left with
  | O => throw AssertionError
  | S more =>
      except is_called_process_error (_run (aws_cmd a)) (fun e =>
        match more with
        | O => throw e
        | S _ =>
            call (HLog WARNING ("attempt " +:+ str_of_Z attempt +:+ " failed, retrying")) ;;;
            call (HSleep (retry_s * inject_Z (2 ^ (attempt - 1)))) ;;;
            try_aws retry_s a more (attempt + 1)
        end)
  end.
Definition _aws (retry_s : Q) (a : list string) : sh string :=
  try_aws retry_s a (attempts_of a) 1.

Section Backends.
Context `{Gzip} (indented : json -> string) (repr : json -> string) (fuel : nat).

(** *** AwsBackend *)
Record AwsBackend := mk_Aws {
  cluster : string;
  task_def : string;
  account : string;
  poll_s : Q;
  retry_s : Q;
}.

Section Aws.
Context (b : AwsBackend).

Definition aws_call (a : list string) : sh json := t <- _aws (retry_s b) a ;; parse t.
Definition _ecs (a : list string) : sh json :=
  aws_call ("ecs" :: a ++ ["--cluster"; cluster b]).

Definition _task (arn : string) : sh json :=
  r <- _ecs ["describe-tasks"; "--tasks"; arn] ;;
  x <- json_at r "tasks" ;; check (at_first x).
Definition has_stopped (arn : string) : sh bool :=
  t <- _task arn ;; st <- json_at t "lastStatus" ;; Ret (is_text "STOPPED" st).
(** [self._task(arn)["containers"][0].get("exitCode")] *)
Definition exit_code (arn : string) : sh json :=
  t <- _task arn ;; cs <- json_at t "containers" ;; c <- check (at_first cs) ;;
  check (get_key "exitCode" c).

Definition healthy : sh bool :=
  r <- _ecs ["describe-services"; "--services"; "redis"] ;;
  ss <- json_at r "services" ;; svc <- check (at_first ss) ;;
  n <- json_at svc "runningCount" ;;
  if negb (is_int 1 n) then Ret false else
    r <- _ecs ["list-tasks"; "--service-name"; "redis"] ;;
    arns <- texts r "taskArns" ;;
    match arns with
    | [arn] =>
        t <- _task arn ;;
        st <- json_at t "lastStatus" ;; h <- check (get_key "healthStatus" t) ;;
        Ret (is_text "RUNNING" st && is_text "HEALTHY" h)
    | _ => Ret false
    end.
Definition aws_wait_for_redis : sh unit :=
  _wait fuel "the Redis task to be running and healthy" healthy 300 (poll_s b).

Definition settled_at (n : Z) : sh bool :=
  r <- _ecs ["describe-services"; "--services"; "worker"] ;;
  ss <- json_at r "services" ;; svc <- check (at_first ss) ;;
  running <- json_at svc "runningCount" ;;
  if negb (is_int n running) then Ret false else
    pending <- json_at svc "pendingCount" ;;
    if negb (is_int 0 pending) then Ret false else
      ds <- listed svc "deployments" ;; Ret (length ds =? 1)%nat.
Definition aws_set_workers (n : Z) : sh unit :=
  _ecs ["update-service"; "--service"; "worker"; "--desired-count"; str_of_Z n] ;;;
  _wait fuel (str_of_Z n +:+ " running workers") (settled_at n) 600 (poll_s b).

Definition loadgen_instances : sh (string * string) :=
  r <- _ecs ["list-container-instances"; "--filter"; "attribute:ftq.role == loadgen"] ;;
  found <- texts r "containerInstanceArns" ;;
  match sort_strings found with
  | x :: y :: _ => Ret (x, y)
  | l => throw (RuntimeError ("need 2 loadgen hosts, found " +:+ str_of_Z (Z.of_nat (length l))))
  end.

Definition _start (instance : string) (command : list string) : sh string :=
  let overrides := JObj [("containerOverrides",
    JArr [JObj [("name", JStr "loadgen"); ("command", JArr (JStr <$> command))]])] in
  res <- _ecs ["start-task"; "--task-definition"; task_def b;
               "--container-instances"; instance; "--overrides"; dumps_spaced overrides] ;;
  failures <- check (get_key "failures" res) ;; tasks <- check (get_key "tasks" res) ;;
  if truthy failures || negb (truthy tasks) then
    throw (RuntimeError ("start-task failed: " +:+ str_of_json repr failures))
  else t <- check (at_first tasks) ;; arn <- json_at t "taskArn" ;;
       Ret (str_of_json repr arn).

(** The pages of a log; a page's token, once it repeats, is the end. *)
Definition log_page (task_id : string) (st : list string * string) :
    sh (list string * string + list string) :=
  let '(lines, token) := st in
  page <- aws_call (["logs"; "get-log-events"; "--log-group-name"; "/ftq/loadgen";
    "--log-stream-name"; "loadgen/loadgen/" +:+ task_id; "--start-from-head"] ++
    (if decide (token = "") then [] else ["--next-token"; token])) ;;
  events <- listed page "events" ;;
  messages <- check (each (fun e => m <-! at_key "message" e ;; as_text m) events) ;;
  let lines := lines ++ messages in
  match events with
  | [] => Ret (inr lines)
  | _ =>
      next <- json_at page "nextForwardToken" ;; next <- check (as_text next) ;;
      Ret (if decide (next = token) then inr lines else inl (lines, next))
  end.
Definition _logs (arn : string) : sh (list string) :=
  while_true fuel (log_page (last_part "/" arn)) ([], "").

Definition aws_flush : sh unit :=
  hosts <- loadgen_instances ;;
  arn <- _start hosts.1 FLUSH_COMMAND ;;
  _wait fuel "the flush task" (has_stopped arn) 300 (poll_s b) ;;;
  code <- exit_code arn ;;
  if is_int 0 code then Ret tt else
    lines <- _logs arn ;;
    throw (RuntimeError ("flush exited " +:+ str_of_json repr code +:+ ": " +:+
      join ", " (drop (length lines - 5) lines))).

(** {k: s[k] for k in names} *)
Definition picked (names : list string) (j : json) : result exn json :=
  l <-! each (fun k => v <-! at_key k j ;; Ok (k, v)) names ;; Ok (JObj l).
Definition attribute (a : json) : result exn (string * json) :=
  n <-! at_key "name" a ;; n <-! as_text n ;; v <-! get_key "value" a ;; Ok (n, v).
Definition instance_of (ci : json) : result exn (string * json) :=
  attrs <-! optional_list "attributes" ci ;; attrs <-! each attribute attrs ;;
  id <-! at_key "ec2InstanceId" ci ;;
  arn <-! at_key "containerInstanceArn" ci ;; arn <-! as_text arn ;;
  Ok (arn, JObj [("ec2_instance_id", id);
                 ("instance_type", get (foldl (fun d a => put d a.1 a.2) [] attrs)
                                       "ecs.instance-type" JNull)]).
Definition worker_task (instances : list (string * json)) (t : json) : result exn json :=
  arn <-! at_key "taskArn" t ;; arn <-! as_text arn ;; st <-! at_key "lastStatus" t ;;
  ci <-! at_key "containerInstanceArn" t ;; ci <-! as_text ci ;;
  let more := match get instances ci (JObj []) with JObj l => l | _ => [] end in
  Ok (JObj (("task", JStr (last_part "/" arn)) :: ("last_status", st) :: more)).

(** [next(s for s in services if s["serviceName"] == "worker")] *)
Fixpoint worker_service (services : list json) : result exn json :=
  match services with
  | [] => Err StopIteration
  | s :: r => n <-! at_key "serviceName" s ;;
              if is_text "worker" n then Ok s else worker_service r
  end.
Definition environment (e : json) : result exn (string * json) :=
  n <-! at_key "name" e ;; n <-! as_text n ;; v <-! at_key "value" e ;; Ok (n, v).
Definition name_le (a b : string * json) : Prop := string_le a.1 b.1.
#[export] Instance name_le_dec : RelDecision name_le.
Proof. intros x y. unfold name_le. apply _. Defined.

Definition _worker_container (services : list json) : sh json :=
  worker <- check (worker_service services) ;;
  td <- check (x <-! at_key "taskDefinition" worker ;; as_text x) ;;
  r <- aws_call ["ecs"; "describe-task-definition"; "--task-definition"; td] ;;
  td <- json_at r "taskDefinition" ;;
  cs <- json_at td "containerDefinitions" ;; c <- check (at_first cs) ;;
  env <- check (l <-! optional_list "environment" c ;; each environment l) ;;
  arn <- check (x <-! at_key "taskDefinitionArn" td ;; as_text x) ;;
  image <- check (x <-! at_key "image" c ;; as_text x) ;;
  let env := merge_sort name_le (foldl (fun d a => put d a.1 a.2) [] env) in
  Ret (JObj [("task_definition", JStr (last_part "/" arn));
             ("image_tag", JStr (last_part ":" image));
             ("env", JObj (filter (fun kv => kv.1 <> "FTQ_REDIS_URL") env))]).

Definition aws_snapshot : sh json :=
  r <- _ecs ["describe-services"; "--services"; "worker"; "redis"] ;;
  services <- listed r "services" ;;
  r <- _ecs ["list-tasks"; "--service-name"; "worker"] ;;
  arns <- texts r "taskArns" ;;
  tasks <- (match arns with
            | [] => Ret []
            | _ => r <- _ecs (["describe-tasks"; "--tasks"] ++ arns) ;; listed r "tasks"
            end) ;;
  cis <- check (each (fun t => x <-! at_key "containerInstanceArn" t ;; as_text x) tasks) ;;
  instances <- (match cis with
    | [] => Ret []
    | _ =>
        r <- _ecs (["describe-container-instances"; "--container-instances"] ++
                   sort_strings (remove_dups cis)) ;;
        l <- listed r "containerInstances" ;; check (each instance_of l)
    end) ;;
  at_utc <- call HUtc ;;
  ss <- check (each (picked ["serviceName"; "desiredCount"; "runningCount"; "pendingCount"]) services) ;;
  container <- _worker_container services ;;
  ts <- check (each (worker_task (foldl (fun d a => put d a.1 a.2) [] instances)) tasks) ;;
  Ret (JObj [("taken_at_utc", JStr at_utc); ("services", JArr ss);
             ("worker_container", container); ("worker_tasks", JArr ts)]).

(** Wait until the report is all there; the log is the last one read. *)
Definition report_arrived (coord : string) : prog host stop (list string * bool) :=
  log <- _logs coord ;; r <- check (decode_report log) ;;
  Ret (log, bool_decide (is_Some r)).
Definition arrival_turn (coord : string) (deadline : Q) (_ : list string) :
    sh (list string + list string) :=
  a <- report_arrived coord ;;
  let '(log, arrived) := a in
  if arrived : bool then Ret (inr log) else
    now <- call HClock ;;
    if Qlt_bool deadline now then Ret (inr log)   (* the RuntimeError is suppressed *)
    else call (HSleep (poll_s b)) ;;; Ret (inl log).

Definition aws_run_pair (coordinator producer : list string) (within : Q) : sh PairResult :=
  hosts <- loadgen_instances ;;
  let '(x, y) := hosts in
  prod <- _start x producer ;;
  coord <- _start y coordinator ;;
  _wait fuel "both loadgen tasks to stop"
    (p <- has_stopped prod ;; if p : bool then has_stopped coord else Ret false)
    within (poll_s b) ;;;
  code <- exit_code coord ;;
  coord_log <- (if is_int 0 code || is_int 1 code then
                  now <- call HClock ;;
                  while_true fuel (arrival_turn coord (now + 180)) []
                else _logs coord) ;;
  c <- exit_code coord ;; p <- exit_code prod ;; prod_log <- _logs prod ;;
  Ret (mk_PairResult c p coord_log prod_log
    [("producer_only", last_part "/" x); ("coordinator", last_part "/" y)]).

Definition aws_backend : Backend := {|
  name := "aws";
  scrub text := scrub_account text (account b);
  perform X o :=
    match o with
    | wait_for_redis => aws_wait_for_redis
    | set_workers n => aws_set_workers n
    | flush => aws_flush
    | snapshot => aws_snapshot
    | run_pair c p w => aws_run_pair c p w
    end
|}.
End Aws.

(** [AwsBackend(outputs)] *)
Definition new_AwsBackend (outputs : json) (poll retry : Q) : sh AwsBackend :=
  c <- check (x <-! at_key "cluster" outputs ;; as_text x) ;;
  td <- check (x <-! at_key "loadgen_task_definition" outputs ;; as_text x) ;;
  t <- _aws retry ["sts"; "get-caller-identity"] ;;
  j <- parse t ;;
  acct <- check (x <-! at_key "Account" j ;; as_text x) ;;
  Ret (mk_Aws c td acct poll retry).

(** *** LocalBackend *)
Definition project : string := "ftq-awsbench".
Definition compose_file : string := "bench/runs/awsbench-compose.json".
Definition strs (l : list string) : json := JArr (JStr <$> l).

Definition local_compose (concurrency : Z) : json :=
  let env := [("FTQ_REDIS_URL", JStr "redis://redis:6379/0"); ("FTQ_QUEUE", JStr QUEUE)] in
  JObj [
    ("name", JStr project);
    ("services", JObj [
      ("redis", JObj [
        ("image", JStr "redis:8.8.3");
        ("command", strs ["redis-server"; "--appendonly"; "no"; "--save"; "";
                          "--maxmemory"; "2gb"; "--maxmemory-policy"; "noeviction"]);
        ("ports", strs ["127.0.0.1:6392:6379"]);
        ("healthcheck", JObj [("test", strs ["CMD"; "redis-cli"; "ping"]);
                              ("interval", JStr "1s"); ("retries", JInt 30)])]);
      ("worker", JObj [
        ("image", JStr "ftq-worker:local");
        ("environment", JObj (env ++ [("FTQ_CONCURRENCY", JStr (str_of_Z concurrency));
                                      ("FTQ_LOG_LEVEL", JStr "WARNING")]));
        ("depends_on", JObj [("redis", JObj [("condition", JStr "service_healthy")])])]);
      ("loadgen", JObj [
        ("image", JStr "ftq-worker:local"); ("working_dir", JStr "/opt/ftq");
        ("entrypoint", strs ["timeout"; "-k"; "30"; "1800"]);
        ("environment", JObj env); ("profiles", strs ["loadgen"])])])].

Definition compose (a : list string) : sh string :=
  _run (["docker"; "compose"; "-f"; compose_file; "-p"; project] ++ a).
Definition local_wait_for_redis : sh unit := compose ["up"; "-d"; "--wait"; "redis"] ;;; Ret tt.

(** [LocalBackend(concurrency=...)] *)
Definition new_LocalBackend (concurrency : Z) : sh unit :=
  call (HWrite compose_file (indented (local_compose concurrency))) ;;;
  local_wait_for_redis.

Definition _workers : sh (list string) :=
  out <- compose ["ps"; "-q"; "worker"] ;; Ret (words out).
Definition local_set_workers (n : Z) : sh unit :=
  compose ["up"; "-d"; "--no-deps"; "--scale"; "worker=" +:+ str_of_Z n; "worker"] ;;;
  _wait fuel (str_of_Z n +:+ " running workers")
    (ids <- _workers ;; Ret (Z.of_nat (length ids) =? n)) 120 1.
Definition local_flush : sh unit :=
  out <- compose (["--profile"; "loadgen"; "run"; "--rm"; "-T"; "--no-deps"; "loadgen"] ++
                  FLUSH_COMMAND) ;;
  if contains "flushed; dbsize 0" out then Ret tt
  else throw (RuntimeError ("flush failed: " +:+ out)).
Definition local_snapshot : sh json :=
  ids <- _workers ;;
  at_utc <- call HUtc ;;
  Ret (JObj [
    ("taken_at_utc", JStr at_utc);
    ("services", JArr [JObj [("serviceName", JStr "worker");
                             ("runningCount", JInt (Z.of_nat (length ids)))]]);
    ("worker_tasks", JArr ((fun i => JObj [("task", JStr (split_at 12 i).1);
                                           ("last_status", JStr "RUNNING")]) <$> ids))]).
Definition local_start (container : string) (command : list string) : sh unit :=
  compose (["--profile"; "loadgen"; "run"; "-d"; "--no-deps"; "--name"; container; "loadgen"]
           ++ command) ;;; Ret tt.
Definition exited (container : string) : sh bool :=
  out <- _run ["docker"; "inspect"; "-f"; "{{.State.Status}}"; container] ;;
  Ret (bool_decide (strip out = "exited")).
(** The exit code and the log of a container, which is then removed. *)
Definition collected (container : string) : sh (Z * list string) :=
  out <- _run ["docker"; "inspect"; "-f"; "{{.State.ExitCode}}"; container] ;;
  code <- check (to_int out) ;;
  logs <- call (HCommand ["docker"; "logs"; container]) ;;
  let '(_, out, err) := logs in
  _run ["docker"; "rm"; container] ;;;
  Ret (code, splitlines (out +:+ err)).

Definition local_run_pair (coordinator producer : list string) (within : Q) : sh PairResult :=
  hex <- call HHex ;;
  let suffix := (split_at 6 hex).1 in
  let prod := "awsbench-prod-" +:+ suffix in
  let coord := "awsbench-coord-" +:+ suffix in
  local_start prod producer ;;;
  local_start coord coordinator ;;;
  _wait fuel "both loadgen containers"
    (p <- exited prod ;; if p : bool then exited coord else Ret false) within 1 ;;;
  c <- collected coord ;;
  p <- collected prod ;;
  Ret (mk_PairResult (JInt c.1) (JInt p.1) c.2 p.2
    [("producer_only", prod); ("coordinator", coord)]).

Definition down : sh unit :=
  compose ["--profile"; "loadgen"; "down"; "-v"; "--remove-orphans"] ;;; Ret tt.

Definition local_backend : Backend := {|
  name := "local";
  scrub text := text;
  perform X o :=
    match o with
    | wait_for_redis => local_wait_for_redis
    | set_workers n => local_set_workers n
    | flush => local_flush
    | snapshot => local_snapshot
    | run_pair c p w => local_run_pair c p w
    end
|}.

(** ** The driver *)
(** What the driver does: the backend's operations, and the host's. *)
Inductive sess : Type -> Type :=
  | Do {X} (o : bop X) : sess X
  | On {X} (h : host X) : sess X.
Abbreviation se := (prog sess stop).
Definition backend {X} (o : bop X) : se X := call (Do o).
Definition hosted {X} (h : host X) : se X := call (On h).

(** On a backend, its commands. *)
Definition on_backend (b : Backend) {A} (p : se A) : sh A :=
  carried_out (fun X (e : sess X) =>
    match e with Do o => perform b _ o | On h => call h end) p.

Definition _git_rev : se string :=
  r <- hosted (HCommand ["git"; "rev-parse"; "--short"; "HEAD"]) ;;
  let '(code, out, _) := r in Ret (if code =? 0 then strip out else "unknown").

(** [float(json.loads(f.read_text())["throughput"]["completed_per_s"])] *)
Definition rate_of_report (text : string) : result exn Q :=
  j <-! json_loads text ;; t <-! at_key "throughput" j ;; x <-! at_key "completed_per_s" t ;;
  float_of_json x.
Fixpoint rates (files : list string) : se (list Q) :=
  match files with
  | [] => Ret []
  | f :: r =>
      text <- hosted (HRead f) ;; x <- check (rate_of_report text) ;;
      xs <- rates r ;; Ret (x :: xs)
  end.
Definition _headline_rates (out_dir : string) : se (list Q) :=
  files <- hosted (HGlob (out_dir +:+ "/headline/*.json")) ;;
  rates (filter (fun f => ends_with f ".services.json" = false) (sort_strings files)).

Definition key_of (p : BenchPoint) : string := suite p +:+ "/" +:+ label p.
Definition file_of (out_dir : string) (p : BenchPoint) (ending : string) : string :=
  out_dir +:+ "/" +:+ key_of p +:+ ending.

(** The number of a report, without decimals. *)
Definition shown0 (j : json) : result exn string := q <-! float_of_json j ;; Ok (fixed0 q).
Definition outcome_of (report : json) : result exn string :=
  t <-! at_key "throughput" report ;; x <-! at_key "completed_per_s" t ;; rate <-! shown0 x ;;
  once <-! at_key "exactly_once" report ;; ok <-! at_key "ok" once ;;
  p <-! at_key "producers" report ;; h <-! at_key "hosts" p ;; n <-! at_key "reported" h ;;
  d <-! at_key "depth_in_window" report ;; m <-! at_key "min" d ;;
  Ok (rate +:+ "/s, exactly-once " +:+ str_of_json repr ok +:+ ", hosts " +:+
      str_of_json repr n +:+ "/2, depth min " +:+ str_of_json repr m).

(** [report["meta"][k] = v] *)
Definition set_meta (k : string) (v report : json) : result exn json :=
  m <-! at_key "meta" report ;; m <-! set_key k v m ;; set_key "meta" m report.

Definition not_chunk (line : string) : bool := negb (bool_decide (is_Some (drop_prefix "R:" line))).
Definition strip_chunks (log : list string) : string :=
  join newline (filter (fun l => not_chunk l = true) log).

Section Session.
Context (bname : string) (clean : string -> string) (out_dir : string) (deadline_s : Q).
Context (redo : bool).

(** What one run of the pair leaves: its logs, its report, its outcome. *)
Definition save_pair (p : BenchPoint) (pair : PairResult) : se string :=
  hosted (HWrite (file_of out_dir p ".coordinator.txt")
    (clean (strip_chunks (coordinator_log pair)))) ;;;
  hosted (HWrite (file_of out_dir p ".producer.txt")
    (clean (join newline (producer_log pair)))) ;;;
  r <- check (decode_report (coordinator_log pair)) ;;
  match r with
  | None =>
      let o := "FAILED: no report (coordinator exit " +:+
               str_of_json repr (coordinator_exit pair) +:+ ")" in
      hosted (HLog ERROR (key_of p +:+ ": " +:+ o)) ;;; Ret o
  | Some report =>
      report <- check (set_meta "placement" (JObj (prod_map id JStr <$> placement pair)) report) ;;
      report <- check (set_meta "producer_exit" (producer_exit pair) report) ;;
      hosted (HWrite (file_of out_dir p ".json") (clean (indented report) +:+ newline)) ;;;
      o <- check (outcome_of report) ;;
      hosted (HLog INFO (key_of p +:+ ": " +:+ o)) ;;; Ret o
  end.

(** A point that is run. *)
Definition run_point (p : BenchPoint) (redis_ready : bool) : se string :=
  rate <- (if Qeq_bool (overload p) 0 then Ret None
           else rs <- _headline_rates out_dir ;;
                x <- check (backpressure_rate rs (overload p)) ;; Ret (Some x)) ;;
  hex <- hosted HHex ;;
  let run_id := suite p +:+ "-" +:+ label p +:+ "-" +:+ (split_at 8 hex).1 in
  hosted (HLog INFO (key_of p +:+ ": " +:+ str_of_Z (workers p) +:+ " workers")) ;;;
  (if redis_ready then Ret tt else backend wait_for_redis) ;;;
  backend (set_workers 0) ;;;
  backend flush ;;;
  backend (set_workers (workers p)) ;;;
  snap <- backend snapshot ;;
  hosted (HWrite (file_of out_dir p ".services.json") (clean (indented snap) +:+ newline)) ;;;
  at_utc <- hosted HUtc ;;
  git <- _git_rev ;;
  let meta := JObj [
    ("suite", JStr (suite p)); ("label", JStr (label p)); ("workers", JInt (workers p));
    ("backend", JStr bname);
    ("environment", JStr (if decide (bname = "aws") then ENVIRONMENT
                          else "local Docker (driver test)"));
    ("date_utc", JStr at_utc); ("git", JStr git); ("run_id", JStr run_id)] in
  pair <- backend (run_pair (coordinator_command p run_id meta rate) (producer_command run_id)
    (inject_Z (warmup p + measure p + cooldown p + 1200))) ;;
  save_pair p pair.

(** One turn of the loop: the outcome, and whether Redis has been waited for. *)
Definition one_point (started : Q) (p : BenchPoint) (redis_ready : bool) : se (string * bool) :=
  saved <- hosted (HExists (file_of out_dir p ".json")) ;;
  if saved && negb redo then Ret ("skipped (saved)", redis_ready) else
    now <- hosted HClock ;;
    if Qlt_bool deadline_s (now - started + inject_Z (seconds p)) then
      hosted (HLog WARNING (key_of p +:+ ": not started, the session deadline is near")) ;;;
      Ret ("not run (deadline)", redis_ready)
    else o <- run_point p redis_ready ;; Ret (o, true).

Fixpoint each_point (started : Q) (points : list BenchPoint) (redis_ready : bool)
    (outcomes : list (string * string)) : se (list (string * string)) :=
  match points with
  | [] => Ret outcomes
  | p :: r =>
      o <- one_point started p redis_ready ;;
      each_point started r o.2 (put outcomes (key_of p) o.1)
  end.

Definition run_session (points : list BenchPoint) : se (list (string * string)) :=
  started <- hosted HClock ;; each_point started points false [].
End Session.

(** ** Reading reports back *)
Definition dirname (path : string) : string :=
  (split_at (Z.of_nat (String.length path - String.length (last_part "/" path) - 1)) path).1.
Definition remove_suffix (s suffix : string) : string :=
  if ends_with s suffix then (split_at (Z.of_nat (String.length s - String.length suffix)) s).1 else s.

Section Recover.
Context (b : AwsBackend) (out_dir : string) (since_ms : Z).

Definition streams_page (pattern : string) (st : list string * string) :
    sh (list string * string + list string) :=
  let '(streams, token) := st in
  page <- aws_call b (["logs"; "filter-log-events"; "--log-group-name"; "/ftq/loadgen";
    "--start-time"; str_of_Z since_ms; "--filter-pattern"; pattern] ++
    (if decide (token = "") then [] else ["--next-token"; token])) ;;
  names <- check (l <-! optional_list "events" page ;;
                  each (fun e => s <-! at_key "logStreamName" e ;; as_text s) l) ;;
  next <- check (x <-! get_key "nextToken" page ;;
                 match x with JNull => Ok "" | _ => as_text x end) ;;
  let streams := remove_dups (streams ++ names) in
  Ret (if decide (next = "") then inr (sort_strings streams) else inl (streams, next)).
Definition _filter_streams (pattern : string) : sh (list string) :=
  while_true fuel (streams_page pattern) ([], "").

(** The reports of those logs that are this point's. *)
Definition meta_text (k : string) (report : json) : result exn json :=
  m <-! at_key "meta" report ;; get_key k m.
Fixpoint matching (psuite plabel : string) (streams : list string) :
    sh (list (string * json * list string)) :=
  match streams with
  | [] => Ret []
  | s :: r =>
      lines <- _logs b ("x/" +:+ last_part "/" s) ;;
      report <- check (decode_report lines) ;;
      mine <- (match report with
        | Some j =>
            if truthy j then
              x <- check (meta_text "suite" j) ;; y <- check (meta_text "label" j) ;;
              Ret (if is_text psuite x && is_text plabel y then [(s, j, lines)] else [])
            else Ret []
        | None => Ret []
        end) ;;
      more <- matching psuite plabel r ;; Ret (mine ++ more)
  end.

Definition recovered_outcome (report : json) : result exn string :=
  t <-! at_key "throughput" report ;; x <-! at_key "completed_per_s" t ;; rate <-! shown0 x ;;
  once <-! at_key "exactly_once" report ;; ok <-! at_key "ok" once ;;
  p <-! at_key "producers" report ;; h <-! at_key "hosts" p ;; n <-! at_key "reported" h ;;
  Ok ("recovered: " +:+ rate +:+ "/s, exactly-once " +:+ str_of_json repr ok +:+ ", hosts " +:+
      str_of_json repr n +:+ "/2").

Definition quoted (s : string) : string := double_quote +:+ s +:+ double_quote.
Definition recovered_note (stream : string) : string :=
  "read back from CloudWatch stream " +:+ stream +:+ " after the driver's log-fetch race " +:+
  "(ADR-048): the same run, not a rerun".

(** One saved snapshot: nothing if its report is there, else its outcome. *)
Definition recover_point (snap : string) : sh (option (string * string)) :=
  let plabel := remove_suffix (last_part "/" snap) ".services.json" in
  let psuite := last_part "/" (dirname snap) in
  let file ending := dirname snap +:+ "/" +:+ plabel +:+ ending in
  let key := psuite +:+ "/" +:+ plabel in
  saved <- call (HExists (file ".json")) ;;
  if saved : bool then Ret None else
    streams <- _filter_streams (quoted "producing for" +:+ " " +:+ quoted ("(" +:+ plabel +:+ ")")) ;;
    found <- matching psuite plabel streams ;;
    match found with
    | [(stream, report, lines)] =>
        report <- check (set_meta "recovered" (JStr (recovered_note stream)) report) ;;
        id <- check (meta_text "run_id" report) ;;
        let run_id := match id with JStr s => s | _ => "" end in
        producers <- (if decide (run_id = "") then Ret [] else _filter_streams (quoted run_id)) ;;
        prod_lines <- (match producers with
                       | p :: _ => _logs b ("x/" +:+ last_part "/" p)
                       | [] => Ret []
                       end) ;;
        let clean text := scrub_account text (account b) in
        call (HWrite (file ".coordinator.txt") (clean (strip_chunks lines))) ;;;
        call (HWrite (file ".producer.txt") (clean (join newline prod_lines))) ;;;
        call (HWrite (file ".json") (clean (indented report) +:+ newline)) ;;;
        o <- check (recovered_outcome report) ;; Ret (Some (key, o))
    | _ => Ret (Some (key, "NOT RECOVERED: " +:+ str_of_Z (Z.of_nat (length found)) +:+
                           " matching coordinator logs"))
    end.

Fixpoint recover_each (snaps : list string) (outcomes : list (string * string)) :
    sh (list (string * string)) :=
  match snaps with
  | [] => Ret outcomes
  | s :: r =>
      o <- recover_point s ;;
      recover_each r (match o with Some (k, v) => put outcomes k v | None => outcomes end)
  end.
Definition recover : sh (list (string * string)) :=
  snaps <- call (HGlob (out_dir +:+ "/*/*.services.json")) ;;
  recover_each (sort_strings snaps) [].
End Recover.

(** [main]'s exit code after a run *)
Definition any_failed (outcomes : list (string * string)) : bool :=
  existsb (fun o => bool_decide (is_Some (drop_prefix "FAILED" o.2))) outcomes.
Definition run_local (concurrency : Z) (points : list BenchPoint) (out_dir : string)
    (deadline_min : Q) (redo : bool) : sh (list (string * string) * Z) :=
  new_LocalBackend concurrency ;;;
  outcomes <- finally (on_backend local_backend
    (run_session "local" (fun text => text) out_dir (deadline_min * 60) redo points)) down ;;
  Ret (outcomes, if any_failed outcomes then 1 else 0).
Definition run_aws (outputs : json) (points : list BenchPoint) (out_dir : string)
    (deadline_min : Q) (redo : bool) : sh (list (string * string) * Z) :=
  b <- new_AwsBackend outputs 5 2 ;;
  outcomes <- on_backend (aws_backend b)
    (run_session "aws" (scrub (aws_backend b)) out_dir (deadline_min * 60) redo points) ;;
  Ret (outcomes, if any_failed outcomes then 1 else 0).
End Backends.
