(* ===== verification/Driver.v ===== *)
(** What the benchmark driver (Session.v, deploy/bench.py) promises: how a session treats its
    backend and its files, how often an AWS call is sent, and that a report put into a
    log is read back. *)
From S2P Require Import Prelude Effects Redis LuaScripts Json Py Models Handlers.
From S2P Require Import Tables.
From S2P Require Import Texts Shell Session.

#[local] Open Scope string_scope.
#[local] Open Scope list_scope.
#[local] Open Scope Z_scope.
#[local] Open Scope prog_scope.

(** ** The report in a log *)
(** The lines the script [_DUMP] prints for a report file's text. *)
Definition dump `{Gzip} (text : string) : list string :=
  "REPORT-BEGIN" :: ((fun c => "R:" +:+ c) <$> wrap 60000 (b64encode (compress text))) ++
  ["REPORT-END"].

Section Report.
Context `{Gzip}.

Lemma join_nil_sep l : join "" l = foldr String.append "" l.
Proof.
  induction l as [|x [|y l] IH]; [done| |].
  - cbn [join foldr]. by rewrite append_nil.
  - change (x +:+ "" +:+ join "" (y :: l) = x +:+ foldr String.append "" (y :: l)).
    by rewrite IH.
Qed.

Lemma wrap_blankless n s : blankless s = true -> Forall (fun c => blankless c = true) (wrap n s).
Proof.
  unfold wrap. generalize (String.length s) at 1. intros fuel. revert s.
  induction fuel as [|fuel IH]; intros [|c r] Hs; cbn [wrap_from]; try constructor.
  pose proof (split_at_app n (String c r)) as Ha. destruct (split_at n (String c r)) as [a b].
  cbn [fst snd] in Ha. rewrite <- Ha, blankless_app in Hs. apply andb_prop in Hs as [H1 H2].
  constructor; [done|by apply IH].
Qed.

(** Chunk lines inside the marks are collected. *)
Lemma chunks_collected cs : forall more got, Forall (fun c => blankless c = true) cs ->
  report_chunks (((fun c => "R:" +:+ c) <$> cs) ++ more) true got =
  report_chunks more true (got ++ cs).
Proof.
  induction cs as [|c cs IH]; intros more got Hcs; [by rewrite app_nil_r|].
  apply Forall_cons in Hcs as [Hc Hcs]. cbn [fmap list_fmap app report_chunks].
  assert (Hs : strip ("R:" +:+ c) = "R:" +:+ c).
  { apply strip_blankless. by rewrite blankless_app, Hc. }
  rewrite Hs, decide_False by done. rewrite bool_decide_false by done. cbn [andb].
  change (drop_prefix "R:" ("R:" +:+ c)) with (Some c). cbn iota. rewrite IH by done.
  by rewrite <- app_assoc.
Qed.

(** What the lines before leave, when they hold no whole report. *)
Lemma chunks_before pre : forall i got, report_chunks pre i got = None ->
  exists i' got', forall more, report_chunks (pre ++ more) i got = report_chunks more i' got'.
Proof.
  induction pre as [|x pre IH]; intros i got Hp; [by exists i, got|].
  cbn [report_chunks app] in Hp |- *. case_decide; [by apply IH|].
  case_match; [done|]. destruct (drop_prefix "R:" (strip x)); by apply IH.
Qed.

Lemma chunks_take_none cs k got : Forall (fun c => blankless c = true) cs ->
  (k <= length cs)%nat ->
  report_chunks (take k (((fun c => "R:" +:+ c) <$> cs) ++ ["REPORT-END"])) true got = None.
Proof.
  intros Hcs Hk. rewrite take_app_le by (by rewrite length_fmap).
  rewrite <- fmap_take. rewrite <- (app_nil_r (_ <$> _)).
  by rewrite chunks_collected by (by apply Forall_take).
Qed.
End Report.

(** C32: a report survives the log. The lines the coordinator prints for a report file are
    decoded to the report, wherever they stand in the log, after anything that is not
    itself a whole report; a log that stops before the last of those lines decodes to
    nothing, never to a part of a report. *)
Theorem report_round_trip `{Gzip} (pre post : list string) (text : string) (report : json) :
  decode_report pre = Ok None -> loads text = Some report ->
  decode_report (pre ++ dump text ++ post) = Ok (Some report) /\
  forall k, (k < length (dump text))%nat -> decode_report (pre ++ take k (dump text)) = Ok None.
Proof.
  intros Hpre Ht. assert (Hp : report_chunks pre false [] = None).
  { unfold decode_report in Hpre. destruct (report_chunks pre false []); [|done].
    destruct (b64decode _) as [d|]; [|done]. cbn in Hpre.
    destruct (decompress d) as [t|]; [|done]. cbn in Hpre.
    by destruct (json_loads t). }
  destruct (chunks_before pre false [] Hp) as (i & got & Hgo).
  set (cs := wrap 60000 (b64encode (compress text))).
  assert (Hcs : Forall (fun c => blankless c = true) cs)
    by apply wrap_blankless, b64_blankless.
  split.
  - unfold decode_report. rewrite Hgo. unfold dump. fold cs. cbn [app report_chunks].
    rewrite decide_True by done. rewrite <- app_assoc, chunks_collected by done.
    cbn [app report_chunks]. rewrite decide_False by done.
    rewrite bool_decide_true by done. cbn [andb]. rewrite join_nil_sep.
    unfold cs. rewrite wrap_concat, b64_round_trip by done. cbn.
    rewrite decompress_compress. cbn. unfold json_loads. by rewrite Ht.
  - intros k Hk. unfold decode_report. rewrite Hgo. unfold dump in Hk |- *. fold cs in Hk |- *.
    cbn [length] in Hk. rewrite length_app, length_fmap in Hk. cbn [length] in Hk.
    destruct k as [|k]; [done|]. cbn [take report_chunks]. rewrite decide_True by done.
    by rewrite chunks_take_none by (done || lia).
Qed.

(** A codec that does nothing. *)
#[local] Instance stored : Gzip :=
  {| compress s := s; decompress := Ok; decompress_compress s := eq_refl |}.

Lemma report_round_trip_witness :
  decode_report (["loadgen: producing"; "R:noise"] ++ dump "{}" ++ ["bye"]) =
    Ok (Some (JObj [])) /\
  decode_report (["loadgen: producing"; "R:noise"] ++ take 2 (dump "{}")) = Ok None.
Proof.
  destruct (report_round_trip ["loadgen: producing"; "R:noise"] ["bye"] "{}" (JObj []))
    as [H1 H2]; [reflexivity|reflexivity|]. split; [exact H1|]. apply H2. vm_compute. lia.
Defined.

(** ** How often an AWS call is sent *)
(** The commands that were run, in order, with their answers. [subprocess.run] itself
    never raises CalledProcessError. *)
Abbreviation sent := (list (list string * result stop finished)).
Definition not_called (r : result stop finished) : Prop :=
  match r with Err (Throws e) => is_called_process_error e = false | _ => True end.
Definition commands X (e : host X) (t : sent) (r : result stop X) (t' : sent) : Prop :=
  match e in host Y return result stop Y -> Prop with
  | HCommand cmd => fun r => t' = t ++ [(cmd, r)] /\ not_called r
  | _ => fun _ => t' = t
  end r.

Definition failed_once (x : list string * result stop finished) : Prop :=
  exists code out err, x.2 = Ok (code, out, err) /\ code <> 0.

(** What a run of [n] attempts sends and answers, after [t]. *)
Inductive attempted (a : list string) (n : nat) (t : sent) (r : result stop string) (t' : sent) :
    Prop :=
  | attempts (failures : sent) (last : result stop finished) :
      t' = t ++ failures ++ [(aws_cmd a, last)] ->
      (length failures < n)%nat ->
      Forall (fun x => x.1 = aws_cmd a) failures ->
      Forall failed_once failures ->
      (forall out, r = Ok out -> exists err, last = Ok (0, out, err)) ->
      attempted a n t r t'.

Lemma run_wp cmd t (Q : result stop string -> sent -> Prop) :
  (forall code out err,
     Q (if code =? 0 then Ok out else Err (Throws (CalledProcessError code err)))
       (t ++ [(cmd, Ok (code, out, err))])) ->
  (forall e, not_called (Err e) -> Q (Err e) (t ++ [(cmd, Err e)])) -> wp commands (_run cmd) t Q.
Proof.
  intros Hok Herr. unfold _run. apply wp_call. intros [[[code out] err]|e] t' [-> Hn]; [|by apply Herr].
  specialize (Hok code out err). cbn in Hok |- *. by destruct (code =? 0).
Qed.

Lemma except_wp (handled : exn -> bool) (p : sh string) (h : exn -> sh string) (t : sent)
    (Q : result stop string -> sent -> Prop) :
  wp commands p t (fun r t' => match r with
    | Err (Throws e) => if handled e then wp commands (h e) t' Q else Q r t'
    | _ => Q r t' end) ->
  wp commands (except handled p h) t Q.
Proof.
  unfold except. revert t. induction p as [s|e|X c k IH]; intros t Hp; cbn in Hp |- *;
    [done| |eauto]. destruct e as [|e|]; [done| |done]. by destruct (handled e).
Qed.

Lemma attempted_once a n t r x : not_called x ->
  (forall out, r = Ok out -> exists err, x = Ok (0, out, err)) ->
  attempted a (S n) t r (t ++ [(aws_cmd a, x)]).
Proof. intros Hx Hr. exists [] x; try done. cbn. lia. Qed.

(** An attempt that could not even be run ends the call. *)
Lemma unsent_wp a n t e (h : exn -> sh string) : not_called (Err e) ->
  let t' := t ++ [(aws_cmd a, Err e)] in
  match e with
  | Throws x => if is_called_process_error x then wp commands (h x) t' (attempted a (S n) t)
                else attempted a (S n) t (Err e) t'
  | _ => attempted a (S n) t (Err e) t'
  end.
Proof.
  intros Hn t'. destruct e as [|e|]; [by apply attempted_once| |by apply attempted_once].
  cbn in Hn. rewrite Hn. by apply attempted_once.
Qed.

Lemma try_aws_wp rs a n : forall attempt t,
  wp commands (try_aws rs a (S n) attempt) t (attempted a (S n) t).
Proof.
  induction n as [|n IH]; intros attempt t; cbn [try_aws]; apply except_wp, run_wp.
  - intros code out err. destruct (Z.eqb_spec code 0) as [->|Hc]; apply attempted_once; try done.
    intros ? [= ->]. by eexists.
  - by intros e Hn; apply unsent_wp.
  - intros code out err. destruct (Z.eqb_spec code 0) as [->|Hc].
    { apply attempted_once; [done|]. intros ? [= ->]. by eexists. }
    cbn [is_called_process_error].
    apply wp_call. intros [[]|e] t1 Ht; cbn in Ht; subst t1; [|by apply attempted_once].
    apply wp_call. intros [[]|e] t1 Ht; cbn in Ht; subst t1; [|by apply attempted_once].
    eapply wp_mono; [apply IH|]. intros r t' [fs l Htr Hlen Hsame Hfail Hans].
    exists ((aws_cmd a, Ok (code, out, err)) :: fs) l; [|cbn; lia|by constructor| |done].
    + by rewrite Htr, <- !app_assoc.
    + constructor; [|done]. by exists code, out, err.
  - by intros e Hn; apply unsent_wp.
Qed.

(** A call of the AWS command line that is not known to only read is sent exactly once,
    whatever comes back, so no write is ever repeated; a reading one is sent again only
    after an attempt that failed, three times at most. What the call answers is what its
    last attempt printed, and then that attempt succeeded. *)
Theorem aws_call_sent (rs : Q) (a : list string) (r : result stop string) (t : sent) :
  runs commands (_aws rs a) [] r t ->
  Forall (fun x => x.1 = aws_cmd a) t /\
  (1 <= length t <= 3)%nat /\ (read_only a = false -> length t = 1%nat) /\
  Forall failed_once (take (length t - 1) t) /\
  (forall out, r = Ok out -> exists err, last t = Some (aws_cmd a, Ok (0, out, err))).
Proof.
  intros Hr. assert (Ha : attempted a (attempts_of a) [] r t).
  { eapply (wp_runs commands (_aws rs a)); [|done]. unfold _aws, attempts_of, READ_ATTEMPTS.
    destruct (read_only a); apply try_aws_wp. }
  destruct Ha as [fs l -> Hlen Hsame Hfail Hans]. cbn [app].
  rewrite length_app. cbn [length]. unfold attempts_of, READ_ATTEMPTS in Hlen.
  split; [by apply Forall_app; split; [|constructor]|].
  split; [destruct (read_only a); lia|]. split; [intros Hn; rewrite Hn in Hlen; lia|].
  split; [by rewrite Nat.add_sub, take_app_length|].
  intros out Ho. destruct (Hans out Ho) as [err ->]. exists err. by rewrite last_snoc.
Qed.

Lemma aws_call_sent_witness :
  let a := ["ecs"; "list-tasks"] in let bad := Ok (255, "", "throttled") in
  let t := [(aws_cmd a, bad); (aws_cmd a, Ok (0, "{}", ""))] in
  (1 <= length t <= 3)%nat /\ Forall failed_once (take (length t - 1) t).
Proof.
  intros a bad t. destruct (aws_call_sent 2 a (Ok "{}") t) as (_ & H & _ & Hf & _); [|done].
  cbn. exists bad. eexists. split; [split; [reflexivity|exact I]|]. cbn.
  exists (Ok tt), [(aws_cmd a, bad)]. split; [reflexivity|]. cbn.
  exists (Ok tt), [(aws_cmd a, bad)]. split; [reflexivity|]. cbn.
  exists (Ok (0, "{}", "")), t. split; [split; [reflexivity|exact I]|]. cbn. done.
Defined.

(** ** A session *)
#[local] Abbreviation se := (prog sess stop).
(** What a session has done so far, as its rules see it. *)
Inductive phase : Type :=
  | Stale              (* a pair ran, or the order was not kept *)
  | Down               (* no worker runs *)
  | Emptied            (* and the queue is empty *)
  | Running (n : Z).   (* and then [n] workers were started *)

Record ghost := mk_ghost {
  g_phase : phase;
  g_up : bool;                      (* Redis was waited for *)
  g_failed : bool;                  (* an operation of the backend failed *)
  g_started : option Q;             (* the first and the last reading of the clock *)
  g_now : Q;
  g_absent : option string;         (* the file last found missing *)
  g_evidence : option string;       (* the snapshot last written, since the last pair *)
  g_pair : option PairResult;       (* what the last pair left, if its point goes on *)
}.
Definition fresh_ghost : ghost := mk_ghost Stale false false None 0 None None None.

Definition see_op {X} (g : ghost) (o : bop X) (r : result stop X) : ghost :=
  let bad := g_failed g || negb (is_ok r) in
  let step ph up ev pair :=
    mk_ghost ph up bad (g_started g) (g_now g) (g_absent g) ev pair in
  match o in bop Y return result stop Y -> ghost with
  | wait_for_redis => fun r => step (g_phase g) (g_up g || is_ok r) (g_evidence g) (g_pair g)
  | set_workers n => fun r =>
      step (match g_phase g with
            | Emptied => if is_ok r then Running n else Stale
            | _ => if is_ok r && (n =? 0) then Down else Stale
            end) (g_up g) (g_evidence g) (g_pair g)
  | flush => fun r =>
      step (match g_phase g with Down => if is_ok r then Emptied else Stale | _ => Stale end)
        (g_up g) (g_evidence g) (g_pair g)
  | snapshot => fun _ => step (g_phase g) (g_up g) (g_evidence g) (g_pair g)
  | run_pair _ _ _ => fun r => step Stale (g_up g) None (of_ok r)
  end r.

Definition see_host {X} (g : ghost) (h : host X) (r : result stop X) : ghost :=
  match h in host Y return result stop Y -> ghost with
  | HClock => fun r =>
      match r with
      | Ok q => mk_ghost (g_phase g) (g_up g) (g_failed g)
                  (match g_started g with None => Some q | s => s end) q
                  (g_absent g) (g_evidence g) (g_pair g)
      | Err _ => g
      end
  | HExists path => fun r =>
      mk_ghost (g_phase g) (g_up g) (g_failed g) (g_started g) (g_now g)
        (match r with Ok false => Some path | _ => None end) (g_evidence g) None
  | HWrite path _ => fun r =>
      mk_ghost (g_phase g) (g_up g) (g_failed g) (g_started g) (g_now g) (g_absent g)
        (if is_ok r then match g_pair g with None => Some path | Some _ => g_evidence g end
         else g_evidence g) (g_pair g)
  | _ => fun _ => g
  end r.

Definition see {X} (g : ghost) (e : sess X) : result stop X -> ghost :=
  match e with Do o => see_op g o | On h => see_host g h end.

(** A trace: every effect and its answer, the last first. *)
Inductive effect : Type :=
  | Saw {X} (e : sess X) (r : result stop X).
Definition recorded X (e : sess X) (t : list effect) (r : result stop X) (t' : list effect) : Prop :=
  t' = Saw e r :: t.
Fixpoint so_far (t : list effect) : ghost :=
  match t with [] => fresh_ghost | Saw e r :: older => see (so_far older) e r end.

Section Session.
Context `{Gzip} (indented : json -> string) (repr : json -> string).
Context (bname : string) (clean : string -> string) (out_dir : string) (deadline_s : Q).
Context (redo : bool) (points : list BenchPoint).
Abbreviation session :=
  (run_session indented repr bname clean out_dir deadline_s redo points).
Abbreviation file p ending := (file_of out_dir p ending).

(** [p]'s file was looked for last, and was not there. *)
Definition unsaved (g : ghost) (p : BenchPoint) : Prop :=
  redo = false -> g_absent g = Some (file p ".json").

(** The pair of loadgens may start: the workers of this point, and no others, were
    started on an emptied queue of a Redis that was up; the snapshot of them is saved; the
    point ends before the deadline. *)
Record may_run (g : ghost) (p : BenchPoint) : Prop := {
  mr_workers : g_phase g = Running (workers p);
  mr_up : g_up g = true;
  mr_unsaved : unsaved g p;
  mr_evidence : g_evidence g = Some (file p ".services.json");
  mr_time : exists started, g_started g = Some started /\
    (g_now g - started + inject_Z (seconds p) <= deadline_s)%Q;
}.

(** A report may be saved: the one the pair that just ran left, all of it, with where it
    ran added. *)
Definition may_save (g : ghost) (p : BenchPoint) (text : string) : Prop :=
  unsaved g p /\
  exists pair report placed report',
    g_pair g = Some pair /\ decode_report (coordinator_log pair) = Ok (Some report) /\
    set_meta "placement" (JObj (prod_map id JStr <$> placement pair)) report = Ok placed /\
    set_meta "producer_exit" (producer_exit pair) placed = Ok report' /\
    text = clean (indented report') +:+ newline.

Definition allowed {X} (g : ghost) (e : sess X) : Prop :=
  match e with
  | Do o =>
      g_failed g = false /\
      match o with
      | run_pair coordinator producer _ => exists p run_id meta rate, p ∈ points /\
          coordinator = coordinator_command p run_id meta rate /\
          producer = producer_command run_id /\ may_run g p
      | _ => True
      end
  | On h =>
      match h with
      | HWrite path text => exists p, p ∈ points /\
          (path ∈ [file p ".services.json"; file p ".coordinator.txt"; file p ".producer.txt"] \/
           path = file p ".json" /\ may_save g p text)
      | _ => True
      end
  end.

(** Every effect was allowed when it was asked for. *)
Fixpoint lawful (t : list effect) : Prop :=
  match t with [] => True | Saw e _ :: older => allowed (so_far older) e /\ lawful older end.

(** [keeps p g Q]: from [g], [p] asks only for what is allowed, whatever the answers. *)
Fixpoint keeps {A} (p : se A) (g : ghost) (Q : result stop A -> ghost -> Prop) : Prop :=
  match p with
  | Ret a => Q (Ok a) g
  | Raise e => Q (Err e) g
  | Vis e k => allowed g e /\ forall r, keeps (k r) (see g e r) Q
  end.

Lemma keeps_lawful {A} (p : se A) Q : forall t r t', keeps p (so_far t) Q -> lawful t ->
  runs recorded p t r t' -> lawful t' /\ Q r (so_far t').
Proof.
  induction p as [a|e|X e k IH]; intros t r t' Hk Ht; cbn.
  - by intros [-> ->].
  - by intros [-> ->].
  - intros (x & t1 & -> & Hr). destruct Hk as [Ha Hk]. apply (IH x (Saw e x :: t)); [apply Hk|by split|done].
Qed.

Lemma keeps_bind {A B} (p : se A) (f : A -> se B) Q : forall g,
  keeps p g (fun r g' => match r with Ok a => keeps (f a) g' Q | Err e => Q (Err e) g' end) ->
  keeps (bind p f) g Q.
Proof.
  induction p as [a|e|X e k IH]; intros g Hk; cbn in *; [done|done|].
  destruct Hk as [Ha Hk]. split; [done|]. intros r. apply IH, Hk.
Qed.

Lemma keeps_mono {A} (p : se A) (Q Q' : result stop A -> ghost -> Prop) :
  (forall r g, Q r g -> Q' r g) -> forall g, keeps p g Q -> keeps p g Q'.
Proof.
  intros HQ. induction p as [a|e|X e k IH]; intros g Hk; cbn in *; [by apply HQ..|].
  destruct Hk as [Ha Hk]. split; [done|]. intros r. apply IH, Hk.
Qed.

(** Posts that ask nothing after an exception. *)
Definition after {A} (Q : A -> ghost -> Prop) (r : result stop A) (g : ghost) : Prop :=
  match r with Ok a => Q a g | Err _ => True end.

Lemma keeps_do {X A} (o : bop X) (f : X -> se A) g Q :
  allowed g (Do o) -> (forall x, keeps (f x) (see_op g o (Ok x)) (after Q)) ->
  keeps (bind (backend o) f) g (after Q).
Proof. intros Ha Hf. cbn. split; [done|]. intros [x|e]; [apply Hf|done]. Qed.

Lemma keeps_on {X A} (h : host X) (f : X -> se A) g Q :
  allowed g (On h) -> (forall x, keeps (f x) (see_host g h (Ok x)) (after Q)) ->
  keeps (bind (hosted h) f) g (after Q).
Proof. intros Ha Hf. cbn. split; [done|]. intros [x|e]; [apply Hf|done]. Qed.

Lemma keeps_check {X A} (r : result exn X) (f : X -> se A) g Q :
  (forall x, r = Ok x -> keeps (f x) g (after Q)) -> keeps (bind (check r) f) g (after Q).
Proof. intros Hf. destruct r as [x|e]; [by apply Hf|done]. Qed.

Lemma keeps_rates files : forall g, keeps (rates files) g (after (fun _ g' => g' = g)).
Proof.
  induction files as [|x files IH]; intros g; [done|]. cbn [rates].
  apply keeps_on; [done|]. intros text. apply keeps_check. intros q _. apply keeps_bind.
  eapply keeps_mono; [|apply IH]. by intros [|] g'.
Qed.

(** The headline's saved rates are only read. *)
Lemma keeps_headline g : keeps (_headline_rates out_dir) g (after (fun _ g' => g' = g)).
Proof. unfold _headline_rates. apply keeps_on; [done|]. intros files. apply keeps_rates. Qed.

Lemma keeps_git g : keeps _git_rev g (after (fun _ g' => g' = g)).
Proof. unfold _git_rev. apply keeps_on; [done|]. by intros [[code out] err]. Qed.

(** Between the points: nothing failed, and Redis was waited for if the driver thinks so. *)
Record between (started : Q) (redis_ready : bool) (g : ghost) : Prop := {
  bw_failed : g_failed g = false;
  bw_started : g_started g = Some started;
  bw_up : redis_ready = true -> g_up g = true;
  bw_phase : g_phase g <> Emptied;
}.

Lemma keeps_write p ending text g (f : unit -> se string) Q' :
  p ∈ points ->
  ending ∈ [".services.json"; ".coordinator.txt"; ".producer.txt"] ->
  keeps (f tt) (see_host g (HWrite (file p ending) text) (Ok tt)) (after Q') ->
  keeps (bind (hosted (HWrite (file p ending) text)) f) g (after Q').
Proof.
  intros Hp He Hf. apply keeps_on; [|by intros []]. exists p. split; [done|]. left.
  by apply (list_elem_of_fmap_2 (fun x => file p x)) in He.
Qed.

Lemma keeps_save p pair g started : p ∈ points -> between started true g ->
  g_pair g = Some pair -> unsaved g p ->
  keeps (save_pair indented repr clean out_dir p pair) g (after (fun _ => between started true)).
Proof.
  intros Hp [Hf Hs Hu Hph] Hpair Hun. unfold save_pair.
  apply keeps_write; [done|set_solver|].
  apply keeps_write; [done|set_solver|].
  apply keeps_check. intros [report|] Hd; [|apply keeps_on; done].
  apply keeps_check. intros placed Hpl. apply keeps_check. intros report' Hre.
  apply keeps_on.
  - exists p. split; [done|]. right. split; [done|]. split; [done|].
    exists pair, report, placed, report'. cbn. by rewrite Hpair.
  - intros []. apply keeps_check. intros o _. apply keeps_on; [done|]. by intros [].
Qed.

(** The wait for Redis, once. *)
Lemma keeps_wait p ready g started : between started ready g -> unsaved g p -> g_pair g = None ->
  keeps (if ready : bool then Ret tt else backend wait_for_redis) g (after (fun _ g' =>
    between started true g' /\ unsaved g' p /\ g_pair g' = None /\ g_now g' = g_now g)).
Proof.
  intros [Hf Hs Hu Hph] Hun Hpair. destruct ready; [done|].
  split; [done|]. intros [[]|e]; [|done]. cbn. split; [|done].
  split; cbn; [by rewrite Hf|done|by rewrite orb_true_r|done].
Qed.

Lemma keeps_rate p g : keeps (if Qeq_bool (overload p) 0 then Ret None
  else rs <- _headline_rates out_dir ;;
       x <- check (backpressure_rate rs (overload p)) ;; Ret (Some x)) g
  (after (fun _ g' => g' = g)).
Proof.
  destruct (Qeq_bool _ _); [done|]. apply keeps_bind.
  eapply keeps_mono; [|apply keeps_headline]. intros [rs|] ? Hg; [|done]. cbn in Hg. subst.
  apply keeps_check. by intros.
Qed.

Lemma keeps_run_point p ready g started : p ∈ points -> between started ready g ->
  unsaved g p -> g_pair g = None ->
  (g_now g - started + inject_Z (seconds p) <= deadline_s)%Q ->
  keeps (run_point indented repr bname clean out_dir p ready) g
    (after (fun _ => between started true)).
Proof.
  intros Hp Hb Hun Hpair Htime. unfold run_point. apply keeps_bind.
  eapply keeps_mono; [|apply keeps_rate]. intros [rate|] ? Hg; [|done]. cbn in Hg. subst.
  apply keeps_on; [done|]. intros hex. apply keeps_on; [done|]. intros []. cbn [see_host].
  apply keeps_bind. eapply keeps_mono; [|by apply (keeps_wait p)].
  clear Hb Hun Hpair. intros [[]|e] g'; [|done]. intros ([Hf Hs Hu Hph] & Hun & Hpair & Hnow).
  specialize (Hu eq_refl). rewrite <- Hnow in Htime. clear Hnow g.
  apply keeps_do; [done|]. intros []. apply keeps_do; [cbn; by rewrite Hf|]. intros [].
  apply keeps_do; [cbn; by rewrite Hf|]. intros []. apply keeps_do; [cbn; by rewrite Hf|].
  intros snap. apply keeps_write; [done|set_solver|]. apply keeps_on; [done|]. intros at_utc.
  apply keeps_bind. eapply keeps_mono; [|apply keeps_git]. intros [git|e] ? Hg; [|done].
  cbn in Hg. subst. cbn zeta. apply keeps_do.
  - cbn. rewrite Hf, Hpair. split; [done|]. eexists p, _, _, _. split; [done|].
    do 2 (split; [reflexivity|]). split; cbn; [by destruct (g_phase g')|done|done|done|].
    by exists started.
  - intros pair. apply keeps_save; [done| |done|done].
    split; cbn; [by rewrite Hf|done|done|done].
Qed.

Lemma keeps_one p ready g started : p ∈ points -> between started ready g ->
  keeps (one_point indented repr bname clean out_dir deadline_s redo started p ready) g
    (after (fun o => between started o.2)).
Proof.
  intros Hp [Hf Hs Hu Hph]. unfold one_point. apply keeps_on; [done|]. intros saved.
  destruct (saved && negb redo) eqn:Hsv; [done|].
  apply keeps_on; [done|]. intros now.
  destruct (Qlt_bool _ _) eqn:Hlate.
  - apply keeps_on; [done|]. intros []. split; cbn; [done|by rewrite Hs|done|done].
  - apply keeps_bind. eapply keeps_mono; [|apply (keeps_run_point p ready _ started); [done|..]].
    + by intros [o|e] g'.
    + split; cbn; [done|by rewrite Hs|done|done].
    + intros Hr. cbn. rewrite Hr in Hsv. destruct saved; [done|]. done.
    + done.
    + cbn. by apply Qlt_bool_false in Hlate.
Qed.

Lemma keeps_each ps : forall ready g started outcomes, ps ⊆ points -> between started ready g ->
  keeps (each_point indented repr bname clean out_dir deadline_s redo started ps ready outcomes) g
    (after (fun os _ => forall k, k ∈ os.*1 <-> k ∈ outcomes.*1 \/ k ∈ key_of <$> ps)).
Proof.
  induction ps as [|p ps IH]; intros ready g started outcomes Hps Hb; cbn [each_point].
  - cbn. intros k. rewrite elem_of_nil. tauto.
  - apply keeps_bind. eapply keeps_mono; [|apply keeps_one; [set_solver|done]].
    intros [o|e] g' Hg'; [|done]. eapply keeps_mono; [|apply (IH o.2 g' started); [set_solver|done]].
    intros [os|e] g'' Hos; [|done]. cbn in Hos |- *. intros k. rewrite Hos, put_keys. set_solver.
Qed.

Lemma keeps_session : keeps (session) fresh_ghost
  (after (fun os _ => forall k, k ∈ os.*1 <-> k ∈ key_of <$> points)).
Proof.
  unfold run_session. apply keeps_on; [done|]. intros started.
  eapply keeps_mono; [|apply keeps_each; [done|]].
  - intros [os|e] g Hos; [|done]. cbn in Hos |- *. intros k. rewrite Hos, elem_of_nil. tauto.
  - done.
Qed.
End Session.

(** What a session does on a backend, it does on some backend in the sense of the theorem
    below: a run of the backend's commands is a run of the session's own effects. *)
Lemma runs_bind {C E V A B} (spec : forall X, C X -> V -> result E X -> V -> Prop)
    (p : prog C E A) (f : A -> prog C E B) r v' : forall v,
  runs spec (bind p f) v r v' ->
  (exists a v1, runs spec p v (Ok a) v1 /\ runs spec (f a) v1 r v') \/
  (exists e, r = Err e /\ runs spec p v (Err e) v').
Proof.
  induction p as [a|e|X c k IH]; intros v Hr; cbn in Hr |- *.
  - left. by exists a, v.
  - right. destruct Hr as [-> ->]. by exists e.
  - destruct Hr as (x & v1 & Hs & Hr). destruct (IH x v1 Hr) as [(a & v2 & H1 & H2)|(e & -> & H1)].
    + left. exists a, v2. split; [by exists x, v1|done].
    + right. exists e. split; [done|by exists x, v1].
Qed.

Lemma on_backend_recorded {V A} (spec : forall X, host X -> V -> result stop X -> V -> Prop)
    (b : Backend) (p : se A) r v' : forall v t,
  runs spec (on_backend b p) v r v' -> exists t', runs recorded p t r t'.
Proof.
  unfold on_backend. induction p as [a|e|X e k IH]; intros v t Hr; cbn [carried_out] in Hr.
  - exists t. destruct Hr as [-> _]. done.
  - exists t. destruct Hr as [-> _]. done.
  - apply runs_bind in Hr as [(x & v1 & _ & Hr)|(err & -> & Hr)].
    + destruct (IH x v1 (Saw e x :: t) Hr) as [t' Ht']. exists t'. by exists x, (Saw e x :: t).
    + exfalso. revert Hr. generalize (match e with Do o => perform b _ o | On h => call h end).
      intros q. revert v. unfold settled. induction q as [a|e1|Y c k' IHq]; intros v; cbn.
      * by intros [? _].
      * by intros [? _].
      * intros (x & v1 & _ & Hr). by eapply IHq.
Qed.

(** C31: a benchmark session, on any backend and whatever it answers. The loadgen pair of a
    point starts only when Redis has been waited for, and then, since the last pair, the
    workers were stopped, the queue emptied and this point's number of workers started, in
    this order and all with success; when the snapshot of those workers is on disk; when
    the point has no saved report (unless runs are redone); and when, by the last
    reading of the clock, it ends before the deadline. A report is saved only for a point
    that had none, and it is the whole report the pair that just ran left. Nothing is
    asked of a backend that has failed. A session that ends has one outcome for each
    point. *)
Theorem session_lawful `{Gzip} (indented repr : json -> string) (bname : string)
    (clean : string -> string) (out_dir : string) (deadline_s : Q) (redo : bool)
    (points : list BenchPoint) (r : result stop (list (string * string))) (t : list effect) :
  runs recorded (run_session indented repr bname clean out_dir deadline_s redo points) [] r t ->
  lawful indented clean out_dir deadline_s redo points t /\
  forall outcomes, r = Ok outcomes ->
    forall k, k ∈ outcomes.*1 <-> k ∈ key_of <$> points.
Proof.
  intros Hr. eapply keeps_lawful in Hr as [Hl Hq]; [|apply keeps_session|done].
  split; [done|]. intros outcomes ->. apply Hq.
Qed.

(** A backend on which everything works at once. *)
Definition toy_report : json :=
  JObj [("meta", JObj []); ("throughput", JObj [("completed_per_s", JInt 900)]);
        ("exactly_once", JObj [("ok", JBool true)]);
        ("producers", JObj [("hosts", JObj [("reported", JInt 2)])]);
        ("depth_in_window", JObj [("min", JInt 7)])].
Definition toy_op {X} (o : bop X) : X :=
  match o with
  | wait_for_redis => tt
  | set_workers _ => tt
  | flush => tt
  | snapshot => JNull
  | run_pair _ _ _ => mk_PairResult (JInt 0) (JInt 0) (dump (dumps toy_report)) [] []
  end.
Definition toy_host {X} (h : host X) : X :=
  match h with
  | HClock => 0%Q
  | HSleep _ => tt
  | HHex => "0123456789abcdef"
  | HUtc => "2026-01-01"
  | HCommand _ => (0, "abc", "")
  | HExists _ => false
  | HRead _ => ""
  | HWrite _ _ => tt
  | HGlob _ => []
  | HLog _ _ => tt
  | HPrint _ => tt
  end.
Definition toy X (e : sess X) (t : list effect) : result stop X * list effect :=
  let r := Ok (match e with Do o => toy_op o | On h => toy_host h end) in (r, Saw e r :: t).
Lemma toy_ok X (e : sess X) t : recorded X e t (fst (toy X e t)) (snd (toy X e t)).
Proof. done. Qed.

Definition toy_points : list BenchPoint := take 2 (session_points default_spec).
Definition toy_session : result stop (list (string * string)) * list effect :=
  run toy (run_session dumps dumps "local" (fun text => text) "out" 9999 false toy_points) [].

Lemma session_lawful_witness :
  toy_session.1 =
    Ok [("scaling/w01", "900/s, exactly-once True, hosts 2/2, depth min 7");
        ("scaling/w02", "900/s, exactly-once True, hosts 2/2, depth min 7")] /\
  lawful dumps (fun text => text) "out" 9999 false toy_points toy_session.2.
Proof.
  split; [vm_compute; reflexivity|].
  exact (proj1 (session_lawful dumps dumps "local" (fun text => text) "out" 9999 false toy_points
    _ _ (runs_run recorded (fun t => t) toy toy_ok _ []))).
Defined.
