(* ===== verification/Loadgen.v ===== *)
(** The load generator (bench/loadgen.py): producer processes that offer load, and the
    coordinator that measures a run and judges it.

    [lg] are the effects of a loadgen process: the client's coroutine and Redis commands
    ([Queue]), the other Redis commands, clocks, and the producer processes, whose futures
    are awaited together ([Gather]). The sampler task is an effect that is started and
    stopped: its samples come from [_sample]. [env] are the settings the environment
    asks for; the text of a float is a parameter. A pipeline's commands are sent one after
    another. Loops take fuel. *)
From S2P Require Import Prelude Effects Redis Keys LuaScripts Queue Ops Refine.
From S2P Require Import Fields.
From S2P Require Import Streams Json Py Models Config Transitions Registry Client.
From S2P Require Import Handlers.
From S2P Require Import Metrics Tables Analysis Texts Shell.
From Stdlib Require Import Qcanon.

#[local] Open Scope string_scope.
#[local] Open Scope list_scope.
#[local] Open Scope Z_scope.
#[local] Open Scope prog_scope.

Definition _SAMPLE_INTERVAL_S : Q := 1.
Definition _ENQUEUE_BUCKET_MS : Q := 1 # 10.
Definition _SAMPLED_COUNTERS : list string :=
  ["processed"; "rejected"; "blocked"; "retried"; "reclaimed"; "dead"].

Record LoadSpec := mk_LoadSpec {
  redis_url : string;
  queue : string;
  group : string;
  rate : Q;
  warmup : Z;
  measure : Z;
  cooldown : Z;
  processes : Z;
  batch : Z;
  tick_ms : Q;
  job_type : string;
  payload : list (string * json);
  payload_bytes : Z;
  max_depth : Z;
  backpressure : string;
  high_watermark : Z;
  low_watermark : Z;
  block_timeout : Q;
  expect_workers : Z;
  drain_timeout : Q;
  hosts : Z;
  run_id : string;
  host_timeout : Q;
}.
(** [LoadSpec(redis_url=url)] *)
Definition default_spec (url : string) : LoadSpec :=
  mk_LoadSpec url "bench" "workers" 0 10 30 5 2 500 10 "send_email" [] 100 0 "reject"
    1000000 800000 5 0 300 1 "" 120.

Definition duration (s : LoadSpec) : Z := warmup s + measure s + cooldown s.

Definition settings (env : Settings.t) (s : LoadSpec) : result exn Settings.t :=
  let e := env in
  Settings.make (Settings.mk (redis_url s) (Settings.socket_timeout e)
    (Settings.socket_connect_timeout e) (Settings.health_check_interval e)
    (Settings.retry_attempts e) (Settings.retry_backoff_base e) (Settings.retry_backoff_cap e)
    (queue s) (group s) (Settings.concurrency e) (Settings.block_ms e)
    (Settings.shutdown_grace e) (Settings.process_pool_size e) (Settings.job_timeout e)
    (Settings.visibility_timeout e) (Settings.heartbeat_interval e) (Settings.reap_interval e)
    (Settings.max_attempts e) (Settings.max_deliveries e) (Settings.suspect_deliveries e)
    (Settings.job_backoff_base e) (Settings.job_backoff_cap e) (Settings.scheduler_interval e)
    (Settings.scheduler_batch e) (Settings.consumer_prune_idle e)
    (Settings.consumer_prune_interval e)
    (if decide (backpressure s = "block") then block else reject)
    (high_watermark s) (low_watermark s) (block_timeout s) (Settings.block_poll_interval e)
    WARNING (Settings.log_format e)
    (Settings.done_ttl_seconds e) (Settings.idempotency_ttl_seconds e)).

(** The payload, padded to its size; what is longer stays whole. *)
Definition make_payload (s : LoadSpec) : list (string * json) :=
  let base := set_member "pad" (JStr "")
    (foldl (fun d x => set_member x.1 x.2 d) [("to", JStr "user@example.com")] (payload s)) in
  let size := Z.of_nat (String.length (dumps (JObj base))) in
  set_member "pad" (JStr (Nat.iter (Z.to_nat (payload_bytes s - size)) (String "x") "")) base.

(** ** Effects *)
(** What a producer process hands back. *)
Record Produced := mk_Produced {
  p_host : string;
  p_index : Z;
  p_pid : Z;
  p_start_late_s : Q;
  p_offered : Z;
  p_accepted : Z;
  p_rejected : Z;
  p_blocked : Z;
  p_blocked_seconds : Q;
  p_max_lag_s : Q;
  p_depth_waits : Z;
  p_cpu_busy : Q;
  p_per_second : list (Z * (Z * Z * Z));      (* second -> offered, accepted, rejected *)
  p_enqueue_call_hist_ms : list (Qc * Z);
  p_batch_sizes : list (Z * Z);
}.

(** One sample of the coordinator. *)
Record Sample := mk_Sample {
  s_t_ms : Z;
  s_depth : Z;
  s_stream : Z;
  s_delayed : Z;
  s_counters : list (string * Z);
  s_redis_cpu_main_s : Q;
  s_redis_cpu_s : Q;
  s_used_memory : Z;
}.

Inductive lg : Type -> Type :=
  | Queue {X} (e : pyev ProducerCounters Empty_set X) : lg X
  | Ping : lg unit
  | HMGET (k : string) (fs : list string) : lg (list (option string))
  | INFO_OF (section : string) : lg (list (string * json))
  | CONFIG_GET (name : string) : lg (list (string * string))
  | LLEN (k : string) : lg Z
  | RPUSH (k s : string) : lg unit
  | LRANGE (k : string) : lg (list string)              (* 0 -1 *)
  | Perf : lg Q                                         (* time.perf_counter() *)
  | Epoch : lg Q                                        (* time.time() *)
  | Mono : lg Q                                         (* time.monotonic() *)
  | Sleep (s : Q) : lg unit
  | Cpu : lg Q                                          (* _cpu_seconds() *)
  | Pid : lg Z
  | Platform : lg (list (string * json))                (* what [platform] and [os] say *)
  | Node : lg string                                    (* platform.node() *)
  | WarmPool (n : Z) : lg unit                          (* a pool of [n] warm processes *)
  | Submit (s : LoadSpec) (index : Z) (start_at : Q) : lg nat   (* run _producer_main there *)
  | Gather (futures : list nat) : lg (list Produced)
  | StartSampler : lg unit
  | StopSampler : lg (list Sample)
  | Log (l : level) (message : string) : lg unit.

Abbreviation lo := (prog lg stop).

(** A coroutine of the client in a loadgen process. *)
Definition coroutine {A} (p : py ProducerCounters Empty_set A) : lo A := translated (@Queue) p.
Definition redis {X} (c : cmd X) : lo X := call (Queue (ECmd c)).

(** ** A producer process *)
(** Python's [a % b] on floats *)
Definition fmod (a b : Q) : result exn Q :=
  if Qeq_bool b 0 then Err ZeroDivisionError
  else Ok (a - b * inject_Z (Qfloor (a / b)))%Q.

Definition _next_tick (t0 tick : Q) : lo unit :=
  now <- call Perf ;;
  r <- check (fmod (now - t0) tick) ;; call (Sleep (tick - r)).

(** What the loop of [_produce] carries. *)
Record producing := mk_producing {
  offered : Z;
  per_second : list (Z * (Z * Z * Z));
  call_ms : list Q;
  batch_sizes : list (Z * Z);
  max_lag_s : Q;
  depth_waits : Z;
}.
Definition nothing_yet : producing := mk_producing 0 [] [] [] 0 0.

(** [bucket = per_second.setdefault(sec, [0, 0, 0])], added to *)
Definition add_second (d : list (Z * (Z * Z * Z))) (sec o a r : Z) : list (Z * (Z * Z * Z)) :=
  let '(o0, a0, r0) := get d sec (0, 0, 0) in put d sec (o0 + o, a0 + a, r0 + r).

Section Produce.
Context (conf : Settings.t) (spec : LoadSpec) (fuel : nat).

Definition prate : Q := rate spec / inject_Z (processes spec * hosts spec).
Definition tick : Q := tick_ms spec / 1000.
Definition total_due : Z := int_of_Q (prate * inject_Z (duration spec)).
Definition in_window (now : Q) : bool :=
  Qle_bool (inject_Z (warmup spec)) now && Qlt_bool now (inject_Z (warmup spec + measure spec)).

(** [accepted = len(await client.enqueue_many(jobs))], or those of QueueFull *)
Definition send_batch (n : Z) : lo Z :=
  let jobs := replicate (Z.to_nat n) (mk_NewJob (job_type spec) (make_payload spec) None) in
  try_catch
    (r <- coroutine (Client.enqueue_many conf fuel jobs) ;;
     match r with
     | inr ids => Ret (Z.of_nat (length ids))
     | inl _ => Raise Diverges
     end)
    (fun e => match e with
     | Throws (QueueFull _ acc) => Ret (Z.of_nat (length (filter is_Some acc)))
     | e => Raise e
     end).

(** A batch, sent and counted. *)
Definition offer (now : Q) (n : Z) (st : producing) : lo producing :=
  started <- call Perf ;;
  accepted <- send_batch n ;;
  ended <- call Perf ;;
  let elapsed_ms := ((ended - started) * 1000)%Q in
  Ret (mk_producing (offered st + n)
    (add_second (per_second st) (int_of_Q now) n accepted (n - accepted))
    (if in_window now then call_ms st ++ [elapsed_ms] else call_ms st)
    (if in_window now then bump (batch_sizes st) n 1 else batch_sizes st)
    (max_lag_s st) (depth_waits st)).

Definition with_lag (lag : Q) (st : producing) : producing :=
  mk_producing (offered st) (per_second st) (call_ms st) (batch_sizes st)
    (Qmax (max_lag_s st) lag) (depth_waits st).
Definition one_wait (st : producing) : producing :=
  mk_producing (offered st) (per_second st) (call_ms st) (batch_sizes st)
    (max_lag_s st) (depth_waits st + 1).

(** The turn of a producer that may send. *)
Definition offer_due (t0 now : Q) (st : producing) : lo producing :=
  if Qlt_bool 0 prate then
    let due := Z.min (int_of_Q (prate * now)) total_due - offered st in
    if due <? 1 then _next_tick t0 tick ;;; Ret st
    else
      let n := Z.min due (batch spec) in
      st <- offer now n (with_lag (inject_Z due / prate) st) ;;
      (if n =? due then _next_tick t0 tick else Ret tt) ;;; Ret st
  else offer now (batch spec) st.

Definition produce_turn (t0 : Q) (st : producing) : lo (producing + producing) :=
  p <- call Perf ;;
  let now := (p - t0)%Q in
  if Qlt_bool now (inject_Z (duration spec)) then
    held <- (if max_depth spec =? 0 then Ret false
             else depth <- redis (XLEN (Keys.stream (Keys.mk (queue spec)))) ;;
                  Ret (max_depth spec <=? depth)) ;;
    if (held : bool) then call (Sleep tick) ;;; Ret (inl (one_wait st))
    else st <- offer_due t0 now st ;; Ret (inl st)
  else Ret (inr st).

(** The process's client, created with it, starts at zero counts. *)
Definition _produce (index : Z) (start_at : Q) : lo Produced :=
  (if processes spec * hosts spec =? 0 then throw ZeroDivisionError else Ret tt) ;;;
  call Ping ;;;
  t <- call Epoch ;;
  call (Sleep (Qmax 0 (start_at - t))) ;;;
  t <- call Epoch ;;
  let start_late_s := (t - start_at)%Q in
  t0 <- call Perf ;;
  cpu0 <- call Cpu ;;
  st <- while_true fuel (produce_turn t0) nothing_yet ;;
  t1 <- call Perf ;;
  let wall := (t1 - t0)%Q in
  cpu1 <- call Cpu ;;
  c <- coroutine self ;;
  host <- call Node ;;
  pid <- call Pid ;;
  busy <- check (div (cpu1 - cpu0) wall) ;;
  hist <- check (histogram (call_ms st) _ENQUEUE_BUCKET_MS) ;;
  Ret (mk_Produced host index pid (round_to 4 start_late_s) (offered st)
    (accepted c) (rejected c) (blocked c) (round_to 3 (blocked_seconds c))
    (round_to 4 (max_lag_s st)) (depth_waits st) (round_to 3 busy)
    (per_second st) hist (batch_sizes st)).
End Produce.

(** ** Several hosts *)
Definition _KEY_TTL_S : Z := 86400.
Definition _POLL_S : Q := 5 # 100.
Definition _START_LEAD_MS : Z := 1000.

Definition loadgen_key (q run name : string) : string :=
  Keys.prefix (Keys.mk q) +:+ ":loadgen:" +:+ run +:+ ":" +:+ name.

Definition to_local_epoch (start_redis_ms : Z) (offset_ms : Q) : Q :=
  ((inject_Z start_redis_ms - offset_ms) / 1000)%Q.

Definition _redis_ms : lo Z :=
  t <- redis TIME ;; Ret (t.1 * 1000 + t.2 `div` 1000).

Definition _offset_ms : lo Q :=
  before <- call Epoch ;;
  ms <- _redis_ms ;;
  after <- call Epoch ;;
  Ret (inject_Z ms - (before + after) / 2 * 1000)%Q.

Section Summaries.
Context (float_repr : Q -> string).
Definition jfloat (q : Q) : json := JFloat (float_repr q).

Definition summary_json (p : Produced) : json :=
  JObj [
    ("host", JStr (p_host p)); ("index", JInt (p_index p)); ("pid", JInt (p_pid p));
    ("start_late_s", jfloat (p_start_late_s p)); ("offered", JInt (p_offered p));
    ("accepted", JInt (p_accepted p)); ("rejected", JInt (p_rejected p));
    ("blocked", JInt (p_blocked p)); ("blocked_seconds", jfloat (p_blocked_seconds p));
    ("max_lag_s", jfloat (p_max_lag_s p)); ("depth_waits", JInt (p_depth_waits p));
    ("cpu_busy", jfloat (p_cpu_busy p));
    ("per_second", JObj ((fun x : Z * (Z * Z * Z) =>
       let '(s, (o, a, r)) := x in (str_of_Z s, JArr [JInt o; JInt a; JInt r]))
       <$> p_per_second p));
    ("enqueue_call_hist_ms", JObj ((fun x : Qc * Z => (float_repr x.1, JInt x.2))
       <$> p_enqueue_call_hist_ms p));
    ("batch_sizes", JObj ((fun x : Z * Z => (str_of_Z x.1, JInt x.2)) <$> p_batch_sizes p))].
Definition summary_to_json (produced : list Produced) : string :=
  dumps (JArr (summary_json <$> produced)).
End Summaries.

Definition members_of (j : json) : result exn (list (string * json)) :=
  match j with JObj l => Ok l | _ => Err (TypeError "no attribute 'items'") end.
(** Values the report computes with. *)
Definition as_int (j : json) : result exn Z :=
  match j with JInt z => Ok z | _ => Err (TypeError "expected int") end.
Definition as_float (j : json) : result exn Q :=
  match j with JFloat _ | JInt _ => float_of_json j | _ => Err (TypeError "expected float") end.
Definition int_at (k : string) (j : json) : result exn Z := x <-! at_key k j ;; as_int x.
Definition float_at (k : string) (j : json) : result exn Q := x <-! at_key k j ;; as_float x.

(** [{f(k): g(v) for k, v in j[name].items()}] *)
Definition converted {K V} `{EqDecision K} (name : string) (f : string -> result exn K)
    (g : json -> result exn V) (j : json) : result exn (list (K * V)) :=
  d <-! at_key name j ;; items <-! members_of d ;;
  l <-! each (fun x => k <-! f x.1 ;; v <-! g x.2 ;; Ok (k, v)) items ;;
  Ok (foldl (fun d x => put d x.1 x.2) [] l).
Definition triple_of (j : json) : result exn (Z * Z * Z) :=
  match j with
  | JArr [o; a; r] => o <-! as_int o ;; a <-! as_int a ;; r <-! as_int r ;; Ok (o, a, r)
  | _ => Err (ValueError "not enough values to unpack")
  end.
(** [float(k)] *)
Definition float_key (k : string) : result exn Qc := q <-! float_of_json (JStr k) ;; Ok (Q2Qc q).

Definition summary_of (j : json) : result exn Produced :=
  per_second <-! converted "per_second" to_int triple_of j ;;
  hist <-! converted "enqueue_call_hist_ms" float_key as_int j ;;
  sizes <-! converted "batch_sizes" to_int as_int j ;;
  host <-! (x <-! at_key "host" j ;; as_text x) ;;
  index <-! int_at "index" j ;; pid <-! int_at "pid" j ;;
  late <-! float_at "start_late_s" j ;; offered <-! int_at "offered" j ;;
  acc <-! int_at "accepted" j ;; rej <-! int_at "rejected" j ;; blo <-! int_at "blocked" j ;;
  bs <-! float_at "blocked_seconds" j ;; lag <-! float_at "max_lag_s" j ;;
  waits <-! int_at "depth_waits" j ;; busy <-! float_at "cpu_busy" j ;;
  Ok (mk_Produced host index pid late offered acc rej blo bs lag waits busy
        per_second hist sizes).
Definition summary_from_json (text : string) : result exn (list Produced) :=
  j <-! json_loads text ;; l <-! items_of j ;; each summary_of l.

(** [_poll]: a value that is there, or RuntimeError *)
Definition poll_turn {A} (what : string) (look : lo (option A)) (deadline : Q) (_ : unit) :
    lo (unit + A) :=
  v <- look ;;
  match v with
  | Some x => Ret (inr x)
  | None =>
      now <- call Mono ;;
      if Qlt_bool deadline now then throw (RuntimeError what)
      else call (Sleep _POLL_S) ;;; Ret (inl tt)
  end.
Definition _poll {A} (fuel : nat) (what : string) (look : lo (option A)) (within : Q) : lo A :=
  now <- call Mono ;;
  while_true fuel (poll_turn what look (now + within)) tt.
(** [lambda: redis.get(key)]: a text that is not empty *)
Definition got (k : string) : lo (option string) :=
  x <- redis (GET k) ;;
  Ret (match x with Some t => if decide (t = "") then None else Some t | None => None end).
(** [llen(key) >= n] *)
Definition enough (k : string) (n : Z) : lo (option unit) :=
  l <- call (LLEN k) ;; Ret (if n <=? l then Some tt else None).

(** *** The spec as published *)
Section SpecJson.
Context (float_repr : Q -> string).
Definition spec_json (s : LoadSpec) : json :=
  JObj [
    ("queue", JStr (queue s)); ("group", JStr (group s)); ("rate", jfloat float_repr (rate s));
    ("warmup", JInt (warmup s)); ("measure", JInt (measure s)); ("cooldown", JInt (cooldown s));
    ("processes", JInt (processes s)); ("batch", JInt (batch s));
    ("tick_ms", jfloat float_repr (tick_ms s)); ("job_type", JStr (job_type s));
    ("payload", JObj (payload s)); ("payload_bytes", JInt (payload_bytes s));
    ("max_depth", JInt (max_depth s)); ("backpressure", JStr (backpressure s));
    ("high_watermark", JInt (high_watermark s)); ("low_watermark", JInt (low_watermark s));
    ("block_timeout", jfloat float_repr (block_timeout s));
    ("expect_workers", JInt (expect_workers s));
    ("drain_timeout", jfloat float_repr (drain_timeout s)); ("hosts", JInt (hosts s));
    ("run_id", JStr (run_id s)); ("host_timeout", jfloat float_repr (host_timeout s))].
End SpecJson.

(** [LoadSpec] with the published values, for its own Redis. A field that is missing keeps its default. *)
Definition value_or {A} (k : string) (f : json -> result exn A) (d : A) (j : json) : result exn A :=
  match j with
  | JObj l => match member k l with Some v => f v | None => Ok d end
  | _ => Err (TypeError "argument after ** must be a mapping")
  end.
Definition spec_fields : list string :=
  ["queue"; "group"; "rate"; "warmup"; "measure"; "cooldown"; "processes"; "batch"; "tick_ms";
   "job_type"; "payload"; "payload_bytes"; "max_depth"; "backpressure"; "high_watermark";
   "low_watermark"; "block_timeout"; "expect_workers"; "drain_timeout"; "hosts"; "run_id";
   "host_timeout"; "redis_url"].
Definition known_fields (j : json) : result exn unit :=
  l <-! members_of j ;;
  if forallb (fun x => bool_decide (x.1 ∈ spec_fields)) l then Ok tt
  else Err (TypeError "got an unexpected keyword argument").
Definition spec_of (url : string) (j : json) : result exn LoadSpec :=
  let d := default_spec url in
  _ <-! known_fields j ;;
  q <-! value_or "queue" as_text (queue d) j ;; g <-! value_or "group" as_text (group d) j ;;
  ra <-! value_or "rate" as_float (rate d) j ;; w <-! value_or "warmup" as_int (warmup d) j ;;
  me <-! value_or "measure" as_int (measure d) j ;;
  co <-! value_or "cooldown" as_int (cooldown d) j ;;
  pr <-! value_or "processes" as_int (processes d) j ;;
  ba <-! value_or "batch" as_int (batch d) j ;;
  ti <-! value_or "tick_ms" as_float (tick_ms d) j ;;
  jt <-! value_or "job_type" as_text (job_type d) j ;;
  pa <-! value_or "payload" members_of (payload d) j ;;
  pb <-! value_or "payload_bytes" as_int (payload_bytes d) j ;;
  md <-! value_or "max_depth" as_int (max_depth d) j ;;
  bp <-! value_or "backpressure" as_text (backpressure d) j ;;
  hw <-! value_or "high_watermark" as_int (high_watermark d) j ;;
  lw <-! value_or "low_watermark" as_int (low_watermark d) j ;;
  bt <-! value_or "block_timeout" as_float (block_timeout d) j ;;
  ew <-! value_or "expect_workers" as_int (expect_workers d) j ;;
  dt <-! value_or "drain_timeout" as_float (drain_timeout d) j ;;
  ho <-! value_or "hosts" as_int (hosts d) j ;; ri <-! value_or "run_id" as_text (run_id d) j ;;
  ht <-! value_or "host_timeout" as_float (host_timeout d) j ;;
  Ok (mk_LoadSpec url q g ra w me co pr ba ti jt pa pb md bp hw lw bt ew dt ho ri ht).

(** [_produce_from]: the producers' futures *)
Fixpoint submit_each (s : LoadSpec) (start_at : Q) (idx : list Z) : lo (list nat) :=
  match idx with
  | [] => Ret []
  | i :: r => f <- call (Submit s i start_at) ;; fs <- submit_each s start_at r ;; Ret (f :: fs)
  end.
Definition _produce_from (s : LoadSpec) (start_at : Q) : lo (list nat) :=
  submit_each s start_at (seqZ 0 (processes s)).

Section Runs.
Context (float_repr : Q -> string) (env : Settings.t) (fuel : nat).

Definition produce_only (url q run : string) (within : Q) : lo (list Produced) :=
  let key := loadgen_key q run in
  raw <- _poll fuel "no spec published" (got (key "spec")) within ;;
  spec <- check (j <-! json_loads raw ;; spec_of url j) ;;
  call (WarmPool (processes spec)) ;;;
  node <- call Node ;;
  call (RPUSH (key "ready") node) ;;;
  redis (EXPIRE (key "ready") _KEY_TTL_S) ;;;
  text <- _poll fuel "no start published" (got (key "start")) within ;;
  start_ms <- check (to_int text) ;;
  offset <- _offset_ms ;;
  call (Log INFO ("producing (run " +:+ run +:+ ")")) ;;;
  futures <- _produce_from spec (to_local_epoch start_ms offset) ;;
  produced <- call (Gather futures) ;;
  call (RPUSH (key "produced") (summary_to_json float_repr produced)) ;;;
  redis (EXPIRE (key "produced") _KEY_TTL_S) ;;;
  Ret produced.

(** ** The coordinator *)
Definition consumers_turn (s : LoadSpec) (deadline : Q) (_ : unit) : lo (unit + Z) :=
  consumers <- except (fun e => match e with ResponseError _ => true | _ => false end)
    (l <- redis (XINFO_CONSUMERS (Keys.stream (Keys.mk (queue s))) (group s)) ;;
     Ret (Z.of_nat (length l)))
    (fun _ => Ret 0) ;;
  if expect_workers s <=? consumers then Ret (inr consumers) else
    now <- call Mono ;;
    if Qlt_bool deadline now then
      throw (RuntimeError ("only " +:+ str_of_Z consumers +:+ " of " +:+
        str_of_Z (expect_workers s) +:+ " workers after 120 s"))
    else call (Sleep (25 # 100)) ;;; Ret (inl tt).
Definition _wait_for_consumers (s : LoadSpec) : lo Z :=
  now <- call Mono ;;
  while_true fuel (consumers_turn s (now + 120)) tt.

Fixpoint ints_of (l : list (option string)) : result exn (list Z) :=
  match l with
  | [] => Ok []
  | x :: r => z <-! (match x with None | Some "" => Ok 0 | Some t => to_int t end) ;;
              zs <-! ints_of r ;; Ok (z :: zs)
  end.
Definition _sample (keys : Keys.t) : lo Sample :=
  t <- redis TIME ;;
  stream <- redis (XLEN (Keys.stream keys)) ;;
  delayed <- redis (ZCARD (Keys.delayed keys)) ;;
  counters <- call (HMGET (Keys.stats keys) _SAMPLED_COUNTERS) ;;
  cpu <- call (INFO_OF "cpu") ;;
  memory <- call (INFO_OF "memory") ;;
  (if decide (length counters = length _SAMPLED_COUNTERS) then Ret tt
   else throw (ValueError "zip() argument 2 has another length")) ;;;
  cs <- check (ints_of counters) ;;
  let c := JObj cpu in
  um <- check (float_at "used_cpu_user_main_thread" c) ;;
  sm <- check (float_at "used_cpu_sys_main_thread" c) ;;
  u <- check (float_at "used_cpu_user" c) ;;
  s <- check (float_at "used_cpu_sys" c) ;;
  mem <- check (x <-! at_key "used_memory" (JObj memory) ;; int_of_json x) ;;
  Ret (mk_Sample (t.1 * 1000 + t.2 `div` 1000) (stream + delayed) stream delayed
    (zip _SAMPLED_COUNTERS cs) (um + sm) (u + s) mem).

Definition config_items (l : list (string * string)) : list (string * json) :=
  map (fun x => (x.1, JStr x.2)) l.
Fixpoint config_of (names : list string) : lo (list (string * json)) :=
  match names with
  | [] => Ret []
  | n :: r =>
      reply <- call (CONFIG_GET n) ;;
      more <- config_of r ;; Ret (config_items reply ++ more)
  end.
Definition _environment : lo json :=
  server <- call (INFO_OF "server") ;;
  config <- config_of ["appendonly"; "appendfsync"; "maxmemory"; "maxmemory-policy"; "io-threads"] ;;
  host <- call Platform ;;
  v <- check (at_key "redis_version" (JObj server)) ;;
  Ret (JObj (host ++ [("redis_version", v); ("redis_config", JObj config)])).

(** *** What Redis spent per command *)
Record Cost := mk_Cost { calls : Z; usec : Z; calls_per_job : Q; usec_per_job : Q }.
Definition stat_of (k : string) (stats : json) : result exn Z :=
  x <-! at_key k stats ;; int_of_json x.
Definition cost_of (before : list (string * json)) (jobs : Z) (name : string) (stats : json) :
    result exn (option (string * Cost)) :=
  let prev := default (JObj [("calls", JInt 0); ("usec", JInt 0)]) (member name before) in
  c1 <-! stat_of "calls" stats ;; c0 <-! stat_of "calls" prev ;;
  u1 <-! stat_of "usec" stats ;; u0 <-! stat_of "usec" prev ;;
  let calls := c1 - c0 in
  let usec := u1 - u0 in
  if calls <=? 0 then Ok None else
    let per n (z : Z) := if jobs =? 0 then 0%Q
                         else round_to n (inject_Z z / inject_Z jobs) in
    Ok (Some (default name (drop_prefix "cmdstat_" name),
              mk_Cost calls usec (per 3%positive calls) (per 2%positive usec))).
Definition dearer (a b : string * Cost) : Prop := - usec a.2 <= - usec b.2.
#[export] Instance dearer_dec : RelDecision dearer.
Proof. intros a b. unfold dearer. apply _. Defined.
Definition command_costs (before after : list (string * json)) (jobs : Z) :
    result exn (list (string * Cost)) :=
  l <-! each (fun x => cost_of before jobs x.1 x.2) after ;;
  Ok (merge_sort dearer (foldl (fun d x => put d x.1 x.2) [] (omap (fun x => x) l))).

(** *** The results log *)
Record results_read := mk_results {
  rr_times : list (Z * Z);
  rr_per_job : list (string * Z);
  rr_by_worker : list (string * Z);
}.
Definition nothing_read : results_read := mk_results [] [] [].

Definition read_result (window : Window.t) (e : entry) (st : results_read) : result exn results_read :=
  finished <-! (x <-! need "finished_at_ms" e.2 ;; to_int x) ;;
  enqueued <-! (x <-! need "enqueued_at_ms" e.2 ;; to_int x) ;;
  job <-! need "job_id" e.2 ;;
  let st := mk_results (rr_times st ++ [(enqueued, finished)]) (bump (rr_per_job st) job 1)
              (rr_by_worker st) in
  if Window.contains window (inject_Z finished) then
    w <-! need "worker_id" e.2 ;;
    Ok (mk_results (rr_times st) (rr_per_job st) (bump (rr_by_worker st) w 1))
  else Ok st.
Fixpoint read_page (window : Window.t) (page : list entry) (st : results_read) :
    result exn results_read :=
  match page with
  | [] => Ok st
  | e :: r => st <-! read_result window e st ;; read_page window r st
  end.
Definition results_turn (keys : Keys.t) (window : Window.t) (st : eid * results_read) :
    lo (eid * results_read + results_read) :=
  reply <- redis (XRANGE (Keys.results keys) (BExcl st.1) BMax (Some (100 * 100)%nat)) ;;
  match last reply with
  | None => Ret (inr st.2)
  | Some e => rr <- check (read_page window reply st.2) ;; Ret (inl (e.1, rr))
  end.
Definition _read_results (keys : Keys.t) (after_id : eid) (window : Window.t) : lo results_read :=
  while_true fuel (results_turn keys window) (after_id, nothing_read).
End Runs.

(** *** The report *)
Record ExactlyOnce := mk_ExactlyOnce {
  eo_ok : bool;
  eo_accepted : Z;
  eo_results : Z;
  eo_distinct : Z;
  eo_missing : Z;
  eo_duplicates : Z;
  eo_dlq : Z;
}.

Record Report := mk_Report {
  r_meta : json;
  r_spec : LoadSpec;
  r_payload_bytes : Z;
  r_env : json;
  r_consumers : Z;
  r_t0_ms : Z;
  r_window : Window.t;
  r_completed_per_s : Q;
  r_offered_per_s : Q;
  r_accepted_per_s : Q;
  r_e2e : option (Summary (N := Z));
  r_enqueue_call : option (Summary (N := Qc));
  r_enqueue_batch : option (Summary (N := Z));
  r_depth_min : Z;
  r_depth_max : Z;
  r_depth_mean : Q;
  r_main_busy : option Q;
  r_all_busy : option Q;
  r_peak_memory : Z;
  r_offered : Z;
  r_rejected : Z;
  r_blocked : Z;
  r_blocked_seconds : Q;
  r_cpu_busy : list Q;
  r_max_lag_s : Q;
  r_max_start_late_s : Q;
  r_depth_waits : Z;
  r_hosts_reported : Z;
  r_exactly_once : ExactlyOnce;
  r_drained : bool;
  r_drain_s : Q;
  r_counters : list (string * Z);
  r_commands : list (string * Cost);
  r_by_worker : list (string * Z);
  r_e2e_hist : list (Z * Z);
  r_enqueue_hist : list (Qc * Z);
  r_samples : list Sample;
  r_per_second : list (Z * (Z * Z * Z));
  r_completed : list (Z * Z);
}.

Definition total (l : list Z) : Z := foldr Z.add 0 l.
Definition largest (l : list Q) : result exn Q :=
  match l with
  | [] => Err (ValueError "max() iterable argument is empty")
  | x :: r => Ok (foldl Qmax x r)
  end.
Definition worker_le (a b : string * Z) : Prop := string_le a.1 b.1.
#[export] Instance worker_le_dec : RelDecision worker_le.
Proof. intros x y. unfold worker_le. apply _. Defined.

(** The exactly-once check. *)
Definition exactly_once (hosts reported accepted dlq : Z) (drained : bool)
    (per_job : list (string * Z)) : ExactlyOnce :=
  let duplicates := total ((fun x => if 1 <? x.2 then x.2 - 1 else 0) <$> per_job) in
  let missing := accepted - Z.of_nat (length per_job) in
  mk_ExactlyOnce
    ((reported =? hosts) && drained && (missing =? 0) && (duplicates =? 0) && (dlq =? 0))
    accepted (total per_job.*2) (Z.of_nat (length per_job)) missing duplicates dlq.

Definition _report (spec : LoadSpec) (meta env : json) (consumers : Z) (window : Window.t)
    (t0_ms : Z) (samples : list Sample) (produced : list Produced) (rr : results_read)
    (counters : list (string * Z)) (dlq : Z) (drained : bool) (drain_s : Q)
    (commands : list (string * Cost)) (hosts_reported : Z) : result exn Report :=
  let inside (s : Z) := (warmup spec <=? s) && (s <? warmup spec + measure spec) in
  let per_second := foldl (fun d (x : Z * (Z * Z * Z)) =>
      let '(s, (o, a, r)) := x in add_second d s o a r) []
    (produced ≫= p_per_second) in
  let windowed (f : Z * Z * Z -> Z) :=
    total ((fun x => f x.2) <$> filter (fun x => inside x.1 = true) per_second) in
  let offered_w := windowed (fun x => x.1.1) in
  let accepted_w := windowed (fun x => x.1.2) in
  let times := rr_times rr in
  let e2e := Counter ((fun x : Z * Z => x.2 - x.1) <$>
    filter (fun x : Z * Z => Window.contains window (inject_Z x.1) = true) times) in
  let completed := Counter ((fun x : Z * Z => (x.2 - t0_ms) `div` 1000) <$> times) in
  let enqueue_hist := merge (p_enqueue_call_hist_ms <$> produced) in
  let sizes := merge (p_batch_sizes <$> produced) in
  let accepted := total (p_accepted <$> produced) in
  let depth_w := s_depth <$> filter (fun s => Window.contains window (inject_Z (s_t_ms s)) = true) samples in
  completed_per_s <-! rate_in window (snd <$> times) ;;
  offered_per_s <-! div (inject_Z offered_w) (inject_Z (measure spec)) ;;
  accepted_per_s <-! div (inject_Z accepted_w) (inject_Z (measure spec)) ;;
  e2e_s <-! summarize e2e ;;
  call_s <-! summarize enqueue_hist ;;
  batch_s <-! summarize sizes ;;
  main <-! busy_fraction ((fun s => (inject_Z (s_t_ms s), s_redis_cpu_main_s s)) <$> samples) window ;;
  all <-! busy_fraction ((fun s => (inject_Z (s_t_ms s), s_redis_cpu_s s)) <$> samples) window ;;
  lag <-! largest (p_max_lag_s <$> produced) ;;
  late <-! largest (p_start_late_s <$> produced) ;;
  Ok (mk_Report meta spec (Z.of_nat (String.length (dumps (JObj (make_payload spec))))) env
    consumers t0_ms window
    (round_to 1 completed_per_s) (round_to 1 offered_per_s) (round_to 1 accepted_per_s)
    e2e_s call_s batch_s
    (match depth_w with [] => 0 | x :: r => foldl Z.min x r end)
    (match depth_w with [] => 0 | x :: r => foldl Z.max x r end)
    (match depth_w with
     | [] => 0%Q
     | _ => round_to 1 (inject_Z (total depth_w) / inject_Z (Z.of_nat (length depth_w)))
     end)
    main all
    (match samples with
     | [] => 0
     | x :: r => foldl Z.max (s_used_memory x) (s_used_memory <$> r)
     end)
    (total (p_offered <$> produced)) (total (p_rejected <$> produced))
    (total (p_blocked <$> produced))
    (round_to 3 (foldr Qplus 0%Q (p_blocked_seconds <$> produced)))
    (p_cpu_busy <$> produced) lag late (total (p_depth_waits <$> produced)) hosts_reported
    (exactly_once (hosts spec) hosts_reported accepted dlq drained (rr_per_job rr))
    drained (round_to 2 drain_s) counters commands
    (merge_sort worker_le (rr_by_worker rr)) (sorted_items e2e) enqueue_hist samples
    (sorted_items per_second) (sorted_items completed)).

(** *** A run *)
Section Run.
Context (float_repr : Q -> string) (env_settings : Settings.t) (fuel : nat).
Context (spec : LoadSpec) (meta : json).
Abbreviation keys := (Keys.mk (queue spec)).
Abbreviation key := (loadgen_key (queue spec) (run_id spec)).
Definition several : bool := 1 <? hosts spec.

Definition backlog : lo Z :=
  n <- redis (XLEN (Keys.stream keys)) ;; d <- redis (ZCARD (Keys.delayed keys)) ;; Ret (n + d).

(** The run id is taken, once. *)
Definition publish : lo unit :=
  if negb several then Ret tt
  else if decide (run_id spec = "") then throw (ValueError "several hosts need a run_id")
  else
    fresh <- redis (SET (key "spec") (dumps_spaced (spec_json float_repr spec)) true (Some _KEY_TTL_S)) ;;
    if fresh : bool then Ret tt
    else throw (RuntimeError ("run id " +:+ run_id spec +:+ " was already used")).

(** Every host is warm before anything is enqueued. *)
Definition await_ready : lo unit :=
  if negb several then Ret tt
  else except is_runtime_error
    (_poll fuel "not ready" (enough (key "ready") (hosts spec - 1)) (host_timeout spec))
    (fun _ =>
       n <- call (LLEN (key "ready")) ;;
       throw (RuntimeError ("only " +:+ str_of_Z (1 + n) +:+ " of " +:+ str_of_Z (hosts spec) +:+
                            " loadgen hosts ready"))).

(** What the other hosts handed back; one that does not report is missing. *)
Definition remote_summaries : lo (list Produced * Z) :=
  if negb several then Ret ([], 1)
  else
    except is_runtime_error
      (_poll fuel "not reported" (enough (key "produced") (hosts spec - 1)) (host_timeout spec))
      (fun _ => Ret tt) ;;;
    texts <- call (LRANGE (key "produced")) ;;
    l <- check (each summary_from_json texts) ;;
    let reported := 1 + Z.of_nat (length texts) in
    (if reported <? hosts spec then call (Log WARNING "not every host reported") else Ret tt) ;;;
    Ret (concat l, reported).

Definition drain_turn (started : Q) (_ : unit) : lo (unit + bool) :=
  now <- call Mono ;;
  if Qlt_bool (now - started) (drain_timeout spec) then
    n <- backlog ;;
    if n =? 0 then Ret (inr true) else call (Sleep (1 # 5)) ;;; Ret (inl tt)
  else Ret (inr false).
Definition drain : lo (bool * Q) :=
  started <- call Mono ;;
  drained <- while_true fuel (drain_turn started) tt ;;
  ended <- call Mono ;;
  Ret (drained, (ended - started)%Q).

Definition number_in (raw : gmap string string) (name : string) : result exn Z :=
  match raw !! name with Some t => to_int t | None => Ok 0 end.
Definition counted (before after : gmap string string) : result exn (list (string * Z)) :=
  each (fun k => a <-! number_in after k ;; b <-! number_in before k ;; Ok (k, a - b)) COUNTERS.

Definition run : lo Report :=
  _ <- check (settings env_settings spec) ;;
  env <- _environment ;;
  consumers <- _wait_for_consumers fuel spec ;;
  depth <- backlog ;;
  (if depth =? 0 then Ret tt
   else throw (RuntimeError ("queue " +:+ queue spec +:+ " isn't empty: stale backlog"))) ;;;
  last <- redis (XREVRANGE (Keys.results keys) 1) ;;
  let results_after := match last with e :: _ => e.1 | [] => (0, 0) end in
  counters0 <- redis (HGETALL (Keys.stats keys)) ;;
  commands0 <- call (INFO_OF "commandstats") ;;
  publish ;;;
  call (WarmPool (processes spec)) ;;;
  await_ready ;;;
  ms <- _redis_ms ;;
  let start_ms := ms + _START_LEAD_MS in
  (if several then redis (SET (key "start") (str_of_Z start_ms) false (Some _KEY_TTL_S)) ;;; Ret tt
   else Ret tt) ;;;
  offset <- _offset_ms ;;
  let start_at := to_local_epoch start_ms offset in
  futures <- _produce_from spec start_at ;;
  t <- call Epoch ;;
  call (Sleep (Qmax 0 (start_at - t))) ;;;
  t0_ms <- _redis_ms ;;
  call StartSampler ;;;
  call (Log INFO "producing") ;;;
  produced <- call (Gather futures) ;;
  remote <- remote_summaries ;;
  drained <- drain ;;
  samples <- call StopSampler ;;
  call (Log INFO "reading the results log") ;;;
  let window := Window.of_run t0_ms (inject_Z (warmup spec)) (inject_Z (measure spec)) in
  rr <- _read_results fuel keys results_after window ;;
  counters1 <- redis (HGETALL (Keys.stats keys)) ;;
  commands1 <- call (INFO_OF "commandstats") ;;
  dlq <- redis (XLEN (Keys.dead keys)) ;;
  cs <- check (counted counters0 counters1) ;;
  costs <- check (command_costs commands0 commands1 (Z.of_nat (length (rr_per_job rr)))) ;;
  check (_report spec meta env consumers window t0_ms samples (produced ++ remote.1) rr cs
    dlq drained.1 drained.2 costs remote.2).

(** [main]'s exit code *)
Definition exit_code_of (r : Report) : Z := if eo_ok (r_exactly_once r) then 0 else 1.
End Run.
