(* ===== verification/Offered.v ===== *)
(** What the load generator (Loadgen.v, bench/loadgen.py) may claim: the books of a producer
    process, and the exactly-once verdict of a run. *)
From S2P Require Import Prelude Effects Redis Keys LuaScripts Queue Ops Refine.
From S2P Require Import Fields.
From S2P Require Import Streams Json Py Models Config Transitions Registry Client.
From S2P Require Import Handlers.
From S2P Require Import Metrics Tables Analysis Texts Shell Loadgen.
From Stdlib Require Import Qcanon Lqa.

#[local] Open Scope list_scope.
#[local] Open Scope Z_scope.
#[local] Open Scope prog_scope.

(** ** Sums over the seconds *)
Definition over (p : Z -> bool) (f : Z * Z * Z -> Z) (d : list (Z * (Z * Z * Z))) : Z :=
  total ((fun x => if p x.1 then f x.2 else 0) <$> d).
Definition all_seconds (s : Z) : bool := true.
Definition f_offered (x : Z * Z * Z) : Z := x.1.1.
Definition f_accepted (x : Z * Z * Z) : Z := x.1.2.
Definition f_rejected (x : Z * Z * Z) : Z := x.2.

Lemma over_put p f d k v : over p f (put d k v) =
  over p f d + if p k then f v - f (get d k (0, 0, 0)) + (if bool_decide (k ∈ d.*1) then 0 else f (0, 0, 0)) else 0.
Proof.
  unfold over, total. induction d as [|[k' v'] d IH]; cbn [put get fmap list_fmap foldr fst snd].
  - rewrite bool_decide_false by set_solver. destruct (p k); lia.
  - destruct (decide (k' = k)) as [->|Hk].
    + rewrite bool_decide_true by set_solver. cbn [fmap list_fmap foldr fst snd].
      destruct (p k); lia.
    + cbn [fmap list_fmap foldr fst snd]. rewrite IH.
      rewrite (bool_decide_ext (k ∈ k' :: d.*1) (k ∈ d.*1)) by set_solver. lia.
Qed.

Lemma over_add p d s o a r :
  over p f_offered (add_second d s o a r) = over p f_offered d + (if p s then o else 0) /\
  over p f_accepted (add_second d s o a r) = over p f_accepted d + (if p s then a else 0) /\
  over p f_rejected (add_second d s o a r) = over p f_rejected d + (if p s then r else 0).
Proof.
  unfold add_second. destruct (get d s (0, 0, 0)) as [[o0 a0] r0] eqn:Hg.
  rewrite !over_put, Hg. unfold f_offered, f_accepted, f_rejected. cbn [fst snd].
  destruct (bool_decide _), (p s); lia.
Qed.

Lemma over_all p f d : Forall (fun x => p x.1 = true) d -> over p f d = over all_seconds f d.
Proof.
  unfold over. intros Hd. f_equal. apply list_fmap_ext. intros i x Hx.
  rewrite Forall_lookup in Hd. by rewrite (Hd i x Hx).
Qed.

Lemma put_forall (P : Z * (Z * Z * Z) -> Prop) d k v : Forall P d -> P (k, v) -> Forall P (put d k v).
Proof.
  induction d as [|[k' v'] d IH]; intros Hd Hv; cbn [put]; [by constructor|].
  apply Forall_cons in Hd as [H1 H2]. case_decide; [subst|]; constructor; auto.
Qed.

Lemma get_forall (P : Z * Z * Z -> Prop) (d : list (Z * (Z * Z * Z))) k v0 :
  Forall (fun x => P x.2) d -> P v0 -> P (get d k v0).
Proof.
  induction 1 as [|[k' v'] d H _ IH]; intros Hv; cbn; [done|]. case_decide; auto.
Qed.

(** A second's counts fit together. *)
Definition fits (x : Z * Z * Z) : Prop :=
  f_offered x = f_accepted x + f_rejected x /\ 0 <= f_accepted x /\ 0 <= f_rejected x.

Lemma add_fits d s o a r : Forall (fun x => fits x.2) d -> fits (o, a, r) ->
  Forall (fun x => fits x.2) (add_second d s o a r).
Proof.
  intros Hd Hf. unfold add_second. pose proof (get_forall fits d s (0, 0, 0) Hd) as Hg.
  destruct (get d s (0, 0, 0)) as [[o0 a0] r0]. apply put_forall; [done|].
  specialize (Hg ltac:(done)). unfold fits, f_offered, f_accepted, f_rejected in *. cbn in *. lia.
Qed.

Lemma int_of_Q_floor q : (0 <= q)%Q -> int_of_Q q = Qfloor q.
Proof.
  destruct q as [n d]. unfold Qle. cbn. intros Hq. apply Z.quot_div_nonneg; lia.
Qed.
Lemma int_of_Q_le q : (0 <= q)%Q -> (inject_Z (int_of_Q q) <= q < inject_Z (int_of_Q q + 1))%Q.
Proof.
  intros Hq. rewrite int_of_Q_floor by done. split; [apply Qfloor_le|apply Qlt_floor].
Qed.

(** ** The books of a producer *)
(** A world where an admission call may be answered anything or fail, clocks tell any
    time, but [perf_counter] never goes back. The log remembers the answers. *)
Record world := mk_world { w_log : enq_log; w_counts : ProducerCounters; w_clock : Q }.

Definition books X (e : lg X) (v : world) (r : result stop X) (v' : world) : Prop :=
  match e in lg Y return result stop Y -> Prop with
  | Queue c => fun r =>
      w_clock v' = w_clock v /\
      match r with
      | Ok x => acct _ c (w_log v, w_counts v) (Ok x) (w_log v', w_counts v')
      | Err (Throws m) => acct _ c (w_log v, w_counts v) (Err m) (w_log v', w_counts v')
      | Err _ => w_log v' = w_log v /\ w_counts v' = w_counts v
      end
  | Perf => fun r =>
      w_log v' = w_log v /\ w_counts v' = w_counts v /\
      match r with
      | Ok q => (w_clock v <= q)%Q /\ w_clock v' = q
      | Err _ => w_clock v' = w_clock v
      end
  | _ => fun _ => v' = v
  end r.

Abbreviation bwp := (wp books).
Definition fine {A} (Q : A -> world -> Prop) (r : result stop A) (v : world) : Prop :=
  match r with Ok a => Q a v | Err _ => True end.

#[local] Instance same_clock : PreOrder (fun v v' : world => w_clock v' = w_clock v).
Proof. split; [by intros ?|intros ? ? ?; congruence]. Qed.

Lemma coroutine_wp {A} (p : py ProducerCounters Empty_set A) Q (v : world) :
  wp acct p (w_log v, w_counts v) Q ->
  bwp (coroutine p) v (fun r v' => w_clock v' = w_clock v /\
    match r with
    | Ok a => Q (Ok a) (w_log v', w_counts v')
    | Err (Throws m) => Q (Err m) (w_log v', w_counts v')
    | Err _ => True
    end).
Proof.
  apply (translated_wp (@Queue) (fun v => (w_log v, w_counts v)) acct books
    (fun v v' => w_clock v' = w_clock v)).
  intros X c w r w' [Hc Hs]. split; [done|]. by destruct r as [x|[|e|]].
Qed.

Definition nadmitted (l : enq_log) : Z := Z.of_nat (length (admitted l)).
Definition nadded (l : enq_log) : Z := Z.of_nat (length (added l)).

Lemma nadmitted_app l l' : nadmitted (l ++ l') = nadmitted l + nadmitted l'.
Proof. unfold nadmitted, admitted. rewrite filter_app, length_app. lia. Qed.
Lemma nadded_app l l' : nadded (l ++ l') = nadded l + nadded l'.
Proof. unfold nadded, added. rewrite filter_app, length_app. lia. Qed.

Lemma somes_filter (l : list (option string)) : length (filter is_Some l) = somes l.
Proof.
  unfold somes. induction l as [|[x|] l IH]; [done|..].
  - rewrite filter_cons_True by by eexists. cbn [length omap list_omap]. by rewrite IH.
  - rewrite filter_cons_False by by intros [? ?]. cbn [length omap list_omap]. by rewrite IH.
Qed.

(** What one batch of [n] does to the books. *)
Definition batch_sent (n : Z) (v : world) (a : Z) (v' : world) : Prop :=
  0 <= a <= n /\ w_clock v' = w_clock v /\
  nadmitted (w_log v') = nadmitted (w_log v) + a /\
  accepted (w_counts v') - nadded (w_log v') = accepted (w_counts v) - nadded (w_log v) /\
  rejected (w_counts v') = rejected (w_counts v) + (n - a).

Lemma try_wp {A} (p : lo A) h v Q :
  bwp p v (fun r v' => match r with Ok a => Q (Ok a) v' | Err e => bwp (h e) v' Q end) ->
  bwp (try_catch p h) v Q.
Proof. revert v. induction p as [a|e|X c k IH]; intros v Hp; cbn in *; auto. Qed.

Section Producer.
Context (conf : Settings.t) (spec : LoadSpec) (fuel : nat).

Lemma send_batch_wp n v : 0 <= n ->
  bwp (send_batch conf spec fuel n) v (fine (batch_sent n v)).
Proof.
  intros Hn. unfold send_batch. set (jobs := replicate _ _).
  assert (Hlen : forall calls, Forall2 (call_of conf) jobs calls -> Z.of_nat (length calls) = n).
  { intros calls Hc. apply Forall2_length in Hc. unfold jobs in Hc. rewrite length_replicate in Hc. lia. }
  apply try_wp, wp_bind. eapply wp_mono.
  { apply coroutine_wp. pose proof (wp_shift (T := Empty_set) _ _ (w_log v) [] (w_counts v)
      (enqueue_many_wp conf fuel jobs (w_counts v))) as Hw.
    rewrite app_nil_r in Hw. exact Hw. }
  intros r v' [Hc Hr].
  destruct r as [[st|ids]|[|m|]]; cbn; try done.
  - destruct Hr as (l' & Hl & calls & Hcalls & _ & Hi & Ha & _ & Hadd & _ & Hrej). cbn [fst snd] in *.
    unfold batch_sent. rewrite Hl, nadmitted_app, nadded_app. unfold nadmitted, nadded.
    rewrite Ha, Hi. specialize (Hlen _ Hcalls). split_and!; (done || lia).
  - destruct Hr as (l' & Hl & calls & Hcalls & _ & Hm). destruct m; cbn; try done.
    destruct Hm as (Hacc & Hso & Ha & _ & Hadd & Hrej). cbn [fst snd] in *.
    unfold batch_sent. rewrite Hl, nadmitted_app, nadded_app, somes_filter. unfold nadmitted, nadded.
    specialize (Hlen _ Hcalls). rewrite Ha. split_and!; (done || lia).
Qed.

(** The state of the loop agrees with the books, and is never ahead of the rate. *)
Record in_step (t0 : Q) (st : producing) (v : world) : Prop := {
  is_fit : Forall (fun x => fits x.2) (per_second st);
  is_offered : offered st = over all_seconds f_offered (per_second st);
  is_accepted : over all_seconds f_accepted (per_second st) = nadmitted (w_log v);
  is_added : accepted (w_counts v) = nadded (w_log v);
  is_rejected : rejected (w_counts v) = over all_seconds f_rejected (per_second st);
  is_clock : (t0 <= w_clock v)%Q;
  is_past : Forall (fun x => x.1 <= int_of_Q (w_clock v - t0)) (per_second st);
  is_due : (0 < prate spec)%Q -> offered st <= Z.max 0 (total_due spec);
  is_rate : (0 < prate spec)%Q -> forall s, 0 <= s ->
    (inject_Z (over (fun x => x <=? s) f_offered (per_second st)) <= prate spec * inject_Z (s + 1))%Q;
}.

Lemma int_of_Q_mono a b : (0 <= a)%Q -> (a <= b)%Q -> int_of_Q a <= int_of_Q b.
Proof.
  intros Ha Hb. rewrite !int_of_Q_floor by lra. by apply Qfloor_resp_le.
Qed.

(** Time passes. *)
Lemma in_step_later t0 st v q : in_step t0 st v -> (w_clock v <= q)%Q ->
  in_step t0 st (mk_world (w_log v) (w_counts v) q).
Proof.
  intros [] Hq. split; cbn; try done; [lra|]. eapply Forall_impl; [done|].
  intros x Hx. cbn in *. etransitivity; [exact Hx|]. apply int_of_Q_mono; lra.
Qed.

(** A batch is due: there is a rate, and it is not exceeded by then. *)
Definition due_at (now : Q) (n : Z) (st : producing) : Prop :=
  (0 < prate spec)%Q ->
  offered st + n <= total_due spec /\ (inject_Z (offered st + n) <= prate spec * now)%Q.

Lemma wp_perf {A} (f : Q -> lo A) v Q :
  (forall q, (w_clock v <= q)%Q -> bwp (f q) (mk_world (w_log v) (w_counts v) q) (fine Q)) ->
  bwp (bind (call Perf) f) v (fine Q).
Proof.
  intros Hf. apply wp_call. intros [q|e] v' (Hl & Hc & Hq); [|done]. destruct Hq as [Hq Hv].
  destruct v' as [l c k]. cbn in *. subst. by apply Hf.
Qed.

(** An effect that leaves the books and the clock alone. *)
Lemma wp_still {X A} (e : lg X) (f : X -> lo A) v Q :
  (forall r v', books X e v r v' -> v' = v) -> (forall x, bwp (f x) v (fine Q)) ->
  bwp (bind (call e) f) v (fine Q).
Proof. intros He Hf. apply wp_call. intros [x|m] v' Hs; [|done]. by rewrite (He _ _ Hs). Qed.

Lemma wp_redis {X A} (c : cmd X) (f : X -> lo A) v Q :
  (forall x, bwp (f x) v (fine Q)) -> bwp (bind (redis c) f) v (fine Q).
Proof.
  intros Hf. apply wp_call. intros [x|m] v' [Hc Hs]; [|done]. destruct Hs as [_ Hv].
  destruct v, v'. cbn in *. simplify_eq. apply Hf.
Qed.

Lemma wp_self {A} (f : ProducerCounters -> lo A) v Q :
  bwp (f (w_counts v)) v (fine Q) -> bwp (bind (coroutine self) f) v (fine Q).
Proof.
  intros Hf. cbn. intros [x|[|m|]] v' [Hc Hs]; [|done|done|done]. destruct Hs as [Hx Hv].
  destruct v, v'. cbn in *. by simplify_eq.
Qed.

Lemma fine_check {X A} (r : result exn X) (f : X -> lo A) v Q :
  (forall x, bwp (f x) v (fine Q)) -> bwp (bind (check r) f) v (fine Q).
Proof. intros Hf. destruct r; [apply Hf|done]. Qed.

Lemma next_tick_wp t0 t v :
  bwp (_next_tick t0 t) v (fine (fun _ v' => exists q, (w_clock v <= q)%Q /\
    v' = mk_world (w_log v) (w_counts v) q)).
Proof.
  unfold _next_tick. apply wp_perf. intros q Hq. apply fine_check. intros r.
  cbn. intros [x|m] v' Hs; [|done]. cbn. exists q. by rewrite Hs.
Qed.

(** A batch that is due keeps the books. *)
Lemma in_step_batch t0 now n a st v v' : in_step t0 st v -> 0 <= n ->
  (0 <= now)%Q -> (now <= w_clock v - t0)%Q ->
  Forall (fun x => x.1 <= int_of_Q now) (per_second st) -> due_at now n st ->
  batch_sent n v a v' -> forall ms sizes lag waits,
  in_step t0 (mk_producing (offered st + n)
    (add_second (per_second st) (int_of_Q now) n a (n - a)) ms sizes lag waits) v'.
Proof.
  intros [Hfit Hoff Hacc Hadd Hrej Hck Hpast Hdue Hrate] Hn Hnow Hle Hsec Hd
    (Ha & Hc & Hadm & Hcnt & Hr) ms sizes lag waits.
  destruct (over_add all_seconds (per_second st) (int_of_Q now) n a (n - a)) as (Ho & Hov & Hre).
  cbn [all_seconds] in *.
  assert (Hsec' : Forall (fun x => x.1 <= int_of_Q now)
    (add_second (per_second st) (int_of_Q now) n a (n - a))).
  { unfold add_second. destruct (get _ _ _) as [[o0 a0] r0]. by apply put_forall. }
  split; cbn [offered per_second].
  - apply add_fits; [done|]. unfold fits, f_offered, f_accepted, f_rejected. cbn. lia.
  - unfold all_seconds in *. lia.
  - unfold all_seconds in *. lia.
  - lia.
  - unfold all_seconds in *. lia.
  - rewrite Hc. done.
  - eapply Forall_impl; [exact Hsec'|]. intros x Hx. cbn in *. etransitivity; [exact Hx|].
    rewrite Hc. by apply int_of_Q_mono.
  - intros Hp. destruct (Hd Hp) as [Hd1 _]. lia.
  - intros Hp s Hs. destruct (Hd Hp) as [_ Hd2].
    destruct (Z.le_gt_cases (int_of_Q now) s) as [Hin|Hout].
    + rewrite over_all.
      2: { eapply Forall_impl; [exact Hsec'|]. intros x Hx. cbn in *. lia. }
      replace (over all_seconds f_offered _) with (offered st + n)
        by (unfold all_seconds in *; lia).
      eapply Qle_trans; [exact Hd2|]. rewrite !(Qmult_comm (prate spec)).
      apply Qmult_le_compat_r; [|lra]. pose proof (int_of_Q_le now Hnow) as [_ Hlt].
      assert (inject_Z (int_of_Q now + 1) <= inject_Z (s + 1))%Q by (rewrite <- Zle_Qle; lia). lra.
    + destruct (over_add (fun x => x <=? s) (per_second st) (int_of_Q now) n a (n - a)) as (Hos & _).
      rewrite Hos. destruct (Z.leb_spec (int_of_Q now) s); [lia|]. rewrite Z.add_0_r. by apply Hrate.
Qed.

Lemma offer_wp t0 now n st v : in_step t0 st v -> 0 <= n ->
  (0 <= now)%Q -> (now <= w_clock v - t0)%Q ->
  Forall (fun x => x.1 <= int_of_Q now) (per_second st) -> due_at now n st ->
  bwp (offer conf spec fuel now n st) v (fine (in_step t0)).
Proof.
  intros Hst Hn Hnow Hle Hsec Hd. unfold offer. apply wp_perf. intros q Hq.
  apply wp_bind. eapply wp_mono; [by apply send_batch_wp|]. intros [a|e] v' Ha; [|done].
  cbn in Ha. apply wp_perf. intros q' Hq'. cbn.
  apply (in_step_later _ _ v'); [|done]. eapply in_step_batch; [by apply in_step_later| | | | | |exact Ha];
    cbn; (done || lra).
Qed.

Lemma in_step_same t0 st st' v : in_step t0 st v -> offered st' = offered st ->
  per_second st' = per_second st -> in_step t0 st' v.
Proof. intros [] Ho Hp. by split; rewrite ?Ho, ?Hp. Qed.

Lemma due_in_time now due st : (0 <= now)%Q ->
  due = Z.min (int_of_Q (prate spec * now)) (total_due spec) - offered st ->
  forall n, n <= due -> due_at now n st.
Proof.
  intros Hnow -> n Hn Hp. split; [lia|].
  assert (H0 : (0 <= prate spec * now)%Q) by (apply Qmult_le_0_compat; lra).
  pose proof (int_of_Q_le _ H0) as [Hle _].
  assert (inject_Z (offered st + n) <= inject_Z (int_of_Q (prate spec * now)))%Q
    by (rewrite <- Zle_Qle; lia). lra.
Qed.

Lemma turn_wp t0 st v : 1 <= batch spec -> in_step t0 st v ->
  bwp (produce_turn conf spec fuel t0 st) v (fine (fun r v' =>
    match r with inl st' | inr st' => in_step t0 st' v' end)).
Proof.
  intros Hb Hst. unfold produce_turn. apply wp_perf. intros q Hq. cbn zeta.
  assert (Hst' := in_step_later _ _ _ _ Hst Hq). destruct (Qlt_bool _ _); [|done].
  set (v1 := mk_world _ _ _) in *. apply wp_bind.
  apply (wp_mono _ _ _ (fine (fun _ v' => v' = v1))).
  { destruct (max_depth spec =? 0); [done|]. apply wp_redis. by intros. }
  intros [[]|e] ? Hv; cbn in Hv; try done; subst.
  { apply wp_still; [by intros|]. intros []. cbn. by eapply in_step_same. }
  assert (Hnow : (0 <= q - t0)%Q) by (pose proof (is_clock _ _ _ Hst); lra).
  assert (Hle : (q - t0 <= w_clock v1 - t0)%Q) by (cbn; lra).
  pose proof (is_past _ _ _ Hst') as Hsec. cbn in Hsec.
  unfold offer_due. destruct (Qlt_bool 0 (prate spec)) eqn:Hr.
  - cbn zeta. set (due := _ - offered st). destruct (Z.ltb_spec due 1) as [|Hd].
    + apply wp_bind. eapply wp_bind, wp_mono; [apply next_tick_wp|].
      intros [[]|e] v2 Hv; [|done]. destruct Hv as (q2 & Hq2 & ->).
      exact (in_step_later _ _ v1 q2 Hst' Hq2).
    + apply wp_bind, wp_bind. eapply wp_mono.
      { apply (offer_wp t0); [by eapply in_step_same|lia|done|done|done|].
        apply (due_in_time _ due); [done|done|]. lia. }
      intros [st2|e] v2 Hv; [|done]. cbn in Hv.
      destruct (_ =? due); [|done]. apply wp_bind.
      eapply wp_mono; [apply next_tick_wp|]. intros [[]|e] v3 Hv3; [|done].
      destruct Hv3 as (q2 & Hq2 & ->).
      exact (in_step_later _ _ v2 q2 Hv Hq2).
  - apply wp_bind. eapply wp_mono.
    { apply (offer_wp t0); [done|lia|done|done|done|].
      intros Hp. apply Qlt_bool_iff in Hp. congruence. }
    intros [st2|e] v2 Hv; done.
Qed.

Lemma while_wp {St A} (I : St -> world -> Prop) (body : St -> lo (St + A)) Q n : forall s v,
  I s v ->
  (forall s v, I s v -> bwp (body s) v (fine (fun r v' =>
     match r with inl s' => I s' v' | inr a => Q a v' end))) ->
  bwp (while_true n body s) v (fine Q).
Proof.
  induction n as [|n IH]; intros s v Hi Hb; [done|]. cbn [while_true]. apply wp_bind.
  eapply wp_mono; [by apply Hb|]. intros [[s'|a]|e] v' Hq; [by apply IH|done|done].
Qed.
End Producer.

Definition no_counts : ProducerCounters := mk_counters 0 0 0 0 0.

(** What the summary of a producer says. *)
Record closed (spec : LoadSpec) (p : Produced) (v : world) : Prop := {
  cl_fits : Forall (fun x => fits x.2) (p_per_second p);
  cl_offered : p_offered p = over all_seconds f_offered (p_per_second p);
  cl_admitted : over all_seconds f_accepted (p_per_second p) = nadmitted (w_log v);
  cl_added : p_accepted p = nadded (w_log v);
  cl_rejected : p_rejected p = over all_seconds f_rejected (p_per_second p);
  cl_due : (0 < prate spec)%Q -> p_offered p <= Z.max 0 (total_due spec);
  cl_rate : (0 < prate spec)%Q -> forall s, 0 <= s ->
    (inject_Z (over (fun x => x <=? s)%Z f_offered (p_per_second p)) <= prate spec * inject_Z (s + 1))%Q;
}.

Lemma produce_wp conf spec fuel index start_at t : 1 <= batch spec ->
  bwp (_produce conf spec fuel index start_at) (mk_world [] no_counts t) (fine (closed spec)).
Proof.
  intros Hb. unfold _produce. apply wp_bind. case_match; [done|]. cbn [wp].
  apply wp_still; [by intros|]. intros []. apply wp_still; [by intros|]. intros e0.
  apply wp_still; [by intros|]. intros []. apply wp_still; [by intros|]. intros e1. cbn zeta.
  apply wp_perf. intros t0 Ht0. apply wp_still; [by intros|]. intros cpu0.
  apply wp_bind. eapply wp_mono.
  { apply (while_wp (in_step spec t0) _ (fun st v' => in_step spec t0 st v')).
    - split; cbn; try done; [lra| |]; intros Hp; [lia|]. intros s Hs.
      change (0 <= prate spec * inject_Z (s + 1))%Q. apply Qmult_le_0_compat; [lra|].
      change 0%Q with (inject_Z 0). rewrite <- Zle_Qle. lia.
    - intros st v Hst. eapply wp_mono; [by apply turn_wp|]. by intros [[st'|st']|e] v'. }
  intros [st|e] v Hv; [|done]. cbn in Hv. apply wp_perf. intros t1 Ht1. cbn zeta.
  apply wp_still; [by intros|]. intros cpu1.
  apply wp_self.
  apply wp_still; [by intros|]. intros node. apply wp_still; [by intros|]. intros pid.
  apply fine_check. intros busy. apply fine_check. intros hist. destruct Hv. by split.
Qed.

(** C33: a producer of the load generator keeps honest books and an open loop. Whatever the
    queue answers and whenever calls fail, when a producer hands back its summary:
    every second's offered jobs are its accepted and its rejected ones, and the seconds
    add up to what was offered; the jobs counted as accepted are exactly the admission
    calls that were not answered "full", those the client counts exactly the ones that
    were added, and every refusal is counted. And with a rate, however slow the calls
    were, the producer is never ahead of it: by the end of any second it offered at
    most the rate times the seconds, and never more than the run's total. *)
Theorem producer_books (conf : Settings.t) (spec : LoadSpec) (fuel : nat) (index : Z)
    (start_at t : Q) (p : Produced) (v : world) :
  1 <= batch spec ->
  runs books (_produce conf spec fuel index start_at) (mk_world [] no_counts t) (Ok p) v ->
  closed spec p v.
Proof. intros Hb Hr. exact (wp_runs _ _ _ _ _ _ (produce_wp conf spec fuel index start_at t Hb) Hr). Qed.

(** A queue that answers what it is told to, and a clock that moves by a tenth. *)
Definition toy_world : Type := list (string * Z * Z) * world.
Definition toy_py X (c : pyev ProducerCounters Empty_set X) (w : toy_world) : result exn X * toy_world :=
  match c in pyev _ _ Y return result exn Y * toy_world with
  | EScript n keys args =>
      match n return result exn (reply n) * toy_world with
      | S_enqueue =>
          match w.1 with
          | x :: l => (Ok x, (l, mk_world (w_log w.2 ++ [(args, x)]) (w_counts w.2) (w_clock w.2)))
          | [] => (Err (RedisConnectionError ""), w)
          end
      | _ => (Err (ResponseError "ERR unknown"), w)
      end
  | ESelf f => (Ok (f (w_counts w.2)).1,
                (w.1, mk_world (w_log w.2) (f (w_counts w.2)).2 (w_clock w.2)))
  | ETime => (Ok 0%Q, w)
  | EUniform a b => (Ok a, w)
  | EUuid => (Ok "u"%string, w)
  | ESleep _ | EWait _ | ELog _ _ | ESpawn _ => (Ok tt, w)
  | ECmd _ | EAwait _ | ECompute _ _ | EExit _ => (Err (ResponseError "ERR unknown"), w)
  end.
Definition lifted {X} (r : result exn X) : result stop X :=
  match r with Ok x => Ok x | Err e => Err (Throws e) end.
Definition toy_lg X (e : lg X) (w : toy_world) : result stop X * toy_world :=
  match e in lg Y return result stop Y * toy_world with
  | Queue c => let x := toy_py _ c w in (lifted x.1, x.2)
  | Perf => let t := Qred (w_clock w.2 + (1 # 10)) in
            (Ok t, (w.1, mk_world (w_log w.2) (w_counts w.2) t))
  | Ping | RPUSH _ _ | Sleep _ | WarmPool _ | StartSampler | Log _ _ => (Ok tt, w)
  | HMGET _ _ | INFO_OF _ | CONFIG_GET _ | LRANGE _ | Platform | Gather _ | StopSampler => (Ok [], w)
  | LLEN _ | Pid => (Ok 0, w)
  | Epoch | Mono | Cpu => (Ok 0%Q, w)
  | Node => (Ok "node"%string, w)
  | Submit _ _ _ => (Ok O, w)
  end.
Lemma toy_lg_ok X (e : lg X) (w : toy_world) :
  books X e w.2 (fst (toy_lg X e w)) (snd (toy_lg X e w)).2.
Proof.
  destruct w as [as_ [l c k]]. destruct e as [X e| | | | | | | | | | | | | | | | | | | | |]; try done.
  - destruct e; cbn; try (split; [done|split; [by intros m [=]; subst|done]]); try done.
    destruct n; cbn; try done.
    destruct as_ as [|x as_]; cbn; (split; [done|]); [right|left]; by eexists.
  - cbn. split; [done|]. split; [done|]. split; [|done]. rewrite Qred_correct. lra.
Qed.

(** One second at four jobs a second, on a slow machine; the second job is refused. *)
Definition toy_load : LoadSpec :=
  mk_LoadSpec "r" "bench" "workers" 4 0 1 0 1 2 10 "send_email" [] 10 0 "reject" 10 5 0 0 0 1 "" 0.
Definition toy_produced :=
  Effects.run toy_lg (_produce Settings.defaults toy_load 40 0 0)
    ([("a", 1, 1); ("", -1, 3)]%string, mk_world [] no_counts 0).

Lemma producer_books_witness : exists p,
  toy_produced.1 = Ok p /\ p_offered p = 2 /\ p_accepted p = 1 /\ closed toy_load p toy_produced.2.2.
Proof.
  eexists. split; [vm_compute; reflexivity|]. split; [reflexivity|]. split; [reflexivity|].
  apply (producer_books Settings.defaults toy_load 40 0 0 0); [done|].
  exact (runs_run books snd toy_lg toy_lg_ok (_produce Settings.defaults toy_load 40 0 0)
    ([("a", 1, 1); ("", -1, 3)]%string, mk_world [] no_counts 0)).
Defined.
