(* ===== verification/Judged.v ===== *)
(** The load generator's exactly-once verdict (Loadgen.v, bench/loadgen.py) on the keys of a
    queue. *)
From stdpp Require Import relations.
From S2P Require Import Prelude Effects Redis Keys LuaScripts Queue Ops Refine.
From S2P Require Import Fields Streams Logs Invariants Machine System RedisRef Demo.
From S2P Require Import Safety.
From S2P Require Import Json Py Models Config Transitions Registry Reaper Client.
From S2P Require Import World.
From S2P Require Import Names Metrics Handlers Tables Analysis Random Mix Verifier.
From S2P Require Import Verdicts.
From S2P Require Import Texts Shell Loadgen.

#[local] Open Scope string_scope.
#[local] Open Scope list_scope.
#[local] Open Scope Z_scope.
#[local] Open Scope prog_scope.

(** ** Reading the log *)
(** Nobody else is at work: what a command does to the keys is all that happens. *)
Definition lone X (e : lg X) (v : rview) (r : result stop X) (v' : rview) : Prop :=
  match e in lg Y return result stop Y -> Prop with
  | Queue c => fun r => exists x, alone (Tk := Empty_set) _ c v x v' /\
      r = match x with Ok y => Ok y | Err m => Err (Throws m) end
  | _ => fun _ => v' = v
  end r.

Lemma lone_cmd {X A} (c : cmd X) (f : X -> lo A) v Q :
  (forall x v', doc c v x v' ->
     match x with
     | Ok y => wp lone (f y) v' Q
     | Err m => Q (Err (Throws (ResponseError m))) v'
     end) ->
  wp lone (bind (Loadgen.redis c) f) v Q.
Proof.
  intros Hf. apply wp_call. intros r v' (x & (y & Hy & ->) & ->). apply exec_call in Hy.
  specialize (Hf _ _ Hy). by destruct y.
Qed.

Section Reading.
Context (window : Window.t).

(** An entry with the fields the report needs. *)
Definition readable (e : entry) : Prop := is_ok (read_result window e nothing_read) = true.

Lemma read_one e st : readable e -> exists st', read_result window e st = Ok st' /\
  rr_per_job st' = bump (rr_per_job st) (default "" (field "job_id" e.2)) 1.
Proof.
  unfold readable, read_result, need, and_then.
  destruct (field "finished_at_ms" e.2) as [a|]; [|done]. destruct (to_int a); [|done].
  destruct (field "enqueued_at_ms" e.2) as [b|]; [|done]. destruct (to_int b); [|done].
  destruct (field "job_id" e.2) as [j|]; [|done].
  destruct (Window.contains _ _); [|by eexists].
  destruct (field "worker_id" e.2) as [w|]; [|done]. by eexists.
Qed.

Lemma read_all l : forall st, Forall readable l -> exists st', read_page window l st = Ok st' /\
  rr_per_job st' = foldl (fun c k => bump c k 1) (rr_per_job st) (logged "job_id" l).
Proof.
  induction l as [|e l IH]; intros st Hl; [by eexists|]. apply Forall_cons in Hl as [He Hl].
  destruct (read_one e st He) as (st1 & H1 & Hj). cbn [read_page]. rewrite H1. cbn [and_then].
  destruct (IH st1 Hl) as (st2 & H2 & Hj2). exists st2. by rewrite H2, Hj2, Hj.
Qed.

Definition page_size : nat := 100 * 100.

(** The entries from the cursor on, page by page. *)
Lemma results_loop K v l : streams v (Keys.results K) l ->
  forall fuel cursor out rest st, l = out ++ rest -> Forall readable rest ->
  Forall (fun e : entry => ~ above (BExcl cursor) e.1) out ->
  Forall (fun e : entry => above (BExcl cursor) e.1) rest ->
  (length rest <= fuel * page_size)%nat ->
  wp lone (while_true (S fuel) (results_turn K window) (cursor, st)) v (fun r v' =>
    v' = v /\ exists st', r = Ok st' /\
      rr_per_job st' = foldl (fun c k => bump c k 1) (rr_per_job st) (logged "job_id" rest)).
Proof.
  intros [Hd Hs]. induction fuel as [|fuel IH]; intros cursor out rest st Hl Hread Ho Hr Hf;
    cbn [while_true results_turn fst snd]; apply wp_bind, lone_cmd; intros x v1 Hx;
    apply Hd in Hx as [-> ->]; rewrite (range_rest l out rest) by done.
  { assert (rest = []) as -> by (destruct rest; [done|cbn in Hf; lia]).
    cbn. split; [done|by eexists]. }
  change (100 * 100)%nat with page_size.
  destruct (last (take page_size rest)) as [z|] eqn:Hlast.
  2: { apply last_None in Hlast. destruct rest; [|done]. cbn. split; [done|by eexists]. }
  apply last_Some in Hlast as [page Hp].
  destruct (read_all (take page_size rest) st) as (st1 & Hst1 & Hj1); [by apply Forall_take|].
  cbn [snd]. rewrite Hst1. cbn [check bind]. apply wp_ret.
  assert (Hsp : StronglySorted (fun a b : entry => eid_lt a.1 b.1)
    ((out ++ page ++ [z]) ++ drop page_size rest)).
  { rewrite <- Hp, <- app_assoc, take_drop. by rewrite <- Hl. }
  assert (Hle : forall e, e ∈ out ++ page -> eid_lt e.1 z.1).
  { intros e He. apply (StronglySorted_app_1_elem_of (fun a b : entry => eid_lt a.1 b.1)
      (out ++ page) ([z] ++ drop page_size rest)); [|done|left].
    by rewrite !app_assoc in Hsp |- *. }
  assert (Hlt : forall e : entry, eid_lt e.1 z.1 -> ~ above (BExcl z.1) e.1).
  { intros e He Hlt. apply (eid_lt_irrefl z.1). by eapply eid_lt_trans. }
  eapply wp_mono; [apply (IH z.1 (out ++ take page_size rest) (drop page_size rest) st1)|].
  - by rewrite <- app_assoc, take_drop.
  - by apply Forall_drop.
  - rewrite Hp. apply Forall_app. split; [|apply Forall_app; split].
    + rewrite Forall_forall. intros e He. apply Hlt, Hle, elem_of_app. by left.
    + rewrite Forall_forall. intros e He. apply Hlt, Hle, elem_of_app. by right.
    + apply Forall_singleton. cbn. apply eid_lt_irrefl.
  - rewrite <- app_assoc in Hsp. apply StronglySorted_app_1_r in Hsp. rewrite <- app_assoc in Hsp.
    apply StronglySorted_app_1_r in Hsp. by apply StronglySorted_inv in Hsp as [_ Hsp].
  - rewrite length_drop, Nat.mul_succ_l in *. lia.
  - intros r v' [-> (st' & -> & Hj)]. split; [done|]. exists st'. split; [done|].
    rewrite Hj, Hj1. rewrite <- foldl_app. f_equal. unfold logged. by rewrite <- fmap_app, take_drop.
Qed.
End Reading.

(** ** The verdict *)
(** Jobs without duplicates are counted once each, in order. *)
Lemma counter_once (l : list string) : forall d, NoDup (d.*1 ++ l) ->
  foldl (fun c k => bump c k 1) d l = d ++ ((fun j => (j, 1)) <$> l).
Proof.
  induction l as [|j l IH]; intros d Hd; [by rewrite app_nil_r|]. cbn [foldl fmap list_fmap].
  assert (Hj : j ∉ d.*1).
  { apply NoDup_app in Hd as (_ & Hd & _). intros Hj. apply (Hd j Hj). by left. }
  assert (Hb : bump d j 1 = d ++ [(j, 1)]).
  { unfold bump. rewrite get_out by done. clear -Hj. induction d as [|[k n] d IHd]; [done|].
    cbn [put]. rewrite decide_False by (intros ->; apply Hj; by left).
    cbn [app]. f_equal. apply IHd. intros Hin. apply Hj. by right. }
  rewrite Hb, IH; [by rewrite <- app_assoc|]. by rewrite fmap_app, <- app_assoc.
Qed.

Lemma once_each (l : list string) :
  total ((fun x : string * Z => if 1 <? x.2 then x.2 - 1 else 0) <$> ((fun j => (j, 1)) <$> l)) = 0.
Proof. induction l as [|j l IH]; [done|exact IH]. Qed.

Lemma all_of (l m : list string) : NoDup l -> NoDup m -> l ⊆ m ->
  (length l = length m <-> m ⊆ l).
Proof.
  intros Hl Hm Hsub. split; intros H.
  - assert (l ≡ₚ m) as Hp.
    { apply submseteq_length_Permutation; [by apply NoDup_submseteq|lia]. }
    intros j Hj. by rewrite Hp.
  - apply Nat.le_antisymm; apply submseteq_length, NoDup_submseteq; done.
Qed.

Definition job_of (e : entry) : string := default "" (field "job_id" e.2).

Lemma sorted_split (mark : eid) (l : list entry) :
  StronglySorted (fun a b : entry => eid_lt a.1 b.1) l ->
  l = filter (fun e : entry => ~ eid_lt mark e.1) l ++ filter (fun e : entry => eid_lt mark e.1) l.
Proof.
  induction 1 as [|e l Hs IH Hall]; [done|]. rewrite !filter_cons.
  destruct (decide (eid_lt mark e.1)) as [He|He].
  - rewrite decide_False by tauto. assert (Hl : Forall (fun e : entry => eid_lt mark e.1) l).
    { eapply Forall_impl; [exact Hall|]. intros x. by apply eid_lt_trans. }
    rewrite (filter_all _ l Hl). replace (filter _ l) with (@nil entry); [done|].
    symmetry. apply filter_none. intros x Hx Hn. rewrite Forall_forall in Hl. by apply Hn, Hl.
  - rewrite decide_True by done. cbn. by rewrite <- IH.
Qed.

Lemma mark_splits (mark : eid) (log : list entry) :
  StronglySorted (fun a b : entry => eid_lt a.1 b.1) log ->
  let rest := filter (fun e : entry => eid_lt mark e.1) log in
  exists out, log = out ++ rest /\ Forall (fun e : entry => ~ above (BExcl mark) e.1) out /\
    Forall (fun e : entry => above (BExcl mark) e.1) rest.
Proof.
  intros Hs rest. eexists. split; [by apply (sorted_split mark)|].
  split; apply Forall_forall; intros e [He _]%list_elem_of_filter; exact He.
Qed.

(** The verdict on a log without duplicates. *)
Lemma verdict_once (hosts reported dlq : Z) (drained : bool) (jobs done : list string) :
  NoDup jobs -> NoDup done -> done ⊆ jobs ->
  (eo_ok (exactly_once hosts reported (Z.of_nat (length jobs)) dlq drained (Counter done)) = true <->
     reported = hosts /\ drained = true /\ dlq = 0 /\ jobs ⊆ done).
Proof.
  intros Hj Hd Hsub. assert (Hc : Counter done = (fun j => (j, 1)) <$> done)
    by (unfold Counter; by rewrite (counter_once done [])).
  rewrite <- (all_of done jobs) by done. rewrite Hc. unfold exactly_once. cbn [eo_ok].
  rewrite once_each, length_fmap, !andb_true_iff, !Z.eqb_eq. split.
  - intros ((((? & ?) & ?) & _) & ?). split_and!; (done || lia).
  - intros (-> & -> & -> & ->). split_and!; (done || lia).
Qed.


(** The reference server, alone. *)
Definition lone_ref X (e : lg X) (v : rview) : result stop X * rview :=
  match e in lg Y return result stop Y * rview with
  | Queue c =>
      let x := ref_alone (Tk := Empty_set) zero _ c v in
      (match x.1 with Ok y => Ok y | Err m => Err (Throws m) end, x.2)
  | _ => (Err Diverges, v)
  end.
Lemma lone_ref_ok X (e : lg X) v : lone X e v (fst (lone_ref X e v)) (snd (lone_ref X e v)).
Proof.
  destruct e; try done. cbn. eexists. split; [|done]. apply (ref_alone_ok (Tk := Empty_set)).
Qed.

Definition demo_window : Window.t := Window.mk 0 100000.
Definition demo_reading : result stop results_read * rview :=
  Effects.run lone_ref (_read_results 2 k0 (0, 0) demo_window) (s_view state2).

