(* ===== verification/Aws.v ===== *)
(** The AWS helpers (deploy/aws.py): the cost estimate of a Terraform plan, one-off tasks,
    and the check that nothing billable is left.

    The tools are programs over the host's effects. The text of a float ([str(x)]), of a
    short float ([:g]) and of a container value are parameters; the messages that show a
    whole dictionary are cut short. *)
From S2P Require Import Prelude Effects Redis LuaScripts Json Py Models Handlers.
From S2P Require Import Tables.
From S2P Require Import Texts Shell.
From Stdlib Require Import Qcanon.

#[local] Open Scope string_scope.
#[local] Open Scope list_scope.
#[local] Open Scope Z_scope.
#[local] Open Scope prog_scope.

Definition REGION : string := "us-west-2".
Definition ROOT_VOLUME_GB : Z := 30.
Definition HOURS_PER_MONTH : Z := 730.

(** ** The estimate *)
Record Box := mk_Box { role : string; instance_type : string }.

(** Two values of [index]: nothing, a number or a text. *)
Definition same_index (a b : json) : bool :=
  match a, b with
  | JNull, JNull => true
  | JInt x, JInt y => x =? y
  | JStr x, JStr y => bool_decide (x = y)
  | _, _ => false
  end.
(** [d[k]] in a dictionary that was filled in this order *)
Fixpoint at_index (k : json) (d : list (json * string)) : result exn string :=
  match d with
  | [] => Err (KeyError "index")
  | (k', v) :: r => x <-! (match at_index k r with
                           | Ok x => Ok x
                           | Err e => if same_index k' k then Ok v else Err e
                           end) ;; Ok x
  end.

Definition is_deleted (actions : json) : bool :=
  match actions with JArr [JStr s] => bool_decide (s = "delete") | _ => false end.
(** [j[k1][k2]...] *)
Fixpoint at_path (ks : list string) (j : json) : result exn json :=
  match ks with [] => Ok j | k :: r => v <-! at_key k j ;; at_path r v end.

Section Estimate.
Context (repr : json -> string) (float_text : Q -> string) (short_text : Q -> string).

(** The changes that are not deletions. *)
Fixpoint live_changes (changes : list json) : result exn (list json) :=
  match changes with
  | [] => Ok []
  | c :: r =>
      a <-! at_path ["change"; "actions"] c ;;
      l <-! live_changes r ;; Ok (if is_deleted a then l else c :: l)
  end.

Fixpoint launch_templates (live : list json) : result exn (list (json * string)) :=
  match live with
  | [] => Ok []
  | c :: r =>
      t <-! at_key "type" c ;;
      if is_text "aws_launch_template" t then
        i <-! get_key "index" c ;;
        it <-! at_path ["change"; "after"; "instance_type"] c ;; it <-! as_text it ;;
        l <-! launch_templates r ;; Ok ((i, it) :: l)
      else launch_templates r
  end.

(** What one change leaves running. *)
Definition boxes_of (templates : list (json * string)) (c : json) : result exn (list Box) :=
  after <-! at_path ["change"; "after"] c ;;
  t <-! at_key "type" c ;;
  if is_text "aws_instance" t then
    n <-! at_key "name" c ;; n <-! as_text n ;;
    it <-! at_key "instance_type" after ;; it <-! as_text it ;; Ok [mk_Box n it]
  else if is_text "aws_autoscaling_group" t then
    n <-! at_key "name" c ;;
    i <-! get_key "index" c ;;
    let r := match c with JObj l => default n (member "index" l) | _ => n end in
    it <-! at_index i templates ;;
    d <-! at_key "desired_capacity" after ;; d <-! int_of_json d ;;
    Ok (replicate (Z.to_nat d) (mk_Box (str_of_json repr r) it))
  else Ok [].

Definition fleet_from_plan (plan : json) : result exn (list Box) :=
  changes <-! optional_list "resource_changes" plan ;;
  live <-! live_changes changes ;;
  templates <-! launch_templates live ;;
  l <-! each (boxes_of templates) live ;; Ok (concat l).

Record Prices := mk_Prices {
  per_instance_hour : list (string * Q);
  gp3_gb_month : Q;
  ipv4_hour : Q;
}.
Definition price_of (p : Prices) (itype : string) : result exn Q :=
  match list_find (fun e => e.1 = itype) (per_instance_hour p) with
  | Some (_, e) => Ok e.2
  | None => Err (KeyError itype)
  end.

(** [sorted(by_type.items())] *)
Definition name_le (a b : string * Z) : Prop := String.leb a.1 b.1 = true.
#[local] Instance name_le_dec : RelDecision name_le.
Proof. intros a b. unfold name_le. apply _. Defined.
Definition by_name (c : list (string * Z)) : list (string * Z) := merge_sort name_le c.

(** The lines of the instance types, after those before, and the cost so far. *)
Fixpoint type_lines (p : Prices) (types : list (string * Z)) (lines : list string) (total : Q) :
    result exn (list string * Q) :=
  match types with
  | [] => Ok (lines, total)
  | (itype, n) :: r =>
      price <-! price_of p itype ;;
      let cost := (inject_Z n * price)%Q in
      type_lines p r (lines ++ [pad_left 3 (str_of_Z n) +:+ " x " +:+ pad_right 16 itype +:+
        " @ $" +:+ fixed 5 price +:+ "/h   $" +:+ fixed 4 cost +:+ "/h"]) (total + cost)%Q
  end.

Definition estimate_lines (boxes : list Box) (p : Prices) : result exn (list string * Q) :=
  let by_type := Counter (instance_type <$> boxes) in
  x <-! type_lines p (by_name by_type) [] 0 ;;
  let '(lines, total) := x in
  let n := inject_Z (Z.of_nat (length boxes)) in
  let ebs := (n * inject_Z ROOT_VOLUME_GB * gp3_gb_month p / inject_Z HOURS_PER_MONTH)%Q in
  let ipv4 := (n * ipv4_hour p)%Q in
  let count := pad_left 3 (str_of_Z (Z.of_nat (length boxes))) in
  Ok (lines ++
    [count +:+ " x " +:+ str_of_Z ROOT_VOLUME_GB +:+ " GB gp3 root   @ $" +:+
       float_text (gp3_gb_month p) +:+ "/GB-month   $" +:+ fixed 4 ebs +:+ "/h";
     count +:+ " x public IPv4       @ $" +:+ float_text (ipv4_hour p) +:+ "/h        $" +:+
       fixed 4 ipv4 +:+ "/h"],
    (total + (ebs + ipv4))%Q).
End Estimate.

(** ** The command line *)
Definition aws_in (region : string) (a : list string) : sh json :=
  out <- _run ("aws" :: a ++ ["--region"; region; "--output"; "json"]) ;;
  if decide (strip out = "") then Ret JNull else parse out.
Definition aws (a : list string) : sh json := aws_in REGION a.

(** *** Prices *)
(** The positive prices of a product, each one once. *)
Definition add_price (found : list Qc) (dim : json) : result exn (list Qc) :=
  usd <-! at_path ["pricePerUnit"; "USD"] dim ;; usd <-! float_of_json usd ;;
  Ok (if Qlt_bool 0 usd && negb (bool_decide (Q2Qc usd ∈ found)) then found ++ [Q2Qc usd]
      else found).
(** [for x in l: acc = f(acc, x)] *)
Fixpoint each_onto {A B} (f : B -> A -> result exn B) (l : list A) (acc : B) : result exn B :=
  match l with [] => Ok acc | x :: r => acc <-! f acc x ;; each_onto f r acc end.
Definition offer_prices (found : list Qc) (offer : json) : result exn (list Qc) :=
  dims <-! at_key "priceDimensions" offer ;; dims <-! values_of dims ;;
  each_onto add_price dims found.
Definition product_prices (found : list Qc) (raw : json) : result exn (list Qc) :=
  raw <-! as_text raw ;; product <-! json_loads raw ;;
  offers <-! at_path ["terms"; "OnDemand"] product ;; offers <-! values_of offers ;;
  each_onto offer_prices offers found.

Definition _price (service : string) (filters : list (string * string)) : sh Q :=
  j <- aws_in "us-east-1" (["pricing"; "get-products"; "--service-code"; service; "--filters"] ++
    ((fun f => "Type=TERM_MATCH,Field=" +:+ f.1 +:+ ",Value=" +:+ f.2) <$> filters)) ;;
  l <- listed j "PriceList" ;;
  found <- check (each_onto product_prices l []) ;;
  match found with
  | [x] => Ret (this x)
  | _ => Raise (Exits (inl ("expected one price for " +:+ service)))
  end.

Fixpoint instance_prices (types : list string) : sh (list (string * Q)) :=
  match types with
  | [] => Ret []
  | t :: r =>
      p <- _price "AmazonEC2" [("instanceType", t); ("regionCode", REGION);
             ("operatingSystem", "Linux"); ("tenancy", "Shared"); ("preInstalledSw", "NA");
             ("capacitystatus", "Used")] ;;
      l <- instance_prices r ;; Ret ((t, p) :: l)
  end.
Definition fetch_prices (instance_types : list string) : sh Prices :=
  per_hour <- instance_prices (sort_strings instance_types) ;;
  gp3 <- _price "AmazonEC2" [("volumeApiName", "gp3"); ("regionCode", REGION);
           ("productFamily", "Storage")] ;;
  ipv4 <- _price "AmazonVPC" [("regionCode", REGION);
            ("usagetype", "USW2-PublicIPv4:InUseAddress")] ;;
  Ret (mk_Prices per_hour gp3 ipv4).

Definition print (line : string) : sh unit := call (HPrint line).
Fixpoint print_all (lines : list string) : sh unit :=
  match lines with [] => Ret tt | l :: r => print l ;;; print_all r end.

Section Commands.
Context (repr : json -> string) (float_text : Q -> string) (short_text : Q -> string).
Context (STACK_DIR : string) (fuel : nat).

Definition cmd_estimate (plan_json : string) (hours : list Q) : sh unit :=
  text <- call (HRead plan_json) ;; plan <- parse text ;;
  boxes <- check (fleet_from_plan repr plan) ;;
  prices <- fetch_prices (remove_dups (instance_type <$> boxes)) ;;
  x <- check (estimate_lines float_text boxes prices) ;;
  let '(lines, total) := x in
  print "Cost estimate (on-demand list prices, us-west-2, Pricing API; paid from credits):" ;;;
  print ("  roles: " +:+ join ", " ((fun b => role b +:+ "=" +:+ instance_type b) <$> boxes)) ;;;
  print_all ((fun l => "  " +:+ l) <$> lines) ;;;
  print ("  " +:+ repeated "-" 60 +:+ newline +:+
         "  TOTAL while up: $" +:+ fixed 4 total +:+ "/hour") ;;;
  print_all ((fun h => "    " +:+ short_text h +:+ " h session: $" +:+ fixed 2 (total * h)%Q)
             <$> hours) ;;;
  print ("  Plus, per session: CloudWatch Logs ingestion $0.50/GB (WARNING-level logs: well" +:+
         newline +:+
         "  under 0.1 GB, < $0.05); the image in ECR ~$0.10/GB-month until `make aws-down`" +:+
         newline +:+
         "  deletes it. No NAT gateway, no load balancer, no cross-AZ traffic. $0 until apply.").

(** ** One-off tasks *)
Definition output_value (kv : string * json) : result exn (string * json) :=
  v <-! at_key "value" kv.2 ;; Ok (kv.1, v).
Definition _stack_outputs : sh json :=
  out <- _run ["terraform"; "-chdir=" +:+ STACK_DIR; "output"; "-json"] ;;
  j <- parse out ;;
  match j with
  | JObj l => l <- check (each output_value l) ;; Ret (JObj l)
  | _ => throw (TypeError "no attribute 'items'")
  end.

Definition wait_step (what : string) (done : sh bool) (timeout interval deadline : Q) (_ : unit) :
    sh (unit + unit) :=
  ready <- done ;;
  if ready : bool then Ret (inr tt) else
    now <- call HClock ;;
    if Qlt_bool deadline now then
      Raise (Exits (inl ("timed out after " +:+ fixed 0 timeout +:+ "s waiting for " +:+ what)))
    else call (HSleep interval) ;;; Ret (inl tt).
Definition wait_for (what : string) (done : sh bool) (timeout interval : Q) : sh unit :=
  now <- call HClock ;;
  while_true fuel (wait_step what done timeout interval (now + timeout)) tt.

(** A service's running and desired counts, by its name. *)
Definition service_state (s : json) : result exn (string * (json * json)) :=
  n <-! at_key "serviceName" s ;; n <-! as_text n ;;
  r <-! at_key "runningCount" s ;; d <-! at_key "desiredCount" s ;; Ok (n, (r, d)).
Definition same_count (r d : json) : bool :=
  match d with JInt n => is_int n r | _ => false end.
Definition steady (cluster : string) : sh bool :=
  svc <- aws ["ecs"; "describe-services"; "--cluster"; cluster; "--services"; "redis"; "worker"] ;;
  l <- listed svc "services" ;; l <- check (each service_state l) ;;
  let state := foldl (fun d s => put d s.1 s.2) [] l in
  print ("  services (running, desired): " +:+
         repr (JObj (prod_map id (fun c => JArr [c.1; c.2]) <$> state))) ;;;
  Ret (forallb (fun s => same_count s.2.1 s.2.2) state).
Definition _wait_for_services (cluster : string) : sh unit :=
  wait_for "services to reach their desired count" (steady cluster) 600 10.

(** A page of the log, and whether it is the last: the same token twice is the end. *)
Definition next_token (token : option string) : list string :=
  match token with
  | Some t => if decide (t = "") then [] else ["--next-token"; t]
  | None => []
  end.
Definition lines_page (task_id : string) (st : list string * option string) :
    sh (list string * option string + list string) :=
  let '(lines, token) := st in
  page <- aws (["logs"; "get-log-events"; "--log-group-name"; "/ftq/loadgen";
    "--log-stream-name"; "loadgen/loadgen/" +:+ task_id; "--start-from-head"] ++
    next_token token) ;;
  events <- listed page "events" ;;
  messages <- check (each (fun e => m <-! at_key "message" e ;; as_text m) events) ;;
  match events with
  | [] => Ret (inr (lines ++ messages))
  | _ =>
      next <- json_at page "nextForwardToken" ;; next <- check (as_text next) ;;
      Ret (if decide (Some next = token) then inr (lines ++ messages)
           else inl (lines ++ messages, Some next))
  end.
Definition _log_lines (task_id : string) : sh (list string) :=
  while_true fuel (lines_page task_id) ([], None).

Definition describe (cluster arn : string) : sh json :=
  found <- aws ["ecs"; "describe-tasks"; "--cluster"; cluster; "--tasks"; arn] ;;
  l <- json_at found "tasks" ;; check (at_first l).

Definition run_one_off (command : list string) (timeout : Q) : sh Z :=
  outputs <- _stack_outputs ;;
  cluster <- json_at outputs "cluster" ;; cluster <- check (as_text cluster) ;;
  _wait_for_services cluster ;;;
  let overrides := JObj [("containerOverrides",
    JArr [JObj [("name", JStr "loadgen"); ("command", JArr (JStr <$> command))]])] in
  definition <- json_at outputs "loadgen_task_definition" ;;
  definition <- check (as_text definition) ;;
  placement <- json_at outputs "loadgen_placement" ;;
  task <- aws ["ecs"; "run-task"; "--cluster"; cluster; "--task-definition"; definition;
               "--launch-type"; "EC2"; "--placement-constraints";
               "type=memberOf,expression=" +:+ str_of_json repr placement;
               "--overrides"; dumps_spaced overrides] ;;
  failures <- json_at task "failures" ;;
  tasks <- (if truthy failures then Ret JNull else json_at task "tasks") ;;
  if truthy failures || negb (truthy tasks) then
    Raise (Exits (inl ("run-task failed: " +:+ str_of_json repr failures)))
  else
    t <- check (at_first tasks) ;; arn <- json_at t "taskArn" ;; arn <- check (as_text arn) ;;
    let task_id := last_part "/" arn in
    print ("  started " +:+ task_id +:+ ": " +:+ join " " command) ;;;
    wait_for "the task to stop"
      (d <- describe cluster arn ;; s <- json_at d "lastStatus" ;; Ret (is_text "STOPPED" s))
      (timeout + 300) 10 ;;;
    t <- describe cluster arn ;;
    print "  --- task output ---" ;;;
    lines <- _log_lines task_id ;;
    print_all ((fun l => "  " +:+ l) <$> lines) ;;;
    cs <- json_at t "containers" ;; c <- check (at_first cs) ;; code <- check (get_key "exitCode" c) ;;
    print ("  exit code: " +:+ str_of_json repr code +:+ " (" +:+
           match t with JObj l => str_of_json repr (default (JStr "") (member "stoppedReason" l))
                   | _ => "" end +:+ ")") ;;;
    match code with JNull => Ret (-1) | _ => check (int_of_json code) end.

Definition exit_unless_zero (code : Z) : sh unit :=
  if code =? 0 then Ret tt else Raise (Exits (inr 1)).
Definition cmd_smoke (jobs : Z) (timeout : Q) : sh unit :=
  code <- run_one_off ["ftq"; "bench"; "--jobs"; str_of_Z jobs; "--timeout";
                       str_of_Z (int_of_Q timeout)] timeout ;;
  exit_unless_zero code.

(** ** Nothing billable is left *)
Definition _count (label : string) (n : Z) (failures : list string) : sh (list string) :=
  let ok := n =? 0 in
  print ("  [" +:+ (if ok then "ok" else "FAIL") +:+ "] " +:+ label +:+ ": " +:+ str_of_Z n) ;;;
  Ret (if ok then failures else failures ++ [label]).

Definition state_resource_count (returncode : Z) (stdout stderr : string) : option Z :=
  if returncode =? 0 then Some (Z.of_nat (length (words stdout)))
  else if contains "No state file was found" stderr then Some 0
  else None.

(** How many there are under [k] in the answer of a listing command. *)
Definition how_many (a : list string) (k : string) : sh Z :=
  j <- aws a ;; check (v <-! at_key k j ;; json_len v).
Definition sum_of {A} (f : A -> result exn Z) (l : list A) : result exn Z :=
  ns <-! each f l ;; Ok (foldr Z.add 0 ns).

Definition instances : sh Z :=
  j <- aws ["ec2"; "describe-instances"; "--filters";
            "Name=instance-state-name,Values=pending,running,stopping,stopped,shutting-down"] ;;
  l <- listed j "Reservations" ;;
  check (sum_of (fun r => v <-! at_key "Instances" r ;; json_len v) l).
Definition active_clusters : sh Z :=
  j <- aws ["ecs"; "list-clusters"] ;; arns <- texts j "clusterArns" ;;
  match arns with
  | [] => Ret 0
  | _ =>
      j <- aws (["ecs"; "describe-clusters"; "--clusters"] ++ arns) ;;
      l <- listed j "clusters" ;;
      check (sum_of (fun c => s <-! at_key "status" c ;;
                              Ok (if is_text "ACTIVE" s then 1 else 0)) l)
  end.
Fixpoint images_of (repos : list json) : sh Z :=
  match repos with
  | [] => Ret 0
  | r :: rest =>
      name <- json_at r "repositoryName" ;; name <- check (as_text name) ;;
      n <- how_many ["ecr"; "list-images"; "--repository-name"; name] "imageIds" ;;
      m <- images_of rest ;; Ret (n + m)
  end.
Definition images : sh Z :=
  j <- aws ["ecr"; "describe-repositories"] ;; l <- listed j "repositories" ;; images_of l.

(** What is counted, in order. *)
Definition audits : list (string * sh Z) :=
  [("EC2 instances (not terminated)", instances);
   ("EBS volumes", how_many ["ec2"; "describe-volumes"] "Volumes");
   ("network interfaces", how_many ["ec2"; "describe-network-interfaces"] "NetworkInterfaces");
   ("Elastic IPs", how_many ["ec2"; "describe-addresses"] "Addresses");
   ("NAT gateways", how_many ["ec2"; "describe-nat-gateways"; "--filter";
                              "Name=state,Values=pending,available"] "NatGateways");
   ("load balancers", how_many ["elbv2"; "describe-load-balancers"] "LoadBalancers");
   ("auto scaling groups", how_many ["autoscaling"; "describe-auto-scaling-groups"]
                                    "AutoScalingGroups");
   ("active ECS clusters", active_clusters);
   ("ECR images", images);
   ("CloudWatch log groups /ftq*", how_many ["logs"; "describe-log-groups";
                                             "--log-group-name-prefix"; "/ftq"] "logGroups")].

Definition cmd_verify_clean : sh unit :=
  failures <- for_each audits (fun x failures => n <- x.2 ;; _count x.1 n failures) [] ;;
  state <- call (HCommand ["terraform"; "-chdir=" +:+ STACK_DIR; "state"; "list"]) ;;
  let '(code, out, err) := state in
  failures <- (match state_resource_count code out err with
    | None =>
        print ("  [FAIL] the stack's Terraform state could not be read: " +:+ strip err) ;;;
        Ret (failures ++ ["Terraform state unreadable"])
    | Some n => _count "resources in the stack's Terraform state" n failures
    end) ;;
  match failures with
  | [] => print ("CLEAN: nothing billable left in " +:+ REGION)
  | _ => Raise (Exits (inl ("NOT CLEAN: " +:+ join ", " failures)))
  end.

(** ** [main], its arguments parsed *)
Inductive command : Type :=
  | Estimate (plan_json : string) (hours : list Q)
  | Smoke (jobs : Z) (timeout : Q)
  | OneOff (timeout : Q) (args : list string)
  | VerifyClean.
Definition without_separator (args : list string) : list string :=
  match args with "--" :: r => r | _ => args end.
Definition main (c : command) : sh unit :=
  match c with
  | Estimate p hours => cmd_estimate p hours
  | Smoke jobs timeout => cmd_smoke jobs timeout
  | OneOff timeout args =>
      match without_separator args with
      | [] => Raise (Exits (inr 2))               (* parser.error *)
      | cmd => code <- run_one_off cmd timeout ;; exit_unless_zero code
      end
  | VerifyClean => cmd_verify_clean
  end.
End Commands.
