(* ===== verification/Billing.v ===== *)
(** What the AWS helpers promise (Aws.v, deploy/aws.py): the estimate adds up, and CLEAN means
    that nothing is left. *)
From S2P Require Import Prelude Effects Redis LuaScripts Json Py Models Handlers.
From S2P Require Import Tables.
From S2P Require Import Texts Shell Aws.
From Stdlib Require Import Lqa.

#[local] Open Scope string_scope.
#[local] Open Scope list_scope.
#[local] Open Scope Z_scope.
#[local] Open Scope prog_scope.
#[local] Arguments loads : simpl never.

(** ** The estimate *)
Definition Qsum {A} (f : A -> Q) (l : list A) : Q := foldr (fun x s => f x + s)%Q 0%Q l.

Lemma Qsum_cons {A} (f : A -> Q) x l : Qsum f (x :: l) = (f x + Qsum f l)%Q.
Proof. done. Qed.
Lemma Qsum_perm {A} (f : A -> Q) (l l' : list A) : l ≡ₚ l' -> (Qsum f l == Qsum f l')%Q.
Proof.
  induction 1 as [|x l l' _ IH|x y l|l1 l2 l3 _ IH1 _ IH2]; [done| | |].
  - by rewrite !Qsum_cons, IH.
  - rewrite !Qsum_cons. ring.
  - by rewrite IH1.
Qed.
Lemma Qsum_const {A} (f : A -> Q) (c : Q) (l : list A) :
  (Qsum (fun x => f x + c) l == Qsum f l + inject_Z (Z.of_nat (length l)) * c)%Q.
Proof.
  induction l as [|x l IH]; [cbn; ring|]. rewrite !Qsum_cons, IH. cbn [length].
  rewrite Nat2Z.inj_succ. unfold Z.succ. rewrite inject_Z_plus. ring.
Qed.

Definition weighted (f : string -> Q) (e : string * Z) : Q := (inject_Z e.2 * f e.1)%Q.

Lemma Qsum_bump f c k : (Qsum (weighted f) (bump c k 1) == Qsum (weighted f) c + f k)%Q.
Proof.
  unfold bump. induction c as [|[k' n] c IH]; cbn [put get].
  - unfold weighted. cbn [Qsum foldr fst snd]. change (inject_Z (0 + 1)) with 1%Q. ring.
  - case_decide as Hk; rewrite !Qsum_cons.
    + subst. unfold weighted at 1 3. cbn [fst snd]. rewrite inject_Z_plus.
      change (inject_Z 1) with 1%Q. ring.
    + rewrite IH. ring.
Qed.

Lemma Qsum_counter f l : (Qsum (weighted f) (Counter l) == Qsum f l)%Q.
Proof.
  assert (H : forall c, (Qsum (weighted f) (foldl (fun c k => bump c k 1) c l) ==
                         Qsum (weighted f) c + Qsum f l)%Q).
  { induction l as [|x l IH]; intros c; cbn [foldl]; [cbn; ring|].
    rewrite IH, Qsum_bump, Qsum_cons. ring. }
  unfold Counter. rewrite H. cbn. ring.
Qed.

(** The price of a type, where there is one. *)
Definition price (p : Prices) (itype : string) : Q := default 0%Q (of_ok (price_of p itype)).

Lemma type_lines_total p types : forall lines total,
  Forall (fun e => is_ok (price_of p e.1) = true) types ->
  exists lines' total', type_lines p types lines total = Ok (lines', total') /\
    (total' == total + Qsum (weighted (price p)) types)%Q /\
    length lines' = (length lines + length types)%nat.
Proof.
  induction types as [|[t n] types IH]; intros lines total Hp; cbn [type_lines].
  - exists lines, total. split; [done|]. split; [cbn; ring|cbn; lia].
  - apply Forall_cons in Hp as [Ht Hp]. cbn in Ht.
    destruct (price_of p t) as [q|] eqn:Hq; [|done]. cbn [and_then].
    edestruct IH as (lines' & total' & -> & Htot & Hlen); [done|].
    exists lines', total'. split; [done|]. split.
    + rewrite Htot, Qsum_cons. unfold weighted at 2, price at 2. cbn [fst snd]. rewrite Hq. cbn. ring.
    + rewrite Hlen, length_app. cbn. lia.
Qed.

(** The hourly cost of a plan is what its instances cost one by one: each the
    price of its type, its root volume's share of a month and a public address, whatever
    the order of the instances and however they group into lines; there is one line for
    each type and one each for the volumes and the addresses. *)
Theorem estimate_total (float_text : Q -> string) (boxes : list Box) (p : Prices) :
  Forall (fun b => is_ok (price_of p (instance_type b)) = true) boxes ->
  exists lines total, estimate_lines float_text boxes p = Ok (lines, total) /\
    (total == Qsum (fun b => price p (instance_type b) +
                             (inject_Z ROOT_VOLUME_GB * gp3_gb_month p / inject_Z HOURS_PER_MONTH +
                              ipv4_hour p)) boxes)%Q /\
    length lines = (length (remove_dups (instance_type <$> boxes)) + 2)%nat.
Proof.
  intros Hp. unfold estimate_lines. set (types := instance_type <$> boxes).
  assert (Hperm : by_name (Counter types) ≡ₚ Counter types) by apply merge_sort_Permutation.
  destruct (type_lines_total p (by_name (Counter types)) [] 0) as (ls & tot & -> & Htot & Hlen).
  { rewrite Hperm. apply Forall_forall. intros e He.
    assert (Hin : e.1 ∈ (Counter types).*1) by (apply list_elem_of_fmap; eauto).
    rewrite Counter_keys in Hin. apply list_elem_of_fmap in Hin as (b & -> & Hb).
    by apply (proj1 (Forall_forall _ _) Hp). }
  cbn [and_then]. eexists _, _. split; [done|]. split.
  - rewrite Htot, (Qsum_perm _ _ _ Hperm), Qsum_counter.
    rewrite (Qsum_const (fun b => price p (instance_type b))).
    assert (Hm : (Qsum (price p) types == Qsum (fun b => price p (instance_type b)) boxes)%Q).
    { unfold types. clear. induction boxes as [|b l IH]; [done|].
      by rewrite fmap_cons, !Qsum_cons, IH. }
    rewrite Hm. field. by vm_compute.
  - rewrite length_app, Hlen, (Permutation_length Hperm). cbn. f_equal.
    rewrite <- (length_fmap fst). apply Permutation_length, NoDup_Permutation;
      [apply Counter_nodup|apply NoDup_remove_dups|].
    intros x. by rewrite Counter_keys, elem_of_remove_dups.
Qed.

Lemma estimate_total_witness :
  let boxes := [mk_Box "redis" "m7i"; mk_Box "worker" "c7i"; mk_Box "worker" "c7i"] in
  let p := mk_Prices [("c7i", 1 # 10); ("m7i", 1 # 5)] (73 # 100) (1 # 200) in
  exists lines total, estimate_lines (fun _ => "") boxes p = Ok (lines, total) /\
    (total == 101 # 200)%Q /\ length lines = 4%nat.
Proof.
  intros boxes p. destruct (estimate_total (fun _ => "") boxes p) as (lines & total & H & Ht & Hl).
  - by repeat constructor.
  - exists lines, total. split; [exact H|]. split; [|exact Hl]. rewrite Ht. reflexivity.
Defined.

(** ** CLEAN *)
Section Clean.
Context (STACK_DIR : string) (world : list string -> finished).

(** An account that stands still while it is looked at: every command has its one answer.
    What is printed is kept. *)
Definition frozen X (e : host X) (printed : list string) : result stop X * list string :=
  match e in host Y return result stop Y * list string with
  | HCommand c => (Ok (world c), printed)
  | HPrint l => (Ok tt, printed ++ [l])
  | _ => (Err Diverges, printed)
  end.

(** The JSON that a command prints, which ended well. *)
Definition answers (a : list string) (j : json) : Prop :=
  exists out err, world ("aws" :: a ++ ["--region"; REGION; "--output"; "json"]) = (0, out, err) /\
    strip out <> "" /\ loads out = Some j.
(** A listing that was read, and is empty. *)
Definition nothing_at (a : list string) (k : string) : Prop :=
  exists j v, answers a j /\ at_key k j = Ok v /\ json_len v = Ok 0.

(** Nothing billable is left, by the account's own listings. *)
Definition no_instance : Prop :=
  exists j l, answers ["ec2"; "describe-instances"; "--filters";
      "Name=instance-state-name,Values=pending,running,stopping,stopped,shutting-down"] j /\
    at_key "Reservations" j = Ok (JArr l) /\
    Forall (fun r => exists v, at_key "Instances" r = Ok v /\ json_len v = Ok 0) l.
Definition dormant (c : json) : Prop := exists s, at_key "status" c = Ok s /\ s <> JStr "ACTIVE".
Definition no_cluster : Prop :=
  exists j arns, answers ["ecs"; "list-clusters"] j /\
    at_key "clusterArns" j = Ok (JArr (JStr <$> arns)) /\
    (arns = [] \/ exists j' l, answers (["ecs"; "describe-clusters"; "--clusters"] ++ arns) j' /\
       at_key "clusters" j' = Ok (JArr l) /\
       Forall dormant l).
Definition imageless (r : json) : Prop :=
  exists name, at_key "repositoryName" r = Ok (JStr name) /\
    nothing_at ["ecr"; "list-images"; "--repository-name"; name] "imageIds".
Definition no_image : Prop :=
  exists j l, answers ["ecr"; "describe-repositories"] j /\ at_key "repositories" j = Ok (JArr l) /\
    Forall imageless l.
Definition no_state : Prop :=
  let '(code, out, err) := world ["terraform"; "-chdir=" +:+ STACK_DIR; "state"; "list"] in
  if code =? 0 then words out = [] else contains "No state file was found" err = true.

Definition clean : list Prop :=
  [no_instance;
   nothing_at ["ec2"; "describe-volumes"] "Volumes";
   nothing_at ["ec2"; "describe-network-interfaces"] "NetworkInterfaces";
   nothing_at ["ec2"; "describe-addresses"] "Addresses";
   nothing_at ["ec2"; "describe-nat-gateways"; "--filter"; "Name=state,Values=pending,available"]
     "NatGateways";
   nothing_at ["elbv2"; "describe-load-balancers"] "LoadBalancers";
   nothing_at ["autoscaling"; "describe-auto-scaling-groups"] "AutoScalingGroups";
   no_cluster;
   no_image;
   nothing_at ["logs"; "describe-log-groups"; "--log-group-name-prefix"; "/ftq"] "logGroups"].

(** Nobody stopped it: it answers, or raises an exception. *)
Definition answered {A} (r : result stop A) : Prop :=
  match r with Ok _ | Err (Throws _) => True | _ => False end.
(** A program that only asks, and what its answer satisfies. *)
Definition asks {A} (p : sh A) (Q : result stop A -> Prop) : Prop :=
  exists r, (forall v, run frozen p v = (r, v)) /\ answered r /\ Q r.
Definition audited (p : sh Z) (P : Prop) : Prop :=
  asks p (fun r => (r = Ok 0 <-> P) /\ forall n, r = Ok n -> 0 <= n).

Lemma answers_once a j j' : answers a j -> answers a j' -> j = j'.
Proof. intros (? & ? & H & _ & Hj) (? & ? & H' & _ & Hj'). congruence. Qed.

Lemma asks_check {A} (r : result exn A) (Q : result stop A -> Prop) :
  Q (match r with Ok a => Ok a | Err e => Err (Throws e) end) -> asks (check r) Q.
Proof. intros H. destruct r; (eexists; split; [by cbn|]; split; [done|exact H]). Qed.

Lemma asks_aws {B} a (f : json -> sh B) Q :
  (forall j, answers a j -> asks (f j) Q) ->
  ((forall j, ~ answers a j) -> asks (f JNull) Q /\ forall e, Q (Err (Throws e))) ->
  asks (bind (aws a) f) Q.
Proof.
  intros Hj Hno. set (cmd := "aws" :: a ++ ["--region"; REGION; "--output"; "json"]).
  destruct (world cmd) as [[code out] err] eqn:Hw.
  assert (Hrun : forall v, run frozen (aws a) v =
    (if code =? 0 then if decide (strip out = "") then Ok JNull else
       match loads out with Some j => Ok j | None => Err (Throws JSONDecodeError) end
     else Err (Throws (CalledProcessError code err)), v)).
  { intros v. unfold aws, aws_in, _run. rewrite !run_bind. cbn. fold cmd. rewrite Hw. cbn.
    destruct (code =? 0); [|done]. cbn. case_decide; [done|]. unfold parse, json_loads.
    by destruct (loads out). }
  assert (Hfail : forall e, (forall v, run frozen (aws a) v = (Err (Throws e), v)) ->
    (forall j, ~ answers a j) -> asks (bind (aws a) f) Q).
  { intros e He Hn. exists (Err (Throws e)). split; [|split; [done|by apply Hno]].
    intros v. by rewrite run_bind, He. }
  assert (Hgo : forall j, (forall v, run frozen (aws a) v = (Ok j, v)) -> asks (f j) Q ->
    asks (bind (aws a) f) Q).
  { intros j Hr (r & Hf & Hq). exists r. split; [|done]. intros v. by rewrite run_bind, Hr. }
  assert (Hnone : (code =? 0) = false \/ strip out = "" \/ loads out = None ->
    forall j, ~ answers a j).
  { intros Hc j (o & e & Hw' & Hs & Hl). fold cmd in Hw'. rewrite Hw in Hw'. simplify_eq.
    destruct Hc as [?|[?|?]]; [done|congruence|congruence]. }
  destruct (code =? 0) eqn:Hc; [|eapply Hfail; eauto].
  case_decide as Hs; [apply (Hgo JNull); [done|]; apply Hno; eauto|].
  destruct (loads out) as [j|] eqn:Hl; [|eapply Hfail; eauto].
  apply (Hgo j); [done|]. apply Hj. apply Z.eqb_eq in Hc as ->. by exists out, err.
Qed.

Lemma ok_zero n : Ok (E := stop) n = Ok 0 <-> n = 0.
Proof. split; [by intros [= ->]|by intros ->]. Qed.
Lemma never_zero (e : stop) : Err (A := Z) e = Ok 0 <-> False.
Proof. done. Qed.

Lemma json_len_pos v n : json_len v = Ok n -> 0 <= n.
Proof. destruct v; cbn; intros [= <-]; lia. Qed.

Lemma sum_of_zero {A} (f : A -> result exn Z) (l : list A) :
  (forall x n, f x = Ok n -> 0 <= n) ->
  (forall n, sum_of f l = Ok n -> 0 <= n) /\
  (sum_of f l = Ok 0 <-> Forall (fun x => f x = Ok 0) l).
Proof.
  intros Hf. unfold sum_of. induction l as [|x l [IHp IH]]; cbn.
  - split; [intros n [= <-]; lia|]. by split; [intros _; constructor|].
  - rewrite Forall_cons. destruct (f x) as [n|e] eqn:Hx; cbn; [|by split; [|split; [|intros [? _]]]].
    destruct (each f l) as [ns|e]; cbn in *; [|split; [done|]; rewrite <- IH; by split; [|intros [_ ?]]].
    pose proof (Hf _ _ Hx) as Hn. specialize (IHp _ eq_refl).
    split; [intros m [= <-]; lia|]. rewrite <- IH. split.
    + intros [= H]. split; f_equal; lia.
    + intros [[= ->] [= ->]]. done.
Qed.

(** How what is counted composes. *)
Lemma audited_iff p P P' : audited p P -> (P <-> P') -> audited p P'.
Proof. intros (r & Hr & Hs & H & Hp) HP. exists r. by rewrite <- HP. Qed.

Lemma audited_check (r : result exn Z) (P : Prop) :
  (r = Ok 0 <-> P) -> (forall n, r = Ok n -> 0 <= n) -> audited (check r) P.
Proof.
  intros HP Hn. apply asks_check. destruct r as [n|e].
  - split; [rewrite <- HP; split; congruence|]. intros m [= <-]. by apply Hn.
  - split; [|done]. rewrite <- HP. by split.
Qed.

Lemma audited_fail {A} (p : sh A) (f : A -> sh Z) e (P : Prop) :
  (forall v, run frozen p v = (Err (Throws e), v)) -> ~ P -> audited (bind p f) P.
Proof.
  intros Hp Hn. exists (Err (Throws e)). split; [|by split; [|split; [split|]]].
  intros v. by rewrite run_bind, Hp.
Qed.

Lemma audited_ret {A} (p : sh A) (f : A -> sh Z) a (P : Prop) :
  (forall v, run frozen p v = (Ok a, v)) -> audited (f a) P -> audited (bind p f) P.
Proof.
  intros Hp (r & Hr & H). exists r. split; [|done]. intros v. by rewrite run_bind, Hp.
Qed.

Lemma audited_aws a (f : json -> sh Z) (R : json -> Prop) :
  (forall j, answers a j -> audited (f j) (R j)) -> audited (f JNull) False ->
  audited (bind (aws a) f) (exists j, answers a j /\ R j).
Proof.
  intros Hj Hnull. apply asks_aws.
  - intros j Ha. eapply audited_iff; [by apply Hj|]. split; [eauto|].
    intros (j' & Ha' & HR). by rewrite (answers_once _ _ _ Ha Ha').
  - intros Hno. split; [|split; [|done]; split; [done|]; by intros (j & Ha & _); destruct (Hno j)].
    eapply audited_iff; [done|]. split; [done|]. by intros (j & Ha & _); destruct (Hno j).
Qed.

Lemma audited_listed j k (f : list json -> sh Z) (R : list json -> Prop) :
  (forall l, audited (f l) (R l)) ->
  audited (bind (listed j k) f) (exists l, at_key k j = Ok (JArr l) /\ R l).
Proof.
  intros Hf. unfold listed. destruct (at_key k j) as [v|e] eqn:Hv; cbn [and_then check].
  - destruct v as [| | | | |l|]; cbn [items_of check];
      try (eapply audited_fail; [done|]; by intros (? & ? & _)).
    eapply audited_ret; [done|]. eapply audited_iff; [apply Hf|]. split; [by exists l|].
    by intros (l' & [= ->] & ?).
  - eapply audited_fail; [done|]. by intros (l & ? & _).
Qed.

(** A field of a listed thing. *)
Lemma len_at_zero k r : (v <-! at_key k r ;; json_len v) = Ok 0 <->
  exists v, at_key k r = Ok v /\ json_len v = Ok 0.
Proof.
  destruct (at_key k r) as [v|]; cbn; [|by split; [|intros (? & ? & _)]].
  split; [by eauto|]. by intros (? & [= ->] & ?).
Qed.

Lemma audited_how_many a k : audited (how_many a k) (nothing_at a k).
Proof.
  eapply audited_iff.
  - apply (audited_aws _ _ (fun j => exists v, at_key k j = Ok v /\ json_len v = Ok 0)).
    + intros j _. apply audited_check; [apply len_at_zero|].
      intros n. destruct (at_key k j); [apply json_len_pos|done].
    + apply audited_check; [by split|done].
  - unfold nothing_at. split; [intros (j & ? & v & ? & ?)|intros (j & v & ? & ? & ?)]; eauto 6.
Qed.

Lemma audited_sum (f : json -> result exn Z) (R : json -> Prop) l :
  (forall x n, f x = Ok n -> 0 <= n) -> (forall x, f x = Ok 0 <-> R x) ->
  audited (check (sum_of f l)) (Forall R l).
Proof.
  intros Hpos HR. destruct (sum_of_zero f l Hpos) as [Hp Hz]. apply audited_check; [|done].
  rewrite Hz, !Forall_forall. by setoid_rewrite HR.
Qed.

Lemma audited_instances : audited instances no_instance.
Proof.
  eapply audited_iff.
  - apply (audited_aws _ _ (fun j => exists l, at_key "Reservations" j = Ok (JArr l) /\
      Forall (fun r => exists v, at_key "Instances" r = Ok v /\ json_len v = Ok 0) l)).
    + intros j _. apply audited_listed. intros l. apply audited_sum; [|apply len_at_zero].
      intros x n. destruct (at_key "Instances" x); [|done]. apply json_len_pos.
    + eapply audited_fail; [done|tauto].
  - unfold no_instance. split; [intros (j & ? & l & ? & ?)|intros (j & l & ? & ? & ?)]; eauto 6.
Qed.

Lemma each_texts l arns : each as_text l = Ok arns <-> l = JStr <$> arns.
Proof.
  revert arns. induction l as [|j l IH]; intros [|x arns]; cbn; try by split.
  - by destruct (as_text j); [|done]; cbn; destruct (each as_text l).
  - destruct j as [| | | |s| |]; cbn; try by split. split.
    + destruct (each as_text l) as [a|e]; cbn; [|done]. intros [= -> ->]. f_equal. by apply IH.
    + intros [= -> Hl]. apply IH in Hl. by rewrite Hl.
Qed.
Lemma audited_texts j k (f : list string -> sh Z) (R : list string -> Prop) :
  (forall l, audited (f l) (R l)) ->
  audited (bind (texts j k) f) (exists l, at_key k j = Ok (JArr (JStr <$> l)) /\ R l).
Proof.
  intros Hf. unfold texts. destruct (at_key k j) as [v|e] eqn:Hv; cbn [and_then check].
  2: { eapply audited_fail; [done|]. by intros (l & ? & _). }
  destruct (text_list v) as [l|e] eqn:Hl; cbn [check].
  - assert (v = JArr (JStr <$> l)) as ->.
    { destruct v as [| | | | |l0|]; try done. f_equal. by apply each_texts. }
    eapply audited_ret; [done|]. eapply audited_iff; [apply Hf|]. split; [by exists l|].
    intros (l' & [= H] & ?). apply each_texts in H. cbn in Hl. congruence.
  - eapply audited_fail; [done|]. intros (l & [= ->] & _). cbn in Hl.
    by rewrite (proj2 (each_texts _ l) eq_refl) in Hl.
Qed.

Lemma audited_clusters : audited active_clusters no_cluster.
Proof.
  eapply audited_iff.
  - apply (audited_aws _ _ (fun j => exists arns, at_key "clusterArns" j = Ok (JArr (JStr <$> arns)) /\
      (arns = [] \/ exists j', answers (["ecs"; "describe-clusters"; "--clusters"] ++ arns) j' /\
        exists l, at_key "clusters" j' = Ok (JArr l) /\ Forall dormant l))).
    + intros j _. apply audited_texts. intros [|x arns].
      { eapply audited_iff; [by apply (audited_check (Ok 0) True); [|intros n [= <-]]|].
        split; [by left|done]. }
      eapply audited_iff; [apply (audited_aws _ _ (fun j' => exists l,
        at_key "clusters" j' = Ok (JArr l) /\ Forall dormant l))|].
      * intros j' _. apply audited_listed. intros l. apply audited_sum.
        { intros c n. destruct (at_key "status" c) as [s|]; cbn; [|done].
          destruct (is_text "ACTIVE" s); intros [= <-]; lia. }
        intros c. unfold dormant. destruct (at_key "status" c) as [s|]; cbn; [|by split; [|intros (? & ? & _)]].
        transitivity (s <> JStr "ACTIVE"); [|by split; [eauto|intros (? & [= ->] & ?)]].
        destruct s as [| | | |s| |]; cbn; try by split. case_bool_decide; split; congruence.
      * eapply audited_fail; [done|tauto].
      * split; [by right|]. by intros [?|?].
    + eapply audited_fail; [done|tauto].
  - unfold no_cluster. split.
    + intros (j & ? & arns & ? & [?|(j' & ? & l & ? & ?)]); eauto 10.
    + intros (j & arns & ? & ? & [?|(j' & l & ? & ? & ?)]); eauto 12.
Qed.

Lemma audited_images_of repos : audited (images_of repos) (Forall imageless repos).
Proof.
  induction repos as [|r repos IH]; cbn [images_of].
  { eapply audited_iff; [by apply (audited_check (Ok 0) True); [|intros n [= <-]]|]. by split. }
  unfold json_at. destruct (at_key "repositoryName" r) as [v|e] eqn:Hv; cbn [check].
  2: { eapply audited_fail; [done|]. rewrite Forall_cons. intros [(? & ? & _) _]. congruence. }
  eapply audited_ret; [done|]. destruct v as [| | | |name| |]; cbn [as_text check];
    try (eapply audited_fail; [done|]; rewrite Forall_cons; intros [(? & ? & _) _]; congruence).
  eapply audited_ret; [done|].
  destruct (audited_how_many ["ecr"; "list-images"; "--repository-name"; name] "imageIds")
    as (r1 & Hr1 & Hs1 & H1 & Hp1). destruct IH as (r2 & Hr2 & Hs2 & H2 & Hp2).
  assert (Hhead : imageless r <-> r1 = Ok 0).
  { rewrite H1. split; [|intros; exists name; by split]. intros (n & Hn & ?). rewrite Hv in Hn. by injection Hn as <-. }
  exists (match r1, r2 with Ok n, Ok m => Ok (n + m) | Err e, _ => Err e | _, Err e => Err e end).
  split; [|split; [|split]].
  - intros v. rewrite run_bind, Hr1. destruct r1; [|done]. rewrite run_bind, Hr2. by destruct r2.
  - by destruct r1, r2.
  - rewrite Forall_cons, Hhead, <- H2. destruct r1 as [n|], r2 as [m|]; try (split; [done|by intros []]).
    specialize (Hp1 _ eq_refl). specialize (Hp2 _ eq_refl). split; [|by intros [[= ->] [= ->]]].
    intros [= H]. split; f_equal; lia.
  - intros k. destruct r1, r2; intros [= <-]. specialize (Hp1 _ eq_refl). specialize (Hp2 _ eq_refl). lia.
Qed.
Lemma audited_images : audited images no_image.
Proof.
  eapply audited_iff.
  - apply (audited_aws _ _ (fun j => exists l, at_key "repositories" j = Ok (JArr l) /\
      Forall imageless l)).
    + intros j _. apply audited_listed. apply audited_images_of.
    + eapply audited_fail; [done|tauto].
  - unfold no_image. split; [intros (j & ? & l & ? & ?)|intros (j & l & ? & ? & ?)]; eauto 6.
Qed.

(** All that is counted, after the failures so far: what fails is added, by its label. *)
Lemma audits_run (l : list (string * sh Z)) (Ps : list Prop) :
  Forall2 (fun x P => audited x.2 P) l Ps -> forall fs v, exists r v',
  run frozen (for_each l (fun x failures => n <- x.2 ;; _count x.1 n failures) fs) v = (r, v') /\
  match r with
  | Ok fs' => exists ls, fs' = fs ++ ls /\ (ls = [] <-> Forall id Ps)
  | Err (Throws _) => ~ Forall id Ps
  | Err _ => False
  end.
Proof.
  induction 1 as [|[label p] P l Ps (r & Hr & Hs & H0 & _) _ IH]; intros fs v; cbn [for_each].
  { exists (Ok fs), v. split; [done|]. exists []. by rewrite app_nil_r. }
  assert (HF : Forall id (P :: Ps) <-> P /\ Forall id Ps) by apply Forall_cons.
  cbn [fst snd] in *. rewrite !run_bind, Hr.
  destruct r as [n|[|e|]]; try done.
  2: { exists (Err (Throws e)), v. split; [done|]. rewrite HF. intros [HP _]. by apply H0 in HP. }
  unfold _count, print. cbn. destruct (Z.eqb_spec n 0) as [->|Hn].
  - edestruct IH as (r & v' & -> & Hm). exists r, v'. split; [done|].
    assert (HP : P) by by apply H0. destruct r as [fs'|[|e|]]; try done.
    + destruct Hm as (ls & -> & Hls). exists ls. split; [done|]. rewrite Hls, HF. tauto.
    + rewrite HF. tauto.
  - assert (HP : ~ P) by (rewrite <- H0; congruence).
    edestruct IH as (r & v' & -> & Hm). exists r, v'. split; [done|].
    destruct r as [fs'|[|e|]]; try done; [|rewrite HF; tauto].
    destruct Hm as (ls & -> & _). exists (label :: ls). split; [by rewrite <- app_assoc|].
    rewrite HF. split; [done|tauto].
Qed.

Lemma audits_audited : Forall2 (fun x P => audited x.2 P) audits clean.
Proof.
  unfold audits, clean. repeat apply Forall2_cons_2; cbn [snd]; try apply audited_how_many.
  - apply audited_instances.
  - apply audited_clusters.
  - apply audited_images.
  - constructor.
Qed.

Lemma words_none s : (Z.of_nat (length (words s)) =? 0) = true <-> words s = [].
Proof. destruct (words s); cbn; [done|]. split; [|done]. rewrite Z.eqb_eq. lia. Qed.

Lemma count_run label n fs v : exists line,
  run frozen (_count label n fs) v = (Ok (fs ++ if n =? 0 then [] else [label]), v ++ [line]).
Proof.
  eexists. cbn. apply (f_equal2 pair); [|reflexivity].
  by destruct (n =? 0); rewrite ?app_nil_r.
Qed.

Lemma state_counted fs code out err v : exists extra v',
  run frozen (match state_resource_count code out err with
    | None =>
        print ("  [FAIL] the stack's Terraform state could not be read: " +:+ strip err) ;;;
        Ret (fs ++ ["Terraform state unreadable"])
    | Some n => _count "resources in the stack's Terraform state" n fs
    end) v = (Ok (fs ++ extra), v') /\
  (extra = [] <-> if code =? 0 then words out = [] else contains "No state file was found" err = true).
Proof.
  unfold state_resource_count. destruct (code =? 0); [|destruct (contains _ err)].
  - edestruct count_run as (line & ->). eexists _, _. split; [done|]. rewrite <- words_none.
    by destruct (Z.of_nat (length (words out)) =? 0).
  - edestruct count_run as (line & ->). by eexists _, _.
  - by eexists _, _.
Qed.

(** The check that nothing billable is left is exact. Whatever the commands
    print, it succeeds if and only if every listing was read and is empty (no instance in
    any reservation, no cluster that is active, no image in any repository) and the
    Terraform state was read and lists nothing, or there is no state file; its last line
    then says CLEAN. A listing that cannot be read never passes: the check ends with the
    exception, or with the list of what failed, which is not empty. *)
Theorem verify_clean_exact :
  let '(r, printed) := run frozen (cmd_verify_clean STACK_DIR) [] in
  (r = Ok tt <-> Forall id clean /\ no_state) /\
  (r = Ok tt -> last printed = Some ("CLEAN: nothing billable left in " +:+ REGION)) /\
  match r with
  | Err (Exits s) => exists ls, ls <> [] /\ s = inl ("NOT CLEAN: " +:+ join ", " ls)
  | Err Diverges => False
  | _ => True
  end.
Proof.
  unfold cmd_verify_clean. rewrite run_bind.
  destruct (audits_run _ _ audits_audited [] []) as (r & v & -> & Hr).
  destruct r as [fs|[|e|]]; [|done| |done].
  2: { split; [|done]. split; [done|]. tauto. }
  destruct Hr as (ls & -> & Hls). cbn [app].
  pose proof (state_counted ls) as Hst.
  rewrite run_bind. cbn [run call frozen]. unfold no_state.
  destruct (world _) as [[code out] err]. rewrite run_bind.
  destruct (Hst code out err v) as (extra & v' & -> & Hextra).
  assert (Hall : ls ++ extra = [] <-> Forall id clean /\
    if code =? 0 then words out = [] else contains "No state file was found" err = true).
  { rewrite <- Hls, <- Hextra. split; [apply app_nil|]. by intros [-> ->]. }
  destruct (ls ++ extra) as [|l r]; cbn [run print call frozen].
  - split; [by rewrite <- Hall|]. split; [intros _; apply last_snoc|done].
  - split; [by rewrite <- Hall|]. split; [done|]. by exists (l :: r).
Qed.
End Clean.

(** An empty account: every listing is read and empty, and nothing was ever applied. With one
    volume left, and then with a state that cannot be read, the check fails. *)
Definition bare (volumes : string) (state : finished) (cmd : list string) : finished :=
  match cmd with
  | "aws" :: _ :: "describe-volumes" :: _ => (0, "{'Volumes': [" +:+ volumes +:+ "]}", "")
  | "aws" :: _ =>
      (0, "{'Reservations': [], 'NetworkInterfaces': [], 'Addresses': [], 'NatGateways': []," +:+
          " 'LoadBalancers': [], 'AutoScalingGroups': [], 'clusterArns': []," +:+
          " 'repositories': [], 'logGroups': []}", "")
  | _ => state
  end.
Definition quotes (x : finished) : finished :=
  let '(code, out, err) := x in (code, replace "'" double_quote out, err).
Definition verdict (volumes : string) (state : finished) : result stop unit :=
  fst (run (frozen (fun c => quotes (bare volumes state c))) (cmd_verify_clean "stack") []).

Example verdicts :
  verdict "" (1, "", "No state file was found!") = Ok tt /\
  verdict "{}" (0, "", "") = Err (Exits (inl "NOT CLEAN: EBS volumes")) /\
  verdict "" (1, "", "state locked") = Err (Exits (inl "NOT CLEAN: Terraform state unreadable")).
Proof. by vm_compute. Qed.
