(* ===== verification/Topology.v ===== *)
(** The chaos topology (chaos/topology.py) and its fault proxy (chaos/toxiproxy.py): the
    generated Compose project, the Docker commands and the proxy's HTTP calls.

    A process ([Exec]) and a request ([Http]) are effects, besides the host's. [Exec] answers
    [None] when the time was up: the process is then killed and waited for. [Http] raises
    unless the reply is a 2xx one. The indented JSON printer and the text of the bound in a
    message are parameters. *)
From S2P Require Import Prelude Effects Redis LuaScripts Json Py Models Handlers.
From S2P Require Import Texts Shell.

#[local] Open Scope string_scope.
#[local] Open Scope list_scope.
#[local] Open Scope Z_scope.
#[local] Open Scope prog_scope.

Definition PROJECT : string := "ftq-chaos".
Definition REDIS_IMAGE : string := "redis:8.8.3".
Definition TOXIPROXY_IMAGE : string := "ghcr.io/shopify/toxiproxy:2.12.0".
Definition WORKER_IMAGE : string := "ftq-worker:local".
Definition REDIS_PORT : Z := 6390.
Definition TOXIPROXY_API_PORT : Z := 8474.
Definition PROXY_BASE_PORT : Z := 20000.

Definition worker_name (i : nat) : string :=
  PROJECT +:+ "-worker-" +:+ str_of_Z (Z.of_nat i).
Definition proxy_name (i : nat) : string := "redis_" +:+ str_of_Z (Z.of_nat i).
Definition service_name (i : nat) : string := "worker-" +:+ str_of_Z (Z.of_nat i).
Definition proxy_port (i : nat) : string := str_of_Z (PROXY_BASE_PORT + Z.of_nat i).

(** ** The Compose project *)
Definition strings (l : list string) : json := JArr (JStr <$> l).

Definition redis_service : json := JObj [
  ("image", JStr REDIS_IMAGE);
  ("container_name", JStr (PROJECT +:+ "-redis"));
  ("command", strings ["redis-server"; "--appendonly"; "yes"; "--appendfsync"; "everysec";
                       "--maxmemory"; "3gb"; "--maxmemory-policy"; "noeviction"]);
  ("ports", strings ["127.0.0.1:" +:+ str_of_Z REDIS_PORT +:+ ":6379"]);
  ("healthcheck", JObj [("test", strings ["CMD"; "redis-cli"; "ping"]); ("interval", JStr "1s");
                        ("timeout", JStr "2s"); ("retries", JInt 30)])].
Definition toxiproxy_service (seed : Z) : json := JObj [
  ("image", JStr TOXIPROXY_IMAGE);
  ("container_name", JStr (PROJECT +:+ "-toxiproxy"));
  ("command", strings ["-host=0.0.0.0"; "-seed=" +:+ str_of_Z seed]);
  ("ports", strings ["127.0.0.1:" +:+ str_of_Z TOXIPROXY_API_PORT +:+ ":8474"]);
  ("depends_on", JObj [("redis", JObj [("condition", JStr "service_healthy")])])].
Definition worker_service (worker_env : list (string * string)) (i : nat) : json := JObj [
  ("image", JStr WORKER_IMAGE);
  ("container_name", JStr (worker_name i));
  ("environment", JObj (set_member "FTQ_REDIS_URL"
     (JStr ("redis://toxiproxy:" +:+ proxy_port i +:+ "/0")) (prod_map id JStr <$> worker_env)));
  ("restart", JStr "no");
  ("stop_grace_period", JStr "20s");
  ("depends_on", strings ["toxiproxy"])].

Definition compose_spec (workers : nat) (worker_env : list (string * string)) (seed : Z) : json :=
  JObj [("name", JStr PROJECT);
        ("services", JObj ([("redis", redis_service); ("toxiproxy", toxiproxy_service seed)] ++
           ((fun i => (service_name i, worker_service worker_env i)) <$> seq 1 workers)))].

(** ** Commands *)
Inductive topo : Type -> Type :=
  | OnHost {X} (h : host X) : topo X
  | Exec (args : list string) (within : Q) : topo (option finished)
  | Http (method path : string) (body : option json) : topo unit.
Abbreviation tp := (prog topo stop).

Section Commands.
Context (indented : json -> string) (float_text : Q -> string).

Definition write_compose (path : string) (workers : nat) (worker_env : list (string * string))
    (seed : Z) : tp unit :=
  call (OnHost (HWrite path (indented (compose_spec workers worker_env seed) +:+ newline))).

Definition run (args : list string) (checked : bool) (within : Q) : tp finished :=
  r <- call (Exec args within) ;;
  match r with
  | None => throw (RuntimeError ("timed out after " +:+ float_text within +:+ "s: " +:+
                                 join " " args))
  | Some (code, out, err) =>
      if checked && negb (code =? 0) then
        throw (RuntimeError (join " " args +:+ " exited " +:+ str_of_Z code +:+ ": " +:+ strip err))
      else Ret (code, out, err)
  end.
(** With the defaults of the arguments. *)
Definition run_checked (args : list string) : tp finished := run args true 120.

(** [Stack.compose], [down] *)
Definition compose (compose_file : string) (args : list string) (within : Q) : tp finished :=
  run (["docker"; "compose"; "-f"; compose_file; "-p"; PROJECT] ++ args) true within.
Definition down (compose_file : string) : tp unit :=
  compose compose_file ["down"; "-v"; "--remove-orphans"] 120 ;;; Ret tt.

(** [s.split(c)]: as many parts as there are [c]s, and one more. *)
Fixpoint split_char (c : ascii) (s : string) : list string :=
  match s with
  | EmptyString => [EmptyString]
  | String a r =>
      if decide (a = c) then EmptyString :: split_char c r
      else match split_char c r with w :: l => String a w :: l | [] => [String a EmptyString] end
  end.
(** What follows the first [c]. *)
Fixpoint after_char (c : ascii) (s : string) : option string :=
  match s with
  | EmptyString => None
  | String a r => if decide (a = c) then Some r else after_char c r
  end.
Definition tab : ascii := "009".

(** The exit code in a status: "Exited (70) 2 seconds ago". *)
Definition exit_code_of (state status : string) : result exn (option Z) :=
  if bool_decide (state = "exited") then
    match after_char "(" status with
    | Some r => z <-! to_int (first_part ")" r) ;; Ok (Some z)
    | None => Ok None
    end
  else Ok None.
Definition state_of_line (line : string) : result exn (string * (string * option Z)) :=
  match split_char tab line with
  | [name; state; status] => code <-! exit_code_of state status ;; Ok (name, (state, code))
  | _ => Err (ValueError "not enough values to unpack")
  end.
Definition worker_states : tp (list (string * (string * option Z))) :=
  res <- run_checked ["docker"; "ps"; "-a"; "--filter"; "name=^" +:+ PROJECT +:+ "-worker-";
    "--format"; "{{.Names}}" +:+ String tab ("{{.State}}" +:+ String tab "{{.Status}}")] ;;
  let '(_, out, _) := res in
  l <- check (each state_of_line (splitlines out)) ;;
  Ret (foldl (fun d x => Tables.put d x.1 x.2) [] l).

Definition build_worker_image (repo_root : string) : tp unit :=
  run ["docker"; "build"; "-q"; "-f"; repo_root +:+ "/docker/Dockerfile"; "-t"; WORKER_IMAGE;
       repo_root] true 600 ;;; Ret tt.

(** ** Toxiproxy *)
Definition TOXIC : string := "chaos".
Definition _call (method path : string) (body : option json) : tp unit :=
  call (Http method path body).
Definition ping : tp unit := _call "GET" "/version" None.
Definition reset : tp unit := _call "POST" "/reset" None.
Definition create_proxy (name listen upstream : string) : tp unit :=
  _call "POST" "/proxies" (Some (JObj [("name", JStr name); ("listen", JStr listen);
                                       ("upstream", JStr upstream)])).
Definition set_enabled (name : string) (enabled : bool) : tp unit :=
  _call "POST" ("/proxies/" +:+ name) (Some (JObj [("enabled", JBool enabled)])).
Definition add_toxic (proxy kind : string) (attributes : list (string * Z)) : tp unit :=
  _call "POST" ("/proxies/" +:+ proxy +:+ "/toxics")
    (Some (JObj [("name", JStr TOXIC); ("type", JStr kind); ("stream", JStr "downstream");
                 ("toxicity", JFloat "1.0"); ("attributes", JObj (prod_map id JInt <$> attributes))])).
Definition remove_toxic (proxy : string) : tp unit :=
  _call "DELETE" ("/proxies/" +:+ proxy +:+ "/toxics/" +:+ TOXIC) None.
End Commands.
