(* ===== verification/Chaos.v ===== *)
(** A chaos run (chaos/run.py): the producer, the progress reporter, the wait for an empty
    queue, the collection of the worker logs, the report and the run itself.

    [ch] are the effects of the orchestrator: the client's coroutine and Redis commands
    ([Queue]), Docker, Toxiproxy and the host ([Stack]), two clocks, the tasks of the event
    loop, the stop event, and the state of the run's objects ([Me]). A task is an effect
    that is started, awaited or cancelled; its coroutine is [task_body]. The arguments are
    those [ChaosArgs] (Flags.v) parsed; the environment's settings ([env]), the seeded
    generator, the texts of floats and containers, and the printed message of an exception
    are parameters. Log lines are cut short, the final summary's excepted. *)
From S2P Require Import Prelude Effects Redis Keys LuaScripts Queue Ops Refine.
From S2P Require Import Fields.
From S2P Require Import Streams Json Py Models Config Transitions Registry Client.
From S2P Require Import Handlers Metrics Tables Analysis Random Mix Faults Verifier.
From S2P Require Import Texts Shell Topology.
From Stdlib Require Import Qcanon.

#[local] Open Scope string_scope.
#[local] Open Scope list_scope.
#[local] Open Scope Z_scope.
#[local] Open Scope prog_scope.

Definition QUEUE : string := "chaos".
Definition BATCH : nat := 100.
Definition LEASE : Q := 2.
Definition MAX_ATTEMPTS : Z := 8.
Definition MAX_DELIVERIES : Z := 12.
Definition WORKER_ENV : list (string * string) := [
  ("FTQ_QUEUE", QUEUE);
  ("FTQ_BLOCK_MS", "500");
  ("FTQ_SOCKET_TIMEOUT", "2");
  ("FTQ_SOCKET_CONNECT_TIMEOUT", "1");
  ("FTQ_VISIBILITY_TIMEOUT", "2.0");
  ("FTQ_HEARTBEAT_INTERVAL", "0.5");
  ("FTQ_REAP_INTERVAL", "0.5");
  ("FTQ_MAX_ATTEMPTS", "8");
  ("FTQ_MAX_DELIVERIES", "12");
  ("FTQ_JOB_BACKOFF_BASE", "0.1");
  ("FTQ_JOB_BACKOFF_CAP", "2");
  ("FTQ_JOB_TIMEOUT", "10");
  ("FTQ_SHUTDOWN_GRACE", "10");
  ("FTQ_DONE_TTL_SECONDS", "0");
  ("FTQ_CONSUMER_PRUNE_IDLE", "10");
  ("FTQ_CONSUMER_PRUNE_INTERVAL", "5");
  ("FTQ_LOG_LEVEL", "INFO");
  ("FTQ_LOG_FORMAT", "json")].

Record Args := mk_Args {
  a_jobs : Z;
  a_workers : nat;
  a_concurrency : Z;
  a_seed : option Z;
  a_rate : Q;
  a_fault_tail : Q;
  a_drain_timeout : Q;
  a_out : string;
  a_run_dir : option string;
  a_keep : bool;
  a_skip_build : bool;
}.

(** ** The effects *)
(** What changes of the objects of a run: [Run]'s own attributes, and the injector's and
    the supervisor's. *)
Record run_state := mk_run {
  rs_accepted : list (string * string);          (* job id -> kind *)
  rs_enqueue_done : bool;
  rs_cpu_samples : list (list (string * Q));
  rs_chaos : chaos;
}.

Inductive task : Type :=
  | Supervising
  | Progressing
  | Producing (jobs : list (string * NewJob)) (t0 : Q)
  | Injecting (plan : list Fault) (t0 : Q)
  | OneFault (f : Fault) (t0 : Q).

Inductive ch : Type -> Type :=
  | Queue {X} (e : pyev ProducerCounters Empty_set X) : ch X
  | Stack {X} (t : topo X) : ch X
  | LoopTime : ch Q                              (* loop.time() *)
  | Sleep (d : Q) : ch unit
  | Line (path text : string) : ch unit          (* f.write, the file opened anew by [Open] *)
  | Open (path : string) : ch unit
  | Memory : ch (list (string * Z))              (* redis.info("memory") *)
  | Me {A} (f : run_state -> A * run_state) : ch A
  | Start (t : task) : ch unit                   (* create_task *)
  | Join (ts : list task) : ch unit              (* await gather of running or new tasks *)
  | Cancel (t : task) : ch unit
  | SetStop : ch unit
  | Stopped : ch bool
  | WaitStop (d : Q) : ch unit
  | Close : ch unit                              (* redis.aclose(), toxi.aclose() *)
  | Random31 : ch Z                              (* secrets.randbelow(2**31) *)
  | Stamp : ch string.                           (* the UTC time in a directory name *)
Abbreviation co := (prog ch stop).

Definition hosted {X} (h : host X) : co X := call (Stack (OnHost h)).
Definition log (l : level) (m : string) : co unit := hosted (HLog l m).
Definition me : co run_state := call (Me (fun s => (s, s))).
Definition change (f : run_state -> run_state) : co unit := call (Me (fun s => (tt, f s))).
Definition stacked {A} (p : tp A) : co A := carried_out (fun X (t : topo X) => call (Stack t)) p.
Definition redis {X} (c : cmd X) : co X := call (Queue (ECmd c)).

(** A coroutine of the package. *)
Definition coroutine {A} (p : py ProducerCounters Empty_set A) : co A := translated (@Queue) p.

(** The effects of the injector and the supervisor, carried out. *)
Section Faulty.
Context (float_text : Q -> string).
Definition faulty {X} (c : chaos_ev X) : co X :=
  match c in chaos_ev Y return co Y with
  | CTime => call LoopTime
  | CSleep d => call (Sleep d)
  | CDocker args => stacked (run_checked float_text args) ;;; Ret tt
  | CPaused args => r <- stacked (run_checked float_text args) ;; Ret (words r.1.2)
  | CEnabled proxy b => stacked (set_enabled proxy b)
  | CToxic proxy type attributes => stacked (add_toxic proxy type attributes)
  | CNoToxic proxy => stacked (remove_toxic proxy)
  | CReset => stacked reset
  | CStates => stacked (worker_states float_text)
  | CStop => call Stopped
  | CWaitStop d => call (WaitStop d)
  | CSelf f => call (Me (fun s => let '(a, c) := f (rs_chaos s) in
                 (a, mk_run (rs_accepted s) (rs_enqueue_done s) (rs_cpu_samples s) c)))
  end.
Fixpoint injected {A} (p : prog chaos_ev exn A) : co A :=
  match p with
  | Ret a => Ret a
  | Raise e => throw e
  | Vis c k =>
      r <- settled (faulty c) ;;
      match r with
      | Ok x => injected (k (Ok x))
      | Err (Throws e) => injected (k (Err e))
      | Err e => Raise e
      end
  end.
End Faulty.

(** ** What the worker logs show *)
(** Whether a run of a job of this kind can hang at this attempt. *)
Definition _may_hang (kind : string) (attempt : Z) : bool :=
  let limit := get [("hang", 2); ("hang_process", 2); ("hang_thread", 1)] kind 0 in
  bool_decide (kind = "hang_forever") || (attempt <? limit).

Definition MARKERS : list string :=
  ["process pool reset"; "orphaned thread run finished"; "exceeded its"; "lost the lease";
   ": started ("; "pruned"; "job -> DLQ"; "succeeded after it was moved"].

Record log_tally := mk_tally {
  levels : list (string * Z);
  messages : list (string * Z);
  errors : list string;
  pool_start_s : list Q;
  false_timeouts : list (string * Z);
}.
Definition no_logs : log_tally := mk_tally [] [] [] [] [].

(** [s.rsplit(sep, 1)[1]]: what follows the last [sep]. *)
Fixpoint after_last_from (sep s : string) (found : option string) : option string :=
  let found := match drop_prefix sep s with Some r => Some r | None => found end in
  match s with EmptyString => found | String _ r => after_last_from sep r found end.
Definition after_last (sep s : string) : option string := after_last_from sep s None.
(** [s.rstrip(c)] *)
Fixpoint rstrip (c : ascii) (s : string) : string :=
  match s with
  | EmptyString => EmptyString
  | String a r =>
      match rstrip c r with
      | EmptyString => if decide (a = c) then EmptyString else String a EmptyString
      | r' => String a r'
      end
  end.
(** [rec.get(k, default)] *)
Definition get_or (k : string) (default : json) (j : json) : result exn json :=
  match j with
  | JObj l => Ok (match member k l with Some v => v | None => default end)
  | _ => Err (TypeError "no attribute 'get'")
  end.

Section Logs.
Context (repr : json -> string).

Definition start_seconds (msg : string) : result exn (list Q) :=
  match drop_prefix "process pool ready:" msg with
  | None => Ok []
  | Some _ =>
      match after_last " in " msg with
      | None => Err IndexError
      | Some r => q <-! float_of_json (JStr (rstrip "s" r)) ;; Ok [q]
      end
  end.

(** The kind of the job that a record names, if it was accepted. *)
Definition kind_of (accepted : list (string * string)) (r : json) : result exn string :=
  j <-! get_or "job_id" JNull r ;; Ok (get accepted (str_of_json repr j) "?").

(** A record's share of the tally. *)
Definition tally_record (accepted : list (string * string)) (line : string) (r : json)
    (t : log_tally) : result exn log_tally :=
  level <-! get_or "level" (JStr "?") r ;;
  m <-! get_or "msg" (JStr "") r ;;
  let msg := str_of_json repr m in
  let lv := bump (levels t) (str_of_json repr level) 1 in
  let ms := foldl (fun c marker => if contains marker msg then bump c marker 1 else c)
              (messages t) MARKERS in
  ps <-! start_seconds msg ;;
  fs <-! (match drop_prefix "HandlerTimeout" msg with
    | None => Ok (false_timeouts t)
    | Some _ =>
        kind <-! kind_of accepted r ;;
        a <-! get_or "attempt" (JInt 0) r ;; n <-! int_of_json a ;;
        Ok (if _may_hang kind n then false_timeouts t else bump (false_timeouts t) kind 1)
    end) ;;
  l <-! get_or "level" JNull r ;;
  let es := if is_text "ERROR" l && (length (errors t) <? 20)%nat
            then errors t ++ [cut 500 line] else errors t in
  Ok (mk_tally lv ms es (pool_start_s t ++ ps) fs).

Definition tally_line (accepted : list (string * string)) (t : log_tally) (line : string) :
    result exn log_tally :=
  match loads line with
  | None => Ok (mk_tally (bump (levels t) "non-json" 1) (messages t) (errors t)
                  (pool_start_s t) (false_timeouts t))
  | Some r => tally_record accepted line r t
  end.
Fixpoint tally_lines (accepted : list (string * string)) (lines : list string) (t : log_tally) :
    result exn log_tally :=
  match lines with
  | [] => Ok t
  | l :: r => t <-! tally_line accepted t l ;; tally_lines accepted r t
  end.
End Logs.

(** ** The verdict's evidence *)
Definition pool_resets (t : log_tally) : Z := get (messages t) "process pool reset" 0.
Definition evidence_of (c : chaos) (t : log_tally) : list (string * Z) :=
  filter (fun e => drop_prefix "by_" e.1 = None) (counts c) ++
  [("pool_resets", pool_resets t);
   ("crash_restarts", get (restarts c) 70 0);
   ("unexpected_exits", weight (fun code => negb (code =? 70)) (restarts c));
   ("error_log_lines", get (levels t) "ERROR" 0 + get (levels t) "non-json" 0)].

Section Run.
Context {R : Type} `{Rng R} (seeded : Z -> R).
Context (float_repr : Q -> string) (py_repr : string -> string) (repr : json -> string).
Context (exn_text : exn -> string) (indented : json -> string).
Context (env : Settings.t) (REPO_ROOT : string) (fuel : nat).

Definition jfloat (q : Q) : json := JFloat (float_repr q).
Definition counted (l : list (string * Z)) : json := JObj (prod_map id JInt <$> l).

(** [Run.__init__] *)
Section Attributes.
Context (a : Args) (seed : Z) (run_dir : string).

Definition worker_env : list (string * string) :=
  put WORKER_ENV "FTQ_CONCURRENCY" (str_of_Z (a_concurrency a)).
Definition stack_file : string := run_dir +:+ "/compose.json".
Definition settings : result exn Settings.t :=
  let e := env in
  Settings.make (Settings.mk
    ("redis://127.0.0.1:" +:+ str_of_Z REDIS_PORT +:+ "/0") (Settings.socket_timeout e)
    (Settings.socket_connect_timeout e) (Settings.health_check_interval e)
    (Settings.retry_attempts e) (Settings.retry_backoff_base e) (Settings.retry_backoff_cap e)
    QUEUE (Settings.group e) (Settings.concurrency e) (Settings.block_ms e)
    (Settings.shutdown_grace e) (Settings.process_pool_size e) (Settings.job_timeout e)
    (Settings.visibility_timeout e) (Settings.heartbeat_interval e) (Settings.reap_interval e)
    (Settings.max_attempts e) (Settings.max_deliveries e) (Settings.suspect_deliveries e)
    (Settings.job_backoff_base e) (Settings.job_backoff_cap e) (Settings.scheduler_interval e)
    (Settings.scheduler_batch e) (Settings.consumer_prune_idle e)
    (Settings.consumer_prune_interval e)
    block (Settings.high_watermark e) (Settings.low_watermark e) (a_drain_timeout a)
    (Settings.block_poll_interval e) (Settings.log_level e) (Settings.log_format e)
    0 (Settings.idempotency_ttl_seconds e)).
Definition keys : Keys.t := Keys.mk QUEUE.

Context (conf : Settings.t).

(** *** Waiting for the stack *)
Fixpoint try_ping (n : nat) : co unit :=
  match n with
  | O => throw (RuntimeError "Toxiproxy API never came up")
  | S n =>
      up <- except is_exception (stacked ping ;;; Ret true)
              (fun _ => call (Sleep (2 # 10)) ;;; Ret false) ;;
      if up : bool then Ret tt else try_ping n
  end.
Definition _wait_toxiproxy : co unit := try_ping 100.

Fixpoint try_consumers (n : nat) (want last : Z) : co unit :=
  match n with
  | O => throw (RuntimeError ("only " +:+ str_of_Z last +:+ " of " +:+ str_of_Z want +:+
                              " workers joined the group"))
  | S n =>
      snap <- coroutine (snapshot conf) ;;
      if want <=? snap_consumers snap then Ret tt
      else call (Sleep (1 # 10)) ;;; try_consumers n want (snap_consumers snap)
  end.
Definition _wait_consumers (n : Z) : co unit := try_consumers 300 n 0.

(** *** The producer *)
Definition accept (job_id kind : string) (s : run_state) : run_state :=
  mk_run (put (rs_accepted s) job_id kind) (rs_enqueue_done s) (rs_cpu_samples s) (rs_chaos s).
Definition enqueue_done (s : run_state) : run_state :=
  mk_run (rs_accepted s) true (rs_cpu_samples s) (rs_chaos s).
Definition accepted_file : string := run_dir +:+ "/accepted.jsonl".
Definition accepted_line (job_id kind : string) : string :=
  dumps_spaced (JObj [("job_id", JStr job_id); ("kind", JStr kind)]) +:+ newline.

(** [for job_id, (kind, _) in zip(ids, batch, strict=True)] *)
Fixpoint record_batch (ids : list string) (batch : list (string * NewJob)) : co unit :=
  match ids, batch with
  | [], [] => Ret tt
  | job_id :: ids, (kind, _) :: batch =>
      change (accept job_id kind) ;;;
      call (Line accepted_file (accepted_line job_id kind)) ;;;
      record_batch ids batch
  | _, _ => throw (ValueError "zip() arguments have different lengths")
  end.

(** One batch, [i] jobs after the first. *)
Definition enqueue_batch (t0 : Q) (i : Z) (batch : list (string * NewJob)) : co unit :=
  (if Qeq_bool (a_rate a) 0 then throw ZeroDivisionError else Ret tt) ;;;
  now <- call LoopTime ;;
  call (Sleep (Qmax 0 (t0 + inject_Z i / a_rate a - now))) ;;;
  r <- coroutine (Client.enqueue_many conf fuel batch.*2) ;;
  match r with
  | inl _ => Raise Diverges
  | inr ids => record_batch ids batch
  end.
Fixpoint enqueue_batches (t0 : Q) (i : Z) (batches : list (list (string * NewJob))) : co unit :=
  match batches with
  | [] => Ret tt
  | b :: r => enqueue_batch t0 i b ;;; enqueue_batches t0 (i + Z.of_nat BATCH) r
  end.
Definition _produce (jobs : list (string * NewJob)) (t0 : Q) : co unit :=
  call (Open accepted_file) ;;;
  enqueue_batches t0 0 (chunks (length jobs) BATCH jobs) ;;;
  change enqueue_done ;;;
  s <- me ;;
  log INFO ("producer: " +:+ str_of_Z (Z.of_nat (length (rs_accepted s))) +:+ " jobs accepted").

(** *** Progress *)
Definition cpu_of_line (line : string) : result exn (string * string) :=
  match split_char tab line with
  | [name; cpu; _] => Ok (name, cpu)
  | _ => Err (ValueError "not enough values to unpack (expected 3)")
  end.
Definition percent (cpu : string) : result exn Q :=
  let p := rstrip "%" cpu in
  if decide (p = "") then Ok 0%Q else float_of_json (JStr p).
Fixpoint cpu_sample (lines : list string) (sample : list (string * Q)) :
    result exn (list (string * Q)) :=
  match lines with
  | [] => Ok sample
  | l :: r =>
      x <-! cpu_of_line l ;;
      match drop_prefix PROJECT x.1 with
      | Some _ => q <-! percent x.2 ;; cpu_sample r (put sample x.1 q)
      | None => cpu_sample r sample
      end
  end.
Definition add_sample (x : list (string * Q)) (s : run_state) : run_state :=
  mk_run (rs_accepted s) (rs_enqueue_done s) (rs_cpu_samples s ++ [x]) (rs_chaos s).
Definition _sample_cpu : co unit :=
  res <- stacked (Topology.run float_repr ["docker"; "stats"; "--no-stream"; "--format";
    "{{.Name}}" +:+ String tab ("{{.CPUPerc}}" +:+ String tab "{{.MemUsage}}")] false 120) ;;
  sample <- check (cpu_sample (splitlines res.1.2) []) ;;
  change (add_sample sample).

Definition progress_turn (n : Z) : co (Z + unit) :=
  call (Sleep 5) ;;;
  let n := n + 1 in
  except is_exception
    (s <- coroutine (snapshot conf) ;;
     r <- me ;;
     log INFO ("progress: accepted " +:+ str_of_Z (Z.of_nat (length (rs_accepted r))) +:+
               " depth " +:+ str_of_Z (snap_depth s)) ;;;
     if n mod 3 =? 0 then _sample_cpu else Ret tt)
    (fun e => log WARNING ("progress: " +:+ exn_text e)) ;;;
  Ret (inl n).
Definition _progress : co unit := while_true fuel progress_turn 0.

(** *** Waiting for the queue to drain *)
Definition drained_turn (deadline : Q) (quiet : Z) : co (Z + bool) :=
  now <- hosted HClock ;;
  if negb (Qlt_bool now deadline) then
    log ERROR "drain timeout ran out" ;;; Ret (inr false)
  else
    s <- coroutine (snapshot conf) ;;
    let quiet := if (snap_depth s =? 0) && (snap_in_flight s =? 0) then quiet + 1 else 0 in
    if 3 <=? quiet then Ret (inr true) else hosted (HSleep 1) ;;; Ret (inl quiet).
Definition _wait_drained : co bool :=
  now <- hosted HClock ;;
  while_true fuel (drained_turn (now + a_drain_timeout a)) 0.

(** *** The worker logs *)
Fixpoint collect_each (workers : list nat) (t : log_tally) : co log_tally :=
  match workers with
  | [] => Ret t
  | i :: r =>
      let name := worker_name i in
      res <- stacked (Topology.run float_repr ["docker"; "logs"; name] false 120) ;;
      let text := res.1.2 +:+ res.2 in
      hosted (HWrite (run_dir +:+ "/" +:+ name +:+ ".log") text) ;;;
      s <- me ;;
      t <- check (tally_lines repr (rs_accepted s) (splitlines text) t) ;;
      collect_each r t
  end.
Definition _collect_logs (workers : nat) : co log_tally :=
  collect_each (seq 1 workers) no_logs.

(** *** The tasks *)
Definition task_body (t : task) : co unit :=
  match t with
  | Supervising => injected float_repr (supervisor fuel (1 # 2))
  | Progressing => _progress
  | Producing jobs t0 => _produce jobs t0
  | Injecting plan t0 => call (Join ((fun f => OneFault f t0) <$> plan))
  | OneFault f t0 => injected float_repr (_one worker_name proxy_name exn_text fuel f t0)
  end.

(** *** The report *)
(** [subprocess.run(cmd, check=True).stdout], of a program that is found *)
Definition try_output (cmd : list string) : co (option string) :=
  r <- hosted (HCommand cmd) ;;
  let '(code, out, _) := r in Ret (if code =? 0 then Some out else None).
Definition _git_rev : co string :=
  rev <- try_output ["git"; "rev-parse"; "--short"; "HEAD"] ;;
  match rev with
  | None => Ret "unknown"
  | Some rev =>
      dirty <- try_output ["git"; "status"; "--porcelain"; "--untracked-files=no"] ;;
      match dirty with
      | None => Ret "unknown"
      | Some dirty =>
          let paths := join "," ((fun l => (split_at 3 l).2) <$> splitlines dirty) in
          Ret (strip rev +:+ if decide (splitlines dirty = []) then ""
                             else "-dirty(" +:+ paths +:+ ")")
      end
  end.
Definition _docker_info (fmt : string) : co string :=
  r <- try_output ["docker"; "info"; "--format"; fmt] ;;
  Ret (match r with Some out => strip out | None => "unknown" end).

Definition tally_json (t : log_tally) : json :=
  let n := Z.of_nat (length (pool_start_s t)) in
  let total := foldr Qplus 0%Q (pool_start_s t) in
  JObj [
    ("by_level", counted (levels t));
    ("by_message", counted (messages t));
    ("pool_resets", JInt (pool_resets t));
    ("pool_starts", JObj [
       ("count", JInt n);
       ("max_s", jfloat (match pool_start_s t with [] => 0%Q | q :: r => foldl Qmax q r end));
       ("mean_s", jfloat (if n =? 0 then 0%Q else round_to 3 (total / inject_Z n)))]);
    ("timeouts_of_runs_that_cannot_hang", counted (false_timeouts t));
    ("error_samples", JArr (JStr <$> errors t))].

Definition fault_json (f : Fault) : list (string * json) :=
  [("at", jfloat (at_s f)); ("kind", JStr (Faults.kind_name (kind f)));
   ("worker", JInt (Z.of_nat (worker f))); ("duration", jfloat (duration f));
   ("latency_ms", JInt (latency_ms f))].
Definition executed_json (e : Executed) : json :=
  JObj (fault_json (done_fault e) ++
    [("started", jfloat (started e)); ("healed", jfloat (healed e));
     ("attempts", JInt (attempts e))]).
Definition skipped_json (s : Skipped) : json :=
  JObj (fault_json (skipped_fault s) ++
    [("attempts", JInt (tries s)); ("reason", JStr (reason s))]).
(** [{str(k): v for k, v in d.items()}]; what [json] does to integer keys *)
Definition by_number (d : list (Z * Z)) : json := JObj (prod_map str_of_Z JInt <$> d).

Definition verifier_json (r : report) : json := JObj [
  ("passed", JBool (passed r));
  ("invariants", JObj (prod_map id as_dict <$> invariants r));
  ("counters", counted (all_counters r));
  ("reclaims_by_delivery", by_number (reclaims_by_delivery r));
  ("reclaims_by_delivery_excluding_crashy", by_number (excluding_crashy r));
  ("max_delivery_excluding_crashy", JInt (max_delivery r))].

(** The samples of each container, in order. *)
Definition cpu_by_name (samples : list (list (string * Q))) : list (string * list Q) :=
  foldl (fun d x => put d x.1 (get d x.1 [] ++ [x.2])) [] (concat samples).
Definition mean1 (l : list Q) : Q :=
  round_to 1 (foldr Qplus 0%Q l / inject_Z (Z.of_nat (length l))).
Definition by_key (a b : string * list Q) : Prop := String.leb a.1 b.1 = true.
#[local] Instance by_key_dec : RelDecision by_key.
Proof. intros x y. unfold by_key. apply _. Defined.

(** Its numbers, beside the verifier's result. *)
Record outcome := mk_outcome {
  o_result : report;
  o_plan : list Fault;
  o_state : run_state;
  o_logs : log_tally;
  o_drained : bool;
  o_fault_phase_s : Q;
  o_drain_s : Q;
  o_total_s : Q;
  o_memory : list (string * Z);
}.

Definition report_of (short : Q -> string) (mix : list (string * Z)) (o : outcome)
    (at_utc git cpus mem : string) : json :=
  let c := rs_chaos (o_state o) in
  JObj [
    ("passed", JBool (passed (o_result o)));
    ("run", JObj [
       ("date_utc", JStr at_utc);
       ("git", JStr git);
       ("reproduce", JStr ("uv run python -m chaos.run --jobs " +:+ str_of_Z (a_jobs a) +:+
          " --workers " +:+ str_of_Z (Z.of_nat (a_workers a)) +:+
          " --concurrency " +:+ str_of_Z (a_concurrency a) +:+ " --seed " +:+ str_of_Z seed +:+
          " --rate " +:+ short (a_rate a) +:+ " --fault-tail " +:+ short (a_fault_tail a)));
       ("seed", JInt seed);
       ("jobs", JInt (a_jobs a));
       ("accepted", JInt (Z.of_nat (length (rs_accepted (o_state o)))));
       ("workers", JInt (Z.of_nat (a_workers a)));
       ("mix", counted mix);
       ("worker_env", JObj (set_member "FTQ_REDIS_URL" (JStr "redis://toxiproxy:2000<i>/0")
          (prod_map id JStr <$> worker_env)));
       ("docker", JObj [("cpus", JStr cpus); ("mem_bytes", JStr mem)]);
       ("seconds", JObj [("fault_phase", jfloat (round_to 1 (o_fault_phase_s o)));
                         ("drain", jfloat (round_to 1 (o_drain_s o)));
                         ("total", jfloat (round_to 1 (o_total_s o)))]);
       ("drained_before_timeout", JBool (o_drained o));
       ("redis_memory_bytes", counted (o_memory o))]);
    ("verifier", verifier_json (o_result o));
    ("faults", JObj [
       ("planned", JInt (Z.of_nat (length (o_plan o))));
       ("executed", counted (counts c));
       ("crash_restarts_by_exit_code", by_number (restarts c));
       ("timeline", JArr (executed_json <$> executed c));
       ("skipped", JArr (skipped_json <$> skipped c))]);
    ("worker_logs", tally_json (o_logs o));
    ("cpu_percent_mean", JObj ((fun x => (x.1, jfloat (mean1 x.2))) <$>
       merge_sort by_key (cpu_by_name (rs_cpu_samples (o_state o)))));
    ("run_dir", JStr (default run_dir (drop_prefix (REPO_ROOT +:+ "/") run_dir)))].
Definition _report (short : Q -> string) (mix : list (string * Z)) (o : outcome) : co json :=
  at_utc <- hosted HUtc ;;
  git <- _git_rev ;;
  cpus <- _docker_info "{{.NCPU}}" ;;
  mem <- _docker_info "{{.MemTotal}}" ;;
  Ret (report_of short mix o at_utc git cpus mem).

(** [{k: mem[k] for k in (...)}] *)
Definition memory_of (mem : list (string * Z)) : result exn (list (string * Z)) :=
  each (fun k => match get (prod_map id Some <$> mem) k None with
                 | Some n => Ok (k, n)
                 | None => Err (KeyError k)
                 end) ["used_memory"; "used_memory_peak"; "maxmemory"].

(** *** The run *)
Fixpoint create_proxies (workers : list nat) : co unit :=
  match workers with
  | [] => Ret tt
  | i :: r =>
      stacked (create_proxy (proxy_name i) ("0.0.0.0:" +:+ proxy_port i) "redis:6379") ;;;
      create_proxies r
  end.
Definition worker_services : list string := service_name <$> seq 1 (a_workers a).
Definition compose_up (args : list string) : co unit :=
  stacked (compose float_repr stack_file args 300) ;;; Ret tt.

(** The faults while the jobs come in. *)
Definition fault_phase (jobs : list (string * NewJob)) (plan : list Fault) : co Q :=
  call (Start Supervising) ;;;
  call (Start Progressing) ;;;
  t0 <- call LoopTime ;;
  call (Start (Producing jobs t0)) ;;;
  call (Join [Producing jobs t0; Injecting plan t0]) ;;;
  now <- call LoopTime ;; Ret (now - t0)%Q.

(** Everything heals, the queue drains, the workers stop: then the verdict. *)
Definition judged (plan : list Fault) (phase_s started : Q) : co outcome :=
  log INFO "fault phase over; healing everything" ;;;
  injected float_repr (heal_all PROJECT) ;;;
  drain_started <- hosted HClock ;;
  drained <- _wait_drained ;;
  now <- hosted HClock ;;
  let drain_s := (now - drain_started)%Q in
  call SetStop ;;;
  call (Join [Supervising]) ;;;
  call (Cancel Progressing) ;;;
  log INFO "stopping workers (SIGTERM, graceful drain)" ;;;
  stacked (compose float_repr stack_file ("stop" :: worker_services) 180) ;;;
  logs <- _collect_logs (a_workers a) ;;
  s <- me ;;
  r <- coroutine (verify float_repr py_repr fuel keys (Settings.group conf) (rs_accepted s)
         MAX_ATTEMPTS MAX_DELIVERIES (Some (evidence_of (rs_chaos s) logs)) (Some Minimums)) ;;
  match r with
  | None => Raise Diverges
  | Some result =>
      info <- call Memory ;;
      mem <- check (memory_of info) ;;
      now <- hosted HClock ;;
      s <- me ;;
      Ret (mk_outcome result plan s logs drained phase_s drain_s (now - started)%Q mem)
  end.

Definition run_up (short : Q -> string) (jobs : list (string * NewJob)) (plan : list Fault)
    (mix : list (string * Z)) (started : Q) : co (report * json) :=
  _wait_toxiproxy ;;;
  create_proxies (seq 1 (a_workers a)) ;;;
  compose_up (["up"; "-d"] ++ worker_services) ;;;
  _wait_consumers (Z.of_nat (a_workers a)) ;;;
  phase_s <- fault_phase jobs plan ;;
  o <- judged plan phase_s started ;;
  r <- _report short mix o ;; Ret (o_result o, r).

Definition cleanup : co unit :=
  call Close ;;; call Close ;;;
  if a_keep a then Ret tt else stacked (down float_repr stack_file).

(** *** The summary that is logged *)
Definition text_of (j : json) : string := str_of_json repr j.          (* "%s" *)
Definition shown (k : string) (j : json) : result exn string := x <-! at_key k j ;; Ok (text_of x).
Definition truth (k : string) (j : json) : result exn bool := x <-! at_key k j ;; Ok (truthy x).
Definition invariant_line (kv : string * json) : result exn string :=
  ok <-! truth "ok" kv.2 ;;
  v <-! at_key "violations" kv.2 ;; l <-! items_of v ;; ts <-! each as_text (take 3 l) ;;
  Ok ("  " +:+ pad_right 26 kv.1 +:+ " " +:+ (if ok : bool then "ok  " else "FAIL") +:+ " " +:+
      join "; " ts).
Definition COUNTED : list string :=
  ["processed"; "dead"; "reclaimed"; "duplicates_suppressed"; "effects_suppressed"; "timeouts";
   "lease_lost"].
Definition mebibytes (k : string) (j : json) : result exn string :=
  x <-! at_key k j ;; q <-! float_of_json x ;; Ok (fixed 0 (q / 1048576)).
Definition summary_lines (report : json) : result exn (list string) :=
  v <-! at_key "verifier" report ;; passed <-! truth "passed" report ;;
  invs <-! at_key "invariants" v ;;
  il <-! (match invs with JObj l => each invariant_line l | _ => Err (TypeError "items") end) ;;
  f <-! at_key "faults" report ;;
  executed <-! shown "executed" f ;; restarts <-! shown "crash_restarts_by_exit_code" f ;;
  c <-! at_key "counters" v ;; cs <-! each (fun k => shown k c) COUNTED ;;
  byd <-! shown "reclaims_by_delivery" v ;; byx <-! shown "reclaims_by_delivery_excluding_crashy" v ;;
  mx <-! shown "max_delivery_excluding_crashy" v ;;
  wl <-! at_key "worker_logs" report ;;
  resets <-! shown "pool_resets" wl ;; starts <-! shown "pool_starts" wl ;;
  odd <-! shown "timeouts_of_runs_that_cannot_hang" wl ;;
  r <-! at_key "run" report ;; secs <-! shown "seconds" r ;;
  mem <-! at_key "redis_memory_bytes" r ;;
  peak <-! mebibytes "used_memory_peak" mem ;; cap <-! mebibytes "maxmemory" mem ;;
  Ok (["==== chaos run " +:+ (if passed : bool then "PASSED" else "FAILED") +:+ " (seed " +:+
       str_of_Z seed +:+ ", " +:+ str_of_Z (a_jobs a) +:+ " jobs, " +:+
       str_of_Z (Z.of_nat (a_workers a)) +:+ " workers) ===="] ++ il ++
      ["  faults " +:+ executed +:+ " | crash restarts " +:+ restarts;
       "  " +:+ join " " (zip_with (fun k t => k +:+ " " +:+ t) COUNTED cs);
       "  reclaims by delivery count: " +:+ byd;
       "  ... excluding crashy jobs: " +:+ byx +:+ " (max " +:+ mx +:+ ", max_deliveries " +:+
       str_of_Z MAX_DELIVERIES +:+ ")";
       "  pool resets " +:+ resets +:+ " | pool starts " +:+ starts +:+
       " | timeouts of runs that can't hang " +:+ odd;
       "  seconds " +:+ secs +:+ " | redis memory peak " +:+ peak +:+ " MiB of maxmemory " +:+ cap +:+
       " MiB";
       "  report: " +:+ a_out a]).
Fixpoint log_all (lines : list string) : co unit :=
  match lines with [] => Ret tt | l :: r => log INFO l ;;; log_all r end.
Definition _summary (report : json) : co unit :=
  lines <- check (summary_lines report) ;; log_all lines.

(** [Run.main]: 0 for a verdict that passed, 1 for one that did not. *)
Definition main (short : Q -> string) : co Z :=
  built <- check (build (R := R) float_repr (a_jobs a) (seeded seed)
    (mk_MixParams LEASE MAX_ATTEMPTS MAX_DELIVERIES)) ;;
  let '(jobs, rng) := built in
  mix <- check (Mix.counts (R := R) float_repr (a_jobs a)) ;;
  (if Qeq_bool (a_rate a) 0 then throw ZeroDivisionError else Ret tt) ;;;
  let span := (inject_Z (a_jobs a) / a_rate a + a_fault_tail a)%Q in
  plan <- (match plan fuel rng (a_workers a) LEASE span (1, 3)%Q with
           | Some p => Ret p
           | None => Raise Diverges
           end) ;;
  (if bool_decide (plan = []) then throw (ValueError "max() arg is an empty sequence")
   else Ret tt) ;;;
  log INFO ("seed " +:+ str_of_Z seed +:+ " | " +:+ str_of_Z (a_jobs a) +:+ " jobs") ;;;
  stacked (write_compose indented stack_file (a_workers a) worker_env seed) ;;;
  (if a_skip_build a then Ret tt
   else log INFO ("building " +:+ WORKER_IMAGE) ;;;
        stacked (build_worker_image float_repr REPO_ROOT)) ;;;
  stacked (down float_repr stack_file) ;;;
  compose_up ["up"; "-d"; "--wait"; "redis"; "toxiproxy"] ;;;
  started <- hosted HClock ;;
  r <- finally (run_up short jobs plan mix started) cleanup ;;
  hosted (HWrite (a_out a) (indented r.2 +:+ newline)) ;;;
  _summary r.2 ;;;
  Ret (if passed r.1 then 0 else 1).
End Attributes.

(** The settings are made, the run's directory, the seed announced; 2 is a harness error. *)
Definition start_run (short : Q -> string) (a : Args) : co Z :=
  seed <- (match a_seed a with Some s => Ret s | None => call Random31 end) ;;
  stamp <- (match a_run_dir a with Some _ => Ret "" | None => call Stamp end) ;;
  let run_dir := default (REPO_ROOT +:+ "/chaos/runs/" +:+ stamp) (a_run_dir a) in
  conf <- check (settings a) ;;
  hosted (HPrint ("chaos seed: " +:+ str_of_Z seed)) ;;;
  except is_exception (main a seed run_dir conf short)
    (fun e => log ERROR "chaos run aborted (harness error, not a verdict)" ;;; Ret 2).
End Run.
