(* ===== verification/Trial.v ===== *)
(** What a chaos run (Chaos.v, chaos/run.py) may rely on: accepted means answered, drained
    means empty, and what its logs count. *)
From S2P Require Import Prelude Effects Redis Keys LuaScripts Queue Ops Refine.
From S2P Require Import Fields Streams Logs Invariants Machine System RedisRef Demo.
From S2P Require Import Safety.
From S2P Require Import Json Py Models Config Transitions Registry Reaper Client.
From S2P Require Import World.
From S2P Require Import Names Metrics Handlers Tables Analysis Random Mix Faults.
From S2P Require Import Verifier.
From S2P Require Import Texts Shell Topology Chaos.
From Stdlib Require Import Lqa.

#[local] Open Scope string_scope.
#[local] Open Scope list_scope.
#[local] Open Scope Z_scope.
#[local] Open Scope prog_scope.

(** ** Accepted means answered *)
(** The producer's world: the admission calls and their answers, the client's counters, the
    run's objects and the lines of its file. A call may be answered anything or fail; a
    write may fail. *)
Record world := mk_world {
  w_log : enq_log;
  w_counts : ProducerCounters;
  w_run : run_state;
  w_lines : list string;
}.
Definition producing X (e : ch X) (v : world) (r : result stop X) (v' : world) : Prop :=
  match e in ch Y return result stop Y -> Prop with
  | Queue c => fun r =>
      (w_run v' = w_run v /\ w_lines v' = w_lines v) /\
      match r with
      | Ok x => acct _ c (w_log v, w_counts v) (Ok x) (w_log v', w_counts v')
      | Err (Throws m) => acct _ c (w_log v, w_counts v) (Err m) (w_log v', w_counts v')
      | Err _ => w_log v' = w_log v
      end
  | Me f => fun r => r = Ok (f (w_run v)).1 /\
      v' = mk_world (w_log v) (w_counts v) (f (w_run v)).2 (w_lines v)
  | Line _ text => fun r =>
      (r = Ok tt /\ v' = mk_world (w_log v) (w_counts v) (w_run v) (w_lines v ++ [text])) \/
      (is_ok r = false /\ v' = v)
  | Open _ => fun r =>
      (r = Ok tt /\ v' = mk_world (w_log v) (w_counts v) (w_run v) []) \/
      (is_ok r = false /\ v' = v)
  | _ => fun _ => v' = v
  end r.

(** The record of a job: its own call was answered, not refused, with this id. *)
Definition accepts (conf : Settings.t) (log : enq_log) (job : string * NewJob)
    (rec : string * string) : Prop :=
  rec.2 = job.1 /\ exists c ca x, call_of conf job.2 c /\
    (Client.argv ca c.2, x) ∈ admitted log /\ x.1.1 = rec.1.

Definition table (recs : list (string * string)) : list (string * string) :=
  foldl (fun d x => put d x.1 x.2) [] recs.
Definition line_of (rec : string * string) : string := accepted_line rec.1 rec.2.

(** After recording [recs], the jobs of a prefix: all is on record, in order. *)
Record noted (conf : Settings.t) (done : list (string * NewJob)) (recs : list (string * string))
    (v : world) : Prop := {
  n_accepts : Forall2 (accepts conf (w_log v)) done recs;
  n_table : rs_accepted (w_run v) = table recs;
  n_open : rs_enqueue_done (w_run v) = false;
}.
(** The file has a line for each record; when a write failed, not for the last. *)
Definition filed (recs : list (string * string)) (lines : list string) : Prop :=
  lines = line_of <$> recs \/ lines = line_of <$> removelast recs.

Section Producing.
Context (conf : Settings.t) (a : Args) (run_dir : string) (fuel : nat).

Lemma accepts_mono log extra job rec :
  accepts conf log job rec -> accepts conf (log ++ extra) job rec.
Proof.
  intros (Hk & c & ca & x & Hc & Hin & Hid). split; [done|]. exists c, ca, x.
  split; [done|]. split; [|done]. unfold admitted in *. rewrite filter_app. apply elem_of_app. by left.
Qed.
Lemma noted_later done recs v v' extra : noted conf done recs v ->
  w_log v' = w_log v ++ extra -> w_run v' = w_run v -> noted conf done recs v'.
Proof.
  intros [Ha Ht Ho] Hl Hr. split; [|by rewrite Hr..]. rewrite Hl.
  eapply Forall2_impl; [exact Ha|]. intros. by apply accepts_mono.
Qed.

(** What a step of the producer leaves, from a state where [done] was noted. *)
Definition leaves (jobs done : list (string * NewJob)) (r : result stop unit) (v : world) : Prop :=
  match r with
  | Ok _ => exists recs, noted conf done recs v /\ w_lines v = line_of <$> recs
  | Err _ => exists done' recs, done' `prefix_of` jobs /\ noted conf done' recs v /\
               filed recs (w_lines v)
  end.

Lemma record_batch_wp jobs batch : forall ids done recs v,
  done ++ batch `prefix_of` jobs -> noted conf done recs v -> w_lines v = line_of <$> recs ->
  Forall2 (fun job id => accepts conf (w_log v) job (id, job.1)) batch ids ->
  wp producing (record_batch run_dir ids batch) v (leaves jobs (done ++ batch)).
Proof.
  induction batch as [|[kind new] batch IH]; intros ids done recs v Hp Hn Hl Hids.
  - apply Forall2_nil_inv_l in Hids as ->. cbn. rewrite app_nil_r. by exists recs.
  - apply Forall2_cons_inv_l in Hids as (id & ids' & Hid & Hids & ->). cbn [record_batch].
    assert (Hn1 : noted conf (done ++ [(kind, new)]) (recs ++ [(id, kind)])
      (mk_world (w_log v) (w_counts v) (accept id kind (w_run v)) (w_lines v))).
    { destruct Hn as [Ha Ht Ho]. split; cbn; [|by rewrite Ht; unfold table; rewrite foldl_app|done].
      apply Forall2_app; [done|]. by constructor. }
    assert (Hp1 : done ++ [(kind, new)] `prefix_of` jobs).
    { etransitivity; [|exact Hp]. exists batch. by rewrite <- app_assoc. }
    apply wp_call. intros r v1 [-> ->]. cbn [fst snd].
    apply wp_call. intros r v1 [[-> ->]|[Hr ->]].
    + replace (done ++ (kind, new) :: batch) with ((done ++ [(kind, new)]) ++ batch) in *
        by by rewrite <- app_assoc.
      eapply IH; [done| | |done]; [destruct Hn1; by split|]. cbn. by rewrite Hl, fmap_app.
    + destruct r as [|e]; [done|]. exists (done ++ [(kind, new)]), (recs ++ [(id, kind)]).
      split; [done|]. split; [done|]. right. rewrite removelast_last. exact Hl.
Qed.

(** The queue's answers leave the run's objects alone, and the log only grows. *)
Definition queue_only (v v' : world) : Prop :=
  w_run v' = w_run v /\ w_lines v' = w_lines v /\ exists extra, w_log v' = w_log v ++ extra.
#[local] Instance queue_only_order : PreOrder queue_only.
Proof.
  split.
  - intros v. split_and!; try done. exists []. by rewrite app_nil_r.
  - intros v1 v2 v3 (? & ? & l & Hl) (? & ? & l' & Hl'). split_and!; [congruence..|].
    exists (l ++ l'). by rewrite Hl', Hl, app_assoc.
Qed.

Lemma client_wp {A} (p : py ProducerCounters Empty_set A) Q (v : world) :
  wp acct p (w_log v, w_counts v) Q ->
  wp producing (coroutine p) v (fun r v' => queue_only v v' /\
    match r with
    | Ok a => Q (Ok a) (w_log v', w_counts v')
    | Err (Throws m) => Q (Err m) (w_log v', w_counts v')
    | Err _ => True
    end).
Proof.
  apply (translated_wp (@Queue) (fun v => (w_log v, w_counts v)) acct producing queue_only).
  intros X c w r w' [[Hr Hl] Hs].
  assert (Hgrow : forall x, acct _ c (w_log w, w_counts w) x (w_log w', w_counts w') ->
    exists extra, w_log w' = w_log w ++ extra).
  { intros x Hx. rewrite <- (app_nil_r (w_log w)) in Hx.
    apply acct_shift in Hx as (l' & Hl' & _). by exists l'. }
  destruct r as [x|[|e|]]; (split; [split_and!; eauto|done]); exists []; by rewrite app_nil_r.
Qed.

Lemma sent_wp jobs batch done recs v :
  done ++ batch `prefix_of` jobs -> noted conf done recs v -> w_lines v = line_of <$> recs ->
  wp producing (r <- coroutine (Client.enqueue_many conf fuel batch.*2) ;;
                match r with inl _ => Raise Diverges | inr ids => record_batch run_dir ids batch end)
    v (leaves jobs (done ++ batch)).
Proof.
  intros Hp Hn Hl. apply wp_bind. eapply wp_mono.
  { apply client_wp. pose proof (wp_shift (T := Empty_set) _ _ (w_log v) [] (w_counts v)
      (enqueue_many_wp conf fuel batch.*2 (w_counts v))) as Hw.
    rewrite app_nil_r in Hw. exact Hw. }
  intros r v' [(Hrun & Hlines & extra & Hlog) Hr].
  pose proof (noted_later _ _ _ _ _ Hn Hlog Hrun) as Hn'. rewrite <- Hlines in Hl.
  assert (Herr : forall e, leaves jobs (done ++ batch) (Err e) v').
  { intros e. exists done, recs. split; [|split; [done|by left]].
    etransitivity; [|exact Hp]. by exists batch. }
  destruct r as [[st|ids]|e]; [apply Herr| |apply Herr].
  destruct Hr as (l' & Hl' & calls & Hcalls & _ & Hlen & _ & Hans & _). cbn [fst] in Hl'.
  eapply record_batch_wp; [done..|]. pose proof (Forall2_length _ _ _ Hcalls) as Hlc.
  rewrite length_fmap in Hlc. apply Forall2_same_length_lookup. split; [congruence|].
  intros i [kind new] id Hb Hid. split; [done|].
  destruct (Hans i id) as (c & ca & x & Hc & Hin & Hx); [by rewrite list_lookup_fmap, Hid|].
  exists c, ca, x. split_and!; [|..|done].
  - eapply (Forall2_lookup_lr _ _ _ i) in Hcalls; [exact Hcalls| |done].
    by rewrite list_lookup_fmap, Hb.
  - rewrite Hl'. unfold admitted in *. rewrite filter_app. apply elem_of_app. by right.
Qed.

Lemma enqueue_batch_wp t0 i jobs batch done recs v :
  done ++ batch `prefix_of` jobs -> noted conf done recs v -> w_lines v = line_of <$> recs ->
  wp producing (enqueue_batch fuel a run_dir conf t0 i batch) v (leaves jobs (done ++ batch)).
Proof.
  intros Hp Hn Hl.
  assert (Herr : forall e, leaves jobs (done ++ batch) (Err e) v).
  { intros e. exists done, recs. split; [|split; [done|by left]].
    etransitivity; [|exact Hp]. by exists batch. }
  unfold enqueue_batch. apply wp_bind. destruct (Qeq_bool _ _); [apply Herr|]. apply wp_ret.
  apply wp_call. intros r v1 ->. destruct r; [|apply Herr].
  apply wp_call. intros r v1 ->. destruct r; [|apply Herr]. by eapply sent_wp.
Qed.

Lemma batches_wp t0 jobs batches : forall i done recs v,
  done ++ concat batches `prefix_of` jobs -> noted conf done recs v ->
  w_lines v = line_of <$> recs ->
  wp producing (enqueue_batches fuel a run_dir conf t0 i batches) v
    (leaves jobs (done ++ concat batches)).
Proof.
  induction batches as [|b batches IH]; intros i done recs v Hp Hn Hl; cbn [enqueue_batches concat].
  - cbn. rewrite app_nil_r. by exists recs.
  - cbn [concat] in Hp. rewrite app_assoc in Hp. apply wp_bind. eapply wp_mono.
    { eapply enqueue_batch_wp; [|done|done]. etransitivity; [|exact Hp]. by eexists. }
    intros r v1 Hr. destruct r as [[]|e]; [|done]. destruct Hr as (recs' & Hn' & Hl').
    rewrite app_assoc. by eapply IH.
Qed.
End Producing.

(** How a run of the producer ends. *)
Definition produced (conf : Settings.t) (jobs : list (string * NewJob)) (r : result stop unit)
    (v : world) : Prop :=
  exists recs, (length recs <= length jobs)%nat /\
    Forall2 (accepts conf (w_log v)) (take (length recs) jobs) recs /\
    rs_accepted (w_run v) = table recs /\ filed recs (w_lines v) /\
    (rs_enqueue_done (w_run v) = true -> recs.*2 = jobs.*1 /\ w_lines v = line_of <$> recs) /\
    (r = Ok tt -> rs_enqueue_done (w_run v) = true).

Lemma noted_produced conf jobs done recs r v :
  done `prefix_of` jobs -> noted conf done recs v -> filed recs (w_lines v) -> r <> Ok tt ->
  produced conf jobs r v.
Proof.
  intros [rest ->] [Ha Ht Ho] Hf Hr. exists recs. pose proof (Forall2_length _ _ _ Ha) as Hlen.
  rewrite length_app, <- Hlen, take_app_length.
  split; [lia|]. split_and!; try done. by rewrite Ho.
Qed.

Lemma noted_kinds conf done recs v : noted conf done recs v -> recs.*2 = done.*1.
Proof.
  intros [Ha _ _]. induction Ha as [|[kind new] rec done recs [Hk _] _ IH]; [done|].
  cbn in *. by rewrite Hk, IH.
Qed.

Lemma recording_wp conf a run_dir fuel jobs t0 v :
  rs_accepted (w_run v) = [] -> rs_enqueue_done (w_run v) = false -> w_lines v = [] ->
  wp producing (_produce fuel a run_dir conf jobs t0) v (produced conf jobs).
Proof.
  intros Ha Hd Hl. unfold _produce.
  assert (Hn : forall w, w_run w = w_run v -> noted conf [] [] w).
  { intros w Hw. by split; [constructor|rewrite Hw..]. }
  apply wp_call. intros r v1 Hopen.
  assert (Hv1 : w_run v1 = w_run v /\ w_lines v1 = []).
  { destruct Hopen as [[_ ->]|[_ ->]]; by split. }
  destruct Hv1 as [Hr1 Hl1].
  destruct r; [|apply (noted_produced _ _ [] []); [apply prefix_nil|by apply Hn|by left|done]].
  set (bs := chunks (length jobs) BATCH jobs).
  assert (Hbs : concat bs = jobs) by (apply chunks_concat; [unfold BATCH; lia|done]).
  apply wp_bind. eapply wp_mono.
  { apply (batches_wp conf a run_dir fuel t0 jobs bs 0 [] []); [by rewrite Hbs|by apply Hn|done]. }
  intros r v2 Hr. rewrite Hbs in Hr. cbn [app] in Hr.
  destruct r as [[]|e]; [|destruct Hr as (done' & recs & Hp & Hn' & Hf); by eapply noted_produced].
  destruct Hr as (recs & Hn2 & Hl2). apply wp_call. intros r v3 [-> ->]. cbn [fst snd].
  assert (Hdone : forall r, produced conf jobs r
    (mk_world (w_log v2) (w_counts v2) (enqueue_done (w_run v2)) (w_lines v2))).
  { intros r. exists recs. pose proof (noted_kinds _ _ _ _ Hn2) as Hk. destruct Hn2 as [Hac Ht _].
    pose proof (Forall2_length _ _ _ Hac) as Hlen. rewrite <- Hlen, firstn_all.
    split_and!; try done. by left. }
  apply wp_call. intros r v3 [-> ->]. cbn [fst snd].
  unfold log, hosted. cbn. intros r v3 ->. destruct r as [[]|e]; apply Hdone.
Qed.

(** C35: in a chaos run a job counts as accepted only once its enqueue call returned, whatever
    the queue answers and wherever the producer is stopped. What it has on record then are
    the jobs of a prefix of the mix, in order, each with its own kind and the id with which
    the server answered that job's own admission, and not "full"; the file of accepted
    jobs has their lines, in order, all but the last at least. When the producer returns,
    every job of the mix is on record and in the file, and only then the run says that
    the enqueueing is done. *)
Theorem accepted_means_answered (conf : Settings.t) (a : Args) (run_dir : string) (fuel : nat)
    (jobs : list (string * NewJob)) (t0 : Q) (v v' : world) (r : result stop unit) :
  rs_accepted (w_run v) = [] -> rs_enqueue_done (w_run v) = false -> w_lines v = [] ->
  runs producing (_produce fuel a run_dir conf jobs t0) v r v' ->
  exists recs, (length recs <= length jobs)%nat /\
    Forall2 (accepts conf (w_log v')) (take (length recs) jobs) recs /\
    rs_accepted (w_run v') = table recs /\ filed recs (w_lines v') /\
    (rs_enqueue_done (w_run v') = true -> recs.*2 = jobs.*1 /\ w_lines v' = line_of <$> recs) /\
    (r = Ok tt -> rs_enqueue_done (w_run v') = true).
Proof.
  intros Ha Hd Hl. apply (wp_runs producing _ v r v' (fun r v' => produced conf jobs r v')).
  by apply recording_wp.
Qed.

(** A server that answers what it is told to. *)
Definition toy_world : Type := list (string * Z * Z) * world.
Definition told X (e : ch X) (w : toy_world) : result stop X * toy_world :=
  match e in ch Y return result stop Y * toy_world with
  | @Queue Y c =>
      match c in pyev _ _ Y return result stop Y * toy_world with
      | EScript n keys args =>
          match n return result stop (reply n) * toy_world with
          | S_enqueue =>
              match w.1 with
              | x :: l => (Ok x, (l, mk_world (w_log w.2 ++ [(args, x)]) (w_counts w.2)
                                       (w_run w.2) (w_lines w.2)))
              | [] => (Err (Throws (RedisConnectionError "")), w)
              end
          | _ => (Err (Throws (ResponseError "ERR unknown")), w)
          end
      | ESelf f => (Ok (f (w_counts w.2)).1,
          (w.1, mk_world (w_log w.2) (f (w_counts w.2)).2 (w_run w.2) (w_lines w.2)))
      | ETime => (Ok 0%Q, w)
      | EUniform a b => (Ok a, w)
      | EUuid => (Ok "u"%string, w)
      | ESleep _ | EWait _ | ELog _ _ | ESpawn _ => (Ok tt, w)
      | ECmd _ | EAwait _ | ECompute _ _ | EExit _ => (Err (Throws (ResponseError "ERR")), w)
      end
  | Me f => (Ok (f (w_run w.2)).1,
             (w.1, mk_world (w_log w.2) (w_counts w.2) (f (w_run w.2)).2 (w_lines w.2)))
  | Line _ text =>
      (Ok tt, (w.1, mk_world (w_log w.2) (w_counts w.2) (w_run w.2) (w_lines w.2 ++ [text])))
  | Open _ => (Ok tt, (w.1, mk_world (w_log w.2) (w_counts w.2) (w_run w.2) []))
  | LoopTime => (Ok 0%Q, w)
  | Sleep _ => (Ok tt, w)
  | Stack t => (match t in topo Y return result stop Y with
                | OnHost h =>
                    match h in host Y return result stop Y with
                    | HLog _ _ => Ok tt
                    | _ => Err (Throws CancelledError)
                    end
                | _ => Err (Throws CancelledError)
                end, w)
  | _ => (Err (Throws CancelledError), w)
  end.
Lemma told_ok X (e : ch X) (w : toy_world) :
  producing X e w.2 (fst (told X e w)) (snd (told X e w)).2.
Proof.
  destruct w as [as_ [l c k f]]. destruct e; try done.
  - destruct e; cbn; try (split; [by split|split; [by intros m [=]; subst|done]]); try done.
    destruct n; cbn; try done.
    destruct as_ as [|x as_]; cbn; (split; [by split|]); [right|left]; by eexists.
  - cbn. by left.
  - cbn. by left.
Qed.

Definition toy_args : Args := mk_Args 2 1 1 None 10 0 10 "out" None false false.
Definition toy_jobs : list (string * NewJob) :=
  [("normal", mk_NewJob "send_email" [] None); ("flaky", mk_NewJob "flaky" [] None)].
Definition idle_run : run_state := mk_run [] false [] (mk_chaos ∅ [] [] []).
Definition toy_start (answers : list (string * Z * Z)) : toy_world :=
  (answers, mk_world [] (mk_counters 0 0 0 0 0) idle_run []).
Definition toy_produced (answers : list (string * Z * Z)) :=
  Effects.run told (_produce 3 toy_args "run" Settings.defaults toy_jobs 0) (toy_start answers).

Lemma accepted_means_answered_witness :
  let p := toy_produced [("a", 1, 1); ("b", 1, 2)] in
  p.1 = Ok tt /\ rs_accepted (w_run p.2.2) = [("a", "normal"); ("b", "flaky")] /\
  exists recs, (length recs <= 2)%nat /\
    Forall2 (accepts Settings.defaults (w_log p.2.2)) (take (length recs) toy_jobs) recs /\
    rs_accepted (w_run p.2.2) = table recs /\ filed recs (w_lines p.2.2) /\
    (rs_enqueue_done (w_run p.2.2) = true ->
       recs.*2 = toy_jobs.*1 /\ w_lines p.2.2 = line_of <$> recs) /\
    (p.1 = Ok tt -> rs_enqueue_done (w_run p.2.2) = true).
Proof.
  split; [vm_compute; reflexivity|]. split; [vm_compute; reflexivity|].
  apply (accepted_means_answered Settings.defaults toy_args "run" 3 toy_jobs 0
    (mk_world [] (mk_counters 0 0 0 0 0) idle_run [])); [done..|].
  exact (runs_run producing snd told told_ok _ (toy_start [("a", 1, 1); ("b", 1, 2)])).
Defined.

(** ** The timeouts that are held against a run *)
Definition HANGING : list string := ["hang"; "hang_thread"; "hang_process"].

Lemma hang_may {R} `{Rng R} (float_repr : Q -> string) (k : Kind) (p : MixParams) (rng : R)
    (job : Job) :
  k ∈ Mix.KINDS float_repr -> job_type k ∈ HANGING ->
  payload job = (kind_payload k p rng).1 -> 0 <= attempt job -> _hangs job = Ok true ->
  _may_hang (name k) (attempt job) = true.
Proof.
  intros Hk Ht Hp Ha Hh. pose proof (kind_fits float_repr p k rng job Hk Hp) as [_ Hf _].
  assert (Hlow : name k ∈ HANGING -> attempt job < 2).
  { intros Hin. destruct (Z.lt_ge_cases (attempt job) 2); [done|].
    destruct Hf as [_ Hf]; [revert Hin; clear; unfold HANGING; set_solver|].
    rewrite Hf in Hh by done. done. }
  unfold Mix.KINDS in Hk. rewrite !elem_of_cons, elem_of_nil in Hk. unfold _may_hang.
  destruct Hk as [->|[->|[->|[->|[->|[->|[->|[->|[->|[->|[]]]]]]]]]]];
    try (by apply (bool_decide_eq_true_2 _) in Ht); try done;
    try (by apply Z.ltb_lt, Hlow, (bool_decide_eq_true_1 _)).
  cbn in Hp. destruct (rng_uniform 3 5 rng) as [u rng'].
  unfold _hangs in Hh. rewrite Hp in Hh. by injection Hh.
Qed.

(** No hang is held against a healthy worker. When a worker's log says that a run timed
    out, and the run did hang - its handler is one of the three that hang, and the job's
    payload, drawn for its kind, makes this attempt hang - the tally of false timeouts
    stays as it was, for every kind of the mix and every draw. *)
Theorem hang_not_false_timeout {R} `{Rng R} (float_repr : Q -> string) (repr : json -> string)
    (k : Kind) (p : MixParams) (rng : R) (job : Job) (accepted : list (string * string))
    (line : string) (record : json) (t t' : log_tally) :
  k ∈ Mix.KINDS float_repr -> job_type k ∈ HANGING ->
  payload job = (kind_payload k p rng).1 -> 0 <= attempt job -> _hangs job = Ok true ->
  get accepted (job_id job) "?" = name k ->
  get_or "job_id" JNull record = Ok (JStr (job_id job)) ->
  get_or "attempt" (JInt 0) record = Ok (JInt (attempt job)) ->
  tally_record repr accepted line record t = Ok t' ->
  false_timeouts t' = false_timeouts t.
Proof.
  intros Hk Ht Hp Ha Hh Hacc Hid Hatt. pose proof (hang_may _ _ _ _ _ Hk Ht Hp Ha Hh) as Hm.
  unfold tally_record, kind_of. rewrite Hid, Hatt. cbn [and_then str_of_json int_of_json].
  rewrite Hacc, Hm.
  repeat match goal with
  | |- context [match drop_prefix ?x ?y with _ => _ end] =>
      destruct (drop_prefix x y); cbn [and_then]
  | |- context [and_then ?x _] => destruct x; cbn [and_then]; [|done]
  end; intros [= <-]; reflexivity.
Qed.

(** A process that hangs on its second attempt, and the line its worker logs. *)
Definition stuck_kind : Kind := hang_process (R := nat).
Definition stuck_params : MixParams := mk_MixParams 2 8 12.
Definition stuck_job : Job :=
  mk_Job "j1" "hang_process" (kind_payload stuck_kind stuck_params 1%nat).1 1 "k" 0.
Definition stuck_record : json :=
  JObj [("level", JStr "WARNING"); ("msg", JStr "HandlerTimeout: too long"); ("job_id", JStr "j1");
        ("attempt", JInt 1)].
Definition stuck_tally : result exn log_tally :=
  tally_record (fun _ => "") [("j1", "hang_process")] "line" stuck_record no_logs.

Lemma hang_not_false_timeout_witness : exists t',
  stuck_tally = Ok t' /\ levels t' = [("WARNING", 1)] /\ false_timeouts t' = false_timeouts no_logs.
Proof.
  eexists. split; [vm_compute; reflexivity|]. split; [reflexivity|].
  apply (hang_not_false_timeout (fun _ => "") (fun _ => "") stuck_kind stuck_params 1%nat stuck_job
    [("j1", "hang_process")] "line" stuck_record no_logs); try reflexivity.
  - do 6 right. left.
  - by apply (bool_decide_eq_true_1 _).
  - done.
Defined.
