(* ===== verification/Drain.v ===== *)
(** The wait of a chaos run for an empty queue (chaos/run.py's [_wait_drained]): it ends, it
    says "drained" only of a queue that has finished its jobs, and gives up only late. *)
From S2P Require Import Prelude Effects Redis Keys LuaScripts RedisRules Queue Ops.
From S2P Require Import Refine Fields Streams Logs Invariants Machine System.
From S2P Require Import RedisRef Demo Safety Operations.
From S2P Require Import Json Py Models Config World Client Metrics Shell Topology.
From S2P Require Import Chaos.
From stdpp Require Import relations.
From Stdlib Require Import Qround Lqa.

#[local] Open Scope string_scope.
#[local] Open Scope list_scope.
#[local] Open Scope Z_scope.
#[local] Open Scope prog_scope.

(** The queue, the monotonic clock, and the queue as it was when each sleep began. *)
Record world := mk_world { w_sys : sys; w_clock : Q; w_slept : list sys }.

Section Drain.
Context `{CJson} (conf : Settings.t) (T : bool) (a : Args).
Abbreviation K := (Keys.mk (Settings.queue conf)).
Abbreviation G := (Settings.group conf).
Abbreviation reachable := (reachable K G T).

(** The commands of a poll see a queue that stands still; while the run sleeps, workers,
    schedulers and reapers take any steps, and the clock moves on by what was asked for at
    least. Nothing fails. *)
Definition draining X (e : ch X) (v : world) (r : result stop X) (v' : world) : Prop :=
  match e in ch Y return result stop Y -> Prop with
  | Queue c => fun r => w_clock v' = w_clock v /\ w_slept v' = w_slept v /\
      s_accepted (w_sys v') = s_accepted (w_sys v) /\ s_given (w_sys v') = s_given (w_sys v) /\
      match r with
      | Ok x => alone _ c (s_view (w_sys v)) (Ok x) (s_view (w_sys v'))
      | Err (Throws m) => alone _ c (s_view (w_sys v)) (Err m) (s_view (w_sys v'))
      | Err _ => False
      end
  | Stack t =>
      match t in topo Y return result stop Y -> Prop with
      | OnHost h =>
          match h in host Y return result stop Y -> Prop with
          | HClock => fun r => exists now, r = Ok now /\ (w_clock v <= now)%Q /\
              v' = mk_world (w_sys v) now (w_slept v)
          | HSleep d => fun r => r = Ok tt /\ (w_clock v + d <= w_clock v')%Q /\
              rtc (sstep K G T) (w_sys v) (w_sys v') /\ w_slept v' = w_slept v ++ [w_sys v]
          | HLog _ _ => fun r => r = Ok tt /\ v' = v
          | _ => fun _ => v' = v
          end
      | _ => fun _ => v' = v
      end
  | _ => fun _ => v' = v
  end r.

(** Nothing waits, nothing is delivered and not finished, no retry is due later. *)
Record idle (s : sys) : Prop := {
  idle_stream : entries_at (Keys.stream K) (s_view s) = [];
  idle_delayed : zset_at (Keys.delayed K) (s_view s) = ∅;
  idle_pending : pel (group_at (Keys.stream K) G (s_view s)) = ∅;
}.
Definition finished (s : sys) : Prop := forall j, j ∈ s_accepted s ->
  job_state K j (s_view s) = Some "SUCCEEDED" \/ job_state K j (s_view s) = Some "DEAD".

Lemma idle_finished s : reachable s -> idle s -> finished s.
Proof.
  intros Hs [He Hz _] j Hj. destruct (reachable_good _ _ _ _ Hs) as (q & (Hr & HA & HD) & Hi).
  unfold ainv in Hi. rewrite <- HA, <- HD in Hi.
  rewrite (entries_stream Hr) in He. rewrite (zset_delayed Hr) in Hz. rewrite (state_done Hr).
  by apply (drained_finished _ _ _ _ Hi).
Qed.

(** What the two numbers of a snapshot say when both are 0. *)
Lemma idle_snapshot s snap : reachable s -> truthful conf (s_view s) snap ->
  snap_depth snap = 0 -> snap_in_flight snap = 0 -> idle s.
Proof.
  intros Hs [Hd Hf _ _ _ _ _ _] H0 H1.
  destruct (reachable_good _ _ _ _ Hs) as (q & (Hr & HA & HD) & Hi).
  rewrite Hd in H0. rewrite Hf in H1. unfold depth_at in H0. split.
  - apply nil_length_inv. lia.
  - apply map_size_empty_inv. lia.
  - apply map_size_empty_inv. lia.
Qed.

Definition reading (v v' : world) : Prop :=
  w_clock v' = w_clock v /\ w_slept v' = w_slept v /\
  s_accepted (w_sys v') = s_accepted (w_sys v) /\ s_given (w_sys v') = s_given (w_sys v).
#[local] Instance reading_order : PreOrder reading.
Proof.
  split; [by intros ?|]. intros v1 v2 v3 (? & ? & ? & ?) (? & ? & ? & ?). repeat split; congruence.
Qed.

Lemma snapshot_poll_wp v : reachable (w_sys v) ->
  wp draining (coroutine (snapshot conf)) v (fun r v' =>
    v' = v /\ exists snap, r = Ok snap /\ truthful conf (s_view (w_sys v)) snap).
Proof.
  intros Hs. destruct (reachable_good _ _ _ _ Hs) as ([q A D] & (Hr & _) & Hi).
  eapply wp_mono.
  { apply (translated_wp (@Queue) (fun v => s_view (w_sys v)) alone draining reading False);
      [|by eapply (snapshot_wp conf T)].
    intros X c w r w' (Hc & Hl & Ha & Hg & Hx). by destruct r as [x|[|e|]]. }
  intros r v' [(Hc & Hl & Ha & Hg) Hx].
  destruct r as [snap|[|e|]]; [|done|by destruct Hx as (_ & ? & [=] & _)|done].
  destruct Hx as (Hv & snap' & [= <-] & Ht). split; [|by exists snap].
  destruct v as [[] ? ?], v' as [[] ? ?]. cbn in *. by subst.
Qed.

(** *** Three polls in a row *)
Definition thrice (l : list sys) : Prop :=
  exists rest s1 s2 s3 post, l = rest ++ [s1; s2; s3] ++ post /\ idle s1 /\ idle s2 /\ idle s3.
(** The last [n] are idle, and the one before them is not. *)
Definition streak (l : list sys) (n : Z) : Prop :=
  exists rest run, l = rest ++ run /\ Z.of_nat (length run) = n /\ Forall idle run /\
    forall s, last rest = Some s -> ~ idle s.

Lemma streak_idle l s n : streak l n -> idle s -> streak (l ++ [s]) (n + 1).
Proof.
  intros (rest & run & -> & Hn & Hr & Hl) Hs. exists rest, (run ++ [s]).
  rewrite length_app, app_assoc. cbn [length]. split_and!; [done|lia| |done].
  apply Forall_app. by split; [|apply Forall_singleton].
Qed.
Lemma streak_busy l s : ~ idle s -> streak (l ++ [s]) 0.
Proof.
  intros Hs. exists (l ++ [s]), []. rewrite app_nil_r. split_and!; try done.
  intros x. rewrite last_snoc. by intros [= <-].
Qed.
Lemma streak_short l s n : ~ thrice l -> streak (l ++ [s]) n -> n < 3 -> ~ thrice (l ++ [s]).
Proof.
  intros Hl (rest & run & Hs & Hn & _ & Hlast) Hn3 (pre & s1 & s2 & s3 & post & Ht & H1 & H2 & H3).
  destruct post as [|x post' _] using rev_ind.
  2: { apply Hl. exists pre, s1, s2, s3, post'. split; [|done].
       rewrite !app_assoc in Ht. apply app_inj_tail in Ht as [-> _]. by rewrite <- app_assoc. }
  rewrite app_nil_r, Hs in Ht.
  assert (Hrest : exists k, (k < 3)%nat /\ rest = pre ++ take (S k) [s1; s2; s3]).
  { exists (2 - length run)%nat. split; [lia|].
    apply (app_inj_2 _ _ run (drop (S (2 - length run)) [s1; s2; s3])).
    - rewrite length_drop. cbn [length]. lia.
    - by rewrite <- app_assoc, take_drop. }
  destruct Hrest as (k & Hk & ->).
  destruct k as [|[|[|k]]]; [..|lia]; cbn [take] in Hlast;
    eapply Hlast; rewrite ?last_app; cbn; done.
Qed.

(** *** The loop *)
(** Still waiting, with [quiet] idle polls in a row. *)
Record waiting (quiet : Z) (v : world) : Prop := {
  wt_reachable : reachable (w_sys v);
  wt_quiet : 0 <= quiet < 3;
  wt_streak : streak (w_slept v) quiet;
  wt_never : ~ thrice (w_slept v);
}.
Lemma waiting_start s t : reachable s -> waiting 0 (mk_world s t []).
Proof.
  intros Hs. split; [done|done|by exists [], []|].
  intros (rest & s1 & s2 & s3 & post & Hl & _). by destruct rest.
Qed.
(** What [_wait_drained] answers, with what it saw. *)
Definition outcome_of (deadline : Q) (b : bool) (v : world) : Prop :=
  reachable (w_sys v) /\
  if b then idle (w_sys v) /\ thrice (w_slept v ++ [w_sys v])
  else (deadline <= w_clock v)%Q /\ ~ thrice (w_slept v).

Lemma counted_idle s snap quiet l : reachable s -> truthful conf (s_view s) snap ->
  streak l quiet ->
  let quiet' := if (snap_depth snap =? 0) && (snap_in_flight snap =? 0) then quiet + 1 else 0 in
  streak (l ++ [s]) quiet' /\ (0 < quiet' -> idle s).
Proof.
  intros Hs Ht Hst. destruct (_ && _) eqn:Hz; cbn zeta.
  - apply andb_prop in Hz as [Hd Hf].
    assert (Hi : idle s) by (eapply idle_snapshot; [done|done|lia..]).
    split; [by apply streak_idle|done].
  - split; [|lia]. apply streak_busy. intros [He Hde Hp]. apply andb_false_iff in Hz.
    destruct Ht as [Hd Hf _ _ _ _ _ _].
    rewrite Hd, Hf, Hp, map_size_empty in Hz. unfold depth_at in Hz.
    rewrite He, Hde, map_size_empty in Hz. by destruct Hz.
Qed.

Lemma streak_thrice l n : streak l n -> 3 <= n -> thrice l.
Proof.
  intros (rest & run & -> & Hn & Hr & _) H3. destruct run as [|s1 [|s2 [|s3 run]]]; cbn in Hn; try lia.
  apply Forall_cons in Hr as [H1 Hr]. apply Forall_cons in Hr as [H2 Hr].
  apply Forall_cons in Hr as [Hi3 _]. by exists rest, s1, s2, s3, run.
Qed.
Lemma reachable_rtc s s' : reachable s -> rtc (sstep K G T) s s' -> reachable s'.
Proof. intros (s0 & H0 & Hs) Hr. exists s0. split; [done|]. by etransitivity. Qed.

Lemma drained_turn_wp deadline quiet v : waiting quiet v ->
  wp draining (drained_turn conf deadline quiet) v (fun r v' =>
    match r with
    | Ok (inl quiet') => waiting quiet' v' /\ (w_clock v + 1 <= w_clock v')%Q /\
                         (w_clock v < deadline)%Q
    | Ok (inr b) => outcome_of deadline b v'
    | Err _ => False
    end).
Proof.
  intros [Hs Hq Hst Hno]. unfold drained_turn, hosted.
  apply wp_call. intros r v1 (now & -> & Hnow & ->).
  destruct (Qlt_bool now deadline) eqn:Hlt; cbn [negb].
  - apply Qlt_bool_iff in Hlt. apply wp_bind. eapply wp_mono; [by apply snapshot_poll_wp|].
    intros r v1 (-> & snap & -> & Ht).
    destruct (counted_idle _ _ _ _ Hs Ht Hst) as [Hst' Hi].
    set (quiet' := if (snap_depth snap =? 0) && (snap_in_flight snap =? 0) then quiet + 1 else 0) in *.
    cbn [w_sys w_slept] in *.
    assert (Hq' : 0 <= quiet' <= 3) by (unfold quiet'; destruct (_ && _); lia).
    destruct (Z.leb_spec 3 quiet') as [H3|H3].
    + apply wp_ret. split; [done|]. split; [apply Hi; lia|].
      by eapply streak_thrice.
    + apply wp_call. intros r v1 (-> & Hc & Hr & Hl). apply wp_ret. cbn [w_clock w_sys w_slept] in *.
      split; [|split; lra]. split; [|lia|by rewrite Hl|].
      * by eapply reachable_rtc.
      * rewrite Hl. by eapply streak_short.
  - unfold log, hosted. apply wp_call. intros r v1 [-> ->]. apply wp_ret. split; [done|].
    split; [|done]. cbn. destruct (Qlt_le_dec now deadline) as [Hd|]; [|done].
    apply Qlt_bool_iff in Hd. by rewrite Hd in Hlt.
Qed.
Lemma turns_wp n : forall deadline quiet v, waiting quiet v ->
  (deadline <= w_clock v + inject_Z (Z.of_nat n))%Q ->
  wp draining (while_true (S n) (drained_turn conf deadline) quiet) v (fun r v' =>
    exists b, r = Ok b /\ outcome_of deadline b v').
Proof.
  induction n as [|n IH]; intros deadline quiet v Hw Hd; cbn [while_true]; apply wp_bind;
    (eapply wp_mono; [by apply drained_turn_wp|]); intros r v' Hr;
    (destruct r as [[q|b]|]; [|apply wp_ret; by exists b|done]); destruct Hr as (Hw' & Hc & Hlt).
  - change (inject_Z (Z.of_nat 0)) with 0%Q in Hd. lra.
  - apply IH; [done|]. rewrite Nat2Z.inj_succ in Hd. unfold Z.succ in Hd. rewrite inject_Z_plus in Hd.
    change (inject_Z 1) with 1%Q in Hd. lra.
Qed.
End Drain.


(** The demonstration's queue, all of whose jobs are finished; while the run sleeps another
    worker looks for jobs. *)
Definition watched X (e : ch X) (w : world) : result stop X * world :=
  match e in ch Y return result stop Y * world with
  | Queue c =>
      let p := ref_alone (mk_counters 0 0 0 0 0) _ c (s_view (w_sys w)) in
      (match p.1 with Ok x => Ok x | Err m => Err (Throws m) end,
       mk_world (Sys p.2 (s_accepted (w_sys w)) (s_given (w_sys w))) (w_clock w) (w_slept w))
  | Stack t =>
      match t in topo Y return result stop Y * world with
      | OnHost h =>
          match h in host Y return result stop Y * world with
          | HClock => (Ok (w_clock w), w)
          | HSleep d => (Ok tt, mk_world (do_read "w9" 1 (w_sys w)) (w_clock w + d)
                                  (w_slept w ++ [w_sys w]))
          | HLog _ _ => (Ok tt, w)
          | _ => (Err Diverges, w)
          end
      | _ => (Err Diverges, w)
      end
  | _ => (Err Diverges, w)
  end.
Lemma watched_ok X (e : ch X) w :
  draining demo_settings false X e w (watched X e w).1 (watched X e w).2.
Proof.
  destruct e as [X e|X t| | | | | | | | | | | | | | |]; try done.
  - cbn -[ref_alone]. split_and!; try done.
    pose proof (ref_alone_ok (mk_counters 0 0 0 0 0) X e (s_view (w_sys w))) as Hok.
    by destruct (ref_alone _ X e _) as [[] ?].
  - destruct t as [X []| |]; try done; cbn -[do_read].
    + exists (w_clock w). split_and!; try done; [lra|by destruct w].
    + split_and!; try done; [lra|]. apply rtc_once, read_step.
Qed.

Definition patient : Args := mk_Args 3 1 1 None 10 0 5 "out" None false false.
Definition watched_run :=
  Effects.run watched (_wait_drained 6 patient demo_settings) (mk_world state4 0 []).

