(* ===== verification/LocalBench.v ===== *)
(** The local benchmark driver (bench/run.py): the generated Compose project, the CPU
    accounting, the points of a suite, one point, and the driver itself.

    Docker and the host are the chaos topology's effects ([Stack]); the sampler is a task of
    the event loop ([StartSampling], [JoinSampling]), its coroutine [sampling], and its
    object's attributes are changed by [Me]. Readings that the code gathers are taken one
    after the other. The arguments are those [LocalArgs] (Flags.v) parsed; the texts of floats
    and the two indented JSON printers are parameters; log lines are cut short. *)
From S2P Require Import Prelude Effects Redis LuaScripts Json Py Models Handlers.
From S2P Require Import Tables.
From S2P Require Import Analysis Texts Shell Topology.
From Stdlib Require Import Qcanon.

#[local] Open Scope string_scope.
#[local] Open Scope list_scope.
#[local] Open Scope Z_scope.
#[local] Open Scope prog_scope.

Definition PROJECT : string := "ftq-bench".
Definition IMAGE : string := "ftq-worker:local".
Definition REDIS_IMAGE : string := "redis:8.8.3".
Definition REDIS_PORT : Z := 6391.
Definition ENVIRONMENT : string := "local / Docker Desktop (not the headline numbers; see Phase 8)".
Definition _CPU_SAMPLE_S : Q := 2.

Record Point := mk_Point {
  suite : string;
  label : string;
  workers : Z;
  concurrency : Z;
  loadgen_args : list string;
  redis_io_threads : Z;
}.

(** ** The Compose project *)
Definition worker_env (concurrency : Z) : json := JObj [
  ("FTQ_REDIS_URL", JStr "redis://redis:6379/0");
  ("FTQ_QUEUE", JStr "bench");
  ("FTQ_CONCURRENCY", JStr (str_of_Z concurrency));
  ("FTQ_LOG_LEVEL", JStr "WARNING")].
Definition redis_service (io_threads : Z) : json := JObj [
  ("image", JStr REDIS_IMAGE);
  ("container_name", JStr (PROJECT +:+ "-redis"));
  ("command", strings ["redis-server"; "--appendonly"; "yes"; "--appendfsync"; "everysec";
     "--maxmemory"; "4gb"; "--maxmemory-policy"; "noeviction"; "--io-threads";
     str_of_Z io_threads]);
  ("ports", strings ["127.0.0.1:" +:+ str_of_Z REDIS_PORT +:+ ":6379"]);
  ("healthcheck", JObj [("test", strings ["CMD"; "redis-cli"; "ping"]); ("interval", JStr "1s");
                        ("timeout", JStr "2s"); ("retries", JInt 30)])].
Definition compose_spec (concurrency io_threads : Z) : json := JObj [
  ("name", JStr PROJECT);
  ("services", JObj [
     ("redis", redis_service io_threads);
     ("worker", JObj [
        ("image", JStr IMAGE); ("environment", worker_env concurrency); ("restart", JStr "no");
        ("stop_grace_period", JStr "20s");
        ("depends_on", JObj [("redis", JObj [("condition", JStr "service_healthy")])])]);
     ("loadgen", JObj [
        ("image", JStr IMAGE); ("working_dir", JStr "/opt/ftq");
        ("entrypoint", strings ["python"; "-m"; "bench.loadgen"]);
        ("environment", JObj [("FTQ_REDIS_URL", JStr "redis://redis:6379/0")]);
        ("profiles", strings ["loadgen"])])])].

(** ** The effects *)
(** [CpuSampler]'s attributes. *)
Record sampler := mk_sampler {
  per_container : list (string * list (Q * Q));    (* name -> (t_ms, cpu_s) *)
  vm : list (Q * Q * Q);                           (* t_ms, busy, total *)
}.
Definition new_sampler : sampler := mk_sampler [] [].

Inductive lb : Type -> Type :=
  | Stack {X} (t : topo X) : lb X
  | Me {A} (f : sampler -> A * sampler) : lb A
  | StartSampling : lb unit            (* create_task(sampler.run()) *)
  | StopSampling : lb unit             (* sampler.stop() *)
  | JoinSampling : lb unit             (* await sampling *)
  | Stopped : lb bool
  | WaitStop (d : Q) : lb unit.        (* wait_for(self._stop.wait(), d), timeout suppressed *)
Abbreviation bl := (prog lb stop).

Definition hosted {X} (h : host X) : bl X := call (Stack (OnHost h)).
Definition log (l : level) (m : string) : bl unit := hosted (HLog l m).

Section LocalBench.
Context (float_text float_repr : Q -> string) (indented indented1 : json -> string).
Context (REPO_ROOT RESULTS RUNS : string) (fuel : nat).

Definition sh (args : list string) (checked : bool) (within : Q) : bl finished :=
  carried_out (fun X (t : topo X) => call (Stack t)) (Topology.run float_text args checked within).
Definition jfloat (q : Q) : json := JFloat (float_repr q).
Definition optional (q : option Q) : json := match q with Some q => jfloat q | None => JNull end.

(** ** [Stack] *)
Definition compose_file : string := RUNS +:+ "/compose.json".
Definition _compose (args : list string) : list string :=
  ["docker"; "compose"; "-f"; compose_file; "-p"; PROJECT] ++ args.
Definition compose (args : list string) : bl string :=
  r <- sh (_compose args) true 300 ;; Ret r.1.2.
Definition down_args : list string := ["--profile"; "loadgen"; "down"; "-v"; "--remove-orphans"].
Definition down : bl unit :=
  there <- hosted (HExists compose_file) ;;
  if there : bool then compose down_args ;;; Ret tt else Ret tt.
Definition up_redis : list string := ["up"; "-d"; "--wait"; "redis"].
Definition up_workers (n : Z) : list string :=
  ["up"; "-d"; "--no-deps"; "--scale"; "worker=" +:+ str_of_Z n; "worker"].
Definition fresh (workers concurrency io_threads : Z) : bl unit :=
  hosted (HWrite compose_file (indented (compose_spec concurrency io_threads) +:+ newline)) ;;;
  down ;;;
  compose up_redis ;;;
  compose (up_workers workers) ;;;
  Ret tt.

Definition docker_ps (fmt : string) : list string :=
  ["docker"; "ps"; "--filter"; "label=com.docker.compose.project=" +:+ PROJECT; "--format"; fmt].
Definition host_of_line (line : string) : result exn (string * string) :=
  match words line with
  | [id; name] => Ok (id, name)
  | _ => Err (ValueError "dictionary update sequence element has wrong length")
  end.
Definition hostnames : bl (list (string * string)) :=
  r <- sh (docker_ps "{{.ID}} {{.Names}}") true 120 ;;
  l <- check (each host_of_line (splitlines r.1.2)) ;;
  Ret (foldl (fun d x => put d x.1 x.2) [] l).
Definition containers : bl (list string) :=
  r <- sh (docker_ps "{{.Names}}") true 120 ;; Ret (sort_strings (words r.1.2)).

(** ** CPU accounting *)
(** [lines[i]] of a list that is long enough *)
Definition at_index (i : nat) (l : list string) : result exn string :=
  match l !! i with Some x => Ok x | None => Err IndexError end.
Definition int_at (i : nat) (l : list string) : result exn Z := x <-! at_index i l ;; to_int x.

Definition cpu_reading (name : string) (code : Z) (lines : list string) :
    result exn (option (string * Q * Q)) :=
  if negb (code =? 0) || (length lines <? 3)%nat then Ok None else
  ns <-! int_at 0 lines ;;
  usage <-! int_at 2 lines ;;
  Ok (Some (name, inject_Z (ns / 1000000), (inject_Z usage / 1000000)%Q)).
Definition _read_cpu (name : string) : bl (option (string * Q * Q)) :=
  r <- sh ["docker"; "exec"; name; "sh"; "-c";
           "date +%s%N; grep usage_usec /sys/fs/cgroup/cpu.stat"] false 30 ;;
  check (cpu_reading name r.1.1 (words r.1.2)).

Definition vm_reading (code : Z) (parts : list string) : result exn (option (Q * Q * Q)) :=
  if negb (code =? 0) || (length parts <? 9)%nat then Ok None else
  ticks <-! each to_int (drop 2 parts) ;;
  match ticks !! 3%nat, ticks !! 4%nat with
  | Some a, Some b =>
      let total := foldr Z.add 0 (take 8 ticks) in
      ns <-! int_at 0 parts ;;
      Ok (Some (inject_Z (ns / 1000000), (inject_Z (total - (a + b)) / 100)%Q,
                (inject_Z total / 100)%Q))
  | _, _ => Err IndexError
  end.
Definition _read_vm (redis : string) : bl (option (Q * Q * Q)) :=
  r <- sh ["docker"; "exec"; redis; "sh"; "-c"; "date +%s%N; head -1 /proc/stat"] false 30 ;;
  check (vm_reading r.1.1 (words r.1.2)).

Fixpoint read_each (names : list string) : bl (list (option (string * Q * Q))) :=
  match names with
  | [] => Ret []
  | n :: rest => r <- _read_cpu n ;; rs <- read_each rest ;; Ret (r :: rs)
  end.

Definition add_reading (s : sampler) (r : option (string * Q * Q)) : sampler :=
  match r with
  | Some (name, t_ms, cpu_s) =>
      mk_sampler (put (per_container s) name (get (per_container s) name [] ++ [(t_ms, cpu_s)])) (vm s)
  | None => s
  end.
Definition add_readings (rs : list (option (string * Q * Q))) (v : option (Q * Q * Q))
    (s : sampler) : sampler :=
  let s := foldl add_reading s rs in
  match v with Some x => mk_sampler (per_container s) (vm s ++ [x]) | None => s end.

Definition sampling_turn (_ : unit) : bl (unit + unit) :=
  names <- containers ;;
  rs <- read_each names ;;
  v <- _read_vm (PROJECT +:+ "-redis") ;;
  call (Me (fun s => (tt, add_readings rs v s))) ;;;
  stopped <- call Stopped ;;
  if stopped : bool then Ret (inr tt) else call (WaitStop _CPU_SAMPLE_S) ;;; Ret (inl tt).
Definition sampling : bl unit := while_true fuel sampling_turn tt.

(** *** [CpuSampler.summary] *)
Definition by_name (a b : string * list (Q * Q)) : Prop := string_le a.1 b.1.
#[local] Instance by_name_dec : RelDecision by_name.
Proof. intros a b. unfold by_name. apply _. Defined.
Definition busy_of (s : sampler) (window : Window.t) : result exn (list (string * option Q)) :=
  each (fun x => f <-! busy_fraction x.2 window ;; Ok (x.1, f))
       (merge_sort by_name (per_container s)).
(** The known values of the containers with [part] in their name. *)
Definition with_part (part : string) (busy : list (string * option Q)) : list Q :=
  omap snd (filter (fun x => contains part x.1 = true) busy).
Definition sum (l : list Q) : Q := foldr Qplus 0%Q l.
Definition mean (l : list Q) : Q := (sum l / inject_Z (Z.of_nat (length l)))%Q.

Definition summary (s : sampler) (window : Window.t) :
    result exn (list (string * option Q) * json) :=
  busy <-! busy_of s window ;;
  let workers := with_part "-worker-" busy in
  let loadgen := with_part "-loadgen-" busy in
  vm_busy <-! busy_fraction ((fun x => (x.1.1, x.1.2)) <$> vm s) window ;;
  vm_total <-! busy_fraction ((fun x => (x.1.1, x.2)) <$> vm s) window ;;
  Ok (busy, JObj [
    ("containers", JObj (prod_map id optional <$> busy));
    ("workers_sum", jfloat (round_to 3 (sum workers)));
    ("worker_mean", match workers with [] => JNull | _ => jfloat (round_to 3 (mean workers)) end);
    ("worker_max", match workers with [] => JNull | q :: r => jfloat (foldl Qmax q r) end);
    ("redis_container", optional (get busy (PROJECT +:+ "-redis") None));
    ("loadgen_container",
       match loadgen with [] => JNull | _ => jfloat (round_to 3 (sum loadgen)) end);
    ("vm_busy_cpus", optional vm_busy);
    ("vm_cpus", match vm_total with
                | Some q => if Qeq_bool q 0 then JNull else JInt (round q)
                | None => JNull
                end);
    ("samples", JObj [("interval_s", jfloat _CPU_SAMPLE_S);
                      ("vm", JInt (Z.of_nat (length (vm s))))])]).

(** ** One point *)
Definition git (args : list string) : bl string :=
  r <- hosted (HCommand ("git" :: args)) ;; Ret (strip r.1.2).
Definition _git_rev : bl string :=
  dirty <- git ["status"; "--porcelain"; "--untracked-files=no"] ;;
  rev <- git ["rev-parse"; "--short"; "HEAD"] ;;
  Ret (if decide (dirty = "") then rev
       else rev +:+ " (dirty: " +:+ join ", " (splitlines dirty) +:+ ")").

Definition _reproduce (p : Point) : string :=
  "uv run python -m bench.run point --suite " +:+ suite p +:+ " --label " +:+ label p +:+
  " --workers " +:+ str_of_Z (workers p) +:+ " --concurrency " +:+ str_of_Z (concurrency p) +:+
  " --io-threads " +:+ str_of_Z (redis_io_threads p) +:+ " -- " +:+ join " " (loadgen_args p).

Definition as_int (j : json) : result exn Z :=
  match j with JInt n => Ok n | _ => Err (TypeError "expected an integer") end.
Definition window_of (report : json) : result exn Window.t :=
  w <-! at_key "window" report ;;
  a <-! (x <-! at_key "start_ms" w ;; as_int x) ;;
  b <-! (x <-! at_key "end_ms" w ;; as_int x) ;;
  Ok (Window.mk a b).

(** A worker's line: its name, its rate, its busy fraction and their quotient. *)
Definition worker_row (hosts : list (string * string)) (busy : list (string * option Q))
    (window : Window.t) (x : string * json) : result exn (string * json) :=
  let name := get hosts (first_part "-" x.1) x.1 in
  let b := get busy name None in
  n <-! as_int x.2 ;;
  rate <-! div (inject_Z n) (Window.seconds window) ;;
  Ok (name, JObj [
    ("completed_per_s", jfloat (round_to 1 rate));
    ("cpu_busy", optional b);
    ("jobs_per_cpu_s", match b with
       | Some q => if Qeq_bool q 0 then JNull else jfloat (round_to 1 (rate / q))
       | None => JNull
       end)]).
Definition _per_worker (report : json) (hosts : list (string * string))
    (busy : list (string * option Q)) (window : Window.t) : result exn json :=
  c <-! at_key "completed_in_window_by_worker" report ;;
  match c with
  | JObj l =>
      rows <-! each (worker_row hosts busy window) l ;;
      Ok (JObj (foldl (fun d x => set_member x.1 x.2 d) [] rows))
  | _ => Err (TypeError "no attribute 'items'")
  end.

(** What a point's report gets from the driver, besides the time it took. *)
Definition annotated (p : Point) (s : sampler) (hosts : list (string * string))
    (worker_logs : string) (wall_s : Q) (report : json) : result exn json :=
  window <-! window_of report ;;
  c <-! summary s window ;;
  report <-! set_key "cpu" c.2 report ;;
  rows <-! _per_worker report hosts c.1 window ;;
  report <-! set_key "per_worker" rows report ;;
  report <-! set_key "worker_log_lines" (JInt (Z.of_nat (length (splitlines worker_logs)))) report ;;
  meta <-! at_key "meta" report ;;
  meta <-! set_key "reproduce" (JStr (_reproduce p)) meta ;;
  meta <-! set_key "wall_s" (jfloat (round_to 1 wall_s)) meta ;;
  set_key "meta" meta report.

(** What the load generator is given as its command line *)
Definition loadgen_argv (p : Point) (meta : json) : list string :=
  ["--expect-workers"; str_of_Z (workers p); "--meta"; dumps_spaced meta] ++ loadgen_args p.
Definition loadgen_command (p : Point) (meta : json) : list string :=
  _compose (["--profile"; "loadgen"; "run"; "--rm"; "-T"; "--no-deps"; "loadgen"] ++
            loadgen_argv p meta).
Definition meta_of (p : Point) (at_utc rev : string) : json := JObj [
  ("suite", JStr (suite p));
  ("label", JStr (label p));
  ("environment", JStr ENVIRONMENT);
  ("workers", JInt (workers p));
  ("worker_concurrency", JInt (concurrency p));
  ("redis_io_threads", JInt (redis_io_threads p));
  ("date_utc", JStr at_utc);
  ("git", JStr rev)].
Definition log_file (p : Point) (kind : string) : string :=
  RUNS +:+ "/" +:+ suite p +:+ "/" +:+ label p +:+ "." +:+ kind +:+ ".log".
Definition out_file (p : Point) : string :=
  RESULTS +:+ "/" +:+ suite p +:+ "/" +:+ label p +:+ ".json".

(** The load generator runs while the sampler does, which is stopped whatever happens. *)
Definition measured (p : Point) (meta : json) : bl finished :=
  finally (sh (loadgen_command p meta) false 1800) (call StopSampling ;;; call JoinSampling).

Definition run_point (p : Point) : bl json :=
  log INFO ("[" +:+ suite p +:+ "] " +:+ label p) ;;;
  fresh (workers p) (concurrency p) (redis_io_threads p) ;;;
  call (Me (fun _ => (tt, new_sampler))) ;;;
  call StartSampling ;;;
  at_utc <- hosted HUtc ;;
  rev <- _git_rev ;;
  started <- hosted HClock ;;
  res <- measured p (meta_of p at_utc rev) ;;
  let '(code, out, err) := res in
  hosted (HWrite (log_file p "loadgen") err) ;;;
  hosts <- hostnames ;;
  worker_logs <- compose ["logs"; "--no-color"; "worker"] ;;
  hosted (HWrite (log_file p "workers") worker_logs) ;;;
  if negb ((code =? 0) || (code =? 1)) then
    throw (RuntimeError ("loadgen exited " +:+ str_of_Z code))
  else
    report <- parse out ;;
    s <- call (Me (fun s => (s, s))) ;;
    now <- hosted HClock ;;
    report <- check (annotated p s hosts worker_logs (now - started) report) ;;
    hosted (HWrite (out_file p) (indented1 report +:+ newline)) ;;;
    log INFO "  completed" ;;;
    Ret report.

(** ** The suites *)
Record Args := mk_Args {
  a_suite : string;
  a_skip_build : bool;
  a_concurrency : Z;
  a_warmup : Z;
  a_measure : Z;
  a_cooldown : Z;
  a_processes : Z;
  a_payload_bytes : Z;
  a_max_depth : Z;
  a_concurrency_values : list Z;
  a_worker_counts : list Z;
  a_repeats : Z;
  a_repeat_from : Z;
  a_io_threads : Z;
  a_workers : Z;
  a_load_fractions : list Q;
  a_overload : Q;
  a_high : Z;
  a_low : Z;
  a_label : string;
  a_point_suite : string;
  a_loadgen_args : list string;
}.
Definition _timing (a : Args) : list string :=
  ["--warmup"; str_of_Z (a_warmup a); "--measure"; str_of_Z (a_measure a);
   "--cooldown"; str_of_Z (a_cooldown a); "--processes"; str_of_Z (a_processes a);
   "--payload-bytes"; str_of_Z (a_payload_bytes a)].
Definition _saturate (a : Args) : list string :=
  _timing a ++ ["--rate"; "0"; "--max-depth"; str_of_Z (a_max_depth a); "--batch"; "500"].

(** The rate of a saved report, when it is of a run with this many workers. *)
Definition rate_for (n : Z) (text : string) : result exn (option Q) :=
  r <-! json_loads text ;;
  m <-! at_key "meta" r ;;
  w <-! at_key "workers" m ;;
  if is_int n w then
    t <-! at_key "throughput" r ;; c <-! at_key "completed_per_s" t ;;
    q <-! float_of_json c ;; Ok (Some q)
  else Ok None.
Fixpoint rates_in (n : Z) (files : list string) : bl (list Q) :=
  match files with
  | [] => Ret []
  | f :: rest =>
      text <- hosted (HRead f) ;;
      q <- check (rate_for n text) ;;
      qs <- rates_in n rest ;; Ret (option_list q ++ qs)
  end.
Definition capacity (suite : string) (n : Z) : bl Q :=
  files <- hosted (HGlob (RESULTS +:+ "/" +:+ suite +:+ "/w" +:+ two_digits n +:+ "_*.json")) ;;
  rates <- rates_in n (sort_strings files) ;;
  match rates with
  | [] => Raise (Exits (inl ("no " +:+ suite +:+ " results for " +:+ str_of_Z n +:+
                             " workers: run that suite first")))
  | _ => Ret (median rates)
  end.

(** [range(a.repeat_from, a.repeats + 1)] *)
Definition repeats (a : Args) : list Z :=
  seqZ (a_repeat_from a) (a_repeats a + 1 - a_repeat_from a).
Definition concurrency_point (a : Args) (r c : Z) : Point :=
  mk_Point "concurrency"
    ("c" +:+ three_digits c +:+ (if 1 <? r then "_r" +:+ str_of_Z r else ""))
    1 c (_saturate a) 1.
Definition iothreads_point (a : Args) (r : Z) : Point :=
  mk_Point "iothreads"
    ("w" +:+ two_digits (a_workers a) +:+ "_io" +:+ str_of_Z (a_io_threads a) +:+ "_r" +:+ str_of_Z r)
    (a_workers a) (a_concurrency a) (_saturate a) (a_io_threads a).
Definition scaling_point (a : Args) (r w : Z) : Point :=
  mk_Point "scaling" ("w" +:+ two_digits w +:+ "_r" +:+ str_of_Z r) w (a_concurrency a)
    (_saturate a) 1.
Definition latency_point (a : Args) (cap f : Q) : Point :=
  mk_Point "latency"
    ("w" +:+ two_digits (a_workers a) +:+ "_load" +:+ three_digits (round (f * 100)))
    (a_workers a) (a_concurrency a) (_timing a ++ ["--rate"; fixed 0 (cap * f)]) 1.
Definition backpressure_point (a : Args) (cap : Q) (mode : string) : Point :=
  mk_Point "backpressure" ("w" +:+ two_digits (a_workers a) +:+ "_" +:+ mode)
    (a_workers a) (a_concurrency a)
    (_timing a ++ ["--rate"; fixed 0 (cap * a_overload a); "--backpressure"; mode;
                   "--high-watermark"; str_of_Z (a_high a); "--low-watermark"; str_of_Z (a_low a)]) 1.

Definition points (a : Args) : bl (list Point) :=
  if decide (a_suite a = "concurrency") then
    Ret (r ← repeats a; c ← a_concurrency_values a; [concurrency_point a r c])
  else if decide (a_suite a = "iothreads") then Ret (iothreads_point a <$> repeats a)
  else if decide (a_suite a = "scaling") then
    Ret (r ← repeats a; w ← a_worker_counts a; [scaling_point a r w])
  else
    cap <- capacity "scaling" (a_workers a) ;;
    if decide (a_suite a = "latency") then Ret (latency_point a cap <$> a_load_fractions a)
    else if decide (a_suite a = "backpressure") then
      Ret (backpressure_point a cap <$> ["reject"; "block"])
    else Raise (Exits (inl ("unknown suite " +:+ a_suite a))).

(** ** The driver *)
(** [not report["exactly_once"]["ok"]] *)
Definition failed (report : json) : result exn bool :=
  e <-! at_key "exactly_once" report ;; ok <-! at_key "ok" e ;; Ok (negb (truthy ok)).
Fixpoint run_each (todo : list Point) (failures : Z) : bl Z :=
  match todo with
  | [] => Ret failures
  | p :: rest =>
      log INFO "point" ;;;
      report <- run_point p ;;
      bad <- check (failed report) ;;
      run_each rest (failures + Z.b2z bad)
  end.
Definition todo_of (a : Args) : bl (list Point) :=
  if decide (a_suite a = "point") then
    Ret [mk_Point (a_point_suite a) (a_label a) (a_workers a) (a_concurrency a)
           (a_loadgen_args a) (a_io_threads a)]
  else points a.
Definition build_image (a : Args) : bl unit :=
  if a_skip_build a then Ret tt
  else log INFO ("building " +:+ IMAGE) ;;;
       carried_out (fun X (t : topo X) => call (Stack t)) (build_worker_image float_text REPO_ROOT).
Definition main_async (a : Args) : bl Z :=
  todo <- todo_of a ;;
  build_image a ;;;
  failures <- finally (run_each todo 0) down ;;
  log INFO ("done: " +:+ str_of_Z failures +:+ " exactly-once failures") ;;;
  Ret (if failures =? 0 then 0 else 1).
End LocalBench.
