(* ===== verification/LocalRuns.v ===== *)
(** What a local benchmark (LocalBench.v, bench/run.py) does: every point on a fresh stack,
    the reports it saves, its exit code, and the names of the files. *)
From S2P Require Import Prelude Effects Redis LuaScripts Json Py Models Handlers.
From S2P Require Import Tables.
From S2P Require Import Analysis Texts Shell Topology LocalBench.

#[local] Open Scope string_scope.
#[local] Open Scope list_scope.
#[local] Open Scope Z_scope.
#[local] Open Scope prog_scope.

(** ** The driver *)
(** What is seen of a run: commands and how they ended, files written, files looked for. *)
Inductive seen : Type :=
  | Did (args : list string) (r : option finished)
  | Wrote (path text : string)
  | Looked (path : string) (there : bool).

(** Everything answers anything; only looking for a file never fails. *)
Definition watching X (e : lb X) (tr : list seen) (r : result stop X) (tr' : list seen) : Prop :=
  match e in lb Y return result stop Y -> Prop with
  | Stack t =>
      match t in topo Y return result stop Y -> Prop with
      | Exec args _ => fun r =>
          tr' = tr ++ [Did args (match r with Ok x => x | Err _ => None end)]
      | OnHost h =>
          match h in host Y return result stop Y -> Prop with
          | HWrite path text => fun r =>
              tr' = match r with Ok _ => tr ++ [Wrote path text] | Err _ => tr end
          | HExists path => fun r => exists b, r = Ok b /\ tr' = tr ++ [Looked path b]
          | _ => fun _ => tr' = tr
          end
      | _ => fun _ => tr' = tr
      end
  | _ => fun _ => tr' = tr
  end r.

Section Runs.
Context (float_text float_repr : Q -> string) (indented indented1 : json -> string).
Context (REPO_ROOT RESULTS RUNS : string) (fuel : nat).
Abbreviation sh := (sh float_text).
Abbreviation _compose := (_compose RUNS).
Abbreviation compose_file := (compose_file RUNS).
Abbreviation down := (down float_text RUNS).
Abbreviation wwp := (wp watching).

Lemma sh_wp args checked within tr :
  wwp (sh args checked within) tr (fun r tr' => exists x, tr' = tr ++ [Did args x] /\
    match r with Ok f => x = Some f /\ (checked = true -> f.1.1 = 0) | Err _ => True end).
Proof.
  unfold sh, Topology.run. cbn. intros r tr1 ->. destruct r as [[[[code out] err]|]|e]; cbn.
  - destruct (checked && negb (code =? 0)) eqn:Hc; cbn; [by eexists|].
    exists (Some (code, out, err)). split; [done|]. split; [done|]. intros ->. cbn in Hc |- *.
    by apply negb_false_iff, Z.eqb_eq in Hc.
  - by eexists.
  - by eexists.
Qed.
Lemma compose_wp args tr :
  wwp (compose float_text RUNS args) tr (fun r tr' => exists x, tr' = tr ++ [Did (_compose args) x] /\
    match r with Ok out => exists err, x = Some (0, out, err) | Err _ => True end).
Proof.
  unfold compose. apply wp_bind. eapply wp_mono; [apply sh_wp|]. intros r tr1 (x & -> & Hx).
  destruct r as [[[code out] err]|e]; [|by exists x]. destruct Hx as [-> Hc].
  specialize (Hc eq_refl). cbn in Hc |- *. subst. eexists. split; [done|by exists err].
Qed.

(** The stack was taken down, if there was one. *)
Inductive taken_down : list seen -> Prop :=
  | nothing_there : taken_down [Looked compose_file false]
  | asked_down x : taken_down [Looked compose_file true; Did (_compose down_args) x].

Lemma down_wp tr : wwp down tr (fun r tr' => exists d, tr' = tr ++ d /\ taken_down d).
Proof.
  unfold down, hosted. apply wp_call. intros r tr1 (b & -> & ->). destruct b.
  - apply wp_bind. eapply wp_mono; [apply compose_wp|]. intros r tr2 (x & -> & _).
    assert (Hd : exists d, (tr ++ [Looked compose_file true]) ++ [Did (_compose down_args) x] =
      tr ++ d /\ taken_down d).
    { eexists. split; [by rewrite <- app_assoc|]. apply asked_down. }
    by destruct r.
  - eexists. split; [done|]. apply nothing_there.
Qed.

(** One point, from the Compose file to the saved report. *)
Definition point_run (p : Point) (report : json) (seg : list seen) : Prop :=
  exists d e1 e2 o1 o2 at_utc rev code out err ps hosts logs e4 s wall report0,
  seg = [Wrote compose_file
           (indented (compose_spec (concurrency p) (redis_io_threads p)) +:+ newline)] ++ d ++
        [Did (_compose up_redis) (Some (0, o1, e1));
         Did (_compose (up_workers (workers p))) (Some (0, o2, e2));
         Did (loadgen_command RUNS p (meta_of p at_utc rev)) (Some (code, out, err));
         Wrote (log_file RUNS p "loadgen") err;
         Did (docker_ps "{{.ID}} {{.Names}}") ps;
         Did (_compose ["logs"; "--no-color"; "worker"]) (Some (0, logs, e4));
         Wrote (log_file RUNS p "workers") logs;
         Wrote (out_file RESULTS p) (indented1 report +:+ newline)] /\
  taken_down d /\ (code = 0 \/ code = 1) /\ json_loads out = Ok report0 /\
  annotated float_repr p s hosts logs wall report0 = Ok report /\
  at_key "exactly_once" report = at_key "exactly_once" report0.

(** Whatever happens, what was seen only grows. *)
Definition grows {A} (P : A -> list seen -> Prop) (tr : list seen) (r : result stop A)
    (tr' : list seen) : Prop :=
  exists seg, tr' = tr ++ seg /\ match r with Ok a => P a seg | Err _ => True end.

Lemma grows_bind {A B} (p : bl A) (f : A -> bl B) (P : A -> list seen -> Prop)
    (Q : B -> list seen -> Prop) tr :
  wwp p tr (grows P tr) ->
  (forall a seg, P a seg -> wwp (f a) (tr ++ seg) (grows (fun b s => Q b (seg ++ s)) (tr ++ seg))) ->
  wwp (bind p f) tr (grows Q tr).
Proof.
  intros Hp Hf. apply wp_bind. eapply wp_mono; [exact Hp|]. intros r tr1 (seg & -> & Hr).
  destruct r as [a|e]; [|by exists seg]. eapply wp_mono; [by apply Hf|].
  intros r tr2 (s & -> & Hs). exists (seg ++ s). rewrite app_assoc. by destruct r.
Qed.
Lemma grows_quiet {A} (p : bl A) tr :
  wwp p tr (fun _ tr' => tr' = tr) -> wwp p tr (grows (fun _ seg => seg = []) tr).
Proof.
  intros Hp. eapply wp_mono; [exact Hp|]. intros r tr' ->. exists []. rewrite app_nil_r.
  by destruct r.
Qed.
Lemma grows_ret {A} (a : A) (P : A -> list seen -> Prop) tr : P a [] -> wwp (Ret a) tr (grows P tr).
Proof. intros Ha. apply wp_ret. exists []. by rewrite app_nil_r. Qed.
Lemma grows_check {A} (x : result exn A) tr :
  wwp (check x) tr (grows (fun a seg => seg = [] /\ x = Ok a) tr).
Proof. destruct x; exists []; by rewrite app_nil_r. Qed.
Lemma grows_write path text tr :
  wwp (hosted (HWrite path text)) tr (grows (fun _ seg => seg = [Wrote path text]) tr).
Proof.
  intros r tr' ->. destruct r; [by eexists|]. exists []. by rewrite app_nil_r.
Qed.
Lemma grows_sh args checked within tr : wwp (sh args checked within) tr
  (grows (fun f seg => seg = [Did args (Some f)] /\ (checked = true -> f.1.1 = 0)) tr).
Proof.
  eapply wp_mono; [apply sh_wp|]. intros r tr' (x & -> & Hx). eexists. split; [done|].
  destruct r; [|done]. by destruct Hx as [-> Hc].
Qed.
Lemma grows_compose args tr : wwp (compose float_text RUNS args) tr
  (grows (fun out seg => exists err, seg = [Did (_compose args) (Some (0, out, err))]) tr).
Proof.
  eapply wp_mono; [apply compose_wp|]. intros r tr' (x & -> & Hx). eexists. split; [done|].
  destruct r; [|done]. destruct Hx as [err ->]. by exists err.
Qed.
Lemma grows_down tr : wwp down tr (grows (fun _ seg => taken_down seg) tr).
Proof.
  eapply wp_mono; [apply down_wp|]. intros r tr' (d & -> & Hd). exists d. by destruct r.
Qed.

(** A program that neither runs a command nor writes a file. *)
Ltac quiet := apply grows_quiet; repeat (cbn;
  first [done|let r := fresh "r" in intros r ? ->; destruct r; [|done]]).

Lemma grows_fresh w c io tr : wwp (fresh float_text indented RUNS w c io) tr
  (grows (fun _ seg => exists d e1 o1 e2 o2,
     seg = [Wrote compose_file (indented (compose_spec c io) +:+ newline)] ++ d ++
       [Did (_compose up_redis) (Some (0, o1, e1)); Did (_compose (up_workers w)) (Some (0, o2, e2))] /\
     taken_down d) tr).
Proof.
  unfold fresh. eapply grows_bind; [apply grows_write|]. intros [] ? ->.
  eapply grows_bind; [apply grows_down|]. intros [] d Hd.
  eapply grows_bind; [apply grows_compose|]. intros o1 ? [e1 ->].
  eapply grows_bind; [apply grows_compose|]. intros o2 ? [e2 ->].
  apply grows_ret. exists d, e1, o1, e2, o2. by rewrite app_nil_r.
Qed.
Lemma grows_git_rev tr : wwp _git_rev tr (grows (fun _ seg => seg = []) tr).
Proof. unfold _git_rev, git, hosted. quiet. Qed.
Lemma grows_hostnames tr : wwp (hostnames float_text) tr
  (grows (fun _ seg => exists x, seg = [Did (docker_ps "{{.ID}} {{.Names}}") (Some x)]) tr).
Proof.
  unfold hostnames. eapply grows_bind; [apply grows_sh|]. intros x ? [-> _].
  eapply grows_bind; [apply grows_check|]. intros l ? [-> _]. apply grows_ret. by exists x.
Qed.
Lemma grows_measured p meta tr : wwp (measured float_text RUNS p meta) tr
  (grows (fun f seg => seg = [Did (loadgen_command RUNS p meta) (Some f)]) tr).
Proof.
  unfold measured. apply wp_finally. eapply wp_mono; [apply grows_sh|].
  intros r tr1 (seg & -> & Hr).
  assert (Hgo : forall c : result stop unit, match c with
    | Ok _ => grows (fun f seg => seg = [Did (loadgen_command RUNS p meta) (Some f)]) tr r (tr ++ seg)
    | Err e => grows (fun f seg => seg = [Did (loadgen_command RUNS p meta) (Some f)]) tr (Err e)
                 (tr ++ seg)
    end).
  { intros []; exists seg; [|done]. split; [done|]. destruct r; [apply Hr|done]. }
  cbn. intros c1 tr2 ->. destruct c1 as [[]|e]; [|exact (Hgo (Err e))].
  cbn. intros c2 tr3 ->. destruct c2; [exact (Hgo (Ok tt))|exact (Hgo (Err e))].
Qed.

(** The driver leaves the loadgen's verdict as it is. *)
Lemma member_set k k' v l : k <> k' -> member k (set_member k' v l) = member k l.
Proof.
  intros Hk. induction l as [|[n x] l IH]; cbn; [by rewrite decide_False|].
  destruct (decide (n = k')) as [->|Hn]; cbn; [by rewrite !decide_False|].
  by destruct (decide (n = k)).
Qed.
Lemma set_key_keeps k k' v j j' : k <> k' -> set_key k' v j = Ok j' -> at_key k j' = at_key k j.
Proof. intros Hk. destruct j; cbn; intros [= <-]; cbn. by rewrite member_set. Qed.
Lemma annotated_verdict p s hosts logs wall report0 report :
  annotated float_repr p s hosts logs wall report0 = Ok report ->
  at_key "exactly_once" report = at_key "exactly_once" report0.
Proof.
  unfold annotated. intros Ha.
  repeat match type of Ha with
  | and_then ?x _ = Ok _ => let H := fresh "E" in destruct x eqn:H; cbn [and_then] in Ha; [|done]
  end.
  repeat match goal with
  | H : set_key _ _ ?j = Ok ?j' |- at_key _ ?j' = _ =>
      transitivity (at_key "exactly_once" j); [eapply set_key_keeps; [|exact H]; done|clear H]
  end. done.
Qed.

Lemma grows_point p tr :
  wwp (run_point float_text float_repr indented indented1 RESULTS RUNS p) tr
    (grows (fun report seg => point_run p report seg) tr).
Proof.
  unfold run_point, log.
  eapply grows_bind; [quiet|]. intros [] ? ->.
  eapply grows_bind; [apply grows_fresh|]. intros [] ? (d & e1 & o1 & e2 & o2 & -> & Hd).
  eapply grows_bind; [quiet|]. intros [] ? ->.
  eapply grows_bind; [quiet|]. intros [] ? ->.
  eapply grows_bind; [quiet|]. intros at_utc ? ->.
  eapply grows_bind; [apply grows_git_rev|]. intros rev ? ->.
  eapply grows_bind; [quiet|]. intros started ? ->.
  eapply grows_bind; [apply grows_measured|]. intros [[code out] err] ? ->.
  eapply grows_bind; [apply grows_write|]. intros [] ? ->.
  eapply grows_bind; [apply grows_hostnames|]. intros hosts ? [ps ->].
  eapply grows_bind; [apply grows_compose|]. intros logs ? [e4 ->].
  eapply grows_bind; [apply grows_write|]. intros [] ? ->.
  destruct (negb ((code =? 0) || (code =? 1))) eqn:Hcode.
  { exists []. split; [symmetry; apply app_nil_r|done]. }
  eapply grows_bind; [apply grows_check|]. intros report0 ? [-> Hrep].
  eapply grows_bind; [quiet|]. intros s ? ->.
  eapply grows_bind; [quiet|]. intros now ? ->.
  eapply grows_bind; [apply grows_check|]. intros report ? [-> Hann].
  eapply grows_bind; [apply grows_write|]. intros [] ? ->.
  eapply grows_bind; [quiet|]. intros [] ? ->.
  apply grows_ret. exists d, e1, e2, o1, o2, at_utc, rev, code, out, err, (Some ps), hosts, logs, e4.
  exists s, (now - started)%Q, report0. split_and!; [|done|lia|done|done|by eapply annotated_verdict].
  rewrite !app_nil_r. by rewrite <- !app_assoc.
Qed.

Abbreviation run_each := (run_each float_text float_repr indented indented1 RESULTS RUNS).
(** The points that ran, each with its report and what was seen meanwhile. *)
Definition all_ran (todo : list Point) (ran : list (json * list seen)) : Prop :=
  Forall2 (fun p x => point_run p x.1 x.2) todo ran.
Definition passed (x : json * list seen) : Prop := failed x.1 = Ok false.

Lemma grows_each todo : forall failures tr,
  wwp (run_each todo failures) tr (grows (fun n seg => exists ran, seg = concat ran.*2 /\
    all_ran todo ran /\ failures <= n /\ (n = failures <-> Forall passed ran)) tr).
Proof.
  induction todo as [|p todo IH]; intros failures tr; cbn [LocalBench.run_each].
  { apply grows_ret. exists []. split_and!; [done|by constructor|lia|]. by split. }
  eapply grows_bind; [unfold log; quiet|]. intros [] ? ->.
  eapply grows_bind; [apply grows_point|]. intros report seg Hp.
  eapply grows_bind; [apply grows_check|]. intros bad ? [-> Hbad].
  eapply wp_mono; [apply IH|]. intros r tr' (seg' & -> & Hr). exists seg'. split; [done|].
  destruct r as [n|]; [|done]. destruct Hr as (ran & -> & Hran & Hle & Hn).
  exists ((report, seg) :: ran). cbn [fmap list_fmap concat snd app].
  split_and!; [done|by constructor|destruct bad; cbn in Hle; lia|].
  rewrite Forall_cons, <- Hn. unfold passed at 1. cbn [fst]. rewrite Hbad.
  destruct bad; cbn in Hle |- *; split; [lia|by intros [? _]|intros ->; split; [done|lia]|lia].
Qed.

Lemma todo_quiet a tr : wwp (todo_of RESULTS a) tr (fun _ tr' => tr' = tr).
Proof.
  assert (Hrates : forall n files tr, wwp (rates_in n files) tr (fun _ tr' => tr' = tr)).
  { intros n files. induction files as [|f files IH]; intros tr'; [done|].
    cbn [rates_in]. unfold hosted. apply wp_call. intros r ? ->. destruct r; [|done].
    apply wp_check. destruct (rate_for _ _); [|done]. apply wp_bind.
    eapply wp_mono; [apply IH|]. by intros [] ? ->. }
  unfold todo_of, points, capacity, hosted. repeat case_decide; try done;
    apply wp_bind, wp_call; (intros r ? ->; destruct r; [|done]);
    apply wp_bind; (eapply wp_mono; [apply Hrates|]); intros [[]|] ? ->; done.
Qed.

Lemma build_wp a tr : wwp (build_image float_text REPO_ROOT a) tr
  (fun _ tr' => exists seg, tr' = tr ++ seg /\ (length seg <= 1)%nat).
Proof.
  unfold build_image. destruct (a_skip_build a).
  { exists []. split; [by rewrite app_nil_r|cbn; lia]. }
  unfold log, hosted. apply wp_call. intros r ? ->.
  destruct r; [|exists []; split; [by rewrite app_nil_r|cbn; lia]].
  cbn. intros r ? ->.
  destruct r as [[[[code out] err]|]|e]; cbn; [destruct (negb _); cbn| |]; by eexists.
Qed.

(** A run to the end: the points it was to do, all run, and the stack taken down. *)
Definition ran_to_end (a : Args) (code : Z) (tr : list seen) : Prop :=
  exists todo build ran d,
    runs watching (todo_of RESULTS a) [] (Ok todo) [] /\
    tr = build ++ concat ran.*2 ++ d /\ (length build <= 1)%nat /\ taken_down d /\
    all_ran todo ran /\ (code = 0 \/ code = 1) /\ (code = 0 <-> Forall passed ran).
(** A run that failed: before its points, or with the stack taken down at the end. *)
Definition torn_down (tr : list seen) : Prop :=
  (length tr <= 1)%nat \/ exists before d, tr = before ++ d /\ taken_down d.

Lemma main_wp a :
  wwp (main_async float_text float_repr indented indented1 REPO_ROOT RESULTS RUNS a) []
    (fun r tr => match r with Ok code => ran_to_end a code tr | Err _ => torn_down tr end).
Proof.
  unfold main_async. apply wp_bind. eapply wp_mono.
  { apply (runs_wp _ _ _ (fun r v => runs watching (todo_of RESULTS a) [] r v /\ v = [])).
    intros r v Hr. split; [done|]. by apply (wp_runs _ _ _ _ _ _ (todo_quiet a []) Hr). }
  intros r v [Htodo ->]. destruct r as [todo|e]; [|left; cbn; lia].
  apply wp_bind. eapply wp_mono; [apply build_wp|]. intros r v (build & -> & Hbuild). cbn [app].
  destruct r as [[]|e]; [|by left].
  apply wp_bind, wp_finally. eapply wp_mono; [apply grows_each|].
  intros r v (seg & -> & Hr). eapply wp_mono; [apply down_wp|]. intros c v (d & -> & Hd).
  assert (Hdown : forall e : stop, torn_down ((build ++ seg) ++ d)) by (intros _; right; eauto).
  destruct c as [[]|e]; [|by apply Hdown]. destruct r as [n|e]; [|by apply Hdown].
  destruct Hr as (ran & -> & Hran & Hle & Hn).
  unfold log, hosted. apply wp_call. intros r v ->. destruct r; [|by apply Hdown]. apply wp_ret.
  exists todo, build, ran, d. split_and!; try done.
  - by rewrite <- app_assoc.
  - destruct (n =? 0); [by left|by right].
  - rewrite <- Hn. destruct (Z.eqb_spec n 0) as [->|Hne]; split; try done; lia.
Qed.
End Runs.

(** C37: a local benchmark does what its exit code says. A run that ends has gone through the
    points it was to do, in order and each on a stack made fresh for it (the old one taken
    down, Redis up, that many workers started) before its load generator ran; each load
    generator ended with 0 or 1, and its report is saved in the point's file with its
    exactly-once verdict as it was; the exit code is 0 exactly when every one of these
    verdicts passed, and 1 otherwise. And once the points have begun, the stack is taken
    down at the very end, whatever failed before. *)
Theorem local_benchmark_judged (float_text float_repr : Q -> string)
    (indented indented1 : json -> string) (REPO_ROOT RESULTS RUNS : string) (a : Args)
    (r : result stop Z) (tr : list seen) :
  runs watching (main_async float_text float_repr indented indented1 REPO_ROOT RESULTS RUNS a)
    [] r tr ->
  match r with
  | Ok code => ran_to_end float_repr indented indented1 RESULTS RUNS a code tr
  | Err _ => torn_down RUNS tr
  end.
Proof.
  apply (wp_runs watching _ [] r tr (fun r tr => match r with
    | Ok code => ran_to_end float_repr indented indented1 RESULTS RUNS a code tr
    | Err _ => torn_down RUNS tr
    end)).
  apply main_wp.
Qed.

(** A Docker where everything works at once. *)
Definition toy_report : json :=
  JObj [("window", JObj [("start_ms", JInt 0); ("end_ms", JInt 2000)]);
        ("completed_in_window_by_worker", JObj [("abc-1", JInt 900)]);
        ("meta", JObj []); ("exactly_once", JObj [("ok", JBool true)])].
Definition toy_docker (args : list string) : finished :=
  if bool_decide ("--expect-workers" ∈ args) then (0, dumps toy_report, "")
  else if bool_decide (args = docker_ps "{{.ID}} {{.Names}}") then (0, "abc ftq-bench-worker-1", "")
  else (0, "", "").
Definition toy X (e : lb X) (w : list seen * sampler) : result stop X * (list seen * sampler) :=
  match e in lb Y return result stop Y * (list seen * sampler) with
  | Stack t =>
      match t in topo Y return result stop Y * (list seen * sampler) with
      | Exec args _ => let x := Some (toy_docker args) in (Ok x, (w.1 ++ [Did args x], w.2))
      | OnHost h =>
          match h in host Y return result stop Y * (list seen * sampler) with
          | HWrite path text => (Ok tt, (w.1 ++ [Wrote path text], w.2))
          | HExists path => (Ok true, (w.1 ++ [Looked path true], w.2))
          | HCommand _ => (Ok (0, "", ""), w)
          | HLog _ _ => (Ok tt, w)
          | HUtc => (Ok "now", w)
          | HClock => (Ok 0%Q, w)
          | _ => (Err Diverges, w)
          end
      | Http _ _ _ => (Ok tt, w)
      end
  | Me f => let p := f w.2 in (Ok p.1, (w.1, p.2))
  | StartSampling | StopSampling | JoinSampling | WaitStop _ => (Ok tt, w)
  | Stopped => (Ok true, w)
  end.
Lemma toy_docker_ok X (e : lb X) w : watching X e w.1 (fst (toy X e w)) (snd (toy X e w)).1.
Proof.
  destruct e as [X t|X f| | | | |]; try done. destruct t as [X h|args|]; try done.
  destruct h; try done. by exists true.
Qed.

Definition toy_bench : Args :=
  mk_Args "point" true 50 10 30 5 2 100 20000 [] [] 3 1 1 4 [] (3 # 2) 20000 15000 "p1" "adhoc"
    ["--rate"; "0"].
Definition toy_run :=
  Effects.run toy (main_async (fun _ => "") (fun _ => "") dumps dumps "/repo" "/results" "/runs"
    toy_bench) ([], new_sampler).

Lemma local_benchmark_judged_witness :
  toy_run.1 = Ok 0 /\ length toy_run.2.1 = 13%nat /\
  ran_to_end (fun _ => "") dumps dumps "/results" "/runs" toy_bench 0 toy_run.2.1.
Proof.
  assert (Hr : toy_run.1 = Ok 0) by (vm_compute; reflexivity).
  split; [exact Hr|]. split; [vm_compute; reflexivity|].
  pose proof (local_benchmark_judged (fun _ => "") (fun _ => "") dumps dumps "/repo" "/results"
    "/runs" toy_bench toy_run.1 toy_run.2.1
    (runs_run watching fst toy toy_docker_ok _ ([], new_sampler))) as Hj.
  rewrite Hr in Hj. exact Hj.
Defined.
