(* ===== verification/Labels.v ===== *)
(** The names of a local benchmark's points (LocalBench.v): no two points of a suite share a
    report file. *)
From S2P Require Import Prelude Effects Redis LuaScripts Json Py Models Handlers.
From S2P Require Import Tables.
From S2P Require Import Analysis Texts Shell Topology LocalBench LocalRuns.

#[local] Open Scope string_scope.
#[local] Open Scope list_scope.
#[local] Open Scope Z_scope.
#[local] Open Scope prog_scope.

(** ** The files of a suite *)
(** *** Numbers in names *)
Lemma digits_of_nonneg n : 0 <= n -> digits (str_of_Z n) 0 = Some n.
Proof.
  intros Hn. rewrite <- (Z2N.id n) at 1 by done. unfold str_of_Z, pretty, pretty_Z.
  destruct n as [|p|p]; [done| |done]. exact (digits_pretty_N (N.pos p)).
Qed.

Lemma int_two_digits n : int_of_str (two_digits n) = Some n.
Proof.
  unfold two_digits. destruct (_ && _) eqn:Hn; [|apply int_of_str_of_Z].
  exact (digits_of_nonneg n ltac:(lia)).
Qed.
Lemma int_three_digits n : int_of_str (three_digits n) = Some n.
Proof.
  unfold three_digits. destruct ((0 <=? n) && (n <? 10)) eqn:H1.
  { exact (digits_of_nonneg n ltac:(lia)). }
  destruct ((0 <=? n) && (n <? 100)) eqn:H2.
  { exact (digits_of_nonneg n ltac:(lia)). }
  destruct ((-10 <? n) && (n <? 0)) eqn:H3; [|apply int_of_str_of_Z].
  change (Z.opp <$> digits (str_of_Z (- n)) 0 = Some n).
  rewrite digits_of_nonneg by lia. cbn. f_equal. lia.
Qed.

(** A text without [c] before the first [c] is determined. *)
Lemma split_inj c s : forall s' k k', without c s = true -> without c s' = true ->
  s +:+ String c k = s' +:+ String c k' -> s = s' /\ k = k'.
Proof.
  induction s as [|a s IH]; intros [|a' s'] k k' Hs Hs' He.
  - by injection He.
  - change (String c k = String a' (s' +:+ String c k')) in He. injection He as -> _.
    by rewrite without_mark in Hs'.
  - change (String a (s +:+ String c k) = String c k') in He. injection He as -> _.
    by rewrite without_mark in Hs.
  - change (String a (s +:+ String c k) = String a' (s' +:+ String c k')) in He.
    injection He as -> He. unfold without in Hs, Hs'. cbn [all_chars] in Hs, Hs'.
    apply andb_prop in Hs as [_ Hs], Hs' as [_ Hs'].
    by destruct (IH s' k k' Hs Hs' He) as [-> ->].
Qed.
Lemma append_inj_r k s : forall s', s +:+ k = s' +:+ k -> s = s'.
Proof.
  induction s as [|a s IH]; intros s' He; pose proof (f_equal String.length He) as Hl;
    rewrite !string_app_length in Hl.
  - destruct s'; [done|cbn in Hl; lia].
  - destruct s' as [|a' s']; [cbn in Hl; lia|].
    change (String a (s +:+ k) = String a' (s' +:+ k)) in He. injection He as -> He. f_equal. by apply IH.
Qed.

Lemma out_file_inj RESULTS p p' : suite p = suite p' ->
  out_file RESULTS p = out_file RESULTS p' -> label p = label p'.
Proof.
  unfold out_file. intros -> He. apply (inj (String.append _)) in He.
  do 3 apply (inj (String.append _)) in He. by apply append_inj_r in He.
Qed.

Lemma two_digits_inj a b : two_digits a = two_digits b -> a = b.
Proof. intros He. pose proof (int_two_digits a) as Ha. rewrite He, int_two_digits in Ha. congruence. Qed.
Lemma three_digits_inj a b : three_digits a = three_digits b -> a = b.
Proof. intros He. pose proof (int_three_digits a) as Ha. rewrite He, int_three_digits in Ha. congruence. Qed.

(** *** Labels *)
Lemma scaling_label a r w r' w' :
  label (scaling_point a r w) = label (scaling_point a r' w') -> r = r' /\ w = w'.
Proof.
  cbn [scaling_point label]. intros He. apply (inj (String.append "w")) in He.
  change ("_r" +:+ ?s) with (String "_" (String "r" s)) in He.
  apply split_inj in He as [Hw Hr]; [|by eapply int_without, int_two_digits..].
  injection Hr as Hr. split; [by apply str_of_Z_inj|by apply two_digits_inj].
Qed.
Lemma concurrency_label a r c r' c' : 1 <= r -> 1 <= r' ->
  label (concurrency_point a r c) = label (concurrency_point a r' c') -> r = r' /\ c = c'.
Proof.
  intros H1 H1'. cbn [concurrency_point label]. intros He. apply (inj (String.append "c")) in He.
  assert (Hw : forall n, without "_" (three_digits n) = true) by (intros; by eapply int_without, int_three_digits).
  destruct (Z.ltb_spec 1 r), (Z.ltb_spec 1 r').
  - apply split_inj in He as [Hc Hr]; [|done..].
    injection Hr as Hr. split; [by apply str_of_Z_inj|by apply three_digits_inj].
  - exfalso. apply (f_equal (without "_")) in He. rewrite !without_app, !Hw in He. done.
  - exfalso. apply (f_equal (without "_")) in He. rewrite !without_app, !Hw in He. done.
  - apply append_inj_r in He. split; [lia|by apply three_digits_inj].
Qed.
Lemma iothreads_label a r r' :
  label (iothreads_point a r) = label (iothreads_point a r') -> r = r'.
Proof.
  cbn [iothreads_point label]. intros He. do 5 apply (inj (String.append _)) in He.
  by apply str_of_Z_inj.
Qed.
Lemma latency_label a cap f f' :
  label (latency_point a cap f) = label (latency_point a cap f') ->
  Tables.round (f * 100) = Tables.round (f' * 100).
Proof.
  cbn [latency_point label]. intros He. do 3 apply (inj (String.append _)) in He.
  by apply three_digits_inj.
Qed.
Lemma backpressure_label a cap m m' :
  label (backpressure_point a cap m) = label (backpressure_point a cap m') -> m = m'.
Proof. cbn [backpressure_point label]. intros He. by do 3 apply (inj (String.append _)) in He. Qed.

Lemma nodup_finer {I J L} (g : I -> J) (h : I -> L) (l : list I) :
  (forall i j, i ∈ l -> j ∈ l -> h i = h j -> g i = g j) -> NoDup (g <$> l) -> NoDup (h <$> l).
Proof.
  induction l as [|x l IH]; intros Hgh Hnd; [constructor|]. cbn in Hnd |- *.
  apply NoDup_cons in Hnd as [Hx Hnd]. apply NoDup_cons. split.
  - intros (y & He & Hy)%list_elem_of_fmap. apply Hx, list_elem_of_fmap. exists y.
    split; [|done]. apply Hgh; [left|by right|done].
  - apply IH; [|done]. intros i j Hi Hj. by apply Hgh; right.
Qed.
Lemma files_apart {I J} RESULTS (pt : I -> Point) (g : I -> J) (l : list I) :
  (forall i j, suite (pt i) = suite (pt j)) ->
  (forall i j, i ∈ l -> j ∈ l -> label (pt i) = label (pt j) -> g i = g j) -> NoDup (g <$> l) ->
  NoDup (out_file RESULTS <$> (pt <$> l)).
Proof.
  intros Hs Hl Hnd. rewrite <- list_fmap_compose. eapply nodup_finer; [|exact Hnd].
  intros i j Hi Hj He. apply Hl; [done..|]. eapply out_file_inj; [apply Hs|exact He].
Qed.

(** The pairs of two ranges, the first one outside. *)
Definition pairs (l l' : list Z) : list (Z * Z) := x ← l; y ← l'; [(x, y)].
Lemma pairs_points (f : Z -> Z -> Point) l l' :
  (x ← l; y ← l'; [f x y]) = (fun x => f x.1 x.2) <$> pairs l l'.
Proof.
  unfold pairs. induction l as [|x l IH]; [done|]. cbn [mbind list_bind].
  rewrite fmap_app. f_equal; [|exact IH]. clear. induction l' as [|y l' IH]; [done|].
  cbn. by f_equal.
Qed.
Lemma pairs_nodup l l' : NoDup l -> NoDup l' -> NoDup (pairs l l').
Proof.
  intros Hl Hl'. apply NoDup_bind; [|intros x _; apply NoDup_bind|done].
  - intros x1 x2 y _ _ H1 H2. apply list_elem_of_bind in H1 as (y1 & H1 & _), H2 as (y2 & H2 & _).
    apply list_elem_of_singleton in H1, H2. congruence.
  - intros y1 y2 z _ _ H1 H2. apply list_elem_of_singleton in H1, H2. congruence.
  - intros. apply NoDup_singleton.
  - done.
Qed.
Lemma pairs_first l l' x : x ∈ pairs l l' -> x.1 ∈ l.
Proof.
  intros Hx. apply list_elem_of_bind in Hx as (a & Hx & Ha).
  apply list_elem_of_bind in Hx as (b & Hx & _). apply list_elem_of_singleton in Hx. by subst.
Qed.

Lemma points_wp RESULTS a tr :
  1 <= a_repeat_from a -> NoDup (a_concurrency_values a) -> NoDup (a_worker_counts a) ->
  NoDup ((fun f => Tables.round (f * 100)) <$> a_load_fractions a) ->
  wp watching (points RESULTS a) tr (fun r _ =>
    match r with Ok todo => NoDup (out_file RESULTS <$> todo) | Err _ => True end).
Proof.
  intros Hr Hc Hw Hf. assert (Hrep : NoDup (repeats a)) by apply NoDup_seqZ.
  assert (H1 : forall r, r ∈ repeats a -> 1 <= r) by (intros r Hin; apply elem_of_seqZ in Hin; lia).
  assert (Hid : forall {A} (l : list A), NoDup l -> NoDup (id <$> l)) by (intros; by rewrite list_fmap_id).
  assert (Hany : forall {A} (p : bl A) v, wp watching p v (fun _ _ => True))
    by (intros; by apply runs_wp).
  unfold points. repeat case_decide.
  - apply wp_ret. rewrite pairs_points. apply (files_apart _ _ id); [done| |by apply Hid, pairs_nodup].
    intros [r c] [r' c'] Hi Hj He. apply pairs_first, H1 in Hi, Hj.
    apply concurrency_label in He as [He1 He2]; [|done..]. cbn in He1, He2. by subst.
  - apply wp_ret, (files_apart _ _ id); [done| |by apply Hid]. intros r r' _ _. apply iothreads_label.
  - apply wp_ret. rewrite pairs_points. apply (files_apart _ _ id); [done| |by apply Hid, pairs_nodup].
    intros [r c] [r' c'] _ _ He.
    apply scaling_label in He as [He1 He2]. cbn in He1, He2. by subst.
  - apply wp_bind. eapply wp_mono; [apply Hany|]. intros [cap|] v _; [|done]. apply wp_ret.
    eapply files_apart; [done| |exact Hf]. intros f f' _ _. apply latency_label.
  - apply wp_bind. eapply wp_mono; [apply Hany|]. intros [cap|] v _; [|done]. apply wp_ret.
    apply (files_apart _ _ id); [done| |]; [intros m m' _ _; apply backpressure_label|].
    apply (bool_decide_eq_true_1 _). reflexivity.
  - apply wp_bind. eapply wp_mono; [apply Hany|]. by intros [cap|] v _.
Qed.

(** No point of a suite overwrites the report of another. Whatever the saved rates say,
    the points of a suite have reports in different files, when the repeats start at 1 at
    least, the worker counts and the concurrency values differ from each other, and so do
    the load fractions in whole percents; so every suite of one run leaves as many reports
    as it has points. *)
Theorem points_apart (RESULTS : string) (a : Args) (tr tr' : list seen) (todo : list Point) :
  1 <= a_repeat_from a -> NoDup (a_concurrency_values a) -> NoDup (a_worker_counts a) ->
  NoDup ((fun f => Tables.round (f * 100)) <$> a_load_fractions a) ->
  runs watching (points RESULTS a) tr (Ok todo) tr' ->
  NoDup (out_file RESULTS <$> todo).
Proof.
  intros Hr Hc Hw Hf Hp.
  exact (wp_runs _ _ _ _ _ _ (points_wp RESULTS a tr Hr Hc Hw Hf) Hp).
Qed.

(** The defaults of the command line, for the scaling suite. *)
Definition default_scaling : Args :=
  mk_Args "scaling" false 50 10 30 5 2 100 20000 [10; 25; 50; 100] [1; 2; 4; 8; 12] 3 1 1 8
    [1 # 10; 1 # 4; 1 # 2; 3 # 4; 9 # 10]%Q (3 # 2) 20000 15000 "point" "adhoc" [].
Definition scaling_todo := Effects.run toy (points "/results" default_scaling) ([], new_sampler).

Lemma points_apart_witness : exists todo,
  scaling_todo.1 = Ok todo /\ length todo = 15%nat /\ NoDup (out_file "/results" <$> todo).
Proof.
  eexists. split; [vm_compute; reflexivity|]. split; [reflexivity|].
  apply (points_apart "/results" default_scaling [] scaling_todo.2.1).
  - cbn. lia.
  - by apply (bool_decide_eq_true_1 _).
  - by apply (bool_decide_eq_true_1 _).
  - apply (bool_decide_eq_true_1 _). vm_compute. reflexivity.
  - exact (runs_run watching fst toy toy_docker_ok _ ([], new_sampler)).
Defined.
