(* ===== verification/Plots.v ===== *)
(** The selection of numbers for the charts (bench/plot.py): the rows of the tables, the
    sessions a set of runs falls into, the rolling mean of a timeline, the summaries.

    Drawing a chart is an effect here ([Draw], with the rows it draws): Charts.v says what is
    drawn. A report stays parsed JSON. The instant a text names
    ([datetime.fromisoformat]), the texts of numbers and the indented JSON printer are
    parameters. *)
From S2P Require Import Prelude Effects Redis LuaScripts Json Py Models Handlers.
From S2P Require Import Tables.
From S2P Require Import Analysis Texts Shell.
From Stdlib Require Import Qcanon Lqa.

#[local] Open Scope string_scope.
#[local] Open Scope list_scope.
#[local] Open Scope Z_scope.
#[local] Open Scope prog_scope.

(** ** A stable sort by a key *)
Section SortBy.
Context {A : Type} (le : A -> A -> bool).
Fixpoint insert_by (x : A) (l : list A) : list A :=
  match l with
  | [] => [x]
  | y :: r => if le x y then x :: y :: r else y :: insert_by x r
  end.
Definition sort_by (l : list A) : list A := foldr insert_by [] l.

Lemma insert_by_perm x l : insert_by x l ≡ₚ x :: l.
Proof.
  induction l as [|y l IH]; [done|]. cbn. destruct (le x y); [done|]. rewrite IH. constructor.
Qed.
Lemma sort_by_perm l : sort_by l ≡ₚ l.
Proof. induction l as [|x l IH]; [done|]. cbn. by rewrite insert_by_perm, IH. Qed.
End SortBy.

(** ** The effects *)
Inductive pl : Type -> Type :=
  | OnHost {X} (h : host X) : pl X
  | Draw (chart : string) (rows : list json) (subtitle out : string) : pl unit.
Abbreviation pp := (prog pl stop).
Definition hosted {X} (h : host X) : pp X := call (OnHost h).

Section Plots.
Context (float_repr : Q -> string) (repr : json -> string) (indented1 : json -> string).
Context (instant : string -> result exn Q).

(** ** Rows *)
Fixpoint read_all (files : list string) : pp (list json) :=
  match files with
  | [] => Ret []
  | f :: rest => t <- hosted (HRead f) ;; j <- parse t ;; js <- read_all rest ;; Ret (j :: js)
  end.
Definition files_of (results suite : string) : pp (list string) :=
  files <- hosted (HGlob (results +:+ "/" +:+ suite +:+ "/*.json")) ;; Ret (sort_strings files).
Definition load (results suite : string) : pp (list json) :=
  files <- files_of results suite ;; read_all files.

(** [j[a][b]...] *)
Fixpoint at_path (path : list string) (j : json) : result exn json :=
  match path with
  | [] => Ok j
  | k :: r => x <-! at_key k j ;; at_path r x
  end.
(** [j.get(k, default)] *)
Definition get_or (k : string) (default : json) (j : json) : result exn json :=
  match j with
  | JObj l => Ok (match member k l with Some v => v | None => default end)
  | _ => Err (TypeError "no attribute 'get'")
  end.
(** A number that is neither None nor 0 *)
Definition known (j : json) : result exn (option Q) :=
  match j with
  | JNull => Ok None
  | _ => q <-! float_of_json j ;; Ok (if Qeq_bool q 0 then None else Some q)
  end.

(** Where a column of a row comes from. *)
Inductive column : Type :=
  | At (path : list string)                                 (* r[..][..] *)
  | Got (path : list string) (key : string) (default : json) (* r[..].get(key, default) *)
  | Positive (path : list string)                           (* r[..][..] > 0 *)
  | Cost.                                                   (* Redis's time for a job *)
Definition redis_us_per_job (r : json) : result exn json :=
  b <-! at_path ["redis"; "main_thread_busy"] r ;; busy <-! known b ;;
  match busy with
  | None => Ok JNull
  | Some b =>
      c <-! at_path ["throughput"; "completed_per_s"] r ;; completed <-! known c ;;
      Ok (match completed with
          | Some c => JFloat (float_repr (round_to 1 (b / c * 1000000)))
          | None => JNull
          end)
  end.
Definition value_of (c : column) (r : json) : result exn json :=
  match c with
  | At path => at_path path r
  | Got path k d => x <-! at_path path r ;; get_or k d x
  | Positive path => x <-! at_path path r ;; q <-! float_of_json x ;; Ok (JBool (Qlt_bool 0 q))
  | Cost => redis_us_per_job r
  end.
Definition ROW : list (string * column) := [
  ("label", At ["meta"; "label"]);
  ("workers", At ["meta"; "workers"]);
  ("date_utc", At ["meta"; "date_utc"]);
  ("loadgen_processes", At ["spec"; "processes"]);
  ("saturated_mode", Positive ["spec"; "max_depth"]);
  ("redis_io_threads", Got ["meta"] "redis_io_threads" (JInt 1));
  ("concurrency", At ["meta"; "worker_concurrency"]);
  ("offered_per_s", At ["throughput"; "offered_per_s"]);
  ("accepted_per_s", At ["throughput"; "accepted_per_s"]);
  ("completed_per_s", At ["throughput"; "completed_per_s"]);
  ("e2e_p50_ms", Got ["e2e_latency_ms"] "p50" JNull);
  ("e2e_p95_ms", Got ["e2e_latency_ms"] "p95" JNull);
  ("e2e_p99_ms", Got ["e2e_latency_ms"] "p99" JNull);
  ("enqueue_call_p50_ms", Got ["enqueue_call_ms"] "p50" JNull);
  ("enqueue_call_p99_ms", Got ["enqueue_call_ms"] "p99" JNull);
  ("enqueue_batch_p50", Got ["enqueue_batch_jobs"] "p50" JNull);
  ("redis_main_thread", At ["redis"; "main_thread_busy"]);
  ("redis_us_per_job", Cost);
  ("redis_container", At ["cpu"; "redis_container"]);
  ("worker_mean", At ["cpu"; "worker_mean"]);
  ("worker_max", At ["cpu"; "worker_max"]);
  ("workers_sum", At ["cpu"; "workers_sum"]);
  ("loadgen", At ["cpu"; "loadgen_container"]);
  ("vm_busy_cpus", At ["cpu"; "vm_busy_cpus"]);
  ("vm_cpus", At ["cpu"; "vm_cpus"]);
  ("depth_min", At ["depth_in_window"; "min"]);
  ("depth_max", At ["depth_in_window"; "max"]);
  ("rejected", At ["producers"; "rejected"]);
  ("blocked", At ["producers"; "blocked"]);
  ("blocked_seconds", At ["producers"; "blocked_seconds"]);
  ("exactly_once", At ["exactly_once"; "ok"]);
  ("duplicate_results", At ["exactly_once"; "duplicate_results"]);
  ("missing", At ["exactly_once"; "missing"]);
  ("worker_log_lines", At ["worker_log_lines"])].
Definition _row (r : json) : result exn json :=
  l <-! each (fun c => v <-! value_of c.2 r ;; Ok (c.1, v)) ROW ;; Ok (JObj l).

Definition as_int (j : json) : result exn Z :=
  match j with JInt n => Ok n | _ => Err (TypeError "expected an integer") end.
(** [groups[row["workers"]].append(row)], in order *)
Definition _by_workers (rows : list json) : result exn (list (Z * list json)) :=
  l <-! each (fun r => w <-! at_key "workers" r ;; n <-! as_int w ;; Ok (n, r)) rows ;;
  Ok (sort_by (fun a b => a.1 <=? b.1)
        (foldl (fun d x => put d x.1 (get d x.1 [] ++ [x.2])) [] l)).
Definition is_null (j : json) : bool := match j with JNull => true | _ => false end.
Definition _median (rows : list json) (key : string) : result exn Q :=
  l <-! each (at_key key) rows ;;
  qs <-! each float_of_json (filter (fun j => is_null j = false) l) ;;
  match qs with [] => Err (ValueError "no median for empty data") | _ => Ok (median qs) end.

(** *** Sessions *)
Definition date_of (r : json) : result exn string := d <-! at_key "date_utc" r ;; as_text d.
Definition dated (r : json) : result exn (string * json) := d <-! date_of r ;; Ok (d, r).
Definition earlier {A} (a b : string * A) : bool := String.leb a.1 b.1.
(** [out[-1].append(r)] *)
Fixpoint append_last {A} (x : A) (l : list (list A)) : list (list A) :=
  match l with
  | [] => []
  | [s] => [s ++ [x]]
  | s :: r => s :: append_last x r
  end.
(** One run, after those in [out], the last of which was at [last]. *)
Definition add_run {A} (gap_min : Q) (out : list (list A)) (last : option Q) (t : Q) (r : A) :
    list (list A) :=
  let new := match last with Some l => Qlt_bool (gap_min * 60) (t - l) | None => true end in
  append_last r (if new then out ++ [[]] else out).
Fixpoint split_runs (gap_min : Q) (out : list (list json)) (last : option Q)
    (runs : list (string * json)) : result exn (list (list json)) :=
  match runs with
  | [] => Ok out
  | (d, r) :: rest =>
      t <-! instant d ;; split_runs gap_min (add_run gap_min out last t r) (Some t) rest
  end.
Definition sessions (rows : list json) (gap_min : Q) : result exn (list (list json)) :=
  l <-! each dated rows ;; split_runs gap_min [] None (sort_by earlier l).
Definition _span (runs : list json) : result exn string :=
  match runs, last runs with
  | a :: _, Some b =>
      x <-! date_of a ;; y <-! date_of b ;;
      Ok (String.substring 11 5 x +:+ "-" +:+ String.substring 11 5 y +:+ " UTC")
  | _, _ => Err IndexError
  end.

(** ** The rolling mean *)
(** A second's number: 0 when it has no bin. *)
Definition bin_value (bins : list (string * json)) (col : option nat) (s : Z) : result exn Q :=
  match member (str_of_Z s) bins with
  | None | Some JNull => Ok 0%Q
  | Some v =>
      match col with
      | None => float_of_json v
      | Some c =>
          l <-! items_of v ;;
          match l !! c with Some x => float_of_json x | None => Err IndexError end
      end
  end.
(** [vals[lo : i + 1]] with [lo] at most [width - 1] before [i] *)
Definition trailing (vals : list Q) (width : Z) (i : nat) : list Q :=
  drop (Z.to_nat (Z.max 0 (Z.of_nat i - width + 1))) (take (S i) vals).
Definition trailing_mean (vals : list Q) (width : Z) (i : nat) : result exn Q :=
  div (foldr Qplus 0%Q (trailing vals width i))
      (inject_Z (Z.of_nat i + 1 - Z.max 0 (Z.of_nat i - width + 1))).
Definition rolling_per_s (bins : list (string * json)) (seconds : list Z) (width : Z)
    (col : option nat) : result exn (list Q) :=
  vals <-! each (bin_value bins col) seconds ;;
  each (trailing_mean vals width) (seq 0 (length vals)).

(** ** Tables *)
Definition str (j : json) : string := str_of_json repr j.
Definition table_row (cols : list string) (r : json) : result exn string :=
  l <-! each (fun c => at_key c r) cols ;; Ok ("| " +:+ join " | " (str <$> l) +:+ " |").
Definition _table (rows : list json) (cols : list string) : result exn string :=
  l <-! each (table_row cols) rows ;;
  Ok (join newline (("| " +:+ join " | " cols +:+ " |") ::
                    ("|" +:+ repeated "---|" (length cols)) :: l)).

(** ** The AWS reports *)
Definition is_report (f : string) : bool := negb (ends_with f ".services.json").
Definition rounded (j : json) : result exn json := q <-! float_of_json j ;; Ok (JInt (round q)).
Definition aws_row (suite : string) (r : json) : result exn json :=
  m <-! at_key "meta" r ;; t <-! at_key "throughput" r ;; lat <-! at_key "e2e_latency_ms" r ;;
  p <-! at_key "producers" r ;;
  label <-! at_key "label" m ;; workers <-! at_key "workers" m ;;
  o <-! at_key "offered_per_s" t ;; offered <-! rounded o ;;
  c <-! at_key "completed_per_s" t ;; completed <-! rounded c ;;
  busy <-! at_path ["redis"; "main_thread_busy"] r ;;
  p50 <-! at_key "p50" lat ;; p99 <-! at_key "p99" lat ;;
  rejected <-! at_key "rejected" p ;; blocked <-! at_key "blocked" p ;;
  reported <-! at_path ["hosts"; "reported"] p ;; expected <-! at_path ["hosts"; "expected"] p ;;
  ok <-! at_path ["exactly_once"; "ok"] r ;;
  git <-! get_or "git" (JStr "") m ;; date <-! get_or "date_utc" (JStr "") m ;;
  Ok (JObj [
    ("suite", JStr suite); ("label", label); ("workers", workers);
    ("offered_per_s", offered); ("completed_per_s", completed);
    ("redis_main_thread", busy); ("e2e_p50_ms", p50); ("e2e_p99_ms", p99);
    ("rejected", rejected); ("blocked", blocked);
    ("hosts", JStr (str reported +:+ "/" +:+ str expected));
    ("exactly_once", ok);
    ("recovered", JBool (match m with
       | JObj l => match member "recovered" l with Some _ => true | None => false end
       | _ => false
       end));
    ("git", git); ("date_utc", date)]).
Definition aws_reports (results suite : string) : pp (list json) :=
  files <- files_of results suite ;; read_all (filter (fun f => is_report f = true) files).
Fixpoint aws_rows_of (results : string) (suites : list string) : pp (list json) :=
  match suites with
  | [] => Ret []
  | s :: rest =>
      rs <- aws_reports results s ;;
      rows <- check (each (aws_row s) rs) ;;
      more <- aws_rows_of results rest ;; Ret (rows ++ more)
  end.
Definition aws_rows (results : string) : pp (list json) :=
  aws_rows_of results ["scaling"; "headline"; "backpressure"].

(** [l.sort(key=lambda r: r["spec"]["backpressure"], reverse=True)] *)
Definition mode_of (r : json) : result exn (string * json) :=
  m <-! at_path ["spec"; "backpressure"] r ;; t <-! as_text m ;; Ok (t, r).
Definition by_mode_down (l : list json) : result exn (list json) :=
  x <-! each mode_of l ;; Ok ((sort_by (fun a b => String.leb b.1 a.1) x).*2).

Definition AWS_COLS : list string :=
  ["suite"; "label"; "workers"; "offered_per_s"; "completed_per_s"; "redis_main_thread";
   "e2e_p50_ms"; "e2e_p99_ms"; "rejected"; "blocked"; "hosts"; "exactly_once"; "recovered";
   "git"; "date_utc"].
Definition of_suite (s : string) (r : json) : bool :=
  match at_key "suite" r with Ok j => is_text s j | Err _ => false end.
Definition aws_intro (env : string) : string :=
  "# AWS benchmark summary" +:+ newline +:+ newline +:+ env +:+ newline +:+ newline +:+
  "Generated by `python -m bench.plot --aws` from the reports in this directory; see " +:+
  "README.md for which session each point came from." +:+ newline.
Definition aws_main (results : string) : pp unit :=
  rows <- aws_rows results ;;
  if negb (existsb (of_suite "scaling") rows) then
    Raise (Exits (inl ("no scaling reports under " +:+ results)))
  else
    files <- files_of results "scaling" ;;
    f <- check (match filter (fun f => is_report f = true) files with
                | f :: _ => Ok f
                | [] => Err StopIteration
                end) ;;
    text <- hosted (HRead f) ;; first <- parse text ;;
    env <- check (at_path ["meta"; "environment"] first) ;;
    text <- check (as_text env) ;;
    let subtitle := replace_first ": Redis on" ("." +:+ newline +:+ "Redis on") text in
    call (Draw "aws scaling" rows subtitle (results +:+ "/scaling.png")) ;;;
    bp <- aws_reports results "backpressure" ;;
    (match bp with
     | [] => Ret tt
     | _ => sorted <- check (by_mode_down bp) ;;
            call (Draw "aws backpressure" sorted subtitle (results +:+ "/backpressure.png"))
     end) ;;;
    t <- check (_table rows AWS_COLS) ;;
    hosted (HWrite (results +:+ "/summary.md")
              (join newline [aws_intro (str env); t] +:+ newline)) ;;;
    hosted (HPrint ("wrote " +:+ results +:+ "/summary.md")).

(** ** The local reports *)
Definition SUBTITLE : string :=
  "Local run: MacBook (Apple M4), Docker Desktop VM with 10 CPUs. Not the AWS headline.".
Definition COLS : list string :=
  ["label"; "workers"; "concurrency"; "offered_per_s"; "completed_per_s"; "e2e_p50_ms";
   "e2e_p99_ms"; "redis_main_thread"; "redis_us_per_job"; "redis_io_threads";
   "loadgen_processes"; "worker_max"; "loadgen"; "vm_busy_cpus"; "depth_min"; "depth_max";
   "rejected"; "blocked"; "exactly_once"].
Definition intro : string :=
  "# Local benchmark summary" +:+ newline +:+ newline +:+ SUBTITLE +:+ newline +:+ newline +:+
  "Generated by `bench/plot.py` from the reports in this directory." +:+ newline.

(** The rows of each suite, and the Markdown lines. *)
Definition summaries : Type := list (string * list json) * list string.
(** [md += [f"## {suite}\n", _table(rows, cols), ""]] *)
Definition add_section (st : summaries) (suite : string) (rows : list json) :
    result exn summaries :=
  t <-! _table rows COLS ;;
  Ok (put st.1 suite rows, st.2 ++ ["## " +:+ suite +:+ newline; t; ""]).

Definition drawn_suite (results suite : string) (st : summaries) : pp summaries :=
  reports <- load results suite ;;
  match reports with
  | [] => Ret st
  | _ =>
      rows <- check (each _row reports) ;;
      call (Draw suite rows SUBTITLE (results +:+ "/" +:+ suite +:+ ".png")) ;;;
      (if decide (suite = "scaling")
       then call (Draw "bottleneck" rows SUBTITLE (results +:+ "/bottleneck.png")) else Ret tt) ;;;
      check (add_section st suite rows)
  end.
Definition backpressure_suite (results : string) (st : summaries) : pp summaries :=
  bp <- load results "backpressure" ;;
  match bp with
  | [] => Ret st
  | _ =>
      rows <- check (each _row bp) ;;
      sorted <- check (by_mode_down bp) ;;
      call (Draw "backpressure" sorted SUBTITLE (results +:+ "/backpressure.png")) ;;;
      check (add_section st "backpressure" rows)
  end.
Definition plain_suite (results suite : string) (st : summaries) : pp summaries :=
  reports <- load results suite ;;
  match reports with
  | [] => Ret st
  | _ => rows <- check (each _row reports) ;; check (add_section st suite rows)
  end.

(** [r["saturated_mode"]] *)
Definition is_saturated (r : json) : bool :=
  match at_key "saturated_mode" r with Ok j => truthy j | Err _ => false end.
Definition plot_main (results : string) : pp unit :=
  st <- drawn_suite results "scaling" ([], [intro]) ;;
  st <- drawn_suite results "concurrency" st ;;
  st <- drawn_suite results "latency" st ;;
  st <- backpressure_suite results st ;;
  st <- plain_suite results "method" st ;;
  st <- plain_suite results "iothreads" st ;;
  let saturated := filter (fun r => is_saturated r = true) (concat st.1.*2) in
  (match saturated with
   | [] => Ret tt
   | _ => call (Draw "redis cost" saturated SUBTITLE (results +:+ "/redis_cost.png"))
   end) ;;;
  hosted (HWrite (results +:+ "/summary.json")
            (indented1 (JObj (prod_map id JArr <$> st.1)) +:+ newline)) ;;;
  hosted (HWrite (results +:+ "/summary.md") (join newline st.2 +:+ newline)) ;;;
  hosted (HPrint ("wrote " +:+ results +:+ "/summary.md")).
End Plots.

(** ** What the sessions are *)
Section Linked.
Context {A : Type} (P : A -> A -> Prop).
(** [P] holds of every two neighbours. *)
Definition linked (l : list A) : Prop :=
  forall i a b, l !! i = Some a -> l !! S i = Some b -> P a b.

Lemma linked_snoc l x : linked (l ++ [x]) <-> linked l /\ forall a, last l = Some a -> P a x.
Proof.
  split.
  - intros Hl. split.
    + intros i a b Ha Hb. apply (Hl i); by apply lookup_app_l_Some.
    + intros a Ha. rewrite last_lookup in Ha. destruct l as [|y l]; [done|].
      apply (Hl (length l)); [rewrite lookup_app_l by (cbn; lia); exact Ha|].
      by rewrite (lookup_app_r (y :: l)), Nat.sub_diag by done.
  - intros [Hl Hx] i a b Ha Hb. apply lookup_app_Some in Hb as [Hb|[Hle Hb]].
    + apply (Hl i); [|done]. apply lookup_lt_Some in Hb.
      rewrite lookup_app_l in Ha by lia. done.
    + apply list_lookup_singleton_Some in Hb as [Hi ->]. apply Hx. rewrite last_lookup.
      rewrite lookup_app_l in Ha by lia. by replace (pred (length l)) with i by lia.
Qed.
Lemma linked_nil : linked [].
Proof. by intros i a b Ha. Qed.
End Linked.

Lemma append_last_snoc {A} (x : A) pre s : append_last x (pre ++ [s]) = pre ++ [s ++ [x]].
Proof. induction pre as [|y pre IH]; [done|]. cbn. rewrite IH. by destruct (pre ++ [s]) eqn:H; [destruct pre|]. Qed.

Lemma insert_linked {A} (le : A -> A -> bool) x l :
  (forall a b, le a b = false -> le b a = true) ->
  Sorted (fun a b => le a b = true) l -> Sorted (fun a b => le a b = true) (insert_by le x l).
Proof.
  intros Ht. induction l as [|y l IH]; intros Hl; cbn; [by repeat constructor|].
  destruct (le x y) eqn:Hxy; [by constructor; [|constructor]|].
  apply Sorted_inv in Hl as [Hl Hy]. constructor; [by apply IH|].
  destruct l as [|z l]; cbn; [constructor; by apply Ht|].
  destruct (le x z); constructor; [by apply Ht|]. by apply HdRel_inv in Hy.
Qed.
Lemma sort_by_sorted {A} (le : A -> A -> bool) l :
  (forall a b, le a b = false -> le b a = true) -> Sorted (fun a b => le a b = true) (sort_by le l).
Proof.
  intros Ht. induction l as [|x l IH]; [constructor|]. cbn. by apply insert_linked.
Qed.

Section Sessions.
Context (instant : string -> result exn Q) (gap_min : Q).

Definition at_time (r : json) (t : Q) : Prop := exists d, date_of r = Ok d /\ instant d = Ok t.
(** The second run comes no more than the gap after the first, or more than that. *)
Definition near (a b : json) : Prop :=
  exists t u, at_time a t /\ at_time b u /\ (u - t <= gap_min * 60)%Q.
Definition apart (s s' : list json) : Prop :=
  exists a b t u, last s = Some a /\ head s' = Some b /\ at_time a t /\ at_time b u /\
    (gap_min * 60 < u - t)%Q.
Definition session (s : list json) : Prop := s <> [] /\ linked near s.

(** The sessions so far, the last run at [last]. *)
Record so_far (out : list (list json)) (prev : option Q) : Prop := {
  sf_sessions : Forall session out;
  sf_apart : linked apart out;
  sf_last : match prev with
            | None => out = []
            | Some t => exists pre s r, out = pre ++ [s] /\ last s = Some r /\ at_time r t
            end;
}.

Lemma add_run_ok out prev t r : so_far out prev -> at_time r t ->
  so_far (add_run gap_min out prev t r) (Some t) /\
  concat (add_run gap_min out prev t r) = concat out ++ [r].
Proof.
  intros [Hs Ha Hl] Hr. unfold add_run.
  assert (Hone : session [r]).
  { split; [done|]. intros i a b Hi Hb. apply lookup_lt_Some in Hb. cbn in Hb. lia. }
  destruct prev as [q|].
  2: { subst out. cbn. split; [|done]. split; [by constructor| |by exists [], [r], r].
       intros i a b Hi Hb. apply lookup_lt_Some in Hb. cbn in Hb. lia. }
  destruct Hl as (pre & s & x & -> & Hx & Hq).
  destruct (Qlt_bool (gap_min * 60) (t - q)) eqn:Hgap.
  - apply Qlt_bool_iff in Hgap. rewrite append_last_snoc. cbn [app].
    split; [|by rewrite !concat_app; cbn; rewrite !app_nil_r].
    split; [apply Forall_app; by split; [|constructor]| |by exists (pre ++ [s]), [r], r].
    apply linked_snoc. split; [done|]. intros s' Hs'. rewrite last_snoc in Hs'.
    injection Hs' as <-. by exists x, r, q, t.
  - assert (Hle : (t - q <= gap_min * 60)%Q).
    { destruct (Qlt_le_dec (gap_min * 60) (t - q)) as [H|]; [|done].
      apply Qlt_bool_iff in H. by rewrite H in Hgap. }
    rewrite append_last_snoc. split; [|by rewrite !concat_app; cbn; rewrite !app_nil_r, app_assoc].
    apply Forall_app in Hs as [Hpre Hs]. apply Forall_singleton in Hs as [Hne Hs].
    split; [apply Forall_app; split; [done|]; apply Forall_singleton; split| |].
    + by destruct s.
    + apply linked_snoc. split; [done|]. intros a Ha'. rewrite Hx in Ha'. injection Ha' as <-.
      by exists q, t.
    + apply linked_snoc in Ha as [Ha Hlast]. apply linked_snoc. split; [done|].
      intros s' Hs'. destruct (Hlast s' Hs') as (a & b & t1 & u & H1 & H2 & H3).
      exists a, b, t1, u. split; [done|]. split; [|done]. by destruct s.
    + exists pre, (s ++ [r]), r. by rewrite last_snoc.
Qed.

Lemma split_runs_ok runs : forall out prev ss, so_far out prev ->
  Forall (fun x : string * json => date_of x.2 = Ok x.1) runs ->
  split_runs instant gap_min out prev runs = Ok ss ->
  Forall session ss /\ linked apart ss /\ concat ss = concat out ++ runs.*2.
Proof.
  induction runs as [|[d r] runs IH]; intros out prev ss Hsf Hd Hrun; cbn [split_runs] in Hrun.
  - injection Hrun as <-. rewrite app_nil_r. by destruct Hsf.
  - apply Forall_cons in Hd as [Hd1 Hd]. cbn in Hd1.
    destruct (instant d) as [t|] eqn:Ht; [|done]. cbn [and_then] in Hrun.
    destruct (add_run_ok out prev t r Hsf) as [Hsf' Hc]; [by exists d|].
    destruct (IH _ _ _ Hsf' Hd Hrun) as (H1 & H2 & H3). split_and!; [done..|].
    rewrite H3, Hc. by rewrite <- app_assoc.
Qed.
End Sessions.

Lemma each_forall {A B} (f : A -> result exn B) (P : A -> B -> Prop) l : forall l',
  (forall x y, f x = Ok y -> P x y) -> each f l = Ok l' -> Forall2 P l l'.
Proof.
  intros l' Hf. revert l'. induction l as [|x l IH]; intros l'; cbn; [by intros [= <-]|].
  destruct (f x) as [y|] eqn:Hx; [|done]. cbn [and_then].
  destruct (each f l) as [ys|]; [|done]. cbn [and_then]. intros [= <-]. constructor; auto.
Qed.

(** The sessions are the runs, cut at every longer gap. Every run is in one of them, in the
    order of their dates; no session is empty, within a session a run comes at most the
    gap after the one before it, and between two sessions there is more than the gap. *)
Theorem sessions_exact (instant : string -> result exn Q) (rows : list json) (gap_min : Q)
    (ss : list (list json)) :
  sessions instant rows gap_min = Ok ss ->
  concat ss ≡ₚ rows /\
  (exists dates, Forall2 (fun r d => date_of r = Ok d) (concat ss) dates /\
     Sorted (fun a b => String.leb a b = true) dates) /\
  Forall (session instant gap_min) ss /\ linked (apart instant gap_min) ss.
Proof.
  unfold sessions. destruct (each dated rows) as [l|] eqn:Hl; [|done]. cbn [and_then]. intros Hs.
  assert (Hd : Forall2 (fun r x => x.2 = r /\ date_of r = Ok x.1) rows l).
  { eapply each_forall; [|exact Hl]. intros r x. unfold dated.
    destruct (date_of r); cbn; [by intros [= <-]|done]. }
  assert (Hdl : Forall (fun x : string * json => date_of x.2 = Ok x.1) (sort_by earlier l)).
  { rewrite sort_by_perm. clear -Hd.
    induction Hd as [|r x rows l [<- Hx] _ IH]; by constructor. }
  apply (split_runs_ok instant gap_min) in Hs as (H1 & H2 & H3); [|split; [done|apply linked_nil|done]|done].
  cbn [app concat] in H3. split_and!; [|exists (sort_by earlier l).*1; split|done..].
  - rewrite H3, sort_by_perm. apply Permutation_refl'. clear -Hd.
    induction Hd as [|r x rows l [<- _] _ IH]; [done|]. cbn. by f_equal.
  - rewrite H3. clear -Hdl. induction Hdl as [|x l' Hx _ IH]; by constructor.
  - assert (Ht : forall a b : string * json, earlier a b = false -> earlier b a = true).
    { intros a b Hab. destruct (String.leb_total a.1 b.1) as [H|]; [|done].
      unfold earlier in Hab. by rewrite H in Hab. }
    pose proof (sort_by_sorted earlier l Ht) as Hsort. revert Hsort.
    generalize (sort_by earlier l). clear. intros l Hsort.
    induction Hsort as [|x l _ IH Hx]; [apply Sorted_nil|]. apply Sorted_cons; [done|].
    by destruct Hx; constructor.
Qed.

(** ** What the rolling mean is *)
Lemma sum_bounds (l : list Q) (b : Q) : Forall (fun q => 0 <= q <= b)%Q l ->
  (0 <= foldr Qplus 0 l <= inject_Z (Z.of_nat (length l)) * b)%Q.
Proof.
  induction 1 as [|q l Hq _ IH]; [change (0 <= 0 <= 0 * b)%Q; lra|]. cbn [foldr length].
  rewrite Nat2Z.inj_succ. unfold Z.succ. rewrite inject_Z_plus. change (inject_Z 1) with 1%Q. nra.
Qed.
(** Every point of the rolling mean is the mean of the seconds up to it, [width] of them or
    all there are, and so never outside what the seconds hold. *)
Theorem rolling_mean_bounded (vals : list Q) (width : Z) (i : nat) (b : Q) :
  (i < length vals)%nat -> 1 <= width -> Forall (fun q => 0 <= q <= b)%Q vals ->
  exists m, trailing_mean vals width i = Ok m /\ (0 <= m <= b)%Q /\
    (m * inject_Z (Z.min width (Z.of_nat i + 1)) == foldr Qplus 0 (trailing vals width i))%Q /\
    Z.of_nat (length (trailing vals width i)) = Z.min width (Z.of_nat i + 1).
Proof.
  intros Hi Hw Hb. unfold trailing_mean.
  assert (Hlen : Z.of_nat (length (trailing vals width i)) = Z.min width (Z.of_nat i + 1)).
  { unfold trailing. rewrite length_drop, length_take. lia. }
  replace (Z.of_nat i + 1 - Z.max 0 (Z.of_nat i - width + 1)) with (Z.min width (Z.of_nat i + 1)) by lia.
  assert (Hsum : (0 <= foldr Qplus 0 (trailing vals width i) <=
      inject_Z (Z.min width (Z.of_nat i + 1)) * b)%Q).
  { rewrite <- Hlen. apply sum_bounds, Forall_drop, Forall_take, Hb. }
  set (n := Z.min width (Z.of_nat i + 1)) in *. set (s := foldr Qplus 0%Q _) in *.
  assert (Hn : (0 < inject_Z n)%Q) by (change 0%Q with (inject_Z 0); rewrite <- Zlt_Qlt; lia).
  unfold div. destruct (Qeq_bool (inject_Z n) 0) eqn:Hz; [apply Qeq_bool_iff in Hz; lra|].
  exists (s / inject_Z n)%Q. split; [done|]. split; [split|split; [|done]].
  - apply Qle_shift_div_l; [done|]. lra.
  - apply Qle_shift_div_r; [done|]. lra.
  - field. lra.
Qed.

(** The seconds' sum is not kept: what comes in the last seconds is spread over seconds
    that are not there, and what comes in the first ones counts more than once. *)
Example rolling_mean_loses :
  let bins := [("4", JInt 10)] in
  (l <-! rolling_per_s bins [0; 1; 2; 3; 4] 5 None ;; Ok (Qred (foldr Qplus 0%Q l))) = Ok 2%Q /\
  (l <-! rolling_per_s [("0", JInt 10)] [0; 1; 2; 3; 4] 5 None ;; Ok (Qred (foldr Qplus 0%Q l))) =
    Ok (137 # 6)%Q.
Proof. split; vm_compute; reflexivity. Qed.
