(* ===== verification/Reports.v ===== *)
(** The report of a load generator as JSON (bench/loadgen.py's [_report], [main]), and what
    its readers may count on: the local driver (LocalBench.v) and the charts (Plots.v). *)
From S2P Require Import Prelude Effects Redis Keys LuaScripts Queue Ops Refine.
From S2P Require Import Fields Streams Json Py Models Config Transitions Registry.
From S2P Require Import Client.
From S2P Require Import Handlers Metrics Tables Analysis Texts Shell Topology.
From S2P Require Import Loadgen.
From S2P Require Import LocalBench LocalRuns Plots Offered.
From Stdlib Require Import Qcanon.

#[local] Open Scope string_scope.
#[local] Open Scope list_scope.
#[local] Open Scope Z_scope.
#[local] Open Scope prog_scope.

Section Json.
Context (float_repr : Q -> string).
Definition jfloat (q : Q) : json := JFloat (float_repr q).

(** [asdict(spec)] *)
Definition spec_asdict (s : LoadSpec) : json :=
  match spec_json float_repr s with
  | JObj l => JObj (("redis_url", JStr (redis_url s)) :: l)
  | j => j
  end.
Definition window_json (w : Window.t) : json := JObj [
  ("start_ms", JInt (Window.start_ms w)); ("end_ms", JInt (Window.end_ms w));
  ("s", jfloat (Window.seconds w))].

(** [summarize]'s dictionary *)
Definition PERCENTILE_NAMES : list string := ["p50"; "p95"; "p99"; "p99.9"].
Definition summary_json {N} (number : N -> json) (s : option (Summary (N := N))) : json :=
  match s with
  | None => JObj [("count", JInt 0)]
  | Some s => JObj ([("count", JInt (Analysis.count s)); ("mean", jfloat (Analysis.mean s));
                     ("max", number (Analysis.max s))] ++
                    zip PERCENTILE_NAMES (number <$> (at_percentile s).*2))
  end.
Definition of_Qc (q : Qc) : json := jfloat q.

Definition sample_json (s : Sample) : json := JObj (
  [("t_ms", JInt (s_t_ms s)); ("depth", JInt (s_depth s)); ("stream", JInt (s_stream s));
   ("delayed", JInt (s_delayed s))] ++ (prod_map id JInt <$> s_counters s) ++
  [("redis_cpu_main_s", jfloat (s_redis_cpu_main_s s)); ("redis_cpu_s", jfloat (s_redis_cpu_s s));
   ("used_memory", JInt (s_used_memory s))]).
Definition cost_json (c : Loadgen.Cost) : json := JObj [
  ("calls", JInt (calls c)); ("usec", JInt (usec c));
  ("calls_per_job", jfloat (calls_per_job c)); ("usec_per_job", jfloat (usec_per_job c))].
Definition verdict_json (e : ExactlyOnce) : json := JObj [
  ("ok", JBool (eo_ok e)); ("accepted", JInt (eo_accepted e)); ("results", JInt (eo_results e));
  ("distinct_jobs_with_results", JInt (eo_distinct e)); ("missing", JInt (eo_missing e));
  ("duplicate_results", JInt (eo_duplicates e)); ("dlq", JInt (eo_dlq e))].
Definition second_json (x : Z * (Z * Z * Z)) : string * json :=
  (str_of_Z x.1, JArr [JInt x.2.1.1; JInt x.2.1.2; JInt x.2.2]).
Definition counts_json {N} (key : N -> string) (l : list (N * Z)) : json :=
  JObj (prod_map key JInt <$> l).
Definition in_window (r : Loadgen.Report) : list Sample :=
  filter (fun s => Window.contains (r_window r) (inject_Z (s_t_ms s)) = true) (r_samples r).

Definition throughput_json (r : Loadgen.Report) : json := JObj [
  ("completed_per_s", jfloat (r_completed_per_s r));
  ("offered_per_s", jfloat (r_offered_per_s r));
  ("accepted_per_s", jfloat (r_accepted_per_s r))].
Definition depth_json (r : Loadgen.Report) : json := JObj [
  ("min", JInt (r_depth_min r)); ("max", JInt (r_depth_max r));
  ("mean", match in_window r with [] => JInt 0 | _ => jfloat (r_depth_mean r) end)].
Definition redis_json (r : Loadgen.Report) : json := JObj [
  ("main_thread_busy", optional float_repr (r_main_busy r));
  ("all_threads_busy", optional float_repr (r_all_busy r));
  ("peak_used_memory", JInt (r_peak_memory r))].
Definition producers_json (r : Loadgen.Report) : json := JObj [
  ("offered", JInt (r_offered r)); ("accepted", JInt (eo_accepted (r_exactly_once r)));
  ("rejected", JInt (r_rejected r)); ("blocked", JInt (r_blocked r));
  ("blocked_seconds", jfloat (r_blocked_seconds r));
  ("cpu_busy", JArr (jfloat <$> r_cpu_busy r));
  ("max_lag_s", jfloat (r_max_lag_s r)); ("max_start_late_s", jfloat (r_max_start_late_s r));
  ("depth_waits", JInt (r_depth_waits r));
  ("hosts", JObj [("expected", JInt (hosts (r_spec r))); ("reported", JInt (r_hosts_reported r))])].

Definition report_json (r : Loadgen.Report) : json := JObj [
  ("meta", r_meta r);
  ("spec", spec_asdict (r_spec r));
  ("payload_json_bytes", JInt (r_payload_bytes r));
  ("env", r_env r);
  ("consumers", JInt (r_consumers r));
  ("t0_ms", JInt (r_t0_ms r));
  ("window", window_json (r_window r));
  ("throughput", throughput_json r);
  ("e2e_latency_ms", summary_json JInt (r_e2e r));
  ("enqueue_call_ms", summary_json of_Qc (r_enqueue_call r));
  ("enqueue_batch_jobs", summary_json JInt (r_enqueue_batch r));
  ("depth_in_window", depth_json r);
  ("redis", redis_json r);
  ("producers", producers_json r);
  ("exactly_once", verdict_json (r_exactly_once r));
  ("drain", JObj [("drained", JBool (r_drained r)); ("s", jfloat (r_drain_s r))]);
  ("counters", JObj (prod_map id JInt <$> r_counters r));
  ("redis_commands", JObj (prod_map id cost_json <$> r_commands r));
  ("completed_in_window_by_worker", JObj (prod_map id JInt <$> r_by_worker r));
  ("histograms", JObj [
     ("e2e_latency_ms", counts_json str_of_Z (r_e2e_hist r));
     ("enqueue_call_ms", counts_json (fun q : Qc => float_repr q) (r_enqueue_hist r))]);
  ("timeline", JObj [
     ("samples", JArr (sample_json <$> r_samples r));
     ("producer_per_s", JObj (second_json <$> r_per_second r));
     ("completed_per_s", counts_json str_of_Z (r_completed r))])].

(** [main]: an extra producer host, or the coordinator with its report, printed or written
    (the numbers in its log lines are left out). *)
Inductive out_ev : Type -> Type :=
  | Run {X} (e : lg X) : out_ev X
  | Output (path text : string) : out_ev unit.        (* "-" is the standard output *)
Definition running {A} (p : lo A) : prog out_ev stop A :=
  carried_out (fun X (e : lg X) => call (Run e)) p.
Definition loadgen_main (env : Settings.t) (fuel : nat) (indented1 : json -> string)
    (spec : LoadSpec) (meta : json) (out : string) (producer_only : bool) : prog out_ev stop Z :=
  if producer_only then
    running (produce_only float_repr fuel (redis_url spec) (queue spec) (run_id spec)
               (host_timeout spec)) ;;;
    call (Run (Log INFO "producer-only host done")) ;;;
    Ret 0
  else
    r <- running (Loadgen.run float_repr env fuel spec meta) ;;
    call (Output out (indented1 (report_json r) +:+ newline)) ;;;
    call (Run (Log INFO "completed")) ;;;
    Ret (exit_code_of r).
End Json.

(** ** What the readers may count on *)
Section Contract.
Context (float_repr : Q -> string).
Hypothesis floats_read : forall q, exists q', float_of_json (JFloat (float_repr q)) = Ok q'.

Lemma known_float q : exists x, known (jfloat float_repr q) = Ok x.
Proof.
  destruct (floats_read q) as [q' Hq]. unfold known, jfloat. rewrite Hq. cbn [and_then]. by eexists.
Qed.
Lemma known_optional o : exists x, known (optional float_repr o) = Ok x.
Proof. destruct o; [apply known_float|by eexists]. Qed.

(** The CPU part has every column the charts read. *)
Definition CPU_COLUMNS : list string :=
  ["redis_container"; "worker_mean"; "worker_max"; "workers_sum"; "loadgen_container";
   "vm_busy_cpus"; "vm_cpus"].
Lemma summary_columns s w c k : LocalBench.summary float_repr s w = Ok c ->
  k ∈ CPU_COLUMNS -> exists v, at_key k c.2 = Ok v.
Proof.
  unfold LocalBench.summary. destruct (busy_of s w); [|done]. cbn [and_then].
  destruct (busy_fraction _ w); [|done]. cbn [and_then].
  destruct (busy_fraction _ w); [|done]. cbn [and_then]. intros [= <-] Hk. cbn [snd].
  unfold CPU_COLUMNS in Hk. rewrite list_elem_of_In in Hk.
  repeat (destruct Hk as [<-|Hk]; [by eexists|]). by destruct Hk.
Qed.

Lemma member_set_same k v l : member k (set_member k v l) = Some v.
Proof.
  induction l as [|[n x] l IH]; cbn; [by rewrite decide_True|].
  by destruct (decide (n = k)) as [->|Hn]; cbn; [rewrite decide_True|rewrite decide_False].
Qed.
Ltac members := repeat (rewrite member_set by done); try apply member_set_same.

(** What the driver's annotation is, key by key. *)
Lemma annotated_keys p s hosts logs wall l meta j :
  annotated float_repr p s hosts logs wall (JObj l) = Ok j ->
  member "meta" l = Some (JObj meta) ->
  exists l' w c n meta', j = JObj l' /\ LocalBench.summary float_repr s w = Ok c /\
    member "cpu" l' = Some c.2 /\ member "worker_log_lines" l' = Some (JInt n) /\
    member "meta" l' = Some (JObj meta') /\
    (forall k, k <> "reproduce" -> k <> "wall_s" -> member k meta' = member k meta) /\
    forall k, k <> "cpu" -> k <> "per_worker" -> k <> "worker_log_lines" -> k <> "meta" ->
      member k l' = member k l.
Proof.
  unfold annotated. intros Ha Hm.
  destruct (window_of _) as [w|]; [|done]. cbn [and_then] in Ha.
  destruct (LocalBench.summary _ _ _) as [c|] eqn:Hc; [|done]. cbn [and_then set_key] in Ha.
  destruct (_per_worker _ _ _ _ _) as [rows|]; [|done]. cbn [and_then set_key at_key] in Ha.
  rewrite !(member_set "meta"), Hm in Ha by done. cbn [and_then set_key] in Ha.
  injection Ha as <-. eexists _, w, c, _, _. split; [reflexivity|].
  split; [exact Hc|]. split; [members|]. split; [members|]. split; [members|].
  split; intros; members; done.
Qed.

(** ** A row of the charts' table *)
Lemma each_zip {A B} (f : A -> result exn B) l vs :
  Forall2 (fun a v => f a = Ok v) l vs -> each f l = Ok vs.
Proof. induction 1 as [|a v l vs Hv _ IH]; cbn; [done|]. by rewrite Hv, IH. Qed.
Definition known_column (r : json) (c : column) : Prop := exists v, value_of float_repr c r = Ok v.
Lemma columns_read r cols :
  Forall (fun c => known_column r c.2) cols -> NoDup cols.*1 -> exists row,
  each (fun c => v <-! value_of float_repr c.2 r ;; Ok (c.1, v)) cols = Ok row /\
  forall k c v, (k, c) ∈ cols -> value_of float_repr c r = Ok v -> member k row = Some v.
Proof.
  induction 1 as [|[k c] cols [v Hv] _ IH]; intros Hd; [exists []; by split; [|intros ??? ?%elem_of_nil]|].
  apply NoDup_cons in Hd as [Hk Hd]. destruct (IH Hd) as (row & He & Hrow).
  exists ((k, v) :: row). cbn in *. rewrite Hv, He. split; [done|]. intros k' c' v' Hin Hv'.
  apply elem_of_cons in Hin as [[= -> ->]|Hin]; [rewrite decide_True by done; congruence|].
  rewrite decide_False; [by eapply Hrow|]. intros ->. apply Hk, list_elem_of_fmap.
  by exists (k', c').
Qed.
Lemma table_row_built repr cols l : Forall (fun c => is_Some (member c l)) cols ->
  exists line, table_row repr cols (JObj l) = Ok line.
Proof.
  intros H. unfold table_row. destruct (each (fun c => at_key c (JObj l)) cols) eqn:He; [by eexists|].
  exfalso. revert e He. induction H as [|c cols [v Hv] _ IH]; [done|]. intros e. cbn.
  rewrite Hv. cbn [and_then]. destruct (each _ cols); [done|]. by intros _; eapply IH.
Qed.

(** *** Columns, from the members they read *)
Lemma column_at k k' l j v : member k l = Some j -> at_key k' j = Ok v ->
  value_of float_repr (At [k; k']) (JObj l) = Ok v.
Proof. intros Hj Hv. cbn [value_of at_path at_key]. rewrite Hj. cbn. by rewrite Hv. Qed.
Lemma column_there k k' l j : member k l = Some j -> (exists v, at_key k' j = Ok v) ->
  known_column (JObj l) (At [k; k']).
Proof. intros Hj [v Hv]. exists v. by eapply column_at. Qed.
Lemma column_alone k l v : member k l = Some v -> known_column (JObj l) (At [k]).
Proof. intros Hv. exists v. cbn. by rewrite Hv. Qed.
Lemma column_got k k' d l m : member k l = Some (JObj m) ->
  known_column (JObj l) (Got [k] k' d).
Proof. intros Hj. eexists. cbn [value_of at_path at_key]. by rewrite Hj. Qed.
Lemma column_positive k k' l j n : member k l = Some j -> at_key k' j = Ok (JInt n) ->
  known_column (JObj l) (Positive [k; k']).
Proof.
  intros Hj Hn. eexists. cbn [value_of at_path at_key]. rewrite Hj. cbn. by rewrite Hn.
Qed.
Lemma column_cost r l : member "redis" l = Some (redis_json float_repr r) ->
  member "throughput" l = Some (throughput_json float_repr r) ->
  known_column (JObj l) Cost.
Proof.
  intros Hr Ht. unfold known_column, value_of, redis_us_per_job. cbn [at_path at_key].
  rewrite Hr, Ht. cbn [and_then at_path at_key redis_json member]. rewrite decide_True by done.
  cbn [and_then]. destruct (known_optional (r_main_busy r)) as [b ->]. cbn [and_then].
  destruct b as [b|]; [|by eexists]. cbn [throughput_json at_key member].
  rewrite decide_True by done. cbn [and_then at_path].
  destruct (known_float (r_completed_per_s r)) as [x ->]. cbn [and_then]. by eexists.
Qed.
Lemma summary_object {N} (number : N -> json) (x : option (Summary (N := N))) :
  exists m, summary_json float_repr number x = JObj m.
Proof. destruct x; by eexists. Qed.

(** *** The row of what the driver saved *)
Section Saved.
Context (p : Point) (s : sampler) (hosts : list (string * string)) (logs : string) (wall : Q).
Context (at_utc rev : string) (r : Loadgen.Report) (l : list (string * json)).
Hypothesis its_meta : r_meta r = meta_of p at_utc rev.
Hypothesis saved :
  annotated float_repr p s hosts logs wall (report_json float_repr r) = Ok (JObj l).

Definition its_meta_members : list (string * json) :=
  match meta_of p at_utc rev with JObj m => m | _ => [] end.
Definition report_members : list (string * json) :=
  match report_json float_repr r with JObj m => m | _ => [] end.

Lemma saved_parts : exists w c n meta, LocalBench.summary float_repr s w = Ok c /\
  member "cpu" l = Some c.2 /\ member "worker_log_lines" l = Some (JInt n) /\
  member "meta" l = Some (JObj meta) /\
  (forall k, k <> "reproduce" -> k <> "wall_s" -> member k meta = member k its_meta_members) /\
  forall k, k <> "cpu" -> k <> "per_worker" -> k <> "worker_log_lines" -> k <> "meta" ->
    member k l = member k report_members.
Proof.
  edestruct annotated_keys as (l' & w & c & n & meta & Hl & H);
    [exact saved|cbn [member]; rewrite its_meta; reflexivity|].
  injection Hl as <-. by exists w, c, n, meta.
Qed.

Lemma saved_columns : Forall (fun c => known_column (JObj l) c.2) ROW.
Proof.
  destruct saved_parts as (w & c & n & meta & Hc & Hcpu & Hn & Hmeta & Hm & Hl).
  destruct (summary_object JInt (r_e2e r)) as [? He].
  destruct (summary_object (of_Qc float_repr) (r_enqueue_call r)) as [? Hq].
  destruct (summary_object JInt (r_enqueue_batch r)) as [? Hb].
  unfold ROW. repeat apply Forall_cons_2; try apply Forall_nil_2; cbn [snd].
  all: try (eapply column_alone; exact Hn).
  all: try (eapply column_there; [exact Hcpu|eapply summary_columns; [exact Hc|]];
            unfold CPU_COLUMNS; listed).
  all: try (eapply column_got; first [exact Hmeta|rewrite Hl by done; cbn; by f_equal]).
  all: try (eapply column_positive; [rewrite Hl by done; reflexivity|reflexivity]).
  all: try (eapply column_cost; by rewrite Hl).
  all: eapply column_there;
    [first [exact Hmeta|rewrite Hl by done; reflexivity]
    |first [cbn [at_key]; rewrite Hm by done|idtac]; by eexists].
Qed.

Lemma saved_row : exists row, _row float_repr (JObj l) = Ok (JObj row) /\
  (forall k, k ∈ ROW.*1 -> is_Some (member k row)) /\
  member "label" row = Some (JStr (label p)) /\ member "workers" row = Some (JInt (workers p)) /\
  member "completed_per_s" row = Some (jfloat float_repr (r_completed_per_s r)) /\
  member "exactly_once" row = Some (JBool (eo_ok (r_exactly_once r))).
Proof.
  destruct saved_parts as (w & c & n & meta & Hc & Hcpu & Hn & Hmeta & Hm & Hl).
  destruct (columns_read (JObj l) ROW saved_columns) as (row & He & Hrow);
    [apply (bool_decide_unpack _); by vm_compute|].
  exists row. split; [unfold _row; by rewrite He|]. split.
  { intros k ([? col] & -> & Hin)%list_elem_of_fmap.
    pose proof saved_columns as Hcols. rewrite Forall_forall in Hcols.
    destruct (Hcols _ Hin) as [v Hv]. exists v. by eapply Hrow. }
  repeat split; (eapply Hrow;
    [unfold ROW; listed
    |eapply column_at;
      [first [exact Hmeta|rewrite Hl by done; reflexivity]
      |first [cbn [at_key]; rewrite Hm by done|idtac]; reflexivity]]).
Qed.

(** Its verdict is the load generator's. *)
Lemma saved_verdict : failed (JObj l) = Ok (negb (eo_ok (r_exactly_once r))).
Proof.
  destruct saved_parts as (w & c & n & meta & _ & _ & _ & _ & _ & Hl).
  unfold failed. cbn [at_key]. rewrite Hl by done.
  change (Ok (E := exn) (negb (truthy (JBool (eo_ok (r_exactly_once r))))) =
          Ok (negb (eo_ok (r_exactly_once r)))).
  by destruct (eo_ok _).
Qed.
End Saved.

Lemma annotated_object p s hosts logs wall report0 report :
  annotated float_repr p s hosts logs wall report0 = Ok report -> exists l, report = JObj l.
Proof.
  unfold annotated. intros Ha.
  repeat match type of Ha with
  | and_then ?x _ = Ok _ => destruct x; cbn [and_then] in Ha; [|done]
  end.
  match type of Ha with set_key _ _ ?j = _ => destruct j; cbn in Ha end; try done.
  injection Ha as <-. by eexists.
Qed.

Lemma report_meta spec meta env consumers w t0 samples produced rr counters dlq drained drain_s
    commands hosts_reported r :
  _report spec meta env consumers w t0 samples produced rr counters dlq drained drain_s commands
    hosts_reported = Ok r -> r_meta r = meta.
Proof.
  unfold _report. intros H.
  repeat match type of H with
  | and_then ?x _ = Ok _ => destruct x; cbn [and_then] in H; [|done]
  end. by injection H as <-.
Qed.

(** C38: what a load generator reports is what the charts read. When the local driver
    annotates and saves the report of a run, given the meta data it passes, the charts'
    row of it is built without an error, with the point's label and fleet, the run's
    throughput and its exactly-once verdict; its line of the summary table is printed; and the
    driver counts the point as failed exactly when the run was not exactly once. *)
Theorem report_charted repr p s hosts logs wall at_utc rev spec env consumers w t0 samples
    produced rr counters dlq drained drain_s commands hosts_reported r report :
  _report spec (meta_of p at_utc rev) env consumers w t0 samples produced rr counters dlq drained
    drain_s commands hosts_reported = Ok r ->
  annotated float_repr p s hosts logs wall (report_json float_repr r) = Ok report ->
  exists row line, _row float_repr report = Ok (JObj row) /\
    table_row repr COLS (JObj row) = Ok line /\
    member "label" row = Some (JStr (label p)) /\ member "workers" row = Some (JInt (workers p)) /\
    member "completed_per_s" row = Some (jfloat float_repr (r_completed_per_s r)) /\
    member "exactly_once" row = Some (JBool (eo_ok (r_exactly_once r))) /\
    failed report = Ok (negb (eo_ok (r_exactly_once r))).
Proof.
  intros Hm%report_meta Ha. destruct (annotated_object _ _ _ _ _ _ _ Ha) as [l ->].
  destruct (saved_row _ _ _ _ _ _ _ _ _ Hm Ha) as (row & Hr & Hcols & H).
  destruct (table_row_built repr COLS row) as [line Hline].
  { apply Forall_forall. intros k Hk. apply Hcols. revert k Hk. apply Forall_forall.
    apply (bool_decide_unpack _). by vm_compute. }
  exists row, line. repeat (split; [done|]). destruct H as (? & ? & ? & ?).
  repeat (split; [done|]). by eapply saved_verdict.
Qed.

(** The AWS table has no such row for a run in whose window no job was enqueued and finished:
    its summary has no percentiles, and the table asks for the median. *)
Lemma aws_row_needs_latency repr suite r m : r_meta r = JObj m ->
  is_Some (member "label" m) -> is_Some (member "workers" m) -> r_e2e r = None ->
  aws_row repr suite (report_json float_repr r) = Err (KeyError "p50").
Proof.
  intros Hm [a Ha] [b Hb] He. set (j := report_json float_repr r).
  assert (Hmeta : at_key "meta" j = Ok (JObj m))
    by (transitivity (Ok (E := exn) (r_meta r)); [reflexivity|by rewrite Hm]).
  assert (Hlat : at_key "e2e_latency_ms" j = Ok (JObj [("count", JInt 0)]))
    by (transitivity (Ok (E := exn) (summary_json float_repr JInt (r_e2e r)));
        [reflexivity|by rewrite He]).
  assert (Ht : at_key "throughput" j = Ok (throughput_json float_repr r)) by reflexivity.
  assert (Hp : at_key "producers" j = Ok (producers_json float_repr r)) by reflexivity.
  assert (Hr : at_path ["redis"; "main_thread_busy"] j = Ok (optional float_repr (r_main_busy r)))
    by reflexivity.
  assert (Hround : forall q, exists n, rounded (jfloat float_repr q) = Ok (JInt n)).
  { intros q. destruct (floats_read q) as [q' Hq]. exists (round q'). unfold rounded, jfloat.
    by rewrite Hq. }
  destruct (Hround (r_offered_per_s r)) as [x Hx], (Hround (r_completed_per_s r)) as [y Hy].
  unfold aws_row. rewrite Hmeta, Ht, Hlat, Hp. cbn [and_then].
  assert (Hl : at_key "label" (JObj m) = Ok a) by (cbn; by rewrite Ha).
  assert (Hw : at_key "workers" (JObj m) = Ok b) by (cbn; by rewrite Hb).
  assert (Ho : at_key "offered_per_s" (throughput_json float_repr r) =
    Ok (jfloat float_repr (r_offered_per_s r))) by reflexivity.
  assert (Hc : at_key "completed_per_s" (throughput_json float_repr r) =
    Ok (jfloat float_repr (r_completed_per_s r))) by reflexivity.
  rewrite Hl, Hw, Ho, Hc. cbn [and_then]. rewrite Hx. cbn [and_then]. rewrite Hy, Hr. reflexivity.
Qed.
End Contract.

(** One second of a run in which nothing was enqueued. *)
Definition toy_produced_of (p : result stop Produced) : list Produced :=
  match p with Ok x => [x] | Err _ => [] end.
Definition toy_point : Point := mk_Point "adhoc" "p1" 3 50 [] 1.
Abbreviation toy_loadgen :=
  (_report toy_load (meta_of toy_point "now" "abc") (JObj []) 3 (Window.mk 0 2000) 0 []
    (toy_produced_of toy_produced.1) (mk_results [(0, 1500)] [("j1", 1)] [("w-1", 1)]) [] 0 true 0 [] 1).
Definition toy_saved : result exn json :=
  match toy_loadgen with
  | Ok r => annotated (fun _ => "0.5") toy_point new_sampler [] "" 2 (report_json (fun _ => "0.5") r)
  | Err e => Err e
  end.
Lemma toy_saved_ok : exists r report, toy_loadgen = Ok r /\ toy_saved = Ok report /\
  eo_ok (r_exactly_once r) = true.
Proof.
  assert (H : match toy_saved with Ok _ => true | Err _ => false end &&
    match toy_loadgen with Ok r => eo_ok (r_exactly_once r) | Err _ => false end = true)
    by (vm_compute; reflexivity).
  apply andb_prop in H as [Hs Hr].
  destruct toy_loadgen as [r|]; [|discriminate Hr].
  destruct toy_saved as [j|]; [|discriminate Hs].
  exists r, j. split; [reflexivity|]. split; [reflexivity|]. exact Hr.
Qed.
Lemma toy_saved_by r j : toy_loadgen = Ok r -> toy_saved = Ok j ->
  annotated (fun _ => "0.5") toy_point new_sampler [] "" 2 (report_json (fun _ => "0.5") r) = Ok j.
Proof. intros Hr. unfold toy_saved. by rewrite Hr. Qed.
Lemma toy_floats (q : Q) : exists q', float_of_json (JFloat ((fun _ => "0.5") q)) = Ok q'.
Proof. eexists. vm_compute. reflexivity. Qed.

Lemma report_charted_witness : exists r report row line,
  toy_loadgen = Ok r /\ toy_saved = Ok report /\ _row (fun _ => "0.5") report = Ok (JObj row) /\
  table_row dumps COLS (JObj row) = Ok line /\
  member "label" row = Some (JStr "p1") /\ failed report = Ok false.
Proof.
  destruct toy_saved_ok as (r & j & Hr & Hj & Hok).
  destruct (report_charted (fun _ => "0.5") toy_floats dumps toy_point new_sampler [] "" 2 "now"
    "abc" _ _ _ _ _ _ _ _ _ _ _ _ _ _ r j Hr (toy_saved_by r j Hr Hj))
    as (row & line & H1 & H2 & H3 & _ & _ & _ & H7).
  exists r, j, row, line. split; [exact Hr|]. split; [exact Hj|]. split; [exact H1|].
  split; [exact H2|]. split; [exact H3|]. rewrite H7, Hok. reflexivity.
Defined.
