(* ===== verification/ChaosTable.v ===== *)
(** The table of saved chaos reports (chaos/summary.py), and that every report a chaos run
    writes has its row. *)
From S2P Require Import Prelude Effects Redis Keys LuaScripts Queue Ops Refine.
From S2P Require Import Streams Json Py Models Transitions Registry Client Handlers.
From S2P Require Import Metrics.
From S2P Require Import Tables Analysis Random Faults Verifier Texts Shell Chaos.

#[local] Open Scope string_scope.
#[local] Open Scope list_scope.
#[local] Open Scope Z_scope.
#[local] Open Scope prog_scope.

Definition COLUMNS : list string :=
  ["report"; "git"; "date (UTC)"; "jobs"; "workers"; "seed"; "result"; "SUCCEEDED"; "DEAD";
   "I1"; "I2"; "I2b"; "I3"; "I4"; "I5"; "kills"; "pauses"; "net faults"; "crash restarts";
   "reclaimed"; "dup. results suppressed"; "dup. effects suppressed"; "max delivery*"; "s"].

Section Table.
Context (repr : json -> string) (float_commas : string -> string).   (* repr(x), f"{x:,}" *)
Definition str (j : json) : string := str_of_json repr j.
(** [f"{j:,}"] and [f"{j:,.0f}"] *)
Definition with_commas (j : json) : result exn string :=
  match j with
  | JInt n => Ok (grouped n)
  | JBool b => Ok (grouped (Z.b2z b))
  | JFloat t => Ok (float_commas t)
  | JStr _ => Err (ValueError "Cannot specify ',' with 's'.")
  | _ => Err (TypeError "unsupported format string")
  end.
Definition whole_with_commas (j : json) : result exn string :=
  match j with
  | JInt _ | JBool _ | JFloat _ => q <-! float_of_json j ;; Ok (grouped_float q)
  | JStr _ => Err (ValueError "Unknown format code 'f' for object of type 'str'")
  | _ => Err (TypeError "unsupported format string")
  end.

(** ** A row *)
(** The parts of a report that a row reads. *)
Record parts := mk_parts {
  p_run : json;
  p_v : json;
  p_inv : json;
  p_counters : json;
  p_seen : json;
  p_states : json;
}.
Definition parts_of (r : json) : result exn parts :=
  run <-! at_key "run" r ;; v <-! at_key "verifier" r ;;
  inv <-! at_key "invariants" v ;; counters <-! at_key "counters" v ;;
  i4 <-! at_key "I4_faults_happened" inv ;; seen <-! at_key "observed" i4 ;;
  i1 <-! at_key "I1_no_loss" inv ;; states <-! at_key "states" i1 ;;
  Ok (mk_parts run v inv counters seen states).

Definition ok (p : parts) (name : string) : result exn string :=
  c <-! at_key name (p_inv p) ;; b <-! at_key "ok" c ;; Ok (if truthy b then "ok" else "FAIL").
Definition text_of (k : string) (j : json) : result exn string := x <-! at_key k j ;; as_text x.
Definition str_at (k : string) (j : json) : result exn string := x <-! at_key k j ;; Ok (str x).
Definition count_at (k : string) (j : json) : result exn string := x <-! at_key k j ;; with_commas x.
Definition state_count (k : string) (states : json) : result exn string :=
  match states with
  | JObj l => with_commas (default (JInt 0) (member k l))
  | _ => Err (TypeError "no attribute 'get'")
  end.
Definition minute (date : string) : string := replace "T" " " (String.substring 0 16 date).
Definition total_seconds (run : json) : result exn string :=
  s <-! at_key "seconds" run ;; t <-! at_key "total" s ;; whole_with_commas t.
Definition cells (name : string) (p : parts) : list (result exn string) :=
  [Ok name; text_of "git" (p_run p); (d <-! text_of "date_utc" (p_run p) ;; Ok (minute d));
   count_at "accepted" (p_run p); str_at "workers" (p_run p); str_at "seed" (p_run p);
   (b <-! at_key "passed" (p_v p) ;; Ok (if truthy b then "PASS" else "FAIL"));
   state_count "SUCCEEDED" (p_states p); state_count "DEAD" (p_states p);
   ok p "I1_no_loss"; ok p "I2_no_duplicate_effects"; ok p "I2b_no_duplicate_results";
   ok p "I3_dlq_correct"; ok p "I4_faults_happened"; ok p "I5_drained";
   str_at "kills" (p_seen p); str_at "pauses" (p_seen p); str_at "network_windows" (p_seen p);
   str_at "crash_restarts" (p_seen p); count_at "reclaimed" (p_counters p);
   count_at "duplicates_suppressed" (p_counters p); count_at "effects_suppressed" (p_counters p);
   str_at "max_delivery_excluding_crashy" (p_v p); total_seconds (p_run p)].
Definition row_of (name : string) (r : json) : result exn (list string) :=
  p <-! parts_of r ;; each id (cells name p).

Definition row (path : string) : sh (list string) :=
  text <- call (HRead path) ;; r <- parse text ;; check (row_of (last_part "/" path) r).
Fixpoint rows (paths : list string) : sh (list (list string)) :=
  match paths with
  | [] => Ret []
  | p :: rest => c <- row p ;; cs <- rows rest ;; Ret (c :: cs)
  end.
Definition line (cells : list string) : string := "| " +:+ join " | " cells +:+ " |".
Definition table_lines (paths : list string) : sh (list string) :=
  cs <- rows paths ;;
  Ret (line COLUMNS :: ("|" +:+ repeated "---|" (length COLUMNS)) :: (line <$> cs)).
Definition table (paths : list string) : sh string :=
  l <- table_lines paths ;; Ret (join newline l +:+ newline).
(** The table, then its note; [print] ends both with a newline. *)
Definition table_main (argv : list string) : sh unit :=
  l <- table_lines argv ;;
  call (HPrint (join newline l)) ;;;
  call (HPrint (newline +:+ "*max delivery: the highest delivery count of any non-crashy job.")).
End Table.

Example grouped_ex : grouped 1234567 = "1,234,567" /\ grouped 999 = "999" /\ grouped 0 = "0" /\
  grouped 1000 = "1,000" /\ minute "2025-01-02T03:04:05Z" = "2025-01-02 03:04".
Proof. vm_compute. done. Qed.

(** ** The checks of a verdict, as the table reads them *)
Lemma member_put k k' v (d : list (string * json)) :
  member k (put d k' v) = if decide (k' = k) then Some v else member k d.
Proof.
  induction d as [|[n x] d IH]; cbn; [by destruct (decide (k' = k))|].
  destruct (decide (n = k')) as [->|Hn]; cbn; [by destruct (decide (k' = k))|].
  destruct (decide (n = k)) as [->|]; [|exact IH]. by rewrite decide_False.
Qed.
Lemma member_puts k d : forall l, k ∉ d.*1 ->
  member k (foldl (fun l e => put l e.1 e.2) l d) = member k l.
Proof.
  induction d as [|[n x] d IH]; intros l Hk; [done|]. cbn in *.
  apply not_elem_of_cons in Hk as [Hn Hk]. by rewrite IH, member_put, decide_False.
Qed.
Lemma as_dict_ok c : "ok" ∉ (detail c).*1 -> at_key "ok" (as_dict c) = Ok (JBool (check_ok c)).
Proof. intros Hd. unfold as_dict. cbn [at_key]. by rewrite member_put, decide_False, member_puts. Qed.
Lemma ints_member k l : k ∈ l.*1 -> exists n, member k (prod_map id JInt <$> l) = Some (JInt n).
Proof.
  induction l as [|[k' n] l IH]; [by intros ?%elem_of_nil|]. cbn. intros Hk.
  destruct (decide (k' = k)); [by eexists|].
  apply elem_of_cons in Hk as [->|Hk]; [done|]. by apply IH.
Qed.
Lemma puts_keys (f : string -> Z) l : forall d k, k ∈ l \/ k ∈ d.*1 ->
  k ∈ (foldl (fun d k => put d k (f k)) d l).*1.
Proof.
  induction l as [|x l IH]; intros d k [Hk|Hk]; cbn; try done; [by apply elem_of_nil in Hk| |];
    apply IH; rewrite put_keys; [|tauto]. apply elem_of_cons in Hk as [->|Hk]; tauto.
Qed.

Section Judged.
Context {R : Type} `{Rng R}.
Context (float_repr : Q -> string) (py_repr : string -> string).
Context (rd : readings) (accepted : list (string * string)).

Definition seen_of (evidence : list (string * Z)) : list (string * Z) :=
  foldl (fun d k => put d k (get (counters rd) k 0)) evidence
    ["reclaimed"; "duplicates_suppressed"; "timeouts"].
Lemma check_i4_detail ev mins :
  detail (check_i4 rd ev mins) = [("observed", ints (seen_of ev)); ("minimums", ints mins)].
Proof.
  unfold check_i4. fold (seen_of ev). set (f := fun (c : Check) m => _).
  assert (Hf : forall l c, detail (foldl f c l) = detail c).
  { induction l as [|m l IH]; intros c; [done|]. cbn. rewrite IH. unfold f. by case_decide. }
  by rewrite Hf.
Qed.

(** The checks of a run with evidence, by name, none with a detail called "ok". *)
Definition NAMES : list string :=
  ["I1_no_loss"; "I2_no_duplicate_effects"; "I2b_no_duplicate_results"; "I3_dlq_correct";
   "I4_faults_happened"; "W1_workers_healthy"; "I5_drained"].
Lemma judged_checks ma md ev mins jd :
  judge float_repr py_repr rd accepted ma md (Some ev) mins = Ok jd ->
  jd.1.*1 = NAMES /\ (forall x, x ∈ jd.1 -> "ok" ∉ (detail x.2).*1) /\
  get jd.1 "I4_faults_happened" passes = check_i4 rd ev (default Minimums mins) /\
  exists c, get jd.1 "I1_no_loss" passes = c /\ 
    detail c = [("jobs", JInt (Z.of_nat (length accepted))); ("states", ints (by_state rd accepted))].
Proof.
  unfold judge. intros Hj.
  repeat match type of Hj with
  | and_then ?x _ = Ok _ => destruct x; cbn [and_then] in Hj; [|done]
  end. injection Hj as <-. split; [reflexivity|]. split; [|split; [reflexivity|by eexists]].
  assert (Hw : (detail (check_w1 ev)).*1 = ["unexpected_exits"; "error_log_lines"])
    by (unfold check_w1; by repeat case_decide).
  intros x. rewrite list_elem_of_In. cbn [In app]. intros Hx.
  repeat (destruct Hx as [<-|Hx]; [cbn [snd]; rewrite ?Hw, ?check_i4_detail; cbn;
    rewrite ?elem_of_cons, elem_of_nil; intuition discriminate|]). done.
Qed.
End Judged.

(** ** Every chaos report has its row *)
Lemma each_values {A} (l : list (result exn A)) :
  Forall (fun c => exists v, c = Ok v) l ->
  exists vs, each id l = Ok vs /\ length vs = length l /\
    forall i v, l !! i = Some (Ok v) -> vs !! i = Some v.
Proof.
  induction 1 as [|c l [v ->] _ (vs & He & Hl & Hi)]; [by exists []|]. exists (v :: vs). cbn.
  rewrite He. split; [done|]. split; [by rewrite Hl|]. intros [|i] w; cbn; [by intros [= ->]|].
  apply Hi.
Qed.
Lemma counts_keys names raw l : Metrics.counts names raw = Ok l -> l.*1 = names.
Proof.
  revert l. induction names as [|n r IH]; intros l; cbn; [by intros [= <-]|].
  destruct (match raw !! n with Some x => to_int x | None => Ok 0 end); [|done]. cbn.
  destruct (Metrics.counts r raw) as [zs|]; [|done]. cbn. intros [= <-]. cbn. by rewrite (IH zs).
Qed.
Lemma member_get {B} (f : B -> json) k (l : list (string * B)) d : k ∈ l.*1 ->
  member k (prod_map id f <$> l) = Some (f (get l k d)).
Proof.
  induction l as [|[k' x] l IH]; [by intros ?%elem_of_nil|]. cbn. intros Hk.
  destruct (decide (k' = k)); [done|]. apply elem_of_cons in Hk as [->|Hk]; [done|]. by apply IH.
Qed.
Lemma get_listed {V} k (l : list (string * V)) d : k ∈ l.*1 -> (k, get l k d) ∈ l.
Proof.
  induction l as [|[k' x] l IH]; [by intros ?%elem_of_nil|]. cbn. intros Hk.
  destruct (decide (k' = k)) as [->|Hn]; [by left|]. right. apply elem_of_cons in Hk as [->|Hk]; [done|].
  by apply IH.
Qed.

Lemma evidence_keys c t k : k ∈ ["kills"; "pauses"; "network_windows"; "crash_restarts"] ->
  k ∈ (evidence_of c t).*1.
Proof.
  intros Hk. unfold evidence_of. rewrite fmap_app. apply elem_of_app.
  rewrite list_elem_of_In in Hk. cbn [In] in Hk.
  destruct Hk as [<-|[<-|[<-|[<-|[]]]]]; [left..|right; cbn; set_solver].
  all: unfold counts; cbn [app]; rewrite !filter_cons_True by reflexivity; cbn [fmap list_fmap fst].
  all: rewrite !elem_of_cons; tauto.
Qed.

Section Row.
Context {R : Type} `{Rng R}.
Context (float_repr : Q -> string) (py_repr : string -> string) (repr : json -> string).
Context (float_commas : string -> string).
Hypothesis floats_read : forall q, exists q', float_of_json (JFloat (float_repr q)) = Ok q'.
Context (rd : readings) (accepted : list (string * string)) (ma md : Z).
Context (c : chaos) (t : log_tally) (mins : option (list (string * Z))).
Context (raw : gmap string string) (histogram : list (Z * Z)) (jd : list (string * Check) * list Z).
Hypothesis its_counters : Metrics.counts COUNTERS raw = Ok (counters rd).
Hypothesis its_checks :
  judge float_repr py_repr rd accepted ma md (Some (evidence_of c t)) mins = Ok jd.
Context (REPO_ROOT : string) (a : Args) (seed : Z) (run_dir : string) (short : Q -> string).
Context (mix : list (string * Z)) (o : outcome) (at_utc git cpus mem : string).
Hypothesis its_verdict : o_result o = finish rd histogram jd.

Abbreviation saved := (report_of float_repr REPO_ROOT a seed run_dir short mix o at_utc git cpus mem).
Definition run_part : json := match at_key "run" saved with Ok j => j | Err _ => JNull end.
Definition saved_parts : parts :=
  mk_parts run_part (verifier_json (o_result o)) (JObj (prod_map id as_dict <$> jd.1))
    (ints (counters rd)) (ints (seen_of rd (evidence_of c t))) (ints (by_state rd accepted)).

Lemma check_read k : k ∈ NAMES ->
  at_key k (JObj (prod_map id as_dict <$> jd.1)) = Ok (as_dict (get jd.1 k passes)) /\
  "ok" ∉ (detail (get jd.1 k passes)).*1.
Proof.
  destruct (judged_checks _ _ _ _ _ _ _ _ _ its_checks) as (Hn & Hd & _). intros Hk.
  rewrite <- Hn in Hk. cbn [at_key]. rewrite (member_get as_dict _ _ passes) by done.
  split; [done|]. apply (Hd (k, _)). by apply get_listed.
Qed.

Lemma parts_read : parts_of saved = Ok saved_parts.
Proof.
  destruct (judged_checks _ _ _ _ _ _ _ _ _ its_checks) as (_ & _ & H4 & c1 & H1 & Hd1).
  destruct (check_read "I4_faults_happened") as [Hi4 _]; [unfold NAMES; listed|].
  destruct (check_read "I1_no_loss") as [Hi1 _]; [unfold NAMES; listed|].
  unfold parts_of.
  change (at_key "run" saved) with (Ok (E := exn) run_part).
  change (at_key "verifier" saved) with (Ok (E := exn) (verifier_json (o_result o))).
  rewrite its_verdict. cbn [and_then].
  change (at_key "invariants" (verifier_json (finish rd histogram jd)))
    with (Ok (E := exn) (JObj (prod_map id as_dict <$> jd.1))).
  change (at_key "counters" (verifier_json (finish rd histogram jd)))
    with (Ok (E := exn) (ints (counters rd))).
  cbn [and_then]. rewrite Hi4, Hi1, H4, H1. cbn [and_then].
  unfold saved_parts. rewrite its_verdict.
  unfold as_dict. rewrite check_i4_detail, Hd1. reflexivity.
Qed.
Lemma ok_read k : k ∈ NAMES ->
  ok saved_parts k = Ok (if check_ok (get jd.1 k passes) then "ok" else "FAIL").
Proof.
  intros Hk. destruct (check_read k Hk) as [Hc Hd]. unfold ok. cbn [p_inv saved_parts].
  rewrite Hc. cbn [and_then]. rewrite as_dict_ok by done. cbn [and_then].
  by destruct (check_ok _).
Qed.
Lemma seen_read k : k ∈ ["kills"; "pauses"; "network_windows"; "crash_restarts"] ->
  exists v, str_at repr k (p_seen saved_parts) = Ok v.
Proof.
  intros Hk. unfold str_at. cbn [p_seen saved_parts ints at_key].
  destruct (ints_member k (seen_of rd (evidence_of c t))) as [n ->]; [|by eexists].
  apply puts_keys. right. by apply evidence_keys.
Qed.
Lemma counter_shown k : k ∈ COUNTERS -> exists v, count_at float_commas k (p_counters saved_parts) = Ok v.
Proof.
  intros Hk. unfold count_at. cbn [p_counters saved_parts ints at_key].
  destruct (ints_member k (counters rd)) as [n ->]; [|by eexists].
  by rewrite (counts_keys _ _ _ its_counters).
Qed.
Lemma state_shown k :
  state_count float_commas k (p_states saved_parts) = Ok (grouped (get (by_state rd accepted) k 0)).
Proof.
  unfold state_count. cbn [p_states saved_parts ints].
  set (l := by_state rd accepted). clearbody l. induction l as [|[k' n] l IH]; [done|]. cbn.
  by destruct (decide (k' = k)).
Qed.
Lemma total_shown : exists v, total_seconds (p_run saved_parts) = Ok v.
Proof.
  unfold total_seconds.
  change (at_key "seconds" (p_run saved_parts)) with (Ok (E := exn) (JObj [
    ("fault_phase", jfloat float_repr (round_to 1 (o_fault_phase_s o)));
    ("drain", jfloat float_repr (round_to 1 (o_drain_s o)));
    ("total", jfloat float_repr (round_to 1 (o_total_s o)))])).
  cbn [and_then].
  match goal with |- context [at_key "total" ?j] =>
    change (at_key "total" j) with (Ok (E := exn) (jfloat float_repr (round_to 1 (o_total_s o)))) end.
  cbn [and_then]. unfold whole_with_commas, jfloat.
  destruct (floats_read (round_to 1 (o_total_s o))) as [q ->]. by eexists.
Qed.

Lemma cells_read name : Forall (fun x => exists v, x = Ok v) (cells repr float_commas name saved_parts).
Proof.
  unfold cells. repeat apply Forall_cons_2; try apply Forall_nil_2.
  all: try (eexists; apply ok_read; unfold NAMES; listed).
  all: try (apply seen_read; listed).
  all: try (apply counter_shown; unfold COUNTERS; listed).
  all: try (eexists; apply state_shown).
  all: try apply total_shown.
  all: eexists; reflexivity.
Qed.
Lemma passed_shown : (b <-! at_key "passed" (p_v saved_parts) ;; Ok (if truthy b then "PASS" else "FAIL")) =
  Ok (if forallb (fun x => check_ok x.2) jd.1 then "PASS" else "FAIL").
Proof.
  cbn [p_v saved_parts]. rewrite its_verdict.
  change (at_key "passed" (verifier_json (finish rd histogram jd)))
    with (Ok (E := exn) (JBool (forallb (fun x => check_ok x.2) jd.1))).
  cbn [and_then]. by destruct (forallb _ _).
Qed.

(** The columns of the invariants and what they show. *)
Definition CHECKS : list (nat * string) :=
  zip (seq 9 6) ["I1_no_loss"; "I2_no_duplicate_effects"; "I2b_no_duplicate_results";
                 "I3_dlq_correct"; "I4_faults_happened"; "I5_drained"].

(** Every report a chaos run writes has its row in the table, a cell for every column:
    the result is PASS exactly when every check of the run holds; each invariant's cell is its
    own check; and the numbers of succeeded and dead jobs are those of the accepted jobs found
    in these states. *)
Theorem chaos_row_exact name : exists vs, row_of repr float_commas name saved = Ok vs /\
  length vs = length COLUMNS /\
  vs !! 6%nat = Some (if passed (o_result o) then "PASS" else "FAIL") /\
  (passed (o_result o) = true <-> forall x, x ∈ jd.1 -> check_ok x.2 = true) /\
  (forall i k, (i, k) ∈ CHECKS ->
     vs !! i = Some (if check_ok (get jd.1 k passes) then "ok" else "FAIL")) /\
  vs !! 7%nat = Some (grouped (get (by_state rd accepted) "SUCCEEDED" 0)) /\
  vs !! 8%nat = Some (grouped (get (by_state rd accepted) "DEAD" 0)).
Proof.
  destruct (each_values _ (cells_read name)) as (vs & He & Hlen & Hvs). exists vs.
  unfold row_of. rewrite parts_read. split; [exact He|]. split; [exact Hlen|].
  split; [apply Hvs; cbn [lookup list_lookup cells]; by rewrite passed_shown, its_verdict|].
  split.
  { rewrite its_verdict. cbn [passed finish]. rewrite forallb_forall.
    by setoid_rewrite list_elem_of_In. }
  split; [|split; apply Hvs; cbn [lookup list_lookup cells]; by rewrite state_shown].
  intros i k Hk. apply Hvs. rewrite list_elem_of_In in Hk. cbn in Hk.
  repeat (destruct Hk as [[= <- <-]|Hk];
    [cbn [lookup list_lookup cells]; rewrite ok_read by (unfold NAMES; listed); done|]). done.
Qed.
End Row.

(** A run of one job that no fault disturbed: its row says that the faults are missing. *)
Definition toy_raw : gmap string string := {["processed" := "1"; "enqueued" := "1200"]}.
Definition toy_rd : readings :=
  mk_readings [("j1", "SUCCEEDED")] [("j1", 1)] [] [] (default [] (of_ok (Metrics.counts COUNTERS toy_raw)))
    0 0 0.
Definition calm : chaos := mk_chaos ∅ [] [] [].
Definition toy_args : Args := mk_Args 1 1 1 None 10 0 5 "out" None false false.
Definition toy_judged : result exn (list (string * Check) * list Z) :=
  judge (R := nat) (fun _ => "1.5") (fun s => s) toy_rd [("j1", "normal")] 8 12
    (Some (evidence_of calm no_logs)) None.
Definition toy_outcome (jd : list (string * Check) * list Z) : outcome :=
  mk_outcome (finish toy_rd [] jd) [] (mk_run [("j1", "normal")] true [] calm) no_logs true 1 1 2 [].

Lemma toy_judged_ok : exists jd, toy_judged = Ok jd /\
  check_ok (get jd.1 "I1_no_loss" passes) = true /\
  check_ok (get jd.1 "I4_faults_happened" passes) = false.
Proof.
  assert (H : match toy_judged with
    | Ok jd => check_ok (get jd.1 "I1_no_loss" passes) &&
               negb (check_ok (get jd.1 "I4_faults_happened" passes))
    | Err _ => false
    end = true) by (vm_compute; reflexivity).
  destruct toy_judged as [jd|]; [|discriminate H]. apply andb_prop in H as [H1 H4].
  exists jd. split; [reflexivity|]. split; [exact H1|]. by apply negb_true_iff in H4.
Qed.
Lemma toy_counted : Metrics.counts COUNTERS toy_raw = Ok (counters toy_rd).
Proof. vm_compute. reflexivity. Qed.
Lemma toy_seconds (q : Q) : exists q', float_of_json (JFloat ((fun _ => "1.5") q)) = Ok q'.
Proof. eexists. vm_compute. reflexivity. Qed.

Lemma chaos_row_exact_witness : exists jd vs, toy_judged = Ok jd /\
  row_of dumps (fun s => s) "r.json" (report_of (fun _ => "1.5") "/repo" toy_args 7 "/repo/run"
    (fun _ => "1") [] (toy_outcome jd) "2025-01-02T03:04:05Z" "abc" "4" "8") = Ok vs /\
  vs !! 7%nat = Some "1" /\ vs !! 9%nat = Some "ok" /\ vs !! 13%nat = Some "FAIL".
Proof.
  destruct toy_judged_ok as (jd & Hj & H1 & H4).
  destruct (chaos_row_exact (R := nat) (fun _ => "1.5") (fun s => s) dumps (fun s => s) toy_seconds
    toy_rd [("j1", "normal")] 8 12 calm no_logs None toy_raw [] jd toy_counted Hj "/repo" toy_args 7
    "/repo/run" (fun _ => "1") [] (toy_outcome jd) "2025-01-02T03:04:05Z" "abc" "4" "8" eq_refl "r.json")
    as (vs & Hvs & _ & _ & _ & Hc & Hs & _).
  exists jd, vs. split; [exact Hj|]. split; [exact Hvs|]. split; [exact Hs|].
  rewrite (Hc 9%nat "I1_no_loss"), (Hc 13%nat "I4_faults_happened"), H1, H4 by (listed).
  split; reflexivity.
Defined.
