(* ===== verification/CastText.v ===== *)
(** The plain text of an asciicast recording (chaos/cast_text.py): the output events in order,
    without terminal escapes and carriage returns.

    A character is a byte; the escapes' characters are all ASCII. *)
From S2P Require Import Prelude Effects Redis Keys LuaScripts Json Py Models.
From S2P Require Import Handlers.
From S2P Require Import Tables Texts Shell.

#[local] Open Scope string_scope.
#[local] Open Scope list_scope.
#[local] Open Scope Z_scope.
#[local] Open Scope prog_scope.

Definition ESC : ascii := "027"%char.
Definition BEL : ascii := "007"%char.
Definition CR : ascii := "013"%char.
Definition within (a b : Z) (c : ascii) : bool := (a <=? code c) && (code c <=? b).

(** ** [_ANSI] *)
(** How far [[0-?]*[ -/]*[@-~]] matches; past the parameters only when [past]. *)
Fixpoint csi (past : bool) (s : string) : option nat :=
  match s with
  | EmptyString => None
  | String c r =>
      if negb past && within 48 63 c then S <$> csi false r
      else if within 32 47 c then S <$> csi true r
      else if within 64 126 c then Some 1%nat
      else None
  end.
(** How far [[^\x07]*\x07] matches. *)
Fixpoint osc (s : string) : option nat :=
  match s with
  | EmptyString => None
  | String c r => if decide (c = BEL) then Some 1%nat else S <$> osc r
  end.
(** How many characters an escape at the start of the text has after its first. *)
Definition escape (s : string) : option nat :=
  match s with
  | String "027" (String "[" r) => S <$> csi false r
  | String "027" (String "]" r) => S <$> osc r
  | _ => None
  end.
(** [_ANSI.sub("", s)]: [skipping] characters of a match are left. *)
Fixpoint sub_from (s : string) (skipping : nat) : string :=
  match s with
  | EmptyString => EmptyString
  | String c r =>
      match skipping with
      | S n => sub_from r n
      | O => match escape s with
             | Some n => sub_from r n
             | None => String c (sub_from r 0)
             end
      end
  end.
Definition plain (s : string) : string := sub_from s 0.

(** ** [cast_text] *)
(** [e[i]] *)
Definition at_index (i : nat) (e : json) : result exn json :=
  match e with
  | JArr l => match l !! i with Some x => Ok x | None => Err IndexError end
  | JStr s => match String.get i s with Some c => Ok (JStr (String c "")) | None => Err IndexError end
  | JObj _ => Err (KeyError (str_of_Z (Z.of_nat i)))
  | _ => Err (TypeError "object is not subscriptable")
  end.
(** The texts of the output events *)
Fixpoint outputs (lines : list string) : result exn (list json) :=
  match lines with
  | [] => Ok []
  | l :: r =>
      e <-! json_loads l ;; kind <-! at_index 1 e ;;
      if is_text "o" kind then t <-! at_index 2 e ;; ts <-! outputs r ;; Ok (t :: ts)
      else outputs r
  end.
Definition cast_text (cast : string) : result exn string :=
  match splitlines cast with
  | [] => Err IndexError
  | header :: lines =>
      _ <-! json_loads header ;;
      es <-! outputs lines ;; ts <-! each as_text es ;;
      Ok (replace (String CR "") "" (replace (String CR newline) newline (plain (join "" ts))))
  end.
(** [print] would add a newline; [Output] writes the text as it is. *)
Inductive out : Type -> Type :=
  | Read (path : string) : out string
  | Output (text : string) : out unit.
Definition cast_main (path : string) : prog out stop unit :=
  cast <- call (Read path) ;; text <- check (cast_text cast) ;; call (Output text).

Example coloured_text : plain (String ESC "[1;31mred" +:+ String ESC "[0m" +:+
  String ESC ("]0;title" +:+ String BEL "!")) = "red!".
Proof. reflexivity. Qed.

(** ** What is left out *)
Lemma removed_gone c s k : (k <= 0)%nat -> without c (replace_from (String c "") "" s k) = true.
Proof.
  intros Hk. assert (k = 0%nat) as -> by lia. clear Hk.
  induction s as [|a s IH]; [done|]. cbn. destruct (decide (c = a)) as [->|Ha].
  - rewrite bool_decide_true by done. done.
  - rewrite bool_decide_false by done. unfold without. cbn [all_chars]. fold (without c (replace_from (String c "") "" s 0)).
    rewrite IH, bool_decide_false by congruence. done.
Qed.

(** No carriage return is left, whatever was recorded. *)
Theorem no_carriage_return cast text : cast_text cast = Ok text -> without CR text = true.
Proof.
  unfold cast_text. destruct (splitlines cast) as [|h ls]; [done|]. intros H.
  repeat match type of H with
  | and_then ?x _ = Ok _ => destruct x; cbn [and_then] in H; [|done]
  end. injection H as <-. by apply removed_gone.
Qed.

(** ** What is kept *)
Lemma plain_kept s : without ESC s = true -> plain s = s.
Proof.
  unfold plain. induction s as [|c s IH]; [done|]. unfold without. cbn [all_chars].
  intros [Hc Hs]%andb_prop. apply negb_true_iff, bool_decide_eq_false in Hc.
  change (sub_from (String c s) 0) with
    (match escape (String c s) with Some n => sub_from s n | None => String c (sub_from s 0) end).
  assert (escape (String c s) = None) as ->; [|by rewrite IH].
  destruct c as [[] [] [] [] [] [] [] []]; try done.
Qed.
Lemma replace_kept c old new s : without c s = true -> replace (String c old) new s = s.
Proof.
  unfold replace. induction s as [|a s IH]; [done|]. unfold without. cbn [all_chars].
  intros [Hc Hs]%andb_prop. apply negb_true_iff, bool_decide_eq_false in Hc. cbn.
  rewrite bool_decide_false by congruence. by rewrite IH.
Qed.
Lemma join_without c l : Forall (fun s => without c s = true) l -> without c (join "" l) = true.
Proof.
  induction 1 as [|s l Hs Hl IH]; [done|]. destruct l as [|t l]; [done|].
  change (join "" (s :: t :: l)) with (s +:+ "" +:+ join "" (t :: l)).
  by rewrite !without_app, Hs, IH.
Qed.

(** *** A recording is one JSON value per line *)
Definition visible (c : ascii) : bool := within 32 126 c.
Lemma visible_app s k : all_chars visible (s +:+ k) = all_chars visible s && all_chars visible k.
Proof.
  induction s as [|a s IH]; [done|].
  change (String a s +:+ k) with (String a (s +:+ k)). cbn [all_chars]. by rewrite IH, andb_assoc.
Qed.
Lemma digits_visible s : forall acc z, digits s acc = Some z -> all_chars visible s = true.
Proof.
  induction s as [|a s IH]; intros acc z Hd; [done|]. cbn in Hd.
  destruct (digit_val a) eqn:Ha; [|done]. cbn [all_chars]. rewrite (IH _ _ Hd), andb_true_r.
  revert Ha. clear. by destruct a as [[] [] [] [] [] [] [] []].
Qed.
Lemma int_visible z : all_chars visible (str_of_Z z) = true.
Proof.
  pose proof (int_of_str_of_Z z) as Hz. revert Hz. generalize (str_of_Z z). intros s Hs.
  assert (Hn : forall s z, nat_of_str s = Some z -> all_chars visible s = true).
  { intros [|a r] z' H; [done|]. by eapply digits_visible. }
  destruct s as [|a r]; [done|]. destruct (decide (a = "-"%char)) as [->|Ha].
  - change (Z.opp <$> nat_of_str r = Some z) in Hs. destruct (nat_of_str r) eqn:Hr; [|done].
    cbn [all_chars]. by rewrite (Hn _ _ Hr).
  - eapply Hn. revert Hs. by destruct a as [[] [] [] [] [] [] [] []].
Qed.
Lemma char_visible c k : all_chars visible k = true -> all_chars visible (put_char c k) = true.
Proof.
  intros Hk. unfold put_char. repeat case_match; cbn [all_chars]; rewrite Hk, ?andb_true_r; try done.
  all: destruct c as [[] [] [] [] [] [] [] []]; vm_compute; reflexivity.
Qed.
Lemma string_visible s k : all_chars visible k = true -> all_chars visible (put_string s k) = true.
Proof.
  intros Hk. unfold put_string. cbn [all_chars]. apply andb_true_intro. split; [done|].
  induction s as [|c s IH]; cbn; [by rewrite Hk|]. by apply char_visible.
Qed.

(** Values whose numerals are visible *)
Fixpoint legible (j : json) : bool :=
  match j with
  | JArr l => forallb legible l
  | JObj l => forallb (fun kv => legible kv.2) l
  | JFloat t => all_chars visible t
  | _ => true
  end.
Lemma json_visible j : forall k, legible j = true -> all_chars visible k = true ->
  all_chars visible (put_json false j k) = true.
Proof.
  induction j as [|b|z|t|s|l IH|l IH] using json_ind'; intros k Hj Hk.
  - done.
  - by destruct b.
  - cbn. by rewrite visible_app, int_visible.
  - cbn in *. by rewrite visible_app, Hj.
  - by apply string_visible.
  - assert (Hl : forall l, Forall (fun j => forall k, legible j = true -> all_chars visible k = true ->
        all_chars visible (put_json false j k) = true) l -> forallb legible l = true ->
      all_chars visible (put_items false l k) = true).
    { clear -Hk. induction 1 as [|x l Hx _ IH]; [by cbn; rewrite Hk|]. cbn.
      intros [Hj Hl]%andb_prop. apply Hx; [done|by apply IH]. }
    destruct IH as [|x l Hx IH]; [by cbn; rewrite Hk|]. rewrite put_json_arr. cbn.
    cbn in Hj. apply andb_prop in Hj as [Hj Hl']. apply Hx; [done|by apply Hl].
  - assert (Hl : forall l, Forall (fun kv : string * json => forall k, legible kv.2 = true ->
        all_chars visible k = true -> all_chars visible (put_json false kv.2 k) = true) l ->
      forallb (fun kv => legible kv.2) l = true -> all_chars visible (put_fields false l k) = true).
    { clear -Hk. induction 1 as [|[n x] l Hx _ IH]; [by cbn; rewrite Hk|]. cbn.
      intros [Hj Hl]%andb_prop. apply string_visible. cbn. apply Hx; [done|by apply IH]. }
    destruct IH as [|[n x] l Hx IH]; [by cbn; rewrite Hk|]. rewrite put_json_obj. cbn.
    cbn in Hj. apply andb_prop in Hj as [Hj Hl']. apply string_visible. cbn.
    apply Hx; [done|by apply Hl].
Qed.

Lemma line_step c r line : visible c = true ->
  splitlines_from (String c r) line = splitlines_from r (line +:+ String c "").
Proof. by destruct c as [[] [] [] [] [] [] [] []]. Qed.
Lemma line_read s r : all_chars visible s = true ->
  forall line, splitlines_from (s +:+ newline +:+ r) line = (line +:+ s) :: splitlines_from r "".
Proof.
  induction s as [|c s IH]; intros Hs line; [by rewrite append_nil|].
  cbn [all_chars] in Hs. apply andb_prop in Hs as [Hc Hs].
  change (String c s +:+ newline +:+ r) with (String c (s +:+ newline +:+ r)).
  rewrite line_step, IH by done. f_equal. by rewrite append_assoc.
Qed.
(** A recording of a header and events, as it is written *)
Fixpoint written (l : list json) : string :=
  match l with [] => "" | j :: r => dumps j +:+ newline +:+ written r end.
Lemma written_lines l : Forall (fun j => legible j = true) l -> splitlines (written l) = dumps <$> l.
Proof.
  unfold splitlines. induction 1 as [|j l Hj _ IH]; [done|]. cbn [written].
  rewrite line_read; [by rewrite IH|]. by apply json_visible.
Qed.

(** The header and the events of a recording: when, what, and the text. *)
Definition event (e : string * string * string) : json :=
  JArr [JFloat e.1.1; JStr e.1.2; JStr e.2].
Definition recording (header : json) (events : list (string * string * string)) : string :=
  written (header :: (event <$> events)).
Definition output_texts (events : list (string * string * string)) : list string :=
  (fun e => e.2) <$> filter (fun e => e.1.2 = "o") events.

Lemma outputs_read events : Forall (fun e => is_numeral e.1.1 = true) events ->
  outputs (dumps <$> (event <$> events)) = Ok (JStr <$> output_texts events).
Proof.
  induction 1 as [|[[t k] x] l Ht _ IH]; [done|]. cbn [fmap list_fmap outputs].
  unfold json_loads. rewrite loads_dumps_eq by (cbn in Ht |- *; by rewrite Ht). cbn [and_then at_index event lookup list_lookup fst snd is_text].
  unfold output_texts. case_bool_decide as Hk; cbn [negb].
  - rewrite filter_cons_True by done. rewrite IH. done.
  - rewrite filter_cons_False by done. exact IH.
Qed.

(** What was recorded is what is printed: of a recording of valid events the text is exactly the
    texts of its output events, in order, where these have no escapes and no carriage returns. *)
Theorem cast_text_exact header events :
  unique_keys header = true -> legible header = true ->
  Forall (fun e => is_numeral e.1.1 = true /\ all_chars visible e.1.1 = true) events ->
  Forall (fun s => without ESC s = true /\ without CR s = true) (output_texts events) ->
  cast_text (recording header events) = Ok (join "" (output_texts events)).
Proof.
  intros Hu Hh He Ht. unfold cast_text, recording. rewrite written_lines.
  2: { constructor; [done|]. apply Forall_fmap. eapply Forall_impl; [exact He|].
       intros [[t k] x] [_ Hv]. cbn in *. by rewrite Hv. }
  cbn [fmap list_fmap]. unfold json_loads. rewrite loads_dumps_eq by done. cbn [and_then].
  rewrite outputs_read by (eapply Forall_impl; [exact He|by intros ? []]). cbn [and_then].
  assert (Hs : forall l, each as_text (JStr <$> l) = Ok l).
  { induction l as [|x l IH]; [done|]. cbn. cbn in IH. by rewrite IH. }
  assert (Hj : forall c, c = ESC \/ c = CR -> without c (join "" (output_texts events)) = true).
  { intros c Hc. apply join_without. eapply Forall_impl; [exact Ht|].
    intros s [H1 H2]. by destruct Hc as [->| ->]. }
  rewrite Hs. cbn [and_then]. rewrite plain_kept by auto.
  by rewrite (replace_kept CR newline), (replace_kept CR "") by auto.
Qed.

Lemma cast_text_exact_witness :
  cast_text (recording (JObj [("version", JInt 2)]) [("0.5", "o", "seed: 7"); ("0.7", "i", "x")]) =
  Ok "seed: 7".
Proof.
  apply (cast_text_exact (JObj [("version", JInt 2)]) [("0.5", "o", "seed: 7"); ("0.7", "i", "x")]);
    [reflexivity|reflexivity| |]; repeat (constructor; [split; reflexivity|]); constructor.
Defined.
