(* ===== verification/AwsMain.v ===== *)
(** The command line of the AWS benchmark driver (deploy/bench.py's [cmd_plan] and [main]):
    the plan, a session on either backend, the recovery of a session's reports. The
    arguments are parsed by [AwsArgs] (Flags.v). *)
From S2P Require Import Prelude Effects Redis Keys LuaScripts Json Py Models.
From S2P Require Import Handlers.
From S2P Require Import Tables Texts Shell Session Aws.

#[local] Open Scope string_scope.
#[local] Open Scope list_scope.
#[local] Open Scope Z_scope.
#[local] Open Scope prog_scope.

Inductive command : Type := Plan | Run | Recover.
Record Args := mk_Args {
  a_cmd : command;
  a_since_min : Q;
  a_local : bool;                     (* --backend *)
  a_out : string;
  a_deadline_min : Q;
  a_redo : bool;
  a_per_hour : Q;
  a_suites : list string;
  a_worker_counts : list Z;
  a_scaling_measure : Z;
  a_headline_workers : Z;
  a_headline_measure : Z;
  a_headline_repeats : Z;
  a_backpressure_measure : Z;
  a_high_watermark : Z;
  a_low_watermark : Z;
  a_warmup : Z;
  a_cooldown : Z;
  a_processes : Z;
}.
Definition _spec (a : Args) : SessionSpec :=
  mk_SessionSpec (a_worker_counts a) (a_scaling_measure a) (a_headline_workers a)
    (a_headline_measure a) (a_headline_repeats a) (a_backpressure_measure a)
    (spec_overload default_spec) (a_high_watermark a) (a_low_watermark a) (a_warmup a)
    (a_cooldown a) (a_processes a) (a_suites a).

Section Plan.
Context (short : Q -> string).                     (* f"{x:g}" *)
Definition plan_line (p : BenchPoint) : string :=
  "  " +:+ pad_right 13 (suite p) +:+ pad_right 12 (label p) +:+
  pad_left 3 (str_of_Z (workers p)) +:+ " workers  measure " +:+
  pad_left 4 (str_of_Z (measure p)) +:+ " s  ~" +:+
  pad_left 4 (fixed 1 (inject_Z (seconds p) / 60)) +:+ " min" +:+
  (if Qeq_bool (overload p) 0 then "" else " (offer " +:+ short (overload p) +:+ " x headline)").
Definition plan_lines (points : list BenchPoint) (per_hour : Q) : list string :=
  let total := session_seconds points in
  (plan_line <$> points) ++
  ["  points: " +:+ str_of_Z (Z.of_nat (length points)) +:+ ", " +:+
   fixed 0 (inject_Z (foldr Z.add 0 (seconds <$> points)) / 60) +:+ " min; + session overhead " +:+
   fixed 0 (inject_Z SESSION_OVERHEAD_S / 60) +:+ " min = " +:+ fixed 0 (inject_Z total / 60) +:+
   " min"] ++
  (if Qeq_bool per_hour 0 then []
   else ["  at $" +:+ fixed 4 per_hour +:+ "/h: $" +:+
         fixed 2 (per_hour * inject_Z total / 3600)]).
Definition cmd_plan (points : list BenchPoint) (per_hour : Q) : sh unit :=
  print_all (plan_lines points per_hour).
End Plan.

(** [time.time()] is no effect of the host model. *)
Inductive cl : Type -> Type :=
  | OnHost {X} (h : host X) : cl X
  | WallClock : cl Q.
Definition hosted {A} (p : sh A) : prog cl stop A :=
  carried_out (fun X (h : host X) => call (OnHost h)) p.

Section Main.
Context `{Gzip} (short : Q -> string) (indented : json -> string) (repr : json -> string).
Context (fuel : nat) (STACK_DIR : string).
Definition outcome_line (o : string * string) : string := "  " +:+ pad_right 28 o.1 +:+ " " +:+ o.2.
Definition finished_with (r : list (string * string) * Z) : prog cl stop unit :=
  hosted (print_all (outcome_line <$> r.1)) ;;;
  if r.2 =? 0 then Ret tt else Raise (Exits (inr 1)).
Definition main (a : Args) : prog cl stop unit :=
  let points := session_points (_spec a) in
  match a_cmd a with
  | Plan => hosted (cmd_plan short points (a_per_hour a))
  | Recover =>
      now <- call WallClock ;;
      let since := int_of_Q ((now - a_since_min a * 60) * 1000) in
      outputs <- hosted (_stack_outputs STACK_DIR) ;;
      b <- hosted (new_AwsBackend outputs 5 2) ;;
      outcomes <- hosted (recover indented repr fuel b (a_out a) since) ;;
      hosted (print_all (outcome_line <$> outcomes))
  | Run =>
      r <- hosted (if a_local a
                   then run_local indented repr fuel 50 points (a_out a) (a_deadline_min a) (a_redo a)
                   else outputs <- _stack_outputs STACK_DIR ;;
                        run_aws indented repr fuel outputs points (a_out a) (a_deadline_min a)
                          (a_redo a)) ;;
      finished_with r
  end.
End Main.

(** ** The local stack does not outlive its session *)
(** An effect of one kind carried out as one of another. *)
Lemma carried_call_wp {C D : Type -> Type} (inj : forall X, C X -> D X) {V}
    (spec : forall X, C X -> V -> result stop X -> V -> Prop)
    (world : forall X, D X -> V -> result stop X -> V -> Prop) {A} (p : prog C stop A) Q :
  (forall X (c : C X) v r v', world _ (inj X c) v r v' -> spec _ c v r v') ->
  forall v, wp spec p v Q -> wp world (carried_out (fun X (c : C X) => call (inj X c)) p) v Q.
Proof.
  intros Hw. induction p as [a|e|X c k IH]; intros v Hp; cbn in Hp |- *; [done..|].
  intros r v1 Hr. apply Hw, Hp in Hr. destruct r; by apply IH.
Qed.

(** The commands that were run, in order; anything may come back. *)
Definition ran X (h : host X) (tr : list (list string)) (r : result stop X)
    (tr' : list (list string)) : Prop :=
  match h with HCommand c => tr' = tr ++ [c] | _ => tr' = tr end.
Definition ran_here X (e : cl X) : list (list string) -> result stop X -> list (list string) -> Prop :=
  match e with OnHost h => ran _ h | WallClock => fun tr _ tr' => tr' = tr end.

Definition up_command : list string :=
  ["docker"; "compose"; "-f"; compose_file; "-p"; project] ++ ["up"; "-d"; "--wait"; "redis"].
Definition down_command : list string :=
  ["docker"; "compose"; "-f"; compose_file; "-p"; project] ++
  ["--profile"; "loadgen"; "down"; "-v"; "--remove-orphans"].
(** Nothing was started, or the last command takes it down. *)
Definition taken_down (tr : list (list string)) : Prop :=
  tr = [] \/ tr = [up_command] \/ exists before, tr = before ++ [down_command].

Lemma wp_any {C V A} (spec : forall X, C X -> V -> result stop X -> V -> Prop)
    (p : prog C stop A) v : wp spec p v (fun _ _ => True).
Proof. revert v. induction p as [a|e|X c k IH]; intros v; cbn; [done..|]. intros r v' _. apply IH. Qed.

Section Down.
Context `{Gzip} (short : Q -> string) (indented : json -> string) (repr : json -> string).
Context (fuel : nat) (STACK_DIR : string).
Lemma _run_ran cmd tr : wp ran (_run cmd) tr (fun _ tr' => tr' = tr ++ [cmd]).
Proof.
  unfold _run. apply wp_bind. cbn. intros r tr1 ->. destruct r as [[[code out] err]|e]; [|done].
  cbn. by destruct (code =? 0).
Qed.
Lemma run_local_wp concurrency points out deadline redo :
  wp ran (run_local indented repr fuel concurrency points out deadline redo) [] (fun _ => taken_down).
Proof.
  unfold run_local, new_LocalBackend, local_wait_for_redis.
  apply wp_bind, wp_bind. intros r tr ->. destruct r as [[]|e]; [|by left]. apply wp_ret, wp_bind. eapply wp_mono; [apply _run_ran|]. intros r tr ->.
  destruct r as [o|e]; [|by right; left]. cbn [app]. apply wp_ret.
  apply wp_bind, wp_finally. eapply wp_mono; [apply wp_any|]. intros r tr _.
  unfold down. apply wp_bind. eapply wp_mono; [apply _run_ran|]. intros c tr' ->.
  assert (Hd : taken_down (tr ++ [down_command])) by (right; right; by exists tr).
  destruct c as [c|e]; [|exact Hd]. cbn. by destruct r.
Qed.
Lemma print_ran l tr : wp ran (print_all l) tr (fun _ tr' => tr' = tr).
Proof.
  revert tr. induction l as [|x l IH]; intros tr; [done|]. cbn. intros r tr' ->.
  destruct r; [apply IH|done].
Qed.

(** However a local session ends, by its points, an error or an interruption, once its stack
    was started the last command of the driver takes it down with its volumes. *)
Theorem local_session_down a r tr : a_cmd a = Run -> a_local a = true ->
  runs ran_here (main short indented repr fuel STACK_DIR a) [] r tr -> taken_down tr.
Proof.
  intros Hc Hl Hr.
  refine (wp_runs ran_here (main short indented repr fuel STACK_DIR a) [] r tr
    (fun _ => taken_down) _ Hr).
  unfold main. rewrite Hc, Hl. apply wp_bind. eapply wp_mono.
  { apply (carried_call_wp (@OnHost) ran); [done|]. apply run_local_wp. }
  intros [x|e] tr1 Htr; [|done]. unfold finished_with. apply wp_bind. eapply wp_mono.
  { apply (carried_call_wp (@OnHost) ran); [done|]. apply print_ran. }
  intros q tr2 ->. destruct q; [|done]. by destruct (x.2 =? 0).
Qed.
End Down.

#[local] Instance no_zip : Gzip :=
  {| compress s := s; decompress s := Ok s; decompress_compress s := eq_refl |}.
(** A Docker that starts no workers: the first point fails, and the stack is taken down. *)
Definition toy_host X (h : host X) (tr : list (list string)) : result stop X * list (list string) :=
  match h in host Y return result stop Y * list (list string) with
  | HCommand c => (Ok (if bool_decide ("worker" ∈ c) then 1 else 0, "", ""), tr ++ [c])
  | HClock => (Ok 0%Q, tr)
  | HExists _ => (Ok false, tr)
  | HWrite _ _ | HLog _ _ | HPrint _ | HSleep _ => (Ok tt, tr)
  | HHex => (Ok "0123456789ab", tr)
  | HUtc => (Ok "now", tr)
  | HRead _ => (Err Diverges, tr)
  | HGlob _ => (Ok [], tr)
  end.
Definition toy X (e : cl X) (tr : list (list string)) : result stop X * list (list string) :=
  match e with OnHost h => toy_host _ h tr | WallClock => (Ok 0%Q, tr) end.
Lemma toy_ran X (e : cl X) tr : ran_here X e tr (fst (toy X e tr)) (snd (toy X e tr)).
Proof. by destruct e as [X h|]; [destruct h|]. Qed.
Definition toy_args : Args :=
  mk_Args Run 240 true "results" 120 false 0 ["scaling"] [1] 10 1 10 1 10 200 100 1 1 1.

Definition toy_main : result stop unit * list (list string) :=
  Effects.run toy (main (fun _ => "1.5") dumps dumps 3 "/stack" toy_args) [].

Lemma local_session_down_witness :
  toy_main.1 = Err (Throws (CalledProcessError 1 "")) /\ length toy_main.2 = 4%nat /\ taken_down toy_main.2.
Proof.
  split; [vm_compute; reflexivity|]. split; [vm_compute; reflexivity|].
  exact (local_session_down (fun _ => "1.5") dumps dumps 3 "/stack" toy_args toy_main.1 toy_main.2
    eq_refl eq_refl (runs_run ran_here (fun v => v) toy toy_ran _ [])).
Defined.
