(* ===== verification/Pipelining.v ===== *)
(** The batching measurements (bench/pipelining.py): what is measured, the report, and that
    a measurement leaves nothing of its queue behind.

    [me] are the effects of the script: the client's coroutines and Redis commands ([Queue]),
    a random name, the clock, the process's CPU time, the listing and deletion of keys, the
    worker as a task, the files. [scan_iter] is one effect, the keys it yields. *)
From S2P Require Import Prelude Effects Redis Keys LuaScripts Queue.
From S2P Require Import Json Py Models Config Transitions Registry Client Handlers.
From S2P Require Import Metrics.
From S2P Require Import Tables Analysis Verifier Texts Shell.
From Stdlib Require Import Qcanon.

#[local] Open Scope string_scope.
#[local] Open Scope list_scope.
#[local] Open Scope Z_scope.
#[local] Open Scope prog_scope.

Inductive me : Type -> Type :=
  | OnQueue {X} (e : pyev ProducerCounters Empty_set X) : me X
  | OnHost {X} (h : host X) : me X
  | TokenHex : me string                           (* secrets.token_hex(4) *)
  | Perf : me Q                                    (* time.perf_counter() *)
  | Cpu : me (Q * Q)                               (* user and system time of the process *)
  | ScanIter (pattern : string) : me (list string)
  | Delete (keys : list string) : me unit
  | StartWorker (s : Settings.t) : me unit         (* create_task(worker.run()) *)
  | RequestStop : me unit
  | JoinWorker : me unit
  | Close : me unit.
Abbreviation mp := (prog me stop).
Definition coroutine {A} (p : py ProducerCounters Empty_set A) : mp A := translated (@OnQueue) p.
Definition redis {X} (c : cmd X) : mp X := call (OnQueue (ECmd c)).

Section Measure.
Context (env : Settings.t) (fuel : nat).

(** [_settings]; the overrides are the concurrency and the blocking time. *)
Definition settings_for (queue : string) (concurrency : option Z) (block_ms : option Z) :
    result exn Settings.t :=
  let s := env in
  Settings.make (Settings.mk (Settings.redis_url s) (Settings.socket_timeout s)
    (Settings.socket_connect_timeout s) (Settings.health_check_interval s)
    (Settings.retry_attempts s) (Settings.retry_backoff_base s) (Settings.retry_backoff_cap s)
    queue (Settings.group s)
    (default (Settings.concurrency s) concurrency) (default (Settings.block_ms s) block_ms)
    (Settings.shutdown_grace s) (Settings.process_pool_size s) (Settings.job_timeout s)
    (Settings.visibility_timeout s) (Settings.heartbeat_interval s) (Settings.reap_interval s)
    (Settings.max_attempts s) (Settings.max_deliveries s) (Settings.suspect_deliveries s)
    (Settings.job_backoff_base s) (Settings.job_backoff_cap s) (Settings.scheduler_interval s)
    (Settings.scheduler_batch s) (Settings.consumer_prune_idle s)
    (Settings.consumer_prune_interval s) (Settings.backpressure_mode s)
    10000000 0 (Settings.block_timeout s)
    (Settings.block_poll_interval s) WARNING (Settings.log_format s)
    0 (Settings.idempotency_ttl_seconds s)).
Definition _settings (concurrency block_ms : option Z) : mp Settings.t :=
  hex <- call TokenHex ;; check (settings_for ("bench-" +:+ hex) concurrency block_ms).

Definition keys_of (s : Settings.t) : Keys.t := Keys.mk (Settings.queue s).
Definition pattern_of (s : Settings.t) : string := Keys.prefix (keys_of s) +:+ ":*".
Fixpoint delete_each (doomed : list (list string)) : mp unit :=
  match doomed with [] => Ret tt | ks :: r => call (Delete ks) ;;; delete_each r end.
Definition _cleanup (s : Settings.t) : mp unit :=
  doomed <- call (ScanIter (pattern_of s)) ;; delete_each (chunks (length doomed) 500 doomed).
(** [try: p finally: await _cleanup(r, s); await r.aclose()] *)
Definition tidied {A} (s : Settings.t) (p : mp A) : mp A :=
  finally p (_cleanup s ;;; call Close).

(** [p] [n] times *)
Fixpoint times (n : nat) (p : mp unit) : mp unit :=
  match n with O => Ret tt | S n => p ;;; times n p end.
(** [len(range(0, stop, step))] *)
Definition steps (stop step : Z) : nat := Z.to_nat ((stop + step - 1) `div` step).

Definition email : NewJob := mk_NewJob "send_email" [] None.
Definition enqueue_one (s : Settings.t) : mp unit :=
  r <- coroutine (Client.enqueue s fuel "send_email" [] None) ;;
  match r with Some _ => Ret tt | None => Raise Diverges end.
Definition enqueue_batch (s : Settings.t) (n : Z) : mp unit :=
  r <- coroutine (Client.enqueue_many s fuel (replicate (Z.to_nat n) email)) ;;
  match r with inr _ => Ret tt | inl _ => Raise Diverges end.

Definition enqueue_rate (jobs batch : Z) : mp Q :=
  s <- _settings None None ;;
  tidied s
    (t0 <- call Perf ;;
     (if batch =? 1 then times (Z.to_nat jobs) (enqueue_one s)
      else times (steps jobs batch) (enqueue_batch s batch)) ;;;
     t1 <- call Perf ;;
     n <- redis (XLEN (Keys.stream (keys_of s))) ;;
     if n =? jobs then check (div (inject_Z jobs) (t1 - t0)) else throw AssertionError).

(** One send of [batch] calls, in ms; the building of their arguments is not timed. *)
Definition timed_send (s : Settings.t) (batch : Z) : mp Q :=
  calls <- coroutine (map_py (Client._args s) (replicate (Z.to_nat batch) email)) ;;
  t0 <- call Perf ;;
  coroutine (Client._send calls "none") ;;;
  t1 <- call Perf ;; Ret ((t1 - t0) * 1000)%Q.
Fixpoint timed_sends (s : Settings.t) (batch : Z) (n : nat) : mp (list Q) :=
  match n with
  | O => Ret []
  | S n => t <- timed_send s batch ;; ts <- timed_sends s batch n ;; Ret (t :: ts)
  end.
Definition send_cost_ms (batch : Z) (sends warmup : nat) : mp (list Q) :=
  s <- _settings None None ;;
  tidied s (enqueue_one s ;;; ts <- timed_sends s batch sends ;; Ret (drop warmup ts)).

Definition drain_turn (s : Settings.t) (jobs : Z) (_ : unit) : mp (unit + unit) :=
  c <- coroutine (read_counters (keys_of s)) ;;
  if get c "processed" 0 <? jobs then call (OnQueue (ESleep (1 # 100))) ;;; Ret (inl tt)
  else Ret (inr tt).
Definition drain_rate (jobs concurrency : Z) : mp (Q * Q) :=
  s <- _settings (Some concurrency) (Some 50) ;;
  tidied s
    (times (steps jobs 500) (enqueue_batch s 500) ;;;
     cpu0 <- call Cpu ;; t0 <- call Perf ;;
     call (StartWorker s) ;;;
     while_true fuel (drain_turn s jobs) tt ;;;
     t1 <- call Perf ;; cpu1 <- call Cpu ;;
     call RequestStop ;;; call JoinWorker ;;;
     let cpu := ((cpu1.1 - cpu0.1) + (cpu1.2 - cpu0.2))%Q in
     rate <- check (div (inject_Z jobs) (t1 - t0)) ;; busy <- check (div cpu (t1 - t0)) ;;
     Ret (rate, busy)).
End Measure.

(** ** The report *)
(** [statistics.median] and [statistics.quantiles(l, n=10)[0]] *)
Definition median_of (l : list Q) : result exn Q :=
  match l with [] => Err (ValueError "no median for empty data") | _ => Ok (median l) end.
Definition first_decile (l : list Q) : result exn Q :=
  let s := sorted (Q2Qc <$> l) in
  let ld := Z.of_nat (length l) in
  let m := ld + 1 in
  let j := Z.max 1 (Z.min (ld - 1) (m `div` 10)) in
  let delta := m - j * 10 in
  let at_ (i : Z) : Q := nth (Z.to_nat i) s 0%Qc in
  if ld <? 2 then Err (ValueError "must have at least two data points")
  else Ok ((at_ (j - 1)%Z * inject_Z (10 - delta)%Z + at_ j * inject_Z delta) / 10)%Q.

Record MinMax := mk_MinMax { mm_median : Q; mm_min : Q; mm_max : Q }.
Definition _summary (values : list Q) : result exn MinMax :=
  m <-! median_of values ;;
  match values with
  | [] => Err (ValueError "min() iterable argument is empty")
  | x :: r => Ok (mk_MinMax (round_to 1 m) (round_to 1 (foldl Qmin x r)) (round_to 1 (foldl Qmax x r)))
  end.

(** What was measured, for each batch size or concurrency *)
Record raw_data := mk_raw {
  raw_enqueue : list (Z * list Q);
  raw_send : list (Z * list Q);
  raw_drain : list (Z * (list Q * list Q));
}.

Section Report.
Context (float_repr : Q -> string) (machine python : string).
Context (jobs : Z) (repeats : nat).

Definition range_of (s : MinMax) : string :=
  "[" +:+ float_repr (mm_min s) +:+ "-" +:+ float_repr (mm_max s) +:+ "]".
Definition enqueue_line (base : Q) (x : Z * list Q) : result exn string :=
  s <-! _summary x.2 ;;
  let label := if x.1 =? 1 then "enqueue() one at a time"
               else "enqueue_many, batch " +:+ str_of_Z x.1 in
  ratio <-! div (mm_median s) base ;;
  Ok ("  " +:+ pad_right 30 label +:+ pad_left 9 (float_repr (mm_median s)) +:+ " " +:+
      range_of s +:+ "  x" +:+ fixed 1 ratio).
Definition send_line (x : Z * list Q) : result exn string :=
  med <-! median_of x.2 ;; p10 <-! first_decile x.2 ;;
  per <-! div med (inject_Z x.1) ;;
  Ok ("  n = " +:+ pad_right 30 (str_of_Z x.1) +:+ pad_left 8 (fixed 2 med) +:+ " " +:+
      pad_left 8 (fixed 2 p10) +:+ " " +:+ pad_left 10 (fixed 1 (per * 1000))).
Definition drain_line (x : Z * (list Q * list Q)) : result exn string :=
  s <-! _summary x.2.1 ;; cpu <-! median_of x.2.2 ;;
  Ok ("  concurrency " +:+ pad_right 18 (str_of_Z x.1) +:+
      pad_left 9 (float_repr (mm_median s)) +:+ " " +:+ range_of s +:+ "   " +:+ fixed 2 cpu).
Definition report_lines (raw : raw_data) : result exn (list string) :=
  base <-! median_of (get (raw_enqueue raw) 1 []) ;;
  enq <-! each (enqueue_line base) (raw_enqueue raw) ;;
  send <-! each send_line (raw_send raw) ;;
  drain <-! each drain_line (raw_drain raw) ;;
  Ok (["ftq pipelining measurement: " +:+ str_of_Z jobs +:+ " send_email jobs, " +:+
         str_of_Z (Z.of_nat repeats) +:+ " runs each, median [min-max]";
       machine +:+ ", Python " +:+ python; "";
       "enqueue (one producer)          jobs/s"] ++ enq ++
      [""; "one pipelined send of n enqueues   median ms   p10 ms   us per job"] ++ send ++
      [""; "worker drain (one process)      jobs/s              worker CPU / wall"] ++ drain).

Definition floats (l : list Q) : json := JArr ((fun q => JFloat (float_repr q)) <$> l).
Definition raw_json (raw : raw_data) : json := JObj [
  ("jobs", JInt jobs); ("repeats", JInt (Z.of_nat repeats)); ("machine", JStr machine);
  ("python", JStr python);
  ("enqueue", JObj ((fun x : Z * list Q => (str_of_Z x.1, JObj [("jobs_per_s", floats x.2)]))
                      <$> raw_enqueue raw));
  ("send_cost_ms", JObj ((fun x : Z * list Q => (str_of_Z x.1, floats x.2)) <$> raw_send raw));
  ("drain", JObj ((fun x : Z * (list Q * list Q) =>
     (str_of_Z x.1, JObj [("jobs_per_s", floats x.2.1); ("cpu_utilization", floats x.2.2)]))
       <$> raw_drain raw))].

(** [[await p for _ in range(repeats)]], and a table of measurements *)
Fixpoint repeat_mp {A} (n : nat) (p : mp A) : mp (list A) :=
  match n with O => Ret [] | S n => x <- p ;; xs <- repeat_mp n p ;; Ret (x :: xs) end.
Fixpoint for_each {A B} (l : list A) (f : A -> mp B) : mp (list (A * B)) :=
  match l with
  | [] => Ret []
  | x :: r => y <- f x ;; ys <- for_each r f ;; Ret ((x, y) :: ys)
  end.
Definition measured (env : Settings.t) (fuel : nat) : mp raw_data :=
  enq <- for_each [1; 10; 100; 500] (fun b => repeat_mp repeats (enqueue_rate env fuel jobs b)) ;;
  send <- for_each [1; 10; 50; 100; 200; 300; 500; 1000]
            (fun b => send_cost_ms env fuel b 40 5) ;;
  drain <- for_each [1; 10; 50] (fun c =>
             runs <- repeat_mp repeats (drain_rate env fuel jobs c) ;; Ret (runs.*1, runs.*2)) ;;
  Ret (mk_raw enq send drain).
Definition main (env : Settings.t) (fuel : nat) (indented2 : json -> string) (results : string) :
    mp unit :=
  raw <- measured env fuel ;;
  lines <- check (report_lines raw) ;;
  let report := join newline lines in
  call (OnHost (HPrint report)) ;;;
  call (OnHost (HWrite (results +:+ "/pipelining.json") (indented2 (raw_json raw) +:+ newline))) ;;;
  call (OnHost (HWrite (results +:+ "/pipelining.txt") (report +:+ newline))).
End Report.

Example first_decile_ex : first_decile [1; 2; 3; 4; 5; 6; 7; 8; 9; 10; 11]%Q = Ok (12 # 10)%Q.
Proof. vm_compute. reflexivity. Qed.

(** ** A measurement leaves nothing of its queue behind *)
(** What is seen of the cleanup: the keys listed, the keys deleted, the connection closed. *)
Inductive seen : Type :=
  | Listed (pattern : string) (keys : option (list string))
  | Deleted (keys : list string) (done : bool)
  | Closed.
Definition seeing X (e : me X) (tr : list seen) (r : result stop X) (tr' : list seen) : Prop :=
  match e in me Y return result stop Y -> Prop with
  | ScanIter p => fun r => tr' = tr ++ [Listed p (match r with Ok ks => Some ks | Err _ => None end)]
  | Delete ks => fun r => tr' = tr ++ [Deleted ks (match r with Ok _ => true | Err _ => false end)]
  | Close => fun _ => tr' = tr ++ [Closed]
  | _ => fun _ => tr' = tr
  end r.

(** The keys of the pattern were listed and deleted, at most 500 in a call, and the connection
    was closed; it may have failed on the way. *)
Inductive cleaned (pattern : string) : list seen -> Prop :=
  | not_listed : cleaned pattern [Listed pattern None]
  | stuck ks doomed c r : concat (doomed ++ c :: r) = ks ->
      cleaned pattern (Listed pattern (Some ks) :: ((fun k => Deleted k true) <$> doomed) ++
                       [Deleted c false])
  | all_gone ks doomed : concat doomed = ks -> Forall (fun c => (length c <= 500)%nat) doomed ->
      cleaned pattern (Listed pattern (Some ks) :: ((fun k => Deleted k true) <$> doomed) ++ [Closed]).

Lemma chunks_short {A} n fuel : forall l : list A, Forall (fun c => (length c <= n)%nat) (chunks fuel n l).
Proof.
  induction fuel as [|m IH]; intros [|x l]; cbn [chunks]; try constructor; [|apply IH].
  rewrite length_take. lia.
Qed.

Abbreviation swp := (wp seeing).
Lemma delete_each_wp l tr : swp (delete_each l) tr (fun r tr' =>
  match r with
  | Ok _ => tr' = tr ++ ((fun k => Deleted k true) <$> l)
  | Err _ => exists d c rest, l = d ++ c :: rest /\
      tr' = tr ++ ((fun k => Deleted k true) <$> d) ++ [Deleted c false]
  end).
Proof.
  revert tr. induction l as [|k l IH]; intros tr; [by cbn; rewrite app_nil_r|].
  cbn [delete_each]. apply wp_bind. intros r tr1 ->. destruct r as [[]|e]; cbn.
  - eapply wp_mono; [apply IH|]. intros [[]|e] tr'.
    + intros ->. by rewrite <- app_assoc.
    + intros (d & c & rest & -> & ->). exists (k :: d), c, rest. split; [done|].
      by rewrite <- app_assoc.
  - by exists [], k, l.
Qed.
Lemma cleanup_wp s tr : swp (_cleanup s ;;; call Close) tr
  (fun _ tr' => exists seg, tr' = tr ++ seg /\ cleaned (pattern_of s) seg).
Proof.
  apply wp_bind. unfold _cleanup. apply wp_bind. intros r tr1 ->.
  destruct r as [ks|e]; [|eexists; split; [done|]; apply not_listed]. apply wp_ret.
  eapply wp_mono; [apply delete_each_wp|].
  assert (Hks : concat (chunks (length ks) 500 ks) = ks) by (apply chunks_concat; lia).
  intros [[]|e] tr2.
  - intros ->. assert (Hgone : exists seg,
      ((tr ++ [Listed (pattern_of s) (Some ks)]) ++
       ((fun k => Deleted k true) <$> chunks (length ks) 500 ks)) ++ [Closed] = tr ++ seg /\
      cleaned (pattern_of s) seg).
    { eexists. rewrite <- !app_assoc. split; [done|]. apply all_gone; [exact Hks|].
      apply chunks_short. }
    cbn. intros r tr3 ->. by destruct r.
  - intros (d & c & rest & Hd & ->). eexists. rewrite <- !app_assoc. split; [done|].
    apply (stuck _ _ _ _ rest). by rewrite <- Hd.
Qed.

(** What does not touch the cleanup *)
Definition quiet {A} (p : mp A) : Prop := forall tr, swp p tr (fun _ tr' => tr' = tr).
Lemma quiet_bind {A B} (p : mp A) (f : A -> mp B) : quiet p -> (forall a, quiet (f a)) -> quiet (bind p f).
Proof.
  intros Hp Hf tr. apply wp_bind. eapply wp_mono; [apply Hp|]. intros [a|e] tr' ->; [apply Hf|done].
Qed.
Lemma quiet_call {X} (e : me X) : (forall tr r tr', seeing X e tr r tr' -> tr' = tr) -> quiet (call e).
Proof. intros He tr. cbn. intros r tr' Hr. apply He in Hr as ->. by destruct r. Qed.
Lemma quiet_check {A} (r : result exn A) : quiet (check r).
Proof. by destruct r. Qed.
Lemma quiet_coroutine {A} (p : py ProducerCounters Empty_set A) : quiet (coroutine p).
Proof.
  unfold coroutine, quiet. induction p as [a|e|X c k IH]; intros tr; cbn; [done..|].
  intros r tr1 ->. destruct r as [x|[|e|]]; cbn; try done; apply IH.
Qed.
Lemma quiet_times n p : quiet p -> quiet (times n p).
Proof. intros Hp. induction n as [|n IH]; [done|]. cbn [times]. by apply quiet_bind. Qed.
Lemma quiet_while {St A} fuel (body : St -> mp (St + A)) : (forall x, quiet (body x)) ->
  forall x, quiet (while_true fuel body x).
Proof.
  intros Hb. induction fuel as [|n IH]; intros x; [done|]. cbn [while_true].
  apply quiet_bind; [done|]. intros [y|a]; [apply IH|done].
Qed.
Ltac quietly := repeat first
  [ apply quiet_bind; [|intros ?] | apply quiet_check | apply quiet_coroutine
  | apply quiet_times | apply quiet_while; intros ? | case_match
  | by apply quiet_call | done ].

Section Clean.
Context (env : Settings.t) (fuel : nat).
Lemma tidied_wp {A} s (p : mp A) tr : quiet p ->
  swp (tidied s p) tr (fun _ tr' => exists seg, tr' = tr ++ seg /\ cleaned (pattern_of s) seg).
Proof.
  intros Hp. apply wp_finally. eapply wp_mono; [apply Hp|]. intros r tr' ->.
  eapply wp_mono; [apply cleanup_wp|]. by intros [] tr'.
Qed.
Lemma tidied_runs {A} concurrency block_ms (p : Settings.t -> mp A) r tr :
  (forall s, quiet (p s)) ->
  runs seeing (s <- _settings env concurrency block_ms ;; tidied s (p s)) [] r tr ->
  tr = [] \/ exists s, cleaned (pattern_of s) tr.
Proof.
  intros Hp Hr. refine (wp_runs seeing _ _ _ _ (fun _ tr => tr = [] \/ exists s, cleaned (pattern_of s) tr) _ Hr).
  apply wp_bind. eapply wp_mono.
  { assert (Hq : quiet (_settings env concurrency block_ms)) by (unfold _settings; quietly). apply Hq. }
  intros [s|e] tr1 ->; [|by left]. eapply wp_mono; [by apply tidied_wp|].
  intros _ tr2 (seg & -> & Hc). right. by exists s.
Qed.

(** Whatever a measurement answers or raises, once its queue has a name it ends by listing every
    key of that queue, deleting them all, at most 500 in a call, and closing the connection,
    unless the cleanup itself fails; and nothing is deleted before. *)
Theorem queue_left_clean jobs batch sends warmup concurrency tr :
  (exists r, runs seeing (enqueue_rate env fuel jobs batch) [] r tr) \/
  (exists r, runs seeing (send_cost_ms env fuel batch sends warmup) [] r tr) \/
  (exists r, runs seeing (drain_rate env fuel jobs concurrency) [] r tr) ->
  tr = [] \/ exists s, cleaned (pattern_of s) tr.
Proof.
  assert (H1 : forall s, quiet (enqueue_one fuel s)) by (intros s; unfold enqueue_one; quietly).
  assert (Hn : forall s n, quiet (enqueue_batch fuel s n)) by (intros s n; unfold enqueue_batch; quietly).
  assert (Ht : forall s b n, quiet (timed_sends s b n)).
  { intros s b n. induction n as [|n IH]; [done|]. cbn [timed_sends]. unfold timed_send. quietly. }
  intros [[r Hr]|[[r Hr]|[r Hr]]]; eapply tidied_runs in Hr; try exact Hr; intros s.
  - quietly; auto.
  - quietly; auto.
  - unfold drain_turn. quietly; auto.
Qed.
End Clean.

(** Redis refuses the first job; the queue's two keys are deleted all the same. *)
Definition toy X (e : me X) (tr : list seen) : result stop X * list seen :=
  match e in me Y return result stop Y * list seen with
  | TokenHex => (Ok "0a1b2c3d", tr)
  | Perf => (Ok 0%Q, tr)
  | ScanIter p => (Ok ["a"; "b"], tr ++ [Listed p (Some ["a"; "b"])])
  | Delete ks => (Ok tt, tr ++ [Deleted ks true])
  | Close => (Ok tt, tr ++ [Closed])
  | _ => (Err (Throws (RedisConnectionError "refused")), tr)
  end.
Lemma toy_sees X (e : me X) tr : seeing X e tr (fst (toy X e tr)) (snd (toy X e tr)).
Proof. by destruct e. Qed.
Definition toy_rate : result stop Q * list seen :=
  Effects.run toy (enqueue_rate Settings.defaults 3 10 1) [].
Lemma queue_left_clean_witness :
  toy_rate.1 = Err (Throws (RedisConnectionError "refused")) /\
  toy_rate.2 = [Listed "ftq:{bench-0a1b2c3d}:*" (Some ["a"; "b"]); Deleted ["a"; "b"] true; Closed] /\
  (toy_rate.2 = [] \/ exists s, cleaned (pattern_of s) toy_rate.2).
Proof.
  split; [vm_compute; reflexivity|]. split; [vm_compute; reflexivity|].
  apply (queue_left_clean Settings.defaults 3 10 1 0 0 0). left. exists toy_rate.1.
  exact (runs_run seeing (fun v => v) toy toy_sees (enqueue_rate Settings.defaults 3 10 1) []).
Defined.
