(* ===== verification/Charts.v ===== *)
(** What the charts show (bench/plot.py's [plot_*] functions).

    A figure is data: its panels with the marks in them. Colours, markers, fonts, the places
    of legends and of texts next to a point, and the kind of scale are left out. A chart that
    cannot be drawn is an exception. What a value that is absent (None) leaves out of a line
    is left out here. The texts of floats ([:g], [%H:%M]) are parameters. *)
From S2P Require Import Prelude Effects Redis LuaScripts Json Py Models Handlers.
From S2P Require Import Tables Analysis Texts Shell Plots.
From Stdlib Require Import Qcanon Lqa.

#[local] Open Scope string_scope.
#[local] Open Scope list_scope.
#[local] Open Scope Z_scope.
#[local] Open Scope prog_scope.

Abbreviation point := (Q * Q)%type.
Inductive mark : Type :=
  | Line (label : string) (points : list point)              (* ax.plot *)
  | Dots (label : string) (points : list point)              (* ax.scatter *)
  | ErrorBars (label : string) (points : list point) (below above : list Q)
  | Bars (label : string) (points : list point)
  | Note (near : point) (text : string)                      (* ax.annotate, ax.text *)
  | Caption (text : string)                                  (* a text in the axes' own frame *)
  | Level (label : string) (y : Q)                           (* ax.axhline *)
  | Shade (from to : Q).                                     (* ax.axvspan *)
Record panel := mk_panel {
  heading : string;
  across : string;                          (* the x label *)
  up : string;                              (* the y label *)
  width_to : option Q;                      (* the x limit, from 0 *)
  height_to : option Q;                     (* the y limit, from 0 *)
  ticks : list Z;
  marks : list mark;
}.
Record figure := mk_figure {
  fig_title : string;
  subtitle : string;
  panels : list panel;
}.

Definition number (k : string) (r : json) : result exn Q := x <-! at_key k r ;; float_of_json x.
(** [None] for None *)
Definition maybe_number (k : string) (r : json) : result exn (option Q) :=
  x <-! at_key k r ;;
  match x with JNull => Ok None | _ => q <-! float_of_json x ;; Ok (Some q) end.
Definition int_at (k : string) (r : json) : result exn Z := x <-! at_key k r ;; as_int x.
(** [max(l)], [min(l)] *)
Definition largest (l : list Q) : result exn Q :=
  match l with [] => Err (ValueError "max() arg is an empty sequence") | x :: r => Ok (foldl Qmax x r) end.
Definition smallest (l : list Q) : result exn Q :=
  match l with [] => Err (ValueError "min() arg is an empty sequence") | x :: r => Ok (foldl Qmin x r) end.
(** [l[-1]], [l[0]] *)
Definition last_of {A} (l : list A) : result exn A :=
  match last l with Some x => Ok x | None => Err IndexError end.
Definition first_of {A} (l : list A) : result exn A :=
  match l with x :: _ => Ok x | [] => Err IndexError end.
(** The elements [f] says True of *)
Fixpoint select {A} (f : A -> result exn bool) (l : list A) : result exn (list A) :=
  match l with
  | [] => Ok []
  | x :: r => b <-! f x ;; xs <-! select f r ;; Ok (if b : bool then x :: xs else xs)
  end.
Definition of_nat (n : nat) : Q := inject_Z (Z.of_nat n).
(** The points that have a value *)
Definition drawn (l : list (Q * option Q)) : list point :=
  omap (fun p => match p.2 with Some y => Some (p.1, y) | None => None end) l.
Definition thousands (d : nat) (q : Q) : string := fixed d (q / 1000) +:+ "K".

Section Charts.
Context (short : Q -> string) (hhmm : Q -> string).          (* f"{x:g}", f"{t:%H:%M}" *)
Context (instant : string -> result exn Q).

(** ** Throughput, by session *)
(** The medians of the groups, at what they are grouped by *)
Definition medians (key : string) (groups : list (Z * list json)) : result exn (list point) :=
  each (fun g => m <-! _median g.2 key ;; Ok (inject_Z g.1, m)) groups.
Definition runs_at (g : Z * list json) : result exn (list point) :=
  each (fun r => y <-! number "completed_per_s" r ;; Ok (inject_Z g.1, y)) g.2.
(** One session's marks, and its throughputs. *)
Definition session_marks (runs : list json) : result exn (list mark * list Q) :=
  groups <-! _by_workers runs ;;
  med <-! medians "completed_per_s" groups ;;
  n <-! smallest ((fun g => of_nat (length g.2)) <$> groups) ;;
  dots <-! each runs_at groups ;;
  span <-! _span runs ;;
  Ok ((Dots "" <$> dots) ++
      [Line (span +:+ ": median of " +:+ fixed 0 n +:+ " runs (dots: each run)") med] ++
      ((fun p => Note p (thousands 1 p.2)) <$> med),
      (concat dots).*2).
(** Zipped with four colours: what comes after the fourth session is not drawn. *)
Definition SESSION_COLORS : list string := ["#2a78d6"; "#eb6834"; "#1baf7a"; "#eda100"].
Definition worker_ticks (rows : list json) : result exn (list Z) :=
  ws <-! each (int_at "workers") rows ;; Ok (sort_by Z.leb (remove_dups ws)).
Definition plot_scaling (sub : string) (rows : list json) : result exn figure :=
  ss <-! sessions instant rows 10 ;;
  per_session <-! each session_marks (take (length SESSION_COLORS) ss) ;;
  ws <-! worker_ticks rows ;;
  let top := foldl Qmax 0%Q (concat per_session.*2) in
  Ok (mk_figure "Completed jobs/s vs worker count, by session" sub
    [mk_panel "send_email, 100 B payload, concurrency 50, saturated"
       "worker containers (one process each)" "completed jobs/s (steady-state window)"
       None (Some (top * (6 # 5))%Q) ws (concat per_session.*1)]).

(** ** Redis's time for a job, run by run *)
Definition run_minute (t0 : Q) (r : json) : result exn (Q * option Q) :=
  d <-! date_of r ;; t <-! instant d ;; y <-! maybe_number "redis_us_per_job" r ;;
  Ok (((t - t0) / 60)%Q, y).
Definition is_fleet (w io : Z) (r : json) : result exn bool :=
  x <-! at_key "workers" r ;;
  if is_int w x then y <-! at_key "redis_io_threads" r ;; Ok (is_int io y) else Ok false.
Definition FLEETS : list (Z * Z) := w ← [1; 2; 4; 8; 12]; io ← [1; 4]; [(w, io)].
Definition fleet_label (f : Z * Z) : string :=
  str_of_Z f.1 +:+ " worker" +:+ (if 1 <? f.1 then "s" else "") +:+
  (if 1 <? f.2 then ", io-threads 4" else "").
Definition fleet_marks (t0 : Q) (runs : list json) (f : Z * Z) : result exn (list mark) :=
  pts <-! select (is_fleet f.1 f.2) runs ;;
  match pts with
  | [] => Ok []
  | _ => ps <-! each (run_minute t0) pts ;; Ok [Dots (fleet_label f) (drawn ps)]
  end.
Definition plot_redis_cost (sub : string) (runs : list json) : result exn figure :=
  times <-! each (fun r => d <-! date_of r ;; instant d) runs ;;
  t0 <-! smallest times ;;
  ms <-! each (fleet_marks t0 runs) FLEETS ;;
  ys <-! each (maybe_number "redis_us_per_job") runs ;;
  top <-! largest (default 0%Q <$> ys) ;;
  Ok (mk_figure "Redis's time per job drifted over the session" sub
    [mk_panel "Every saturated run; same commands per job in each"
       ("minutes since " +:+ hhmm t0 +:+ " UTC") "Redis main-thread µs per completed job"
       None (Some (top * (6 # 5))%Q) [] (concat ms)]).

(** ** Where the time goes *)
Definition SERIES : list (string * string) :=
  [("redis_main_thread", "Redis main thread"); ("worker_max", "busiest worker");
   ("loadgen", "load generator (all processes)")].
Definition series_marks (groups : list (Z * list json)) (s : string * string) :
    result exn (list mark) :=
  ps <-! medians s.1 groups ;; p <-! last_of ps ;; Ok [Line s.2 ps; Note p (fixed 2 p.2)].
Definition plot_bottleneck (sub : string) (rows : list json) : result exn figure :=
  groups <-! _by_workers rows ;;
  let ws := groups.*1 in
  ms <-! each (series_marks groups) SERIES ;;
  w0 <-! first_of ws ;;
  busy <-! medians "vm_busy_cpus" groups ;;
  cpus <-! _median rows "vm_cpus" ;;
  wide <-! largest (inject_Z <$> ws) ;;
  Ok (mk_figure "Where the time goes (medians over the steady-state window)" sub
    [mk_panel "Per component" "worker containers" "CPU, fraction of one core"
       None (Some (5 # 4)) ws
       (concat ms ++ [Level "" 1; Note (inject_Z w0, (102 # 100)%Q) "one full core"]);
     mk_panel "Whole Docker VM" "worker containers" "CPUs busy"
       (Some (wide + (3 # 2))%Q) (Some (cpus * (6 # 5))%Q) ws
       ([Bars "busy CPUs (whole VM)" busy] ++ ((fun p => Note p (fixed 1 p.2)) <$> busy) ++
        [Level "" cpus;
         Note ((inject_Z w0 - (2 # 5))%Q, (cpus + (3 # 20))%Q) (fixed 0 cpus +:+ " CPUs in the VM")])]).

(** ** Throughput and concurrency *)
Definition by_concurrency (rows : list json) : result exn (list (Z * list json)) :=
  l <-! each (fun r => c <-! int_at "concurrency" r ;; Ok (c, r)) rows ;;
  Ok (sort_by (fun a b => a.1 <=? b.1)
        (foldl (fun d x => put d x.1 (get d x.1 [] ++ [x.2])) [] l)).
(** How far the runs of a group lie below and above its median *)
Definition spread (g : Z * list json) (m : Q) : result exn (Q * Q) :=
  ys <-! each (number "completed_per_s") g.2 ;;
  lo <-! smallest ys ;; hi <-! largest ys ;; Ok ((m - lo)%Q, (hi - m)%Q).
Definition plot_concurrency (sub : string) (rows : list json) : result exn figure :=
  groups <-! by_concurrency rows ;;
  med <-! medians "completed_per_s" groups ;;
  bars <-! each (fun x => spread x.1 x.2.2) (zip groups med) ;;
  top <-! largest (zip_with (fun p b => p.2 + b.2)%Q med bars) ;;
  g0 <-! first_of groups ;;
  Ok (mk_figure "One worker's throughput vs its in-flight cap" sub
    [mk_panel ("One worker container, saturated, " +:+ str_of_Z (Z.of_nat (length g0.2)) +:+ " repeats")
       "FTQ_CONCURRENCY (jobs in flight per worker)" "completed jobs/s"
       None (Some (top * (5 # 4))%Q) groups.*1
       ([ErrorBars "median of repeats (bars: min-max)" med bars.*1 bars.*2] ++
        ((fun p => Note p (thousands 2 p.2)) <$> med))]).

(** ** Latency *)
Definition by_offered (rows : list json) : result exn (list json) :=
  l <-! each (fun r => q <-! number "offered_per_s" r ;; Ok (q, r)) rows ;;
  Ok (sort_by (fun a b => Qle_bool a.1 b.1) l).*2.
Definition LATENCIES : list (string * string) :=
  [("e2e_p50_ms", "p50"); ("e2e_p95_ms", "p95"); ("e2e_p99_ms", "p99")].
Definition latency_marks (xs : list Q) (rows : list json) (s : string * string) :
    result exn (list mark) :=
  ys <-! each (maybe_number s.1) rows ;;
  p <-! last_of (zip xs ys) ;;
  match p.2 with
  | Some y => Ok [Line s.2 (drawn (zip xs ys)); Note (p.1, y) (s.2 +:+ " " +:+ short y +:+ " ms")]
  | None => Err (TypeError "unsupported format string passed to NoneType.__format__")
  end.
Definition plot_latency (sub : string) (rows : list json) : result exn figure :=
  rows <-! by_offered rows ;;
  xs <-! each (number "completed_per_s") rows ;;
  ms <-! each (latency_marks xs rows) LATENCIES ;;
  wide <-! largest xs ;;
  r0 <-! first_of rows ;; w <-! int_at "workers" r0 ;;
  Ok (mk_figure "End-to-end latency vs load" sub
    [mk_panel (str_of_Z w +:+ " workers, open-loop offered load; Redis TIME, 1 ms resolution")
       "throughput, completed jobs/s (= offered: below capacity)" "enqueue -> commit, ms (log scale)"
       (Some (wide * (5 # 4))%Q) None [] (concat ms)]).

(** ** Backpressure, local *)
Definition samples_of (r : json) : result exn (list json) :=
  x <-! at_path ["timeline"; "samples"] r ;; items_of x.
(** Seconds since the start *)
Definition since (t0 : Q) (k : string) (j : json) : result exn Q :=
  t <-! number k j ;; Ok ((t - t0) / 1000)%Q.
Definition depths (t0 : Q) (samples : list json) : result exn (list point) :=
  each (fun s => t <-! since t0 "t_ms" s ;; d <-! number "depth" s ;; Ok (t, d)) samples.
Definition bins_of (k : string) (r : json) : result exn (list (string * json)) :=
  x <-! at_path ["timeline"; k] r ;; match x with JObj l => Ok l | _ => Err (TypeError k) end.
(** A column of the producers' table at a second that has one *)
Definition bin_at (bins : list (string * json)) (col : nat) (s : Z) : result exn point :=
  v <-! at_key (str_of_Z s) (JObj bins) ;; l <-! items_of v ;;
  match l !! col with
  | Some x => y <-! float_of_json x ;; Ok (inject_Z s, y)
  | None => Err IndexError
  end.
Definition done_at (bins : list (string * json)) (s : Z) : result exn point :=
  x <-! get_or (str_of_Z s) (JInt 0) (JObj bins) ;; y <-! float_of_json x ;; Ok (inject_Z s, y).
Definition watermark (spec : json) (at_ : Q) (k name : string) : result exn (list mark) :=
  m <-! number k spec ;; Ok [Level "" m; Note (at_, m) (" " +:+ name +:+ " watermark")].
(** What the producers met with *)
Definition producers_note (mode : string) (p : json) : result exn string :=
  rejected <-! int_at "rejected" p ;;
  if decide (mode = "reject") then Ok ("rejected " +:+ grouped rejected)
  else
    blocked <-! int_at "blocked" p ;; waited <-! number "blocked_seconds" p ;;
    Ok ("blocked " +:+ grouped blocked +:+ " jobs, " +:+ fixed 0 waited +:+ " s waiting; " +:+
        "rejected " +:+ grouped rejected).
Definition depth_panel (r : json) (mode : string) : result exn panel :=
  spec <-! at_key "spec" r ;; t0 <-! number "t0_ms" r ;; samples <-! samples_of r ;;
  ds <-! depths t0 samples ;; end_ <-! last_of ds.*1 ;;
  high <-! watermark spec end_ "high_watermark" "high" ;;
  low <-! watermark spec end_ "low_watermark" "low" ;;
  h <-! number "high_watermark" spec ;;
  Ok (mk_panel (mode +:+ " mode: queue depth vs the watermarks") "seconds since the load started"
        "depth (stream + delayed)" None (Some (h * (13 # 10))%Q) []
        ([Line "queue depth" ds] ++ high ++ low)).
Definition rate_panel (r : json) (mode : string) : result exn panel :=
  per_s <-! bins_of "producer_per_s" r ;; done <-! bins_of "completed_per_s" r ;;
  ks <-! each (fun kv => to_int kv.1) per_s ;;
  let secs := sort_by Z.leb ks in
  offered <-! each (bin_at per_s 0) secs ;;
  accepted <-! each (bin_at per_s 1) secs ;;
  completed <-! each (done_at done) secs ;;
  top <-! largest offered.*2 ;;
  p <-! at_key "producers" r ;; extra <-! producers_note mode p ;;
  Ok (mk_panel (mode +:+ " mode: offered, accepted, completed") "seconds since the load started"
        "jobs per second" None (Some (top * (13 # 10))%Q) []
        [Line "offered" offered; Line "accepted" accepted; Line "completed" completed; Caption extra]).
Definition mode_panels (r : json) : result exn (list panel) :=
  spec <-! at_key "spec" r ;; m <-! at_key "backpressure" spec ;; mode <-! as_text m ;;
  a <-! depth_panel r mode ;; b <-! rate_panel r mode ;; Ok [a; b].
Definition plot_backpressure (sub : string) (reports : list json) : result exn figure :=
  ps <-! each mode_panels reports ;;
  r0 <-! first_of reports ;; spec <-! at_key "spec" r0 ;; offered <-! number "rate" spec ;;
  Ok (mk_figure ("Backpressure: " +:+ thousands 0 offered +:+ " jobs/s offered, open loop") sub
        (concat ps)).

(** ** Scaling on AWS *)
(** The lines of one worker's throughput, and the text on it near the edge *)
Definition linear_marks (one : option Q) (ws : list Z) (top : Q) : list mark :=
  match one with
  | Some y =>
      if Qeq_bool y 0 then [] else
      let x := (top * (5 # 4) / y)%Q in
      [Line "" ((fun w => (inject_Z w, y * inject_Z w)%Q) <$> ws);
       Note ((x - (1 # 4))%Q, (y * x)%Q) "linear from 1 worker"]
  | None => []
  end.
Definition throughput_point (r : json) : result exn (Z * Z) :=
  w <-! int_at "workers" r ;; c <-! int_at "completed_per_s" r ;; Ok (w, c).
Definition as_point (p : Z * Z) : point := (inject_Z p.1, inject_Z p.2).
Definition headline_marks (headline : list json) : result exn (list mark) :=
  match headline with
  | [] => Ok []
  | h :: _ =>
      ys <-! each (int_at "completed_per_s") headline ;;
      let ys := sort_by Z.leb ys in
      w <-! int_at "workers" h ;;
      let hx := (inject_Z w + (7 # 20))%Q in
      let med := median (inject_Z <$> ys) in
      lo <-! first_of ys ;; hi <-! last_of ys ;;
      Ok [Dots "" ((fun y => (hx, inject_Z y)) <$> ys);
          Note (hx, med)
            ("headline x " +:+ str_of_Z (Z.of_nat (length ys)) +:+ ": median " +:+
             grouped_float med +:+ newline +:+ "(" +:+ grouped lo +:+ " to " +:+ grouped hi +:+ ")")]
  end.
Definition by_fleet (rows : list json) : result exn (list json) :=
  l <-! each (fun r => w <-! int_at "workers" r ;; Ok (w, r)) rows ;;
  Ok (sort_by (fun a b => a.1 <=? b.1) l).*2.
Definition plot_aws_scaling (sub : string) (rows : list json) : result exn figure :=
  scaling <-! by_fleet (filter (fun r => of_suite "scaling" r = true) rows) ;;
  ps <-! each throughput_point scaling ;;
  let ws := ps.*1 in
  let one := inject_Z <$> (snd <$> head (filter (fun p : Z * Z => p.1 = 1) ps)) in
  top <-! largest ((inject_Z <$> ps.*2) ++ [0%Q]) ;;
  hs <-! headline_marks (filter (fun r => of_suite "headline" r = true) rows) ;;
  busy <-! each (fun r => w <-! int_at "workers" r ;; b <-! number "redis_main_thread" r ;;
                          Ok (inject_Z w, (100 * b)%Q)) scaling ;;
  Ok (mk_figure "AWS scaling: completed jobs/s vs workers" sub
    [mk_panel "Throughput (saturated: offered load kept ~20K jobs queued)" "" "completed jobs/s"
       None (Some (top * (27 # 20))%Q) []
       (linear_marks one ws top ++ [Line "" (as_point <$> ps)] ++
        ((fun p => Note (as_point p) (grouped p.2)) <$> ps) ++ hs);
     mk_panel "Redis's single main thread" "workers" "Redis main thread busy (%)"
       None (Some 115%Q) ws
       ([Line "" busy] ++ ((fun p => Note p (fixed 0 p.2 +:+ "%")) <$> busy) ++
        [Level "" 100; Note ((1 # 5)%Q, 101%Q) "one full core"])]).

(** ** Backpressure on AWS *)
Definition ROLLING_S : Z := 5.
Definition window_of (r : json) (t0 : Q) : result exn (Q * Q) :=
  win <-! at_key "window" r ;; a <-! since t0 "start_ms" win ;; b <-! since t0 "end_ms" win ;;
  Ok (a, b).
Definition aws_watermark (spec : json) (k name : string) : result exn (list mark) :=
  m <-! number k spec ;; Ok [Level "" m; Caption (name +:+ " " +:+ thousands 0 m +:+ " ")].
Definition aws_depth_panel (r spec : json) (mode : string) (w : Q * Q) (t0 : Q) : result exn panel :=
  samples <-! samples_of r ;; ds <-! depths t0 samples ;;
  high <-! aws_watermark spec "high_watermark" "high" ;;
  low <-! aws_watermark spec "low_watermark" "low" ;;
  h <-! number "high_watermark" spec ;;
  d <-! at_key "depth_in_window" r ;; lo <-! int_at "min" d ;; hi <-! int_at "max" d ;;
  Ok (mk_panel (mode +:+ ": queue depth, sampled every second")
        "seconds since the load started (shaded: measurement window)" "queue depth (stream + delayed)"
        None (Some (h * (27 # 20))%Q) []
        ([Shade w.1 w.2; Line "" ds] ++ high ++ low ++
         [Note ((w.1 + 2)%Q, (h * (122 # 100))%Q)
            ("window: depth " +:+ grouped lo +:+ " to " +:+ grouped hi)])).
Definition aws_note (mode : string) (p : json) : result exn string :=
  rejected <-! int_at "rejected" p ;;
  if decide (mode = "reject") then Ok ("rejected " +:+ grouped rejected +:+ " jobs")
  else
    blocked <-! int_at "blocked" p ;; waited <-! number "blocked_seconds" p ;;
    Ok ("producers waited " +:+ grouped blocked +:+ " times (" +:+ fixed 0 waited +:+
        " s in all); rejected " +:+ grouped rejected).
Definition rolling (bins : list (string * json)) (secs : list Z) (col : option nat) :
    result exn (list point) :=
  ys <-! rolling_per_s bins secs ROLLING_S col ;; Ok (zip (inject_Z <$> secs) ys).
Definition last_second (per_s done : list (string * json)) : result exn Z :=
  ks <-! each (fun kv => to_int kv.1) (per_s ++ done) ;;
  match ks with
  | [] => Err (ValueError "max() arg is an empty sequence")
  | k :: r => Ok (foldl Z.max k r)
  end.
Definition aws_rate_panel (r spec : json) (mode : string) (w : Q * Q) : result exn panel :=
  per_s <-! bins_of "producer_per_s" r ;; done <-! bins_of "completed_per_s" r ;;
  last <-! last_second per_s done ;;
  let secs := seqZ 0 (last + 1) in
  rate <-! number "rate" spec ;;
  offered <-! (if decide (mode = "reject")
               then l <-! rolling per_s secs (Some 0%nat) ;; Ok [Line "offered" l] else Ok []) ;;
  accepted <-! rolling per_s secs (Some 1%nat) ;;
  completed <-! rolling done secs None ;;
  t <-! at_key "throughput" r ;; p <-! at_key "producers" r ;;
  how <-! aws_note mode p ;;
  o <-! number "offered_per_s" t ;; a <-! number "accepted_per_s" t ;; c <-! number "completed_per_s" t ;;
  Ok (mk_panel (mode +:+ ": offered, accepted, completed")
        ("seconds since the load started (" +:+ str_of_Z ROLLING_S +:+ " s trailing mean)" +:+ newline +:+
         "window: offered " +:+ grouped_float o +:+ "/s, accepted " +:+ grouped_float a +:+
         "/s, completed " +:+ grouped_float c +:+ "/s" +:+ newline +:+ how)
        "jobs per second" None (Some (rate * (145 # 100))%Q) []
        ([Shade w.1 w.2; Level ("scheduled offer " +:+ grouped_float rate +:+ "/s") rate] ++ offered ++
         [Line "accepted" accepted; Line "completed" completed])).
Definition aws_mode_panels (r : json) : result exn (list panel) :=
  spec <-! at_key "spec" r ;; t0 <-! number "t0_ms" r ;;
  m <-! at_key "backpressure" spec ;; mode <-! as_text m ;;
  w <-! window_of r t0 ;;
  a <-! aws_depth_panel r spec mode w t0 ;; b <-! aws_rate_panel r spec mode w ;; Ok [a; b].
Definition plot_aws_backpressure (sub : string) (reports : list json) : result exn figure :=
  ps <-! each aws_mode_panels reports ;;
  r0 <-! first_of reports ;; m <-! at_key "meta" r0 ;; w <-! int_at "workers" m ;;
  Ok (mk_figure ("AWS backpressure: " +:+ str_of_Z w +:+ " workers, offered 1.5x their capacity") sub
        (concat ps)).

(** ** Drawing *)
(** What a [Draw] of Plots.v comes to: the figure, saved, or the exception *)
Inductive canvas : Type -> Type :=
  | HostStep {X} (h : host X) : canvas X
  | Savefig (f : figure) (out : string) : canvas unit.
Definition figure_of (chart sub : string) (rows : list json) : result exn figure :=
  if decide (chart = "scaling") then plot_scaling sub rows
  else if decide (chart = "bottleneck") then plot_bottleneck sub rows
  else if decide (chart = "concurrency") then plot_concurrency sub rows
  else if decide (chart = "latency") then plot_latency sub rows
  else if decide (chart = "backpressure") then plot_backpressure sub rows
  else if decide (chart = "redis cost") then plot_redis_cost sub rows
  else if decide (chart = "aws scaling") then plot_aws_scaling sub rows
  else plot_aws_backpressure sub rows.
(** [_finish]: the figure is saved. *)
Definition _finish (f : figure) (out : string) : prog canvas stop unit :=
  call (Savefig f out) ;;; call (HostStep (HPrint ("wrote " +:+ out))).
Definition drawing X (e : pl X) : prog canvas stop X :=
  match e with
  | OnHost h => call (HostStep h)
  | Draw chart rows sub out => f <- check (figure_of chart sub rows) ;; _finish f out
  end.
Definition plotted {A} (p : pp A) : prog canvas stop A := carried_out drawing p.
End Charts.

(** ** What the charts promise *)
(** *** Grouping keeps every run *)
Section Grouping.
Context {A : Type}.
Definition flat (d : list (Z * list A)) : list (Z * A) := d ≫= fun g => pair g.1 <$> g.2.
Lemma flat_cons g d : flat (g :: d) = (pair g.1 <$> g.2) ++ flat d.
Proof. done. Qed.
Lemma flat_put (d : list (Z * list A)) k v :
  flat (put d k (get d k [] ++ [v])) ≡ₚ flat d ++ [(k, v)].
Proof.
  induction d as [|[k' l] d IH]; [done|]. cbn [put get]. case_decide as Hk.
  - subst k'. rewrite !flat_cons. cbn [fst snd]. rewrite fmap_app, <- app_assoc.
    rewrite <- app_assoc. apply Permutation_app_head. cbn. apply Permutation_cons_append.
  - rewrite !flat_cons, IH. by rewrite <- app_assoc.
Qed.
Lemma flat_grouped l : forall d : list (Z * list A),
  flat (foldl (fun d x => put d x.1 (get d x.1 [] ++ [x.2])) d l) ≡ₚ flat d ++ l.
Proof.
  induction l as [|[k v] l IH]; intros d; cbn [foldl fst snd]; [by rewrite app_nil_r|].
  rewrite IH, flat_put, <- app_assoc. done.
Qed.
Lemma flat_perm (d d' : list (Z * list A)) : d ≡ₚ d' -> flat d ≡ₚ flat d'.
Proof. intros H. unfold flat. by rewrite H. Qed.
Lemma flat_members (d : list (Z * list A)) : (flat d).*2 = concat d.*2.
Proof.
  induction d as [|g d IH]; [done|]. rewrite flat_cons, fmap_app, IH. cbn. f_equal.
  rewrite <- list_fmap_compose. induction g.2 as [|x l IHl]; [done|]. cbn. by f_equal.
Qed.
Lemma flat_in (d : list (Z * list A)) g x : g ∈ d -> x ∈ g.2 -> (g.1, x) ∈ flat d.
Proof.
  intros Hg Hx. unfold flat. apply list_elem_of_bind. exists g. split; [|done].
  by apply list_elem_of_fmap_2.
Qed.
End Grouping.

(** The runs of a grouping are the rows, each in the group of its key. *)
Lemma grouped_rows (key : json -> result exn Z) rows l (groups : list (Z * list json)) :
  each (fun r => n <-! key r ;; Ok (n, r)) rows = Ok l ->
  groups = sort_by (fun a b => a.1 <=? b.1)
    (foldl (fun d x => put d x.1 (get d x.1 [] ++ [x.2])) [] l) ->
  concat groups.*2 ≡ₚ rows /\ forall g r, g ∈ groups -> r ∈ g.2 -> key r = Ok g.1.
Proof.
  intros Hl Hg. assert (Hf : flat groups ≡ₚ l).
  { rewrite (flat_perm groups _ (eq_ind_r (fun g => g ≡ₚ _) (sort_by_perm _ _) Hg)), flat_grouped.
    done. }
  assert (Hr : Forall2 (fun r x => x.2 = r /\ key r = Ok x.1) rows l).
  { eapply each_forall; [|exact Hl]. intros r x. cbn. destruct (key r); [by intros [= <-]|done]. }
  split.
  - rewrite <- flat_members. rewrite Hf. apply Permutation_refl'. clear -Hr.
    induction Hr as [|r x rows l [<- _] _ IH]; [done|]. cbn. by f_equal.
  - intros g r Hgr Hr'. pose proof (flat_in groups g r Hgr Hr') as Hin. rewrite Hf in Hin.
    clear -Hr Hin. induction Hr as [|r' x rows l [<- Hx] _ IH]; [by apply not_elem_of_nil in Hin|].
    apply elem_of_cons in Hin as [<-|Hin]; [done|by apply IH].
Qed.

Lemma each_ext {A B} (f g : A -> result exn B) l : (forall x, f x = g x) -> each f l = each g l.
Proof. intros Hfg. induction l as [|x l IH]; [done|]. cbn. by rewrite Hfg, IH. Qed.

(** *** The dots of the throughput chart *)
Definition dots_of (m : mark) : list point := match m with Dots _ ps => ps | _ => [] end.
Definition all_dots (f : figure) : list point := (panels f ≫= marks) ≫= dots_of.
(** Where a run belongs *)
Definition run_point (r : json) : result exn point :=
  w <-! int_at "workers" r ;; y <-! number "completed_per_s" r ;; Ok (inject_Z w, y).
Definition at_run (r : json) (p : point) : Prop := run_point r = Ok p.

Lemma runs_at_points g ps : (forall r, r ∈ g.2 -> int_at "workers" r = Ok g.1) ->
  runs_at g = Ok ps -> Forall2 at_run g.2 ps.
Proof.
  destruct g as [w l]. unfold runs_at. cbn [fst snd]. revert ps.
  induction l as [|r l IH]; intros ps Hw; cbn [each]; [by intros [= <-]|].
  destruct (number "completed_per_s" r) as [y|] eqn:Hy; [|done]. cbn [and_then].
  destruct (each _ l) as [qs|] eqn:Hl; [|done]. cbn [and_then]. intros [= <-]. constructor.
  - unfold at_run, run_point. rewrite Hw by apply list_elem_of_here. cbn [and_then]. by rewrite Hy.
  - apply IH; [|done]. intros r' Hr. by apply Hw, list_elem_of_further.
Qed.
Lemma groups_points groups dots :
  (forall g r, g ∈ groups -> r ∈ g.2 -> int_at "workers" r = Ok g.1) ->
  each runs_at groups = Ok dots -> Forall2 at_run (concat groups.*2) (concat dots).
Proof.
  revert dots. induction groups as [|g groups IH]; intros dots Hw; cbn [each]; [by intros [= <-]|].
  destruct (runs_at g) as [ps|] eqn:Hg; [|done]. cbn [and_then].
  destruct (each _ groups) as [qs|] eqn:Hl; [|done]. cbn [and_then]. intros [= <-]. cbn.
  apply Forall2_app.
  - apply runs_at_points; [|done]. intros r. apply Hw, list_elem_of_here.
  - apply IH; [|done]. intros g' r Hg'. by apply Hw, list_elem_of_further.
Qed.
(** Some order of the points is that of the rows. *)
Definition shows (rows : list json) (ps : list point) : Prop :=
  exists ps', Forall2 at_run rows ps' /\ ps ≡ₚ ps'.
Lemma shows_app a b ps qs : shows a ps -> shows b qs -> shows (a ++ b) (ps ++ qs).
Proof.
  intros (ps' & Ha & Hp) (qs' & Hb & Hq). exists (ps' ++ qs').
  split; [by apply Forall2_app|by rewrite Hp, Hq].
Qed.
Lemma shows_perm a b ps : a ≡ₚ b -> shows a ps -> shows b ps.
Proof.
  intros Hab (ps' & Ha & Hp). destruct (Permutation_Forall2 Hab Ha) as (qs & Hq & Hb).
  exists qs. split; [done|by rewrite Hp].
Qed.

Lemma no_dots {A} (f : A -> mark) l : (forall x, dots_of (f x) = []) -> (f <$> l) ≫= dots_of = [].
Proof. intros Hf. induction l as [|x l IH]; [done|]. cbn. by rewrite Hf. Qed.
Lemma dots_dots (l : list (list point)) : (Dots "" <$> l) ≫= dots_of = concat l.
Proof. induction l as [|x l IH]; [done|]. cbn. by f_equal. Qed.

Lemma session_shown runs ms ys : session_marks runs = Ok (ms, ys) ->
  shows runs (ms ≫= dots_of) /\ ys = (ms ≫= dots_of).*2.
Proof.
  unfold session_marks. destruct (_by_workers runs) as [groups|] eqn:Hg; [|done]. cbn [and_then].
  destruct (medians _ groups) as [med|]; [|done]. cbn [and_then].
  destruct (smallest _) as [n|]; [|done]. cbn [and_then].
  destruct (each runs_at groups) as [dots|] eqn:Hd; [|done]. cbn [and_then].
  destruct (_span runs) as [span|]; [|done]. cbn [and_then]. intros [= Hms <-].
  assert (Hall : ms ≫= dots_of = concat dots).
  { rewrite <- Hms, bind_app, bind_cons, dots_dots, (no_dots (fun p => Note p (thousands 1 p.2))) by done.
    by rewrite app_nil_r. }
  rewrite Hall. split; [|done].
  unfold _by_workers in Hg. rewrite (each_ext _ (fun r => n <-! int_at "workers" r ;; Ok (n, r))) in Hg
    by (intros r; unfold int_at; by destruct (at_key "workers" r)).
  destruct (each _ runs) as [l|] eqn:Hl; [|done]. cbn [and_then] in Hg. injection Hg as Hg.
  destruct (grouped_rows (int_at "workers") runs l groups Hl (eq_sym Hg)) as [Hp Hk].
  eapply shows_perm; [exact Hp|]. exists (concat dots). split; [by apply groups_points|done].
Qed.
Lemma sessions_shown ss per : each session_marks ss = Ok per ->
  shows (concat ss) (concat per.*1 ≫= dots_of) /\ concat per.*2 = (concat per.*1 ≫= dots_of).*2.
Proof.
  revert per. induction ss as [|s ss IH]; intros per; cbn [each].
  - intros [= <-]. split; [|done]. exists []. by split; [constructor|].
  - destruct (session_marks s) as [[ms ys]|] eqn:Hs; [|done]. cbn [and_then].
    destruct (each _ ss) as [rest|] eqn:Hr; [|done]. cbn [and_then]. intros [= <-].
    destruct (session_shown s ms ys Hs) as [H1 ->], (IH rest eq_refl) as [H2 H3]. cbn.
    rewrite bind_app, fmap_app. split; [by apply shows_app|by rewrite <- H3].
Qed.

Lemma foldl_Qmax_ge l : forall a, (a <= foldl Qmax a l)%Q /\ Forall (fun y => y <= foldl Qmax a l)%Q l.
Proof.
  induction l as [|x l IH]; intros a; cbn; [split; [apply Qle_refl|constructor]|].
  destruct (IH (Qmax a x)) as [H1 H2]. split; [|constructor; [|done]].
  - eapply Qle_trans; [apply Q.le_max_l|exact H1].
  - eapply Qle_trans; [apply Q.le_max_r|exact H1].
Qed.

(** The throughput chart shows the runs. Every run of the first four sessions is a dot, at its
    number of workers and its completed jobs per second, and no other dot is drawn; the
    vertical axis ends above every dot; with at most four sessions these are all the runs. *)
Theorem scaling_chart_exact (instant : string -> result exn Q) (sub : string) (rows : list json)
    (ss : list (list json)) (f : figure) :
  sessions instant rows 10 = Ok ss -> plot_scaling instant sub rows = Ok f ->
  shows (concat (take 4 ss)) (all_dots f) /\
  (forall pn, pn ∈ panels f -> exists top, height_to pn = Some top /\
     Forall (fun p => p.2 <= top)%Q (all_dots f)) /\
  ((length ss <= 4)%nat -> concat (take 4 ss) ≡ₚ rows).
Proof.
  intros Hs. unfold plot_scaling. rewrite Hs. cbn [and_then].
  change (length SESSION_COLORS) with 4%nat.
  destruct (each session_marks (take 4 ss)) as [per|] eqn:Hp; [|done]. cbn [and_then].
  destruct (worker_ticks rows) as [ws|]; [|done]. cbn [and_then]. intros [= <-].
  destruct (sessions_shown _ _ Hp) as [H1 H2].
  assert (Hd : forall t s x u h k, all_dots (mk_figure t s [mk_panel x u h None k ws (concat per.*1)]) =
    concat per.*1 ≫= dots_of) by (intros; unfold all_dots; cbn; by rewrite app_nil_r).
  rewrite Hd. split_and!; [done| |].
  - intros pn ->%list_elem_of_singleton. eexists. split; [done|].
    destruct (foldl_Qmax_ge (concat per.*2) 0%Q) as [H0 Hall]. rewrite H2 in Hall, H0 |- *.
    set (top := foldl Qmax 0%Q _) in *. clearbody top.
    rewrite Forall_fmap in Hall. eapply Forall_impl; [exact Hall|]. cbn. intros p Hle. lra.
  - intros Hlen. rewrite take_ge by lia. by destruct (sessions_exact instant rows 10 ss Hs).
Qed.

(** *** The bars of the concurrency chart *)
Lemma median_between l a b : l <> [] -> Forall (fun y => a <= y <= b)%Q l ->
  (a <= median l <= b)%Q.
Proof.
  intros Hne Hl. unfold median. set (s := sorted (Q2Qc <$> l)). cbv zeta.
  assert (Hlen : length s = length l).
  { unfold s. rewrite (Permutation_length (sorted_perm _)). apply length_fmap. }
  assert (Hin : forall i, (i < length s)%nat -> (a <= nth i s 0%Qc <= b)%Q).
  { intros i Hi. pose proof (nth_In s 0%Qc Hi) as Hx. apply list_elem_of_In in Hx.
    revert Hx. generalize (nth i s 0%Qc). intros q Hx.
    unfold s in Hx. rewrite sorted_perm in Hx. apply list_elem_of_fmap in Hx as (y & -> & Hy).
    rewrite Forall_forall in Hl. specialize (Hl y Hy). cbn [Q2Qc this]. by rewrite Qred_correct. }
  assert (Hpos : (0 < length s)%nat) by (rewrite Hlen; destruct l; [done|cbn; lia]).
  destruct (Nat.odd (length s)).
  - apply Hin, Nat.div_lt; lia.
  - assert (H2 : (length s / 2 < length s)%nat) by (apply Nat.div_lt; lia).
    assert (H1 : (length s / 2 - 1 < length s)%nat) by lia.
    apply Hin in H1, H2. revert H1 H2. generalize (this (nth (length s / 2 - 1) s 0%Qc)).
    generalize (this (nth (length s / 2) s 0%Qc)). intros y x [] []. unfold Qdiv. change (/ 2)%Q with (1 # 2)%Q. split; lra.
Qed.

Lemma foldl_Qmin_le l : forall a, (foldl Qmin a l <= a)%Q /\ Forall (fun y => foldl Qmin a l <= y)%Q l.
Proof.
  induction l as [|x l IH]; intros a; cbn; [split; [apply Qle_refl|constructor]|].
  destruct (IH (Qmin a x)) as [H1 H2]. split; [|constructor; [|done]].
  - eapply Qle_trans; [exact H1|apply Q.le_min_l].
  - eapply Qle_trans; [exact H1|apply Q.le_min_r].
Qed.
Lemma smallest_le l m : smallest l = Ok m -> Forall (fun y => m <= y)%Q l.
Proof.
  destruct l as [|x l]; [done|]. intros [= <-]. destruct (foldl_Qmin_le l x). by constructor.
Qed.
Lemma largest_ge l m : largest l = Ok m -> Forall (fun y => y <= m)%Q l.
Proof.
  destruct l as [|x l]; [done|]. intros [= <-]. destruct (foldl_Qmax_ge l x). by constructor.
Qed.

Lemma numbers_known key l ys : each (number key) l = Ok ys ->
  exists js, each (at_key key) l = Ok js /\ filter (fun j => is_null j = false) js = js /\
    each float_of_json js = Ok ys.
Proof.
  revert ys. induction l as [|r l IH]; intros ys; cbn [each].
  - intros [= <-]. by exists [].
  - unfold number at 1. destruct (at_key key r) as [j|]; [|done]. cbn [and_then].
    destruct (float_of_json j) as [q|] eqn:Hj; [|done]. cbn [and_then].
    destruct (each (number key) l) as [qs|]; [|done]. cbn [and_then]. intros [= <-].
    destruct (IH qs eq_refl) as (js & H1 & H2 & H3). exists (j :: js). rewrite H1. cbn [and_then].
    split_and!; [done| |cbn [each]; by rewrite Hj, H3].
    rewrite filter_cons_True, H2; [done|]. by destruct j.
Qed.

(** The bars of the concurrency chart reach from the slowest run to the fastest. Around the
    median of a group's runs, the bar goes down and up by amounts that are not negative, to
    values between which every run of the group lies; each end is a run. *)
Theorem bars_exact (g : Z * list json) (m lo hi : Q) (ys : list Q) :
  _median g.2 "completed_per_s" = Ok m -> each (number "completed_per_s") g.2 = Ok ys ->
  spread g m = Ok (lo, hi) ->
  exists slowest fastest, smallest ys = Ok slowest /\ largest ys = Ok fastest /\
    (m - lo == slowest)%Q /\ (m + hi == fastest)%Q /\ (0 <= lo)%Q /\ (0 <= hi)%Q /\
    Forall (fun y => slowest <= y <= fastest)%Q ys.
Proof.
  intros Hm Hys. unfold spread. rewrite Hys. cbn [and_then].
  destruct (smallest ys) as [a|] eqn:Ha; [|done]. destruct (largest ys) as [b|] eqn:Hb; [|done].
  cbn [and_then]. intros [= <- <-]. exists a, b.
  destruct (numbers_known _ _ _ Hys) as (js & H1 & H2 & H3). unfold _median in Hm.
  rewrite H1 in Hm. cbn [and_then] in Hm. rewrite H2, H3 in Hm. cbn [and_then] in Hm.
  pose proof (smallest_le ys a Ha) as Hlo. pose proof (largest_ge ys b Hb) as Hhi.
  assert (Hall : Forall (fun y => a <= y <= b)%Q ys) by (rewrite Forall_forall in Hlo, Hhi |- *; auto).
  assert (Hme : (a <= m <= b)%Q).
  { destruct ys as [|y ys]; [done|]. injection Hm as <-. by apply median_between. }
  split_and!; try done; [ring|ring|lra|lra].
Qed.

(** *** What is not drawn *)
Definition toy_instant (d : string) : result exn Q :=
  n <-! to_int (String.substring 14 2 d) ;; Ok (inject_Z (60 * n)).
Definition toy_row (minute workers : Z) : json := JObj [
  ("workers", JInt workers); ("date_utc", JStr ("2025-01-02T03:" +:+ two_digits minute +:+ ":00"));
  ("redis_io_threads", JInt 1); ("redis_us_per_job", JFloat "12.5");
  ("completed_per_s", JInt (8000 + minute)); ("concurrency", JInt 50)].
(** The chart of Redis's time for a job has dots for five fleets only: a run with three workers
    is not on it, though its title says every saturated run. *)
Example redis_cost_leaves_out :
  all_dots <$> of_ok (plot_redis_cost (fun _ => "03:00") toy_instant "" [toy_row 0 3; toy_row 1 4]) =
  Some [(60 # 60, 125 # 10)%Q].
Proof. vm_compute. reflexivity. Qed.
(** Runs eleven minutes apart are sessions of their own; the fifth is not on the throughput
    chart, which has four colours. *)
Example fifth_session_left_out :
  length <$> of_ok (sessions toy_instant ((fun k => toy_row (11 * k) 1) <$> [0; 1; 2; 3; 4]) 10) = Some 5%nat /\
  (fun f => length (all_dots f)) <$>
    of_ok (plot_scaling toy_instant "" ((fun k => toy_row (11 * k) 1) <$> [0; 1; 2; 3; 4])) = Some 4%nat.
Proof. vm_compute. by split. Qed.

Lemma scaling_chart_exact_witness : exists f,
  plot_scaling toy_instant "" [toy_row 0 1; toy_row 1 2; toy_row 2 2] = Ok f /\
  length (all_dots f) = 3%nat /\ shows (concat [[toy_row 0 1; toy_row 1 2; toy_row 2 2]]) (all_dots f).
Proof.
  eexists. split; [vm_compute; reflexivity|]. split; [reflexivity|].
  apply (scaling_chart_exact toy_instant "" [toy_row 0 1; toy_row 1 2; toy_row 2 2]
    [[toy_row 0 1; toy_row 1 2; toy_row 2 2]]); vm_compute; reflexivity.
Defined.
Lemma bars_exact_witness : exists a b,
  smallest [8000 # 1; 8001 # 1]%Q = Ok a /\ largest [8000 # 1; 8001 # 1]%Q = Ok b.
Proof.
  destruct (bars_exact (50, [toy_row 0 1; toy_row 1 1]) (median [8000 # 1; 8001 # 1]%Q)
    (median [8000 # 1; 8001 # 1] - (8000 # 1))%Q ((8001 # 1) - median [8000 # 1; 8001 # 1])%Q
    [8000 # 1; 8001 # 1]%Q) as (a & b & Ha & Hb & _); [vm_compute; reflexivity..|]. by exists a, b.
Defined.
