(* ===== verification/Flags.v ===== *)
(** The command lines of the tools (the [_args] of bench/loadgen.py, bench/run.py and
    chaos/run.py, the [main] of deploy/bench.py and bench/plot.py), and the contract between
    them: what the drivers write for the load generator is what it reads.

    A path stays the text it was given as. A payload that is no JSON object is refused here;
    the code keeps it, and fails when it makes the first job. *)
From S2P Require Import Prelude Effects Redis Keys LuaScripts Json Py Models Config.
From S2P Require Import Random.
From S2P Require Import Handlers.
From S2P Require Import Tables Texts Shell.
From S2P Require Import Loadgen LocalBench LocalRuns Session AwsMain Chaos Reports.
From S2P Require Import Plots Charts.
From S2P Require Import Argparse.

#[local] Open Scope string_scope.
#[local] Open Scope list_scope.
#[local] Open Scope Z_scope.

(** ** Reading a namespace *)
Definition wrong {A} (k : string) : result exn A := Err (TypeError k).
Definition text_attr (ns : namespace) (k : string) : result exn string :=
  match get ns k VNone with VText s => Ok s | _ => wrong k end.
Definition int_attr (ns : namespace) (k : string) : result exn Z :=
  match get ns k VNone with VInt n => Ok n | _ => wrong k end.
Definition float_attr (ns : namespace) (k : string) : result exn Q :=
  match get ns k VNone with VFloat q => Ok q | _ => wrong k end.
Definition bool_attr (ns : namespace) (k : string) : result exn bool :=
  match get ns k VNone with VBool b => Ok b | _ => wrong k end.
(** An attribute whose default is None *)
Definition optional_attr {A} (f : namespace -> string -> result exn A) (ns : namespace) (k : string) :
    result exn (option A) :=
  match get ns k VNone with VNone => Ok None | _ => x <-! f ns k ;; Ok (Some x) end.
Definition list_attr {A} (f : namespace -> string -> result exn A) (ns : namespace) (k : string) :
    result exn (list A) :=
  match get ns k VNone with VList l => each (fun v => f [(k, v)] k) l | _ => wrong k end.

Definition thrown {A} (r : result exn A) : result stop A :=
  match r with Ok a => Ok a | Err e => Err (Throws e) end.
Definition parsed (p : parser) (argv : list string) : result stop namespace :=
  match parse_args p argv with Ok ns => Ok ns | Err code => Err (Exits (inr code)) end.

(** ** The load generator *)
Module LoadgenArgs.
Import Loadgen.

(** [environ_url]: FTQ_REDIS_URL in the environment *)
Definition parser_of (environ_url : option string) : parser :=
  let d := default_spec "" in
  mk_parser [
    option_of "--redis-url" AsText (VText (default "redis://localhost:6379/0" environ_url));
    option_of "--queue" AsText (VText (queue d));
    option_of "--rate" AsFloat (VFloat (rate d));
    option_of "--warmup" AsInt (VInt (warmup d));
    option_of "--measure" AsInt (VInt (measure d));
    option_of "--cooldown" AsInt (VInt (cooldown d));
    option_of "--processes" AsInt (VInt (processes d));
    option_of "--batch" AsInt (VInt (batch d));
    option_of "--tick-ms" AsFloat (VFloat (tick_ms d));
    mk_argument ["--type"] "job_type" One AsText [] false (VText (job_type d));
    option_of "--payload" AsText (VText "{}");
    option_of "--payload-bytes" AsInt (VInt (payload_bytes d));
    option_of "--max-depth" AsInt (VInt (max_depth d));
    choice_of "--backpressure" ["reject"; "block"] (backpressure d);
    option_of "--high-watermark" AsInt (VInt (high_watermark d));
    option_of "--low-watermark" AsInt (VInt (low_watermark d));
    option_of "--block-timeout" AsFloat (VFloat (block_timeout d));
    option_of "--expect-workers" AsInt (VInt (expect_workers d));
    option_of "--drain-timeout" AsFloat (VFloat (drain_timeout d));
    option_of "--hosts" AsInt (VInt (hosts d));
    option_of "--run-id" AsText (VText (run_id d));
    option_of "--host-timeout" AsFloat (VFloat (host_timeout d));
    switch_of "--producer-only";
    option_of "--meta" AsText (VText "{}");
    option_of "--out" AsText (VText "-")] None.

(** What [_args] returns: the spec, the labels, where the report goes, and whether this is an
    extra producer host. *)
Definition parsed_args : Type := LoadSpec * json * string * bool.

Definition spec_of_args (a : namespace) : result exn LoadSpec :=
  u <-! text_attr a "redis_url" ;; q <-! text_attr a "queue" ;; r <-! float_attr a "rate" ;;
  w <-! int_attr a "warmup" ;; m <-! int_attr a "measure" ;; c <-! int_attr a "cooldown" ;;
  p <-! int_attr a "processes" ;; b <-! int_attr a "batch" ;; t <-! float_attr a "tick_ms" ;;
  ty <-! text_attr a "job_type" ;;
  text <-! text_attr a "payload" ;; pj <-! json_loads text ;; pl <-! members_of pj ;;
  pb <-! int_attr a "payload_bytes" ;; md <-! int_attr a "max_depth" ;;
  bp <-! text_attr a "backpressure" ;; hw <-! int_attr a "high_watermark" ;;
  lw <-! int_attr a "low_watermark" ;; bt <-! float_attr a "block_timeout" ;;
  ew <-! int_attr a "expect_workers" ;; dt <-! float_attr a "drain_timeout" ;;
  hs <-! int_attr a "hosts" ;; ri <-! text_attr a "run_id" ;; ht <-! float_attr a "host_timeout" ;;
  Ok (mk_LoadSpec u q (group (default_spec "")) r w m c p b t ty pl pb md bp hw lw bt ew dt hs ri ht).

Definition _args (environ_url : option string) (argv : list string) : result stop parsed_args :=
  a <-! parsed (parser_of environ_url) argv ;;
  spec <-! thrown (spec_of_args a) ;;
  producer_only <-! thrown (bool_attr a "producer_only") ;;
  if producer_only && bool_decide (run_id spec = "") then Err (Exits (inr 2))   (* p.error *)
  else
    meta <-! thrown (text <-! text_attr a "meta" ;; json_loads text) ;;
    out <-! thrown (text_attr a "out") ;;
    Ok (spec, meta, out, producer_only).

(** [main(argv)] *)
Definition main (float_repr : Q -> string) (env : Settings.t) (fuel : nat) (indented1 : json -> string)
    (environ_url : option string) (argv : list string) : prog Reports.out_ev stop Z :=
  match _args environ_url argv with
  | Ok (spec, meta, out, producer_only) =>
      Reports.loadgen_main float_repr env fuel indented1 spec meta out producer_only
  | Err e => Raise e
  end.
End LoadgenArgs.

(** ** The local benchmark *)
Module LocalArgs.
Import LocalBench.

Definition SUITES : list string :=
  ["concurrency"; "scaling"; "latency"; "backpressure"; "iothreads"; "point"].
Definition parser_of_run : parser := mk_parser [
  switch_of "--skip-build";
  option_of "--concurrency" AsInt (VInt 50);
  option_of "--warmup" AsInt (VInt 10);
  option_of "--measure" AsInt (VInt 30);
  option_of "--cooldown" AsInt (VInt 5);
  option_of "--processes" AsInt (VInt 2);
  option_of "--payload-bytes" AsInt (VInt 100);
  option_of "--max-depth" AsInt (VInt 20000);
  several_of "--concurrency-values" AsInt (VInt <$> [10; 25; 50; 100]);
  several_of "--worker-counts" AsInt (VInt <$> [1; 2; 4; 8; 12]);
  option_of "--repeats" AsInt (VInt 3);
  option_of "--repeat-from" AsInt (VInt 1);
  option_of "--io-threads" AsInt (VInt 1);
  option_of "--workers" AsInt (VInt 8);
  several_of "--load-fractions" AsFloat (VFloat <$> [1 # 10; 1 # 4; 1 # 2; 3 # 4; 9 # 10]%Q);
  option_of "--overload" AsFloat (VFloat (3 # 2));
  option_of "--high" AsInt (VInt 20000);
  option_of "--low" AsInt (VInt 15000);
  option_of "--label" AsText (VText "point");
  mk_argument ["--point-suite"; "--suite"] "point_suite" One AsText [] false (VText "adhoc")]
  (Some (positional_of "suite" SUITES)).

(** [argv[:argv.index("--")]] and what comes after, which is for the load generator *)
Fixpoint split_argv (argv : list string) : list string * list string :=
  match argv with
  | [] => ([], [])
  | s :: r => if decide (s = "--") then ([], r) else let '(a, b) := split_argv r in (s :: a, b)
  end.

Definition args_of (a : namespace) (rest : list string) : result exn Args :=
  s <-! text_attr a "suite" ;; sb <-! bool_attr a "skip_build" ;; c <-! int_attr a "concurrency" ;;
  w <-! int_attr a "warmup" ;; m <-! int_attr a "measure" ;; cd <-! int_attr a "cooldown" ;;
  p <-! int_attr a "processes" ;; pb <-! int_attr a "payload_bytes" ;;
  md <-! int_attr a "max_depth" ;; cv <-! list_attr int_attr a "concurrency_values" ;;
  wc <-! list_attr int_attr a "worker_counts" ;; r <-! int_attr a "repeats" ;;
  rf <-! int_attr a "repeat_from" ;; io <-! int_attr a "io_threads" ;; ws <-! int_attr a "workers" ;;
  lf <-! list_attr float_attr a "load_fractions" ;; o <-! float_attr a "overload" ;;
  h <-! int_attr a "high" ;; l <-! int_attr a "low" ;; lb <-! text_attr a "label" ;;
  ps <-! text_attr a "point_suite" ;;
  Ok (mk_Args s sb c w m cd p pb md cv wc r rf io ws lf o h l lb ps rest).
Definition _args (argv : list string) : result stop Args :=
  let '(own, rest) := split_argv argv in
  a <-! parsed parser_of_run own ;; thrown (args_of a rest).

(** [main(argv)] *)
Definition main (float_text float_repr : Q -> string) (indented indented1 : json -> string)
    (REPO_ROOT RESULTS RUNS : string) (argv : list string) : bl Z :=
  match _args argv with
  | Ok a => main_async float_text float_repr indented indented1 REPO_ROOT RESULTS RUNS a
  | Err e => Raise e
  end.
End LocalArgs.

(** ** A chaos run *)
Module ChaosArgs.
Import Chaos.

(** [report]: where the report goes unless told otherwise *)
Definition parser_of_chaos (report : string) : parser := mk_parser [
  mk_argument ["--jobs"] "jobs" One AsInt [] true VNone;
  option_of "--workers" AsInt (VInt 8);
  option_of "--concurrency" AsInt (VInt 16);
  option_of "--seed" AsInt VNone;
  option_of "--rate" AsFloat (VFloat 2000);
  option_of "--fault-tail" AsFloat (VFloat 20);
  option_of "--drain-timeout" AsFloat (VFloat 600);
  option_of "--out" AsText (VText report);
  option_of "--run-dir" AsText VNone;
  switch_of "--keep";
  switch_of "--skip-build"] None.

(** A negative number of workers counts none. *)
Definition args_of_chaos (a : namespace) : result exn Args :=
  j <-! int_attr a "jobs" ;; w <-! int_attr a "workers" ;; c <-! int_attr a "concurrency" ;;
  s <-! optional_attr int_attr a "seed" ;; r <-! float_attr a "rate" ;;
  ft <-! float_attr a "fault_tail" ;; dt <-! float_attr a "drain_timeout" ;;
  o <-! text_attr a "out" ;; rd <-! optional_attr text_attr a "run_dir" ;;
  k <-! bool_attr a "keep" ;; sb <-! bool_attr a "skip_build" ;;
  Ok (mk_Args j (Z.to_nat w) c s r ft dt o rd k sb).
Definition _args (report : string) (argv : list string) : result stop Args :=
  a <-! parsed (parser_of_chaos report) argv ;; thrown (args_of_chaos a).

(** [main(argv)] *)
Definition main `{Rng R} (seeded : Z -> R) (float_repr : Q -> string) (py_repr : string -> string)
    (repr : json -> string) (indented : json -> string)
    (env : Settings.t) (REPO_ROOT : string) (fuel : nat) (short : Q -> string) (report : string)
    (argv : list string) : co Z :=
  match _args report argv with
  | Ok a => start_run seeded float_repr py_repr repr indented env REPO_ROOT fuel short a
  | Err e => Raise e
  end.
End ChaosArgs.

(** ** The AWS benchmark driver *)
Module AwsArgs.
Import Session AwsMain.

Definition parser_of_aws (results : string) : parser :=
  let d := default_spec in
  mk_parser [
    option_of "--since-min" AsFloat (VFloat 240);
    choice_of "--backend" ["aws"; "local"] "aws";
    option_of "--out" AsText (VText results);
    option_of "--deadline-min" AsFloat (VFloat 120);
    switch_of "--redo";
    option_of "--per-hour" AsFloat (VFloat 0);
    several_of "--suites" AsText (VText <$> suites d);
    several_of "--worker-counts" AsInt (VInt <$> worker_counts d);
    option_of "--scaling-measure" AsInt (VInt (scaling_measure d));
    option_of "--headline-workers" AsInt (VInt (headline_workers d));
    option_of "--headline-measure" AsInt (VInt (headline_measure d));
    option_of "--headline-repeats" AsInt (VInt (headline_repeats d));
    option_of "--backpressure-measure" AsInt (VInt (backpressure_measure d));
    option_of "--high-watermark" AsInt (VInt (high_watermark d));
    option_of "--low-watermark" AsInt (VInt (low_watermark d));
    option_of "--warmup" AsInt (VInt (spec_warmup d));
    option_of "--cooldown" AsInt (VInt (spec_cooldown d));
    option_of "--processes" AsInt (VInt (processes d))]
    (Some (positional_of "cmd" ["plan"; "run"; "recover"])).

Definition command_of (s : string) : command :=
  if decide (s = "plan") then Plan else if decide (s = "recover") then Recover else Run.
Definition args_of_aws (a : namespace) : result exn Args :=
  c <-! text_attr a "cmd" ;; sm <-! float_attr a "since_min" ;; b <-! text_attr a "backend" ;;
  o <-! text_attr a "out" ;; dm <-! float_attr a "deadline_min" ;; rd <-! bool_attr a "redo" ;;
  ph <-! float_attr a "per_hour" ;; su <-! list_attr text_attr a "suites" ;;
  wc <-! list_attr int_attr a "worker_counts" ;; sc <-! int_attr a "scaling_measure" ;;
  hw <-! int_attr a "headline_workers" ;; hm <-! int_attr a "headline_measure" ;;
  hr <-! int_attr a "headline_repeats" ;; bm <-! int_attr a "backpressure_measure" ;;
  h <-! int_attr a "high_watermark" ;; l <-! int_attr a "low_watermark" ;;
  w <-! int_attr a "warmup" ;; cd <-! int_attr a "cooldown" ;; p <-! int_attr a "processes" ;;
  Ok (mk_Args (command_of c) sm (bool_decide (b <> "aws")) o dm rd ph su wc sc hw hm hr bm h l w cd p).
Definition _args (results : string) (argv : list string) : result stop Args :=
  a <-! parsed (parser_of_aws results) argv ;; thrown (args_of_aws a).

(** [main(argv)] *)
Definition main `{Gzip} (short : Q -> string) (indented repr : json -> string) (fuel : nat)
    (STACK_DIR results : string) (argv : list string) : prog cl stop unit :=
  match _args results argv with
  | Ok a => AwsMain.main short indented repr fuel STACK_DIR a
  | Err e => Raise e
  end.
End AwsArgs.

(** ** The charts *)
Module PlotArgs.
Definition parser_of_plot : parser := mk_parser [
  option_of "--results" AsText VNone; switch_of "--aws"] None.
(** The directory, if given, and whether the reports are those of AWS *)
Definition args_of_plot (a : namespace) : result exn (option string * bool) :=
  r <-! optional_attr text_attr a "results" ;; aws <-! bool_attr a "aws" ;; Ok (r, aws).
Definition _args (argv : list string) : result stop (option string * bool) :=
  a <-! parsed parser_of_plot argv ;; thrown (args_of_plot a).

Section Main.
Context (short hhmm : Q -> string) (float_repr : Q -> string) (repr indented1 : json -> string).
Context (instant : string -> result exn Q) (DEFAULT AWS_DEFAULT : string).
Definition main (argv : list string) : prog Charts.canvas stop unit :=
  match _args argv with
  | Err e => Raise e
  | Ok (results, true) =>
      Charts.plotted short hhmm instant (Plots.aws_main repr (default AWS_DEFAULT results))
  | Ok (results, false) =>
      Charts.plotted short hhmm instant
        (Plots.plot_main float_repr repr indented1 (default DEFAULT results))
  end.
End Main.
End PlotArgs.

(** ** Every value has its type *)
(** The parser's arguments have attributes of their own, and take one value if positional. *)
Definition well_formed (p : parser) : Prop :=
  NoDup (dest <$> arguments p) /\ long_options p = true /\
  (forall a, positional p = Some a -> takes a = One).
Lemma loadgen_well_formed u : well_formed (LoadgenArgs.parser_of u).
Proof. split_and!; [by apply (bool_decide_unpack _); vm_compute|reflexivity|done]. Qed.

(** *** What the callers write *)
Section Written.
Context (p : parser).
Definition stores (l : list word) (avs : list (argument * value)) : Prop :=
  Forall2 (fun i av => item_stores p i av.1 av.2) l avs.
Lemma stores_cons i l a v avs : item_stores p i a v -> stores l avs -> stores (i :: l) ((a, v) :: avs).
Proof. by constructor. Qed.
Lemma stores_app l l' avs avs' : stores l avs -> stores l' avs' -> stores (l ++ l') (avs ++ avs').
Proof. apply Forall2_app. Qed.

Lemma stores_int f a z : is_option p f a -> takes a = One -> reads_as a = AsInt ->
  long_options p = true -> item_stores p (Given f (str_of_Z z)) a (VInt z).
Proof.
  intros Hf Ha Hr Hl. split_and!; [done..|by apply value_number|]. unfold _get_value.
  by rewrite Hr, to_int_of_Z.
Qed.
Lemma stores_float f a z : is_option p f a -> takes a = One -> reads_as a = AsFloat ->
  long_options p = true -> item_stores p (Given f (str_of_Z z)) a (VFloat (inject_Z z)).
Proof.
  intros Hf Ha Hr Hl. split_and!; [done..|by apply value_number|]. unfold _get_value.
  by rewrite Hr, py_float_of_Z.
Qed.
Lemma stores_text f a s : is_option p f a -> takes a = One -> reads_as a = AsText -> choices a = [] ->
  starts_with s "-" = false -> item_stores p (Given f s) a (VText s).
Proof.
  intros Hf Ha Hr Hc Hs. split_and!; [done..|by apply value_plain|]. unfold _get_value.
  by rewrite Hr, Hc.
Qed.
End Written.

(** ** What the drivers ask of the load generator *)
(** The number a rate is written as *)
Definition written_rate (q : Q) : Q :=
  let n := inject_Z (Tables.round (Qabs.Qabs q)) in if Qlt_bool q 0 then (- n)%Q else n.
Lemma nonneg_text n : 0 <= n -> str_of_Z n = pretty (Z.to_N n).
Proof. intros Hn. rewrite <- (Z2N.id n) at 1 by done. by destruct n. Qed.
Lemma fixed_read p q : long_options p = true ->
  is_value p (fixed 0 q) /\ py_float (fixed 0 q) = Some (written_rate q).
Proof.
  intros Hl. unfold fixed, written_rate. change (10 ^ Z.of_nat 0) with 1. rewrite Z.div_1_r.
  assert (Hr : Tables.round (Qabs.Qabs q * inject_Z 1) = Tables.round (Qabs.Qabs q)).
  { assert (He : (Qabs.Qabs q * inject_Z 1 == Qabs.Qabs q)%Q)
      by (change (inject_Z 1) with 1%Q; ring).
    apply Z.le_antisymm; apply Tables.round_mono; rewrite He; apply Qle_refl. }
  rewrite Hr, append_nil. set (n := Tables.round _). destruct (Qlt_bool q 0).
  - assert (Hn : 0 <= n) by (change 0 with (Tables.round 0); apply Tables.round_mono, Qabs.Qabs_nonneg).
    rewrite nonneg_text by done. destruct (pretty_digits (Z.to_N n)) as [Hd Hne].
    change ("-" +:+ pretty (Z.to_N n)) with (String "-" (pretty (Z.to_N n))). split.
    + destruct (pretty (Z.to_N n)) as [|c r]; [done|]. cbn in Hd. apply andb_prop in Hd as [Hc Hr'].
      by apply value_negative.
    + unfold py_float. rewrite strip_plain.
      * by rewrite unsigned_float_nat, Z2N.id.
      * exact (all_chars_mono is_digit _ _ digit_not_blank Hd).
  - split; [by apply value_number|apply py_float_of_Z].
Qed.
Lemma object_value l g : starts_with (put_json g (JObj l) "") "-" = false.
Proof. by destruct l as [|[n x] l]. Qed.

Lemma stores_fixed p f a q : is_option p f a -> takes a = One -> reads_as a = AsFloat ->
  long_options p = true ->
  item_stores p (Given f (fixed 0 q)) a (VFloat (written_rate q)).
Proof.
  intros Hf Ha Hr Hl. destruct (fixed_read p q Hl) as [Hv He]. split_and!; [done..|].
  unfold _get_value. by rewrite Hr, He.
Qed.

Ltac option_here := split_and!; [done|reflexivity|vm_compute; reflexivity].
Ltac stored_here := first
  [ apply stores_int; [option_here|reflexivity..]
  | apply stores_float; [option_here|reflexivity..]
  | apply stores_fixed; [option_here|reflexivity..]
  | apply stores_text; [option_here|reflexivity..|first [reflexivity|done|by apply object_value]]
  | split_and!; [option_here|reflexivity|split; [done|reflexivity]|vm_compute; reflexivity]
  | split_and!; [option_here|reflexivity|reflexivity] ].
Ltac all_stored := repeat first [apply stores_cons; [stored_here|] | constructor].

Section Contract.
Context (url : option string).
Abbreviation P := (LoadgenArgs.parser_of url).

(** The namespace the stored values leave *)
Definition left_by (avs : list (argument * value)) : namespace :=
  foldl (fun d av => put d (dest av.1) av.2) (defaults P) avs.

Lemma args_written argv items avs spec text meta out producer_only :
  argv = command_line items -> stores P items avs ->
  LoadgenArgs.spec_of_args (left_by avs) = Ok spec ->
  bool_attr (left_by avs) "producer_only" = Ok producer_only ->
  producer_only = false \/ Loadgen.run_id spec <> "" ->
  text_attr (left_by avs) "meta" = Ok text -> json_loads text = Ok meta ->
  text_attr (left_by avs) "out" = Ok out ->
  LoadgenArgs._args url argv = Ok (spec, meta, out, producer_only).
Proof.
  intros -> Ha Hs Hp Hr Ht Hm Ho. unfold LoadgenArgs._args, parsed.
  rewrite (parse_printed P items avs Ha) by reflexivity. fold (left_by avs). cbn [and_then].
  rewrite Hs, Hp. cbn [thrown and_then].
  replace (producer_only && bool_decide (Loadgen.run_id spec = "")) with false.
  - rewrite Ht. cbn [and_then]. rewrite Hm, Ho. done.
  - destruct Hr as [->|Hr]; [done|]. rewrite bool_decide_false, andb_false_r by done. done.
Qed.

Lemma labels_read l : unique_keys (JObj l) = true ->
  json_loads (dumps_spaced (JObj l)) = Ok (JObj l) /\ json_loads (dumps (JObj l)) = Ok (JObj l).
Proof. intros Hl. unfold json_loads. by rewrite loads_dumps_spaced, loads_dumps_eq. Qed.

Definition local_items (w : Z) (meta : json) : list word :=
  [Given "--expect-workers" (str_of_Z w); Given "--meta" (dumps_spaced meta)].
Definition timing_items (a : LocalBench.Args) : list word :=
  [Given "--warmup" (str_of_Z (LocalBench.a_warmup a));
   Given "--measure" (str_of_Z (LocalBench.a_measure a));
   Given "--cooldown" (str_of_Z (LocalBench.a_cooldown a));
   Given "--processes" (str_of_Z (LocalBench.a_processes a));
   Given "--payload-bytes" (str_of_Z (LocalBench.a_payload_bytes a))].

(** What a local point asks for: the rest are the load generator's own defaults. *)
Definition local_spec (a : LocalBench.Args) (p : LocalBench.Point) (rate : Q) (max_depth : Z)
    (mode : string) (high low : Z) : Loadgen.LoadSpec :=
  Loadgen.mk_LoadSpec (default "redis://localhost:6379/0" url) "bench" "workers" rate
    (LocalBench.a_warmup a) (LocalBench.a_measure a) (LocalBench.a_cooldown a)
    (LocalBench.a_processes a) 500 10 "send_email" [] (LocalBench.a_payload_bytes a) max_depth
    mode high low 5 (LocalBench.workers p) 300 1 "" 120.

(** What each kind of point asks for *)
Inductive asks (a : LocalBench.Args) : LocalBench.Point -> Loadgen.LoadSpec -> Prop :=
  | Saturating p : LocalBench.loadgen_args p = LocalBench._saturate a ->
      asks a p (local_spec a p 0 (LocalBench.a_max_depth a) "reject" 1000000 800000)
  | AtLoad cap f : let p := LocalBench.latency_point a cap f in
      asks a p (local_spec a p (written_rate (cap * f)) 0 "reject" 1000000 800000)
  | Overloaded cap mode : mode = "reject" \/ mode = "block" ->
      let p := LocalBench.backpressure_point a cap mode in
      asks a p (local_spec a p (written_rate (cap * LocalBench.a_overload a)) 0 mode
                  (LocalBench.a_high a) (LocalBench.a_low a)).

Lemma asked_for a p spec labels : unique_keys (JObj labels) = true -> asks a p spec ->
  LoadgenArgs._args url (LocalBench.loadgen_argv p (JObj labels)) =
    Ok (spec, JObj labels, "-", false).
Proof.
  intros Hl Ha. destruct (labels_read labels Hl) as [Hm _].
  assert (Hw : forall items avs, LocalBench.loadgen_args p = command_line (timing_items a ++ items) ->
    stores P (local_items (LocalBench.workers p) (JObj labels) ++ timing_items a ++ items) avs ->
    LoadgenArgs.spec_of_args (left_by avs) = Ok spec ->
    bool_attr (left_by avs) "producer_only" = Ok false ->
    text_attr (left_by avs) "meta" = Ok (dumps_spaced (JObj labels)) ->
    text_attr (left_by avs) "out" = Ok "-" ->
    LoadgenArgs._args url (LocalBench.loadgen_argv p (JObj labels)) =
      Ok (spec, JObj labels, "-", false)).
  { intros items avs Hp Hs H1 H2 H3 H4. eapply args_written; [|exact Hs|exact H1|exact H2| |exact H3| |].
    - unfold LocalBench.loadgen_argv. by rewrite Hp.
    - by left.
    - exact Hm.
    - exact H4. }
  destruct Ha as [p Hp|cap f p|cap mode Hmode p].
  - eapply (Hw [Given "--rate" "0"; Given "--max-depth" (str_of_Z (LocalBench.a_max_depth a));
      Given "--batch" "500"]); [exact Hp|cbn [local_items timing_items app]; all_stored|reflexivity..].
  - eapply (Hw [Given "--rate" (fixed 0 (cap * f))]); 
      [done|cbn [local_items timing_items app]; all_stored|reflexivity..].
  - destruct Hmode as [-> | ->];
      (eapply (Hw [Given "--rate" (fixed 0 (cap * LocalBench.a_overload a)); Given "--backpressure" _;
        Given "--high-watermark" (str_of_Z (LocalBench.a_high a));
        Given "--low-watermark" (str_of_Z (LocalBench.a_low a))]);
       [done|cbn [local_items timing_items app]; all_stored|reflexivity..]).
Qed.

Lemma any_wp {C V A} (spec : forall X, C X -> V -> result stop X -> V -> Prop) (p : prog C stop A) v :
  wp spec p v (fun _ _ => True).
Proof. by apply runs_wp. Qed.
Lemma points_asked RESULTS a tr :
  wp LocalRuns.watching (LocalBench.points RESULTS a) tr (fun r _ =>
    match r with Ok todo => Forall (fun p => exists spec, asks a p spec) todo | Err _ => True end).
Proof.
  assert (Hs : forall p, LocalBench.loadgen_args p = LocalBench._saturate a ->
    exists spec, asks a p spec) by (intros p Hp; eexists; by apply Saturating).
  unfold LocalBench.points. repeat case_decide.
  - apply wp_ret, Forall_bind, Forall_forall. intros r _. apply Forall_bind, Forall_forall. intros c _.
    constructor; [by apply Hs|constructor].
  - apply wp_ret, Forall_fmap, Forall_forall. intros r _. by apply Hs.
  - apply wp_ret, Forall_bind, Forall_forall. intros r _. apply Forall_bind, Forall_forall. intros w _.
    constructor; [by apply Hs|constructor].
  - apply wp_bind. eapply wp_mono; [apply any_wp|]. intros [cap|] v _; [|done].
    apply wp_ret, Forall_fmap, Forall_forall. intros f _. eexists. apply AtLoad.
  - apply wp_bind. eapply wp_mono; [apply any_wp|]. intros [cap|] v _; [|done].
    apply wp_ret. repeat constructor; eexists; apply Overloaded; tauto.
  - apply wp_bind. eapply wp_mono; [apply any_wp|]. by intros [cap|] v _.
Qed.

(** What a local suite asks of the load generator is what it understands. Whatever the
    saved rates say, the arguments that the driver writes for a point of any suite parse
    without an error, to the run that the suite means: the fleet, the times, the processes and
    the payload of the command line; back-to-back with the saturation depth in the saturating
    suites; the rounded share of the capacity in the latency suite; the overload with its
    mode and watermarks in the backpressure suite; the labels of the report, which goes to the
    standard output; and the load generator's defaults otherwise. *)
Theorem local_points_understood (RESULTS : string) (a : LocalBench.Args)
    (tr tr' : list LocalRuns.seen) (todo : list LocalBench.Point) (p : LocalBench.Point)
    (labels : list (string * json)) :
  runs LocalRuns.watching (LocalBench.points RESULTS a) tr (Ok todo) tr' -> p ∈ todo ->
  unique_keys (JObj labels) = true ->
  exists spec, asks a p spec /\
    LoadgenArgs._args url (LocalBench.loadgen_argv p (JObj labels)) =
      Ok (spec, JObj labels, "-", false).
Proof.
  intros Hr Hp Hl.
  pose proof (wp_runs _ _ _ _ _ _ (points_asked RESULTS a tr) Hr) as Ht. cbn in Ht.
  rewrite Forall_forall in Ht. destruct (Ht p Hp) as [spec Hs]. exists spec. split; [done|].
  by eapply asked_for.
Qed.

(** *** A session on AWS *)
Definition session_spec (s : Session.SessionSpec) (p : Session.BenchPoint) (run_id : string)
    (rate : option Q) (max_depth : Z) (mode : string) (high low : Z) : Loadgen.LoadSpec :=
  Loadgen.mk_LoadSpec (default "redis://localhost:6379/0" url) "bench" "workers"
    (match rate with Some r => inject_Z (Tables.round r) | None => 0%Q end)
    (Session.warmup p) (Session.measure p) (Session.cooldown p) (Session.processes s) 500 10
    "send_email" [] 100 max_depth mode high low 5 (Session.workers p) 600 2 run_id 180.
Inductive session_asks (s : Session.SessionSpec) (run_id : string) (rate : option Q) :
    Session.BenchPoint -> Loadgen.LoadSpec -> Prop :=
  | SessionSaturating p :
      Session.args p = ["--processes"; str_of_Z (Session.processes s); "--rate"; "0";
        "--max-depth"; str_of_Z Session.MAX_DEPTH; "--batch"; "500"] ->
      session_asks s run_id rate p
        (session_spec s p run_id rate Session.MAX_DEPTH "reject" 1000000 800000)
  | SessionOverloaded p mode : mode = "reject" \/ mode = "block" ->
      Session.args p = ["--processes"; str_of_Z (Session.processes s); "--backpressure"; mode;
        "--high-watermark"; str_of_Z (Session.high_watermark s);
        "--low-watermark"; str_of_Z (Session.low_watermark s)] ->
      session_asks s run_id rate p
        (session_spec s p run_id rate 0 mode (Session.high_watermark s) (Session.low_watermark s)).

Lemma session_points_asked s run_id rate p : p ∈ Session.session_points s ->
  exists spec, session_asks s run_id rate p spec.
Proof.
  unfold Session.session_points. rewrite !elem_of_app. intros [Hp|[Hp|Hp]]; case_bool_decide;
    try by apply not_elem_of_nil in Hp.
  - apply list_elem_of_fmap in Hp as (w & -> & _). eexists. by apply SessionSaturating.
  - apply list_elem_of_fmap in Hp as (r & -> & _). eexists. by apply SessionSaturating.
  - apply list_elem_of_fmap in Hp as (mode & -> & Hm). eexists. apply SessionOverloaded; [|done].
    set_solver.
Qed.

Definition session_items (p : Session.BenchPoint) (run_id : string) : list word :=
  [Given "--queue" "bench"; Given "--hosts" "2"; Given "--run-id" run_id;
   Given "--expect-workers" (str_of_Z (Session.workers p));
   Given "--warmup" (str_of_Z (Session.warmup p)); Given "--measure" (str_of_Z (Session.measure p));
   Given "--cooldown" (str_of_Z (Session.cooldown p));
   Given "--drain-timeout" "600"; Given "--host-timeout" "180"].
Definition rate_items (rate : option Q) : list word :=
  match rate with Some r => [Given "--rate" (str_of_Z (Tables.round r))] | None => [] end.
Definition report_items (labels : list (string * json)) : list word :=
  [Given "--meta" (dumps (JObj labels)); Given "--out" "/tmp/report.json"].

Lemma session_asked s run_id rate p spec labels : session_asks s run_id rate p spec ->
  starts_with run_id "-" = false -> unique_keys (JObj labels) = true ->
  LoadgenArgs._args url (Session.coordinator_argv p run_id (JObj labels) rate) =
    Ok (spec, JObj labels, "/tmp/report.json", false).
Proof.
  intros Ha Hrun Hl. destruct (labels_read labels Hl) as [_ Hm].
  assert (Hw : forall items avs, Session.args p = command_line items ->
    stores P (session_items p run_id ++ items ++ rate_items rate ++ report_items labels) avs ->
    LoadgenArgs.spec_of_args (left_by avs) = Ok spec ->
    bool_attr (left_by avs) "producer_only" = Ok false ->
    text_attr (left_by avs) "meta" = Ok (dumps (JObj labels)) ->
    text_attr (left_by avs) "out" = Ok "/tmp/report.json" ->
    LoadgenArgs._args url (Session.coordinator_argv p run_id (JObj labels) rate) =
      Ok (spec, JObj labels, "/tmp/report.json", false)).
  { intros items avs Hp Hs H1 H2 H3 H4. eapply args_written; [|exact Hs|exact H1|exact H2| |exact H3| |].
    - unfold Session.coordinator_argv. rewrite Hp. unfold command_line.
      rewrite !bind_app. by destruct rate.
    - by left.
    - exact Hm.
    - exact H4. }
  destruct Ha as [p Hp|p mode Hmode Hp].
  - destruct rate as [r|];
      (eapply (Hw [Given "--processes" (str_of_Z (Session.processes s)); Given "--rate" "0";
                   Given "--max-depth" (str_of_Z Session.MAX_DEPTH); Given "--batch" "500"]);
       [exact Hp|cbn [session_items rate_items report_items app]; all_stored|reflexivity..]).
  - destruct Hmode as [-> | ->], rate as [r|];
      (eapply (Hw [Given "--processes" (str_of_Z (Session.processes s)); Given "--backpressure" _;
                   Given "--high-watermark" (str_of_Z (Session.high_watermark s));
                   Given "--low-watermark" (str_of_Z (Session.low_watermark s))]);
       [exact Hp|cbn [session_items rate_items report_items app]; all_stored|reflexivity..]).
Qed.

Definition producer_items (run_id : string) : list word :=
  [Given "--queue" "bench"; On "--producer-only"; Given "--run-id" run_id;
   Given "--host-timeout" "300"].
(** The extra producer host: everything else comes from the coordinator's published spec. *)
Definition producer_spec (run_id : string) : Loadgen.LoadSpec :=
  Loadgen.mk_LoadSpec (default "redis://localhost:6379/0" url) "bench" "workers" 0 10 30 5 2 500 10
    "send_email" [] 100 0 "reject" 1000000 800000 5 0 300 1 run_id 300.

(** C39: what a session's containers are told is what they understand. For every point of a
    session, whatever rate was measured before, the coordinator's command line parses without
    an error to the run that the session means: two hosts under the run's id, the point's
    fleet and times, saturation with the fixed depth or the rounded rate with the mode and its
    watermarks, its labels, and the report to the file that is dumped afterwards; and the other
    host's command line makes it an extra producer of the same queue and the same run. *)
Theorem session_understood (s : Session.SessionSpec) (p : Session.BenchPoint) (run_id : string)
    (rate : option Q) (labels : list (string * json)) :
  p ∈ Session.session_points s -> run_id <> "" -> starts_with run_id "-" = false ->
  unique_keys (JObj labels) = true ->
  (exists spec, session_asks s run_id rate p spec /\
     LoadgenArgs._args url (Session.coordinator_argv p run_id (JObj labels) rate) =
       Ok (spec, JObj labels, "/tmp/report.json", false)) /\
  LoadgenArgs._args url (Session.producer_argv run_id) =
    Ok (producer_spec run_id, JObj [], "-", true).
Proof.
  intros Hp Hne Hrun Hl. split.
  - destruct (session_points_asked s run_id rate p Hp) as [spec Hs]. exists spec.
    split; [done|by eapply session_asked].
  - eapply (args_written _ (producer_items run_id));
      [done|unfold producer_items; all_stored|reflexivity|reflexivity|by right|reflexivity..].
Qed.

(** *** Nothing but an exit or a refused JSON text *)
Definition kept (r : reading) (v : value) : bool :=
  match r, v with AsText, VText _ | AsInt, VInt _ | AsFloat, VFloat _ => true | _, _ => false end.
Definition has_reading (r : reading) (a : argument) : bool :=
  kept r (initial a) &&
  match takes a, reads_as a, r with
  | One, AsText, AsText | One, AsInt, AsInt | One, AsFloat, AsFloat => true
  | _, _, _ => false
  end.
(** Whatever is stored under [d] is read as [r]. *)
Definition reads (d : string) (r : reading) : bool :=
  bool_decide (d ∈ dest <$> arguments P) &&
  forallb (fun a => negb (bool_decide (dest a = d)) || has_reading r a) (arguments P).

Section Namespace.
Context (ns : namespace) (Hns : typed P ns).
Lemma typed_get d : d ∈ dest <$> arguments P ->
  exists a, a ∈ arguments P /\ dest a = d /\ argument_ok a (get ns d VNone).
Proof using Hns.
  destruct Hns as [Hk He]. intros Hd. destruct (loadgen_well_formed url) as [Hn _].
  rewrite <- Hk in Hd, Hn. apply list_elem_of_fmap in Hd as ([d' v] & -> & Hv). cbn.
  destruct (He _ _ Hv) as (a & Ha & Hda & Hok). exists a. split_and!; [done..|].
  by rewrite (get_in _ _ v) by done.
Qed.
Lemma kept_here d r : reads d r = true -> kept r (get ns d VNone) = true.
Proof using Hns.
  intros [Hd Hr]%andb_prop. apply bool_decide_eq_true in Hd.
  destruct (typed_get d Hd) as (a & Ha & Hda & Hok). rewrite forallb_forall in Hr.
  apply list_elem_of_In in Ha. specialize (Hr a Ha). rewrite bool_decide_true in Hr by done.
  apply andb_prop in Hr as [Hi Hr]. destruct Hok as [-> | Hok]; [done|]. unfold value_ok in Hok.
  by destruct (takes a), (reads_as a), r, (get ns d VNone).
Qed.
Lemma text_here d : reads d AsText = true -> exists s, text_attr ns d = Ok s.
Proof using Hns. intros Hd%kept_here. unfold text_attr. destruct (get _ _ _); try done. by eexists. Qed.
Lemma int_here d : reads d AsInt = true -> exists n, int_attr ns d = Ok n.
Proof using Hns. intros Hd%kept_here. unfold int_attr. destruct (get _ _ _); try done. by eexists. Qed.
Lemma float_here d : reads d AsFloat = true -> exists q, float_attr ns d = Ok q.
Proof using Hns. intros Hd%kept_here. unfold float_attr. destruct (get _ _ _); try done. by eexists. Qed.
Lemma mode_here s : text_attr ns "backpressure" = Ok s -> s = "reject" \/ s = "block".
Proof using Hns.
  destruct (typed_get "backpressure") as (a & Ha & Hda & Hok); [by apply (bool_decide_unpack _)|].
  assert (Hm : Forall (fun a => dest a = "backpressure" ->
    a = choice_of "--backpressure" ["reject"; "block"] "reject") (arguments P)).
  { repeat constructor; intros He; try discriminate He; done. }
  rewrite Forall_forall in Hm. rewrite (Hm a Ha Hda) in Hok. unfold text_attr.
  destruct Hok as [-> | Hok]; [intros [= <-]; by left|].
  cbn in Hok. destruct (get ns _ _); try done. destruct Hok as [|Hs]; [done|]. intros [= <-]. set_solver.
Qed.
Lemma flag_here : exists b, bool_attr ns "producer_only" = Ok b.
Proof using Hns.
  destruct (typed_get "producer_only") as (a & Ha & Hda & Hok); [by apply (bool_decide_unpack _)|].
  assert (Hm : Forall (fun a => dest a = "producer_only" -> a = switch_of "--producer-only") (arguments P)).
  { repeat constructor; intros He; try discriminate He; done. }
  rewrite Forall_forall in Hm. rewrite (Hm a Ha Hda) in Hok. unfold bool_attr.
  destruct Hok as [-> | Hok]; [by eexists|]. cbn in Hok. rewrite Hok. by eexists.
Qed.
End Namespace.

(** How a command line may be refused: the help was printed (0), the command line is wrong
    (2), a text is no JSON, the payload is no object. *)
Definition refused (e : stop) : Prop :=
  match e with
  | Exits (inr code) => code = 0 \/ code = 2
  | Throws e => e = JSONDecodeError \/ exists j, Loadgen.members_of j = Err e
  | _ => False
  end.

Ltac read_attr Hns :=
  match goal with
  | |- context [text_attr ?ns ?d] =>
      let H := fresh "H" in destruct (text_here ns Hns d eq_refl) as [? H]; rewrite H
  | |- context [int_attr ?ns ?d] =>
      let H := fresh "H" in destruct (int_here ns Hns d eq_refl) as [? H]; rewrite H
  | |- context [float_attr ?ns ?d] =>
      let H := fresh "H" in destruct (float_here ns Hns d eq_refl) as [? H]; rewrite H
  end.

Lemma spec_read ns : typed P ns ->
  match LoadgenArgs.spec_of_args ns with
  | Ok spec => Loadgen.backpressure spec = "reject" \/ Loadgen.backpressure spec = "block"
  | Err e => refused (Throws e)
  end.
Proof.
  intros Hns. unfold LoadgenArgs.spec_of_args. pose proof (mode_here ns Hns) as Hm.
  repeat read_attr Hns. cbn [and_then].
  unfold json_loads. destruct (loads _) as [j|]; cbn [and_then]; [|cbn; by left].
  destruct (Loadgen.members_of j) as [l|e] eqn:Hj; cbn [and_then]; [|cbn; right; by exists j].
  cbn. eauto.
Qed.

End Contract.

(** *** At concrete points *)
Definition toy_meta : list (string * json) := [("suite", JStr "latency"); ("workers", JInt 8)].
Definition toy_local : LocalBench.Args :=
  LocalBench.mk_Args "scaling" false 50 10 30 5 2 100 20000 [10; 25; 50; 100] [1; 2; 4; 8; 12] 3 1 1 8
    [1 # 10; 1 # 4; 1 # 2; 3 # 4; 9 # 10]%Q (3 # 2) 20000 15000 "point" "adhoc" [].
Lemma local_points_understood_witness :
  exists spec, asks (Some "redis://redis:6379/0") toy_local (LocalBench.scaling_point toy_local 2 4) spec /\
    LoadgenArgs._args (Some "redis://redis:6379/0")
      (LocalBench.loadgen_argv (LocalBench.scaling_point toy_local 2 4) (JObj toy_meta)) =
      Ok (spec, JObj toy_meta, "-", false).
Proof.
  apply (local_points_understood (Some "redis://redis:6379/0") "/results" toy_local [] []
    (r ← LocalBench.repeats toy_local; w ← LocalBench.a_worker_counts toy_local;
     [LocalBench.scaling_point toy_local r w])).
  - done.
  - apply list_elem_of_lookup. by exists 7%nat.
  - reflexivity.
Defined.
Lemma session_understood_witness :
  LoadgenArgs._args None (Session.producer_argv "scaling-w04-1a2b3c4d") =
    Ok (producer_spec None "scaling-w04-1a2b3c4d", JObj [], "-", true) /\
  exists spec, LoadgenArgs._args None
    (Session.coordinator_argv (Session.mk_BenchPoint "backpressure" "w12_block" 12 20 120 5
       ["--processes"; "4"; "--backpressure"; "block"; "--high-watermark"; "200000";
        "--low-watermark"; "150000"] (3 # 2)) "scaling-w04-1a2b3c4d" (JObj toy_meta) (Some (78213 # 2)%Q)) =
    Ok (spec, JObj toy_meta, "/tmp/report.json", false).
Proof.
  destruct (session_understood None Session.default_spec
    (Session.mk_BenchPoint "backpressure" "w12_block" 12 20 120 5
       ["--processes"; "4"; "--backpressure"; "block"; "--high-watermark"; "200000";
        "--low-watermark"; "150000"] (3 # 2)) "scaling-w04-1a2b3c4d" (Some (78213 # 2)%Q) toy_meta)
    as [(spec & _ & Hs) Hp].
  - apply list_elem_of_lookup. by exists 9%nat.
  - done.
  - reflexivity.
  - reflexivity.
  - split; [exact Hp|by exists spec].
Defined.
